(* ===== verification/_CoqProject ===== *)
-Q . S2P
Prelude.v
CStr.v
RequestTypes.v
ParseLine.v
ParseLineRun.v
ParseMethod.v
ParseLineSafety.v
ParseLineFacts.v
ParseLineRoundTrip.v
ParseHeader.v
ParseHeaderFacts.v
ParseHeaderProps.v
ParseHeaderRoundTrip.v
ListHead.v
HashTable.v
HashTableSpec.v
Net.v
Response.v
ResponseProps.v
Memcache.v
Request.v
RequestFacts.v
FirstHeader.v
HostHeader.v
RequestInit.v
RequestInitFacts.v
RequestProps.v
Connections.v
RbTree.v
RbRep.v
RbInsert.v
RbErase.v
RbEraseColor.v
RbProps.v
Sched.v
SchedSearch.v
SchedInv.v
SchedLists.v
SchedOps.v
SchedSteps.v
SchedProps.v
SchedDemo.v
Spinlock.v
SpinlockProps.v
Shm.v
ShmProps.v
Cirbuf.v
CirbufProps.v
Logger.v
LoggerProps.v
Conf.v
Env.v
ProcTitle.v
Event.v
SyscallHook.v
SyscallHookProps.v
HookedNet.v
EventCycle.v
Switch.v
SwitchArm.v
Process.v
System.v
Startup.v
WorkerStart.v
Service.v
