(* ===== verification/Prelude.v ===== *)
(** * cserv: a verification of the web server's core

    cserv is a single-threaded, event-driven HTTP server: a master process starts workers,
    a worker runs coroutines under a scheduler with timers, wrapped socket calls suspend a
    coroutine until epoll reports its descriptor, and each connection is served by the HTTP
    module, which parses the request incrementally and sends one response.  This library
    models the C code function by function and proves what makes the parts correct.

    ** Conventions

    A C function is a Gallina function with the state it changes passed in and out.  [cres]
    is its outcome: a value, undefined behaviour ([Ub]: an access outside an object, a use
    of NULL or of freed memory, signed overflow) or lack of fuel ([Fuel]).  Addresses are
    integers; memory is a finite map, one per kind of cell (bytes, list nodes, hash
    elements, tree nodes), so an unmapped address cannot be used.  Integers that wrap are
    reduced explicitly ([u16], [u32], [size_t], [i32]); signed arithmetic goes through
    [int_arith].  Loops are recursive functions with fuel; the fuel is computed from the
    state (bytes received, nodes mapped, objects pooled, iterations a length allows) and
    every theorem about a loop shows that it is enough.  Code outside the repository
    (malloc, the sockets, an application's handlers) is a parameter, with what is documented
    of it as a hypothesis or a class of laws.

    ** Parts

    - [CStr]: [util/str.h], [util/buffer.h].
    - [RequestTypes]: [http/request.h], field by field.
    - [ParseLine]: [http_parse_request_line] of [http/parse.c], one definition per case.
      [ParseLineRun] turns the pointer loop into a fold over bytes, [ParseMethod] treats the
      method names and the character table, [ParseLineSafety] has the invariant over the 27
      states, [ParseLineFacts] and [ParseLineRoundTrip] the theorems: the parser is total,
      stays inside the buffer, resumes where it stopped, delivers slices of what it consumed
      and inverts the printing of a request line.
    - [ParseHeader]: [http_parse_request_header], with [ParseHeaderFacts],
      [ParseHeaderProps] and [ParseHeaderRoundTrip] in the same order.
    - [ListHead]: [util/list.h], circular lists at the level of pointers.
    - [HashTable], [HashTableSpec]: [util/hashtable.c]; the table refines a finite map, and
      the class [KeyMap] is the part of that which the HTTP module uses.
    - [Memcache]: [util/memcache.c], the ownership of pooled objects over every sequence of
      operations.
    - [Net]: the sockets as the class [Network], and [Streamed] for networks on which what a
      client has still to send is known; a scripted network for concrete runs.
    - [Response], [ResponseProps]: [http/response.c], the tables and the exact bytes sent.
    - [Request], [RequestFacts], [HostHeader], [RequestProps]: the request handler of
      [http/request.c], from the first byte to the response, over any network; the main
      theorem is [request_answered].  [FirstHeader] follows the byte after the request line
      through both parsers: a client whose first header starts with a letter, a digit or a
      hyphen cannot meet the index that the object was left with.  [Connections]: the handler
      with its pool of objects; connections are isolated from each other, and sequences of
      them are served.
    - [RequestInit], [RequestInitFacts]: the start-up of the HTTP module and what it
      establishes for the handler.
    - [RbTree]: [util/rbtree.c] and [util/rbtree.h] with the colour in the parent word.
      [RbRep] relates heaps to trees and has one lemma per primitive, [RbInsert],
      [RbErase] and [RbEraseColor] follow the two rebalancing loops, [RbProps] states the
      contract: an ordered sequence with insertion at a gap, removal, and a first element
      on a path of logarithmic length.
    - [Sched]: [coro/sched.c], every function over the pointer-level lists, the two levels of
      trees and the pool.  [SchedSearch] and [SchedInv] treat the searches and the trees,
      [SchedLists] the lists, [SchedOps] and [SchedSteps] the invariant and each entry point,
      [SchedProps] the contracts and the scheduling cycle as a state machine, [SchedDemo]
      concrete runs.
    - [Spinlock], [SpinlockProps]: [util/spinlock.h], each atomic access one step.  The
      ticket lock refines a lock granted in the order of the requests, and in a fair run
      everybody who waits is served.
    - [Shm], [ShmProps]: [util/shm.c]; allocations that run at the same time under the lock
      give the results of some sequence of allocations.
    - [Cirbuf], [CirbufProps]: [util/cirbuf.h], with one writer and one reader at once.
    - [Logger], [LoggerProps]: [logger.c], from a message to the contents of the file.
    - [Conf]: [util/conf.c].  [Env]: [env.c] and the process-number file of [util/system.c].
      [ProcTitle]: the process title of [util/system.c], with the move of arguments and
      environment to the heap.  [System]: its resource limits, processor binding and
      daemonising, and the installation of the handlers of [signal.c].
    - [Event]: [event.c] over epoll as the class [Epoll].
    - [SyscallHook], [SyscallHookProps]: [syscall_hook.c] and [util/net.h].  [HookedNet]: its
      [recv] and [send] over a kernel are a network, so that the theorems on the request
      handler hold for the calls it really makes ([served_over_hooks]).
    - [EventCycle]: scheduler, event table and wrapped calls together: in every state a worker
      can reach, the table, the kernel and the sleeping coroutines agree, and an event cycle
      wakes only coroutines that sleep ([cycle_safe]).
    - [Switch], [SwitchArm]: the assembly of [coro/switch.c] for both architectures, as lists
      of instructions.
    - [Process]: master and workers of [process.c], the handlers of [signal.c] and the
      commands of [main.c]; signals arrive between any two accesses of the master to what
      a handler uses, and between the parts of the handler for SIGCHLD.
    - [Startup], [WorkerStart]: the start of the server in [main] and of a worker, composed
      of the initialisations of all components.  [Service]: the registration of the HTTP
      module, and a worker from its start to the answers of its clients
      ([http_worker_serves]).

    ** Bounds

    Times: a scheduling cycle and a sleep take less than 2^30 ms ([HORIZON]), because the
    order of the timer tree is the sign of a difference stored in an [int].  Ticket lock: at
    most 2^32 threads, and no compare-and-swap so late that the 32-bit counter has gone
    round ([timely]).  Shared memory: requests of at most 2^63 bytes.  Logging: lines
    shorter than a record.  Configuration: numbers of at most 2^20 for the theorems that
    exclude overflow ([numbers_ok]).  Clients: no ten digits in a row, so that a
    Content-Length fits an [int].  Objects of the pool lie below address 2^63 and hold
    anything, as [http_request_handler] does not set [lowcase_index]; the theorems on
    connections ask that this index happens to be valid, or that the first header of the client
    starts with a letter, a digit or a hyphen ([plain_start]), so that it is not used.  A worker has at
    least four connections.  Epoll: the kernel may refuse a new descriptor, but not a
    change to one that it watches or its removal ([Epoll]).  The results of [send] in
    [http_finalize_request] and of [write] in [log_flush] are parameters that the code does not
    look at: the theorems say what is passed to these calls.  The theorems [trylock_late],
    [shm_alloc_overflow], [log_line_too_long], [few_connections_abort], [lost_worker],
    [stray_signal], [stop_without_workers], [title_too_long], [slot_recycled],
    [parse_header_stale_index], [refused_delete] and [flush_page_unmapped] show what happens
    outside these bounds and in races of the code.

    ** Not modelled

    Printing ([print_env], usage), [get_tm], which only calls [localtime], and the logging
    calls inside other components, which are left out of the functions that make them; those
    of [signal.c], whose handlers are given the state of the log, are part of [Process].
    Connections of one worker interleave at the level of coroutines, events and pool
    ([EventCycle], [Memcache], [Connections]); the HTTP handler itself is one function per
    connection, with the network as its only view of the others. *)

From stdpp Require Import base gmap list numbers strings.
From Stdlib Require Import ZArith Lia.

#[export] Set Default Proof Using "Type".
Open Scope Z_scope.

(** ** Results of C code

    A C computation delivers a value, runs into undefined behaviour (an access
    outside its object, a signed overflow, a use of NULL), or exhausts the fuel
    that stands for the iterations of its loop.  Theorems about the code exclude
    the last two explicitly. *)

Inductive cres (A : Type) : Type :=
| Ok (a : A)
| Ub
| Fuel.

Arguments Ok {A} a.
Arguments Ub {A}.
Arguments Fuel {A}.

Definition cres_bind {A B} (f : A → cres B) (x : cres A) : cres B :=
  match x with
  | Ok a => f a
  | Ub => Ub
  | Fuel => Fuel
  end.

#[export] Instance cres_mret : MRet cres := @Ok.
#[export] Instance cres_mbind : MBind cres := @cres_bind.

Definition of_option {A} (o : option A) : cres A :=
  match o with
  | Some a => Ok a
  | None => Ub
  end.

(** Code that may end the process: [exit] with a status, or a failed [assert]. *)
Inductive proc (A : Type) : Type :=
| Running (a : A)
| Exit (code : Z)
| Aborted.

Arguments Running {A} a.
Arguments Exit {A} code.
Arguments Aborted {A}.

#[export] Instance cres_eq_dec {A} `{EqDecision A} : EqDecision (cres A).
Proof. solve_decision. Defined.

(** ** Machine integers *)

Definition u16 (z : Z) : Z := z mod 2 ^ 16.
Definition u32 (z : Z) : Z := z mod 2 ^ 32.
Definition u64 (z : Z) : Z := z mod 2 ^ 64.
(* size_t of the LP64 targets the program supports *)
Definition size_t (z : Z) : Z := u64 z.
(* conversion of a value to a 32-bit int: two's complement *)
Definition i32 (z : Z) : Z := (z + 2 ^ 31) mod 2 ^ 32 - 2 ^ 31.
Definition is_i32 (z : Z) : bool := (- 2 ^ 31 <=? z) && (z <? 2 ^ 31).
(* signed arithmetic: overflow is undefined behaviour *)
Definition int_arith (z : Z) : cres Z := if is_i32 z then Ok z else Ub.

Lemma u32_id z : 0 ≤ z < 2 ^ 32 → u32 z = z.
Proof. apply Z.mod_small. Qed.
Lemma u32_range z : 0 ≤ u32 z < 2 ^ 32.
Proof. by apply Z.mod_pos_bound. Qed.
Lemma u16_id z : 0 ≤ z < 2 ^ 16 → u16 z = z.
Proof. apply Z.mod_small. Qed.
Lemma u16_range z : 0 ≤ u16 z < 2 ^ 16.
Proof. by apply Z.mod_pos_bound. Qed.
Lemma size_t_id z : 0 ≤ z < 2 ^ 64 → size_t z = z.
Proof. apply Z.mod_small. Qed.
Lemma size_t_range z : 0 ≤ size_t z < 2 ^ 64.
Proof. by apply Z.mod_pos_bound. Qed.
Lemma i32_id z : - 2 ^ 31 ≤ z < 2 ^ 31 → i32 z = z.
Proof. intros ?. unfold i32. rewrite Z.mod_small; lia. Qed.

Lemma int_arith_ok z : - 2 ^ 31 ≤ z < 2 ^ 31 → int_arith z = Ok z.
Proof. intros ?. unfold int_arith, is_i32. by rewrite (proj2 (andb_true_iff _ _)) by lia. Qed.

Lemma int_arith_inv z v : int_arith z = Ok v → v = z ∧ - 2 ^ 31 ≤ z < 2 ^ 31.
Proof. unfold int_arith, is_i32. case_match; [intros [= <-]; lia | done]. Qed.

Lemma int_arith_ub z : ¬ (- 2 ^ 31 ≤ z < 2 ^ 31) → int_arith z = Ub.
Proof.
  intros Hz. unfold int_arith, is_i32.
  destruct ((- 2 ^ 31 <=? z) && (z <? 2 ^ 31)) eqn:E; [lia | done].
Qed.

(** ** Characters and byte strings

    A byte is an integer in [0, 255].  ["x"%c] is the code of a character and
    [str "text"] the bytes of a string literal, without its terminating NUL. *)

Declare Scope c_scope.
Delimit Scope c_scope with c.

Definition parse_char (l : list Byte.byte) : option Z :=
  match l with
  | [b] => Some (Z.of_N (Byte.to_N b))
  | _ => None
  end.
Definition print_char (z : Z) : option (list Byte.byte) := None.
String Notation Z parse_char print_char : c_scope.

Fixpoint str (s : string) : list Z :=
  match s with
  | EmptyString => []
  | String a s => Z.of_N (Ascii.N_of_ascii a) :: str s
  end.

Definition is_byte (z : Z) : Prop := 0 ≤ z < 256.

(** A decidable property of bytes can be checked on all of them. *)
Lemma byte_forall (f : Z → bool) :
  forallb f (seqZ 0 256) = true → ∀ c, is_byte c → f c = true.
Proof.
  intros H c Hc. rewrite forallb_forall in H. apply H, list_elem_of_In, elem_of_seqZ.
  unfold is_byte in Hc. lia.
Qed.

(** ** Memory

    Byte-addressed memory as a finite map: an unmapped address is outside every
    object and reading or writing it is undefined behaviour.  NULL is 0. *)

Definition NULL : Z := 0.

Definition load (m : gmap Z Z) (a : Z) : cres Z := of_option (m !! a).
Definition store (m : gmap Z Z) (a v : Z) : cres (gmap Z Z) :=
  match m !! a with
  | Some _ => Ok (<[a := v]> m)
  | None => Ub
  end.

(** ** Tactics *)

(** Side conditions that recur: ranges, alignment, membership. *)
Create HintDb cserv.
#[export] Hint Resolve u16_range u32_range size_t_range : cserv.

(** Linear arithmetic after turning boolean comparisons into propositions. *)
Ltac bool_to_prop :=
  rewrite ?andb_true_iff, ?andb_false_iff, ?orb_true_iff, ?orb_false_iff,
    ?negb_true_iff, ?negb_false_iff, ?Z.eqb_neq, ?Z.eqb_eq, ?Z.ltb_lt, ?Z.ltb_ge,
    ?Z.leb_le, ?Z.leb_gt in *.
Ltac blia := bool_to_prop; lia.

(** Replaces a closed constant by its value. *)
Ltac compute_const c := let v := eval vm_compute in c in change c with v.

(** Replaces string literals by their bytes. *)
Ltac compute_strs :=
  repeat match goal with |- context [str ?s] => compute_const (str s) end.

(** Unfolds the bind of [cres] on a computed result. *)
Ltac cres_simpl := cbn [mbind cres_mbind cres_bind mret cres_mret of_option] in *.

(** Splits every [NoDup] of a concatenation into facts about membership. *)
Ltac nodup_split :=
  repeat match goal with
  | H : NoDup (_ ++ _) |- _ => apply NoDup_app in H as (? & ? & ?)
  | H : NoDup (_ :: _) |- _ => apply NoDup_cons in H as [? ?]
  end.
