(* ===== verification/CStr.v ===== *)
(** Counted strings and I/O buffers: [src/util/str.h] and [src/util/buffer.h].

    A [str_t] is a pointer and a length into memory owned by someone else, so it
    is a pair of numbers here as well and its bytes are read through the memory.
    [str_atoi] is the decimal reader behind the Content-Length header. *)

From stdpp Require Import base gmap list numbers strings.
From Stdlib Require Import ZArith Lia.
From S2P Require Import Prelude.

Definition CR : Z := 13.
Definition LF : Z := 10.
Definition CRLF : list Z := [CR; LF].

Record str_t : Type := Str { sp : Z; slen : Z }.

#[export] Instance str_t_eq_dec : EqDecision str_t.
Proof. solve_decision. Defined.

Definition NULL_STRING : str_t := Str NULL 0.

(* str_init stores NULL_STRING in its argument *)
Definition str_init : str_t := Str NULL 0.

Definition set_sp (s : str_t) (p : Z) : str_t := Str p (slen s).
Definition set_slen (s : str_t) (n : Z) : str_t := Str (sp s) n.

(** [strcmp] returns 0 exactly on equal strings. *)
Definition str_equal (s t : list Z) : bool := bool_decide (s = t).

Definition is_digit (c : Z) : bool := ("0"%c <=? c) && (c <=? "9"%c).

(* the loop from index [i] with [n] bytes left *)
Fixpoint str_atoi_loop (m : gmap Z Z) (p : Z) (n : nat) (val : Z) : cres Z :=
  match n with
  | O => Ok val
  | S n =>
      c ← load m p;
      if is_digit c then
        v ← int_arith (10 * val);
        v ← int_arith (v + (c - "0"%c));
        str_atoi_loop m (p + 1) n v
      else Ok val
  end.

Definition str_atoi (m : gmap Z Z) (s : str_t) : cres Z :=
  str_atoi_loop m (sp s) (Z.to_nat (slen s)) 0.

(** ** Buffers *)

Record buffer : Type := Buffer {
  b_start : Z;
  b_end : Z;
  b_pos : Z;
  b_last : Z
}.

#[export] Instance buffer_eq_dec : EqDecision buffer.
Proof. solve_decision. Defined.

Definition bind_buffer (buff len : Z) : buffer :=
  Buffer buff (buff + len) buff buff.

Definition set_pos (b : buffer) (p : Z) : buffer :=
  Buffer (b_start b) (b_end b) p (b_last b).
Definition set_last (b : buffer) (p : Z) : buffer :=
  Buffer (b_start b) (b_end b) (b_pos b) p.

(** ** Strings in memory *)

(** [bytes_at m p l]: the bytes [l] are stored from address [p] on. *)
Fixpoint bytes_at (m : gmap Z Z) (p : Z) (l : list Z) : Prop :=
  match l with
  | [] => True
  | c :: l => m !! p = Some c ∧ bytes_at m (p + 1) l
  end.

Definition holds (m : gmap Z Z) (s : str_t) (l : list Z) : Prop :=
  slen s = Z.of_nat (length l) ∧ bytes_at m (sp s) l.

Lemma bytes_at_app m p l1 l2 :
  bytes_at m p (l1 ++ l2) ↔
  bytes_at m p l1 ∧ bytes_at m (p + Z.of_nat (length l1)) l2.
Proof.
  revert p. induction l1 as [|c l1 IH]; intros p; cbn [bytes_at app length].
  - rewrite Z.add_0_r. tauto.
  - rewrite IH, Nat2Z.inj_succ, <-Z.add_1_l, Z.add_assoc. tauto.
Qed.

Lemma bytes_at_lookup m p l i c :
  bytes_at m p l → l !! i = Some c → m !! (p + Z.of_nat i) = Some c.
Proof.
  revert p i. induction l as [|a l IH]; intros p i Hb Hi; [done|].
  destruct Hb as [Ha Hl]. destruct i as [|i]; simplify_eq/=.
  - by rewrite Z.add_0_r.
  - rewrite Nat2Z.inj_succ, <-Z.add_1_l, Z.add_assoc. by apply IH.
Qed.

(** Bytes outside the updated address are untouched. *)
Lemma bytes_at_insert_ne m p l a v :
  (a < p ∨ p + Z.of_nat (length l) ≤ a) →
  bytes_at m p l → bytes_at (<[a := v]> m) p l.
Proof.
  revert p. induction l as [|c l IH]; intros p Ha; cbn [bytes_at length] in *; [done|].
  intros [Hc Hl]. split; [rewrite lookup_insert_ne; [done | lia]|].
  apply IH; [lia | done].
Qed.

(** All addresses of [lo, hi) are mapped. *)
Definition mapped (m : gmap Z Z) (lo hi : Z) : Prop :=
  ∀ a, lo ≤ a < hi → is_Some (m !! a).

(** A memory that holds just the bytes [l] from [p] on. *)
Definition mem_of (p : Z) (l : list Z) : gmap Z Z :=
  list_to_map (zip (seqZ p (Z.of_nat (length l))) l).

Lemma mem_of_lookup p l x : mem_of p l !! x = if decide (p ≤ x < p + Z.of_nat (length l)) then l !! Z.to_nat (x - p) else None.
Proof.
  unfold mem_of. revert p. induction l as [|c l IH]; intros p.
  { case_decide; [cbn in *; lia | done]. }
  cbn [length]. replace (seqZ p (Z.of_nat (S (length l)))) with (p :: seqZ (p + 1) (Z.of_nat (length l))).
  2: { rewrite (seqZ_cons p) by lia. do 2 f_equal; lia. }
  cbn [zip_with list_to_map]. destruct (decide (x = p)) as [->|Hne].
  - cbn. rewrite lookup_insert_eq. rewrite decide_True by lia. by rewrite Z.sub_diag.
  - cbn. rewrite lookup_insert_ne by done. rewrite IH. destruct (decide (p + 1 ≤ x < p + 1 + Z.of_nat (length l))).
    + rewrite decide_True by lia. replace (Z.to_nat (x - p)) with (S (Z.to_nat (x - (p + 1)))) by lia. done.
    + rewrite decide_False by lia. done.
Qed.

(** ** The value read by [str_atoi] *)

(** The longest prefix of digits. *)
Fixpoint digits_prefix (l : list Z) : list Z :=
  match l with
  | c :: l => if is_digit c then c :: digits_prefix l else []
  | [] => []
  end.

(** Decimal value, most significant digit first. *)
Definition dec_step (v c : Z) : Z := 10 * v + (c - "0"%c).
Definition decimal (l : list Z) : Z := fold_left dec_step l 0.

Lemma is_digit_range c : is_digit c = true ↔ 48 ≤ c ≤ 57.
Proof. unfold is_digit. lia. Qed.

Lemma dec_step_mono l v :
  forallb is_digit l = true → 0 ≤ v → v ≤ fold_left dec_step l v.
Proof.
  revert v. induction l as [|c l IH]; intros v Hd Hv; simpl in *; [lia|].
  apply andb_true_iff in Hd as [Hc Hd]. apply is_digit_range in Hc.
  specialize (IH (dec_step v c) Hd). unfold dec_step in *. lia.
Qed.

Lemma digits_prefix_digits l : forallb is_digit (digits_prefix l) = true.
Proof. induction l as [|c l IH]; simpl; [done|]. destruct (is_digit c) eqn:E; simpl; [by rewrite E|done]. Qed.

Lemma str_atoi_loop_spec m p l v :
  bytes_at m p l → 0 ≤ v < 2 ^ 31 →
  str_atoi_loop m p (length l) v =
  if fold_left dec_step (digits_prefix l) v <? 2 ^ 31
  then Ok (fold_left dec_step (digits_prefix l) v) else Ub.
Proof.
  revert p v. induction l as [|c l IH]; intros p v Hb Hv; cbn [str_atoi_loop length digits_prefix].
  - simpl. by rewrite (proj2 (Z.ltb_lt v (2 ^ 31))) by lia.
  - destruct Hb as [Hc Hl]. unfold load. rewrite Hc. cres_simpl.
    destruct (is_digit c) eqn:Ed; [|simpl; by rewrite (proj2 (Z.ltb_lt v (2 ^ 31))) by lia].
    pose proof (proj1 (is_digit_range c) Ed) as Hr.
    cbn [fold_left]. change "0"%c with 48.
    pose proof (dec_step_mono (digits_prefix l) (dec_step v c) (digits_prefix_digits l)) as Hm.
    assert (Hw : 10 * v + (c - 48) = dec_step v c) by done.
    destruct (dec_step v c <? 2 ^ 31) eqn:Ew.
    + rewrite int_arith_ok by lia. cres_simpl.
      rewrite Hw, int_arith_ok by lia. cres_simpl.
      by rewrite IH by (done || lia).
    + rewrite (proj2 (Z.ltb_ge (fold_left _ _ _) (2 ^ 31))) by lia.
      destruct (int_arith (10 * v)) as [w| |] eqn:E1; [|done|by unfold int_arith in E1; case_match].
      apply int_arith_inv in E1 as [-> _]. cres_simpl. rewrite Hw.
      by rewrite int_arith_ub by lia.
Qed.

(** [str_atoi] returns the value of the longest digit prefix, when it fits an
    [int]; a larger value overflows. *)
Lemma str_atoi_spec m s l :
  holds m s l →
  str_atoi m s =
  if decimal (digits_prefix l) <? 2 ^ 31 then Ok (decimal (digits_prefix l)) else Ub.
Proof.
  intros [Hlen Hb]. unfold str_atoi. rewrite Hlen, Nat2Z.id.
  by rewrite str_atoi_loop_spec by (done || lia).
Qed.
