(* ===== verification/RequestTypes.v ===== *)
(** The request object: [src/http/request.h].

    [http_request] has the fields of [struct http_request] in their order; a
    setter per field stands for the assignment to it.  Pointers are addresses
    into the request's read buffer. *)

From stdpp Require Import base gmap list numbers strings.
From Stdlib Require Import ZArith Lia.
From S2P Require Import Prelude CStr.

Inductive http_method : Type :=
| HTTP_UNKNOWN
| HTTP_GET
| HTTP_HEAD
| HTTP_POST
| HTTP_PUT
| HTTP_DELETE
| HTTP_MKCOL
| HTTP_COPY
| HTTP_MOVE
| HTTP_OPTIONS
| HTTP_PROPFIND
| HTTP_PROPPATCH
| HTTP_LOCK
| HTTP_UNLOCK
| HTTP_PATCH
| HTTP_TRACE.

#[export] Instance http_method_eq_dec : EqDecision http_method.
Proof. solve_decision. Defined.

(* the enumerators are distinct bits *)
Definition method_bits (m : http_method) : Z :=
  match m with
  | HTTP_UNKNOWN => 0x0001
  | HTTP_GET => 0x0002
  | HTTP_HEAD => 0x0004
  | HTTP_POST => 0x0008
  | HTTP_PUT => 0x0010
  | HTTP_DELETE => 0x0020
  | HTTP_MKCOL => 0x0040
  | HTTP_COPY => 0x0080
  | HTTP_MOVE => 0x0100
  | HTTP_OPTIONS => 0x0200
  | HTTP_PROPFIND => 0x0400
  | HTTP_PROPPATCH => 0x0800
  | HTTP_LOCK => 0x1000
  | HTTP_UNLOCK => 0x2000
  | HTTP_PATCH => 0x4000
  | HTTP_TRACE => 0x8000
  end.

Definition HTTP_VER_10 : Z := 1000.
Definition HTTP_LC_HEADER_LEN : Z := 32.

Record http_request : Type := Request {
  fd : Z;
  header : buffer (* the read buffer, bound to the tail of the allocation *);
  state : Z (* state machine of the parser that is running *);
  request_line : str_t;
  method_name : str_t;
  method : http_method;
  schema : str_t;
  host : str_t;
  port : str_t;
  uri : str_t;
  args : Z (* pointer *);
  exten : str_t;
  http_protocol : str_t;
  http_major : Z (* 16-bit field *);
  http_minor : Z (* 16-bit field *);
  http_version : Z;
  complex_uri : Z (* 1-bit field *);
  quoted_uri : Z (* 1-bit field *);
  plus_in_uri : Z (* 1-bit field *);
  space_in_uri : Z (* 1-bit field *);
  content_len : Z;
  content : str_t;
  header_name : str_t;
  header_value : str_t;
  invalid_header : Z (* 0 means valid *);
  header_hash : Z (* unsigned *);
  lowcase_index : Z (* unsigned *);
  lowcase_header : list Z (* array of HTTP_LC_HEADER_LEN bytes *)
}.

Definition set_fd (r : http_request) (v : Z) : http_request :=
  Request v (header r) (state r) (request_line r) (method_name r) (method r)
    (schema r) (host r) (port r) (uri r) (args r) (exten r) (http_protocol
    r) (http_major r) (http_minor r) (http_version r) (complex_uri r)
    (quoted_uri r) (plus_in_uri r) (space_in_uri r) (content_len r) (content
    r) (header_name r) (header_value r) (invalid_header r) (header_hash r)
    (lowcase_index r) (lowcase_header r).
Definition set_header (r : http_request) (v : buffer) : http_request :=
  Request (fd r) v (state r) (request_line r) (method_name r) (method r)
    (schema r) (host r) (port r) (uri r) (args r) (exten r) (http_protocol
    r) (http_major r) (http_minor r) (http_version r) (complex_uri r)
    (quoted_uri r) (plus_in_uri r) (space_in_uri r) (content_len r) (content
    r) (header_name r) (header_value r) (invalid_header r) (header_hash r)
    (lowcase_index r) (lowcase_header r).
Definition set_state (r : http_request) (v : Z) : http_request :=
  Request (fd r) (header r) v (request_line r) (method_name r) (method r)
    (schema r) (host r) (port r) (uri r) (args r) (exten r) (http_protocol
    r) (http_major r) (http_minor r) (http_version r) (complex_uri r)
    (quoted_uri r) (plus_in_uri r) (space_in_uri r) (content_len r) (content
    r) (header_name r) (header_value r) (invalid_header r) (header_hash r)
    (lowcase_index r) (lowcase_header r).
Definition set_request_line (r : http_request) (v : str_t) : http_request :=
  Request (fd r) (header r) (state r) v (method_name r) (method r) (schema
    r) (host r) (port r) (uri r) (args r) (exten r) (http_protocol r)
    (http_major r) (http_minor r) (http_version r) (complex_uri r)
    (quoted_uri r) (plus_in_uri r) (space_in_uri r) (content_len r) (content
    r) (header_name r) (header_value r) (invalid_header r) (header_hash r)
    (lowcase_index r) (lowcase_header r).
Definition set_method_name (r : http_request) (v : str_t) : http_request :=
  Request (fd r) (header r) (state r) (request_line r) v (method r) (schema
    r) (host r) (port r) (uri r) (args r) (exten r) (http_protocol r)
    (http_major r) (http_minor r) (http_version r) (complex_uri r)
    (quoted_uri r) (plus_in_uri r) (space_in_uri r) (content_len r) (content
    r) (header_name r) (header_value r) (invalid_header r) (header_hash r)
    (lowcase_index r) (lowcase_header r).
Definition set_method (r : http_request) (v : http_method) : http_request :=
  Request (fd r) (header r) (state r) (request_line r) (method_name r) v
    (schema r) (host r) (port r) (uri r) (args r) (exten r) (http_protocol
    r) (http_major r) (http_minor r) (http_version r) (complex_uri r)
    (quoted_uri r) (plus_in_uri r) (space_in_uri r) (content_len r) (content
    r) (header_name r) (header_value r) (invalid_header r) (header_hash r)
    (lowcase_index r) (lowcase_header r).
Definition set_schema (r : http_request) (v : str_t) : http_request :=
  Request (fd r) (header r) (state r) (request_line r) (method_name r)
    (method r) v (host r) (port r) (uri r) (args r) (exten r) (http_protocol
    r) (http_major r) (http_minor r) (http_version r) (complex_uri r)
    (quoted_uri r) (plus_in_uri r) (space_in_uri r) (content_len r) (content
    r) (header_name r) (header_value r) (invalid_header r) (header_hash r)
    (lowcase_index r) (lowcase_header r).
Definition set_host (r : http_request) (v : str_t) : http_request :=
  Request (fd r) (header r) (state r) (request_line r) (method_name r)
    (method r) (schema r) v (port r) (uri r) (args r) (exten r)
    (http_protocol r) (http_major r) (http_minor r) (http_version r)
    (complex_uri r) (quoted_uri r) (plus_in_uri r) (space_in_uri r)
    (content_len r) (content r) (header_name r) (header_value r)
    (invalid_header r) (header_hash r) (lowcase_index r) (lowcase_header r).
Definition set_port (r : http_request) (v : str_t) : http_request :=
  Request (fd r) (header r) (state r) (request_line r) (method_name r)
    (method r) (schema r) (host r) v (uri r) (args r) (exten r)
    (http_protocol r) (http_major r) (http_minor r) (http_version r)
    (complex_uri r) (quoted_uri r) (plus_in_uri r) (space_in_uri r)
    (content_len r) (content r) (header_name r) (header_value r)
    (invalid_header r) (header_hash r) (lowcase_index r) (lowcase_header r).
Definition set_uri (r : http_request) (v : str_t) : http_request :=
  Request (fd r) (header r) (state r) (request_line r) (method_name r)
    (method r) (schema r) (host r) (port r) v (args r) (exten r)
    (http_protocol r) (http_major r) (http_minor r) (http_version r)
    (complex_uri r) (quoted_uri r) (plus_in_uri r) (space_in_uri r)
    (content_len r) (content r) (header_name r) (header_value r)
    (invalid_header r) (header_hash r) (lowcase_index r) (lowcase_header r).
Definition set_args (r : http_request) (v : Z) : http_request :=
  Request (fd r) (header r) (state r) (request_line r) (method_name r)
    (method r) (schema r) (host r) (port r) (uri r) v (exten r)
    (http_protocol r) (http_major r) (http_minor r) (http_version r)
    (complex_uri r) (quoted_uri r) (plus_in_uri r) (space_in_uri r)
    (content_len r) (content r) (header_name r) (header_value r)
    (invalid_header r) (header_hash r) (lowcase_index r) (lowcase_header r).
Definition set_exten (r : http_request) (v : str_t) : http_request :=
  Request (fd r) (header r) (state r) (request_line r) (method_name r)
    (method r) (schema r) (host r) (port r) (uri r) (args r) v
    (http_protocol r) (http_major r) (http_minor r) (http_version r)
    (complex_uri r) (quoted_uri r) (plus_in_uri r) (space_in_uri r)
    (content_len r) (content r) (header_name r) (header_value r)
    (invalid_header r) (header_hash r) (lowcase_index r) (lowcase_header r).
Definition set_http_protocol (r : http_request) (v : str_t) : http_request :=
  Request (fd r) (header r) (state r) (request_line r) (method_name r)
    (method r) (schema r) (host r) (port r) (uri r) (args r) (exten r) v
    (http_major r) (http_minor r) (http_version r) (complex_uri r)
    (quoted_uri r) (plus_in_uri r) (space_in_uri r) (content_len r) (content
    r) (header_name r) (header_value r) (invalid_header r) (header_hash r)
    (lowcase_index r) (lowcase_header r).
Definition set_http_major (r : http_request) (v : Z) : http_request :=
  Request (fd r) (header r) (state r) (request_line r) (method_name r)
    (method r) (schema r) (host r) (port r) (uri r) (args r) (exten r)
    (http_protocol r) v (http_minor r) (http_version r) (complex_uri r)
    (quoted_uri r) (plus_in_uri r) (space_in_uri r) (content_len r) (content
    r) (header_name r) (header_value r) (invalid_header r) (header_hash r)
    (lowcase_index r) (lowcase_header r).
Definition set_http_minor (r : http_request) (v : Z) : http_request :=
  Request (fd r) (header r) (state r) (request_line r) (method_name r)
    (method r) (schema r) (host r) (port r) (uri r) (args r) (exten r)
    (http_protocol r) (http_major r) v (http_version r) (complex_uri r)
    (quoted_uri r) (plus_in_uri r) (space_in_uri r) (content_len r) (content
    r) (header_name r) (header_value r) (invalid_header r) (header_hash r)
    (lowcase_index r) (lowcase_header r).
Definition set_http_version (r : http_request) (v : Z) : http_request :=
  Request (fd r) (header r) (state r) (request_line r) (method_name r)
    (method r) (schema r) (host r) (port r) (uri r) (args r) (exten r)
    (http_protocol r) (http_major r) (http_minor r) v (complex_uri r)
    (quoted_uri r) (plus_in_uri r) (space_in_uri r) (content_len r) (content
    r) (header_name r) (header_value r) (invalid_header r) (header_hash r)
    (lowcase_index r) (lowcase_header r).
Definition set_complex_uri (r : http_request) (v : Z) : http_request :=
  Request (fd r) (header r) (state r) (request_line r) (method_name r)
    (method r) (schema r) (host r) (port r) (uri r) (args r) (exten r)
    (http_protocol r) (http_major r) (http_minor r) (http_version r) v
    (quoted_uri r) (plus_in_uri r) (space_in_uri r) (content_len r) (content
    r) (header_name r) (header_value r) (invalid_header r) (header_hash r)
    (lowcase_index r) (lowcase_header r).
Definition set_quoted_uri (r : http_request) (v : Z) : http_request :=
  Request (fd r) (header r) (state r) (request_line r) (method_name r)
    (method r) (schema r) (host r) (port r) (uri r) (args r) (exten r)
    (http_protocol r) (http_major r) (http_minor r) (http_version r)
    (complex_uri r) v (plus_in_uri r) (space_in_uri r) (content_len r)
    (content r) (header_name r) (header_value r) (invalid_header r)
    (header_hash r) (lowcase_index r) (lowcase_header r).
Definition set_plus_in_uri (r : http_request) (v : Z) : http_request :=
  Request (fd r) (header r) (state r) (request_line r) (method_name r)
    (method r) (schema r) (host r) (port r) (uri r) (args r) (exten r)
    (http_protocol r) (http_major r) (http_minor r) (http_version r)
    (complex_uri r) (quoted_uri r) v (space_in_uri r) (content_len r)
    (content r) (header_name r) (header_value r) (invalid_header r)
    (header_hash r) (lowcase_index r) (lowcase_header r).
Definition set_space_in_uri (r : http_request) (v : Z) : http_request :=
  Request (fd r) (header r) (state r) (request_line r) (method_name r)
    (method r) (schema r) (host r) (port r) (uri r) (args r) (exten r)
    (http_protocol r) (http_major r) (http_minor r) (http_version r)
    (complex_uri r) (quoted_uri r) (plus_in_uri r) v (content_len r)
    (content r) (header_name r) (header_value r) (invalid_header r)
    (header_hash r) (lowcase_index r) (lowcase_header r).
Definition set_content_len (r : http_request) (v : Z) : http_request :=
  Request (fd r) (header r) (state r) (request_line r) (method_name r)
    (method r) (schema r) (host r) (port r) (uri r) (args r) (exten r)
    (http_protocol r) (http_major r) (http_minor r) (http_version r)
    (complex_uri r) (quoted_uri r) (plus_in_uri r) (space_in_uri r) v
    (content r) (header_name r) (header_value r) (invalid_header r)
    (header_hash r) (lowcase_index r) (lowcase_header r).
Definition set_content (r : http_request) (v : str_t) : http_request :=
  Request (fd r) (header r) (state r) (request_line r) (method_name r)
    (method r) (schema r) (host r) (port r) (uri r) (args r) (exten r)
    (http_protocol r) (http_major r) (http_minor r) (http_version r)
    (complex_uri r) (quoted_uri r) (plus_in_uri r) (space_in_uri r)
    (content_len r) v (header_name r) (header_value r) (invalid_header r)
    (header_hash r) (lowcase_index r) (lowcase_header r).
Definition set_header_name (r : http_request) (v : str_t) : http_request :=
  Request (fd r) (header r) (state r) (request_line r) (method_name r)
    (method r) (schema r) (host r) (port r) (uri r) (args r) (exten r)
    (http_protocol r) (http_major r) (http_minor r) (http_version r)
    (complex_uri r) (quoted_uri r) (plus_in_uri r) (space_in_uri r)
    (content_len r) (content r) v (header_value r) (invalid_header r)
    (header_hash r) (lowcase_index r) (lowcase_header r).
Definition set_header_value (r : http_request) (v : str_t) : http_request :=
  Request (fd r) (header r) (state r) (request_line r) (method_name r)
    (method r) (schema r) (host r) (port r) (uri r) (args r) (exten r)
    (http_protocol r) (http_major r) (http_minor r) (http_version r)
    (complex_uri r) (quoted_uri r) (plus_in_uri r) (space_in_uri r)
    (content_len r) (content r) (header_name r) v (invalid_header r)
    (header_hash r) (lowcase_index r) (lowcase_header r).
Definition set_invalid_header (r : http_request) (v : Z) : http_request :=
  Request (fd r) (header r) (state r) (request_line r) (method_name r)
    (method r) (schema r) (host r) (port r) (uri r) (args r) (exten r)
    (http_protocol r) (http_major r) (http_minor r) (http_version r)
    (complex_uri r) (quoted_uri r) (plus_in_uri r) (space_in_uri r)
    (content_len r) (content r) (header_name r) (header_value r) v
    (header_hash r) (lowcase_index r) (lowcase_header r).
Definition set_header_hash (r : http_request) (v : Z) : http_request :=
  Request (fd r) (header r) (state r) (request_line r) (method_name r)
    (method r) (schema r) (host r) (port r) (uri r) (args r) (exten r)
    (http_protocol r) (http_major r) (http_minor r) (http_version r)
    (complex_uri r) (quoted_uri r) (plus_in_uri r) (space_in_uri r)
    (content_len r) (content r) (header_name r) (header_value r)
    (invalid_header r) v (lowcase_index r) (lowcase_header r).
Definition set_lowcase_index (r : http_request) (v : Z) : http_request :=
  Request (fd r) (header r) (state r) (request_line r) (method_name r)
    (method r) (schema r) (host r) (port r) (uri r) (args r) (exten r)
    (http_protocol r) (http_major r) (http_minor r) (http_version r)
    (complex_uri r) (quoted_uri r) (plus_in_uri r) (space_in_uri r)
    (content_len r) (content r) (header_name r) (header_value r)
    (invalid_header r) (header_hash r) v (lowcase_header r).
Definition set_lowcase_header (r : http_request) (v : list Z) : http_request :=
  Request (fd r) (header r) (state r) (request_line r) (method_name r)
    (method r) (schema r) (host r) (port r) (uri r) (args r) (exten r)
    (http_protocol r) (http_major r) (http_minor r) (http_version r)
    (complex_uri r) (quoted_uri r) (plus_in_uri r) (space_in_uri r)
    (content_len r) (content r) (header_name r) (header_value r)
    (invalid_header r) (header_hash r) (lowcase_index r) v.

(** A request in zeroed memory, with its buffer. *)
Definition zero_request (b : buffer) : http_request :=
  Request 0 b 0 NULL_STRING NULL_STRING HTTP_UNKNOWN NULL_STRING NULL_STRING
    NULL_STRING NULL_STRING NULL NULL_STRING NULL_STRING 0 0 0 0 0 0 0 0
    NULL_STRING NULL_STRING NULL_STRING 0 0 0
    (replicate (Z.to_nat HTTP_LC_HEADER_LEN) 0).

(** Computes fields of updated requests. *)
Ltac req_simpl :=
  cbn [fd header state request_line method_name method schema host port uri
    args exten http_protocol http_major http_minor http_version complex_uri
    quoted_uri plus_in_uri space_in_uri content_len content header_name
    header_value invalid_header header_hash lowcase_index lowcase_header
    set_fd set_header set_state set_request_line set_method_name set_method
    set_schema set_host set_port set_uri set_args set_exten
    set_http_protocol set_http_major set_http_minor set_http_version
    set_complex_uri set_quoted_uri set_plus_in_uri set_space_in_uri
    set_content_len set_content set_header_name set_header_value
    set_invalid_header set_header_hash set_lowcase_index set_lowcase_header
    sp slen set_sp set_slen b_start b_end b_pos b_last set_pos set_last fst snd] in *.

(** ** Layout

    [sizeof(struct http_request)] under the LP64 ABI, computed from the sizes and
    alignments of the fields: [http_request_handler] places the read buffer right
    after the object.  The two 16-bit fields share one [unsigned], and so do the
    four flags. *)

Definition align_up (off a : Z) : Z := (off + (a - 1)) / a * a.

Fixpoint layout_end (off : Z) (fields : list (Z * Z)) : Z :=
  match fields with
  | [] => off
  | (size, align) :: fields => layout_end (align_up off align + size) fields
  end.

Definition sizeof_struct (fields : list (Z * Z)) : Z :=
  align_up (layout_end 0 fields) (foldr (λ f a, Z.max (snd f) a) 1 fields).

Definition T_int : Z * Z := (4, 4).
Definition T_ptr : Z * Z := (8, 8).
Definition T_str_t : Z * Z := (16, 8).
Definition T_buffer : Z * Z := (32, 8).

Definition SIZEOF_HTTP_REQUEST : Z :=
  sizeof_struct
    [T_int; T_buffer; T_int; T_str_t; T_str_t; T_int; T_str_t; T_str_t; T_str_t;
     T_str_t; T_ptr; T_str_t; T_str_t; T_int; T_int; T_int; T_int; T_str_t;
     T_str_t; T_str_t; T_int; T_int; T_int; (HTTP_LC_HEADER_LEN, 1)].

Example sizeof_http_request : SIZEOF_HTTP_REQUEST = 304.
Proof. reflexivity. Qed.
