(* ===== verification/ParseLine.v ===== *)
(** The request-line parser: [http_parse_request_line] of [src/http/parse.c].

    One definition per [case] of the parser's [switch]: it receives the cursor
    [p], the character [ch] under it and the request, and says how the iteration
    ends.  [line_loop] is the [for] loop over the bytes between [b->pos] and
    [b->last]; [http_parse_request_line] adds the entry and the exits. *)

From stdpp Require Import base gmap list numbers strings.
From Stdlib Require Import ZArith Lia.
From S2P Require Import Prelude CStr RequestTypes.

(** ** Character tables and tests *)

(* a bit per character, indexed by ch >> 5 and ch & 0x1f *)
Definition usual : list Z :=
  [0xffffdbfe; 0x7fff37d6; 0xffffffff; 0xffffffff;
   0xffffffff; 0xffffffff; 0xffffffff; 0xffffffff].

Definition is_usual (ch : Z) : bool :=
  negb (Z.land (nth (Z.to_nat (Z.shiftr ch 5)) usual 0)
               (Z.shiftl 1 (Z.land ch 0x1f)) =? 0).

Definition is_upper_ (ch : Z) : bool :=
  (("A"%c <=? ch) && (ch <=? "Z"%c)) || (ch =? "_"%c).

Definition is_alpha (ch : Z) : bool :=
  let c := Z.lor ch 0x20 in ("a"%c <=? c) && (c <=? "z"%c).

(** ** Method names *)

Definition at_ (m : gmap Z Z) (p i : Z) (c : Z) : cres bool :=
  x ← load m (p + i); mret (x =? c).

(* m[i0] == c0 && m[i1] == c1 && ..., reading only while the tests succeed *)
Fixpoint cmp_at (m : gmap Z Z) (p : Z) (tests : list (Z * Z)) : cres bool :=
  match tests with
  | [] => mret true
  | (i, c) :: tests =>
      b ← at_ m p i c;
      if b : bool then cmp_at m p tests else mret false
  end.

(* CMP3 .. CMP9 compare every byte, CMP30 skips index 1 *)
Definition CMP (m : gmap Z Z) (p : Z) (s : list Z) : cres bool :=
  cmp_at m p (zip (seqZ 0 (Z.of_nat (length s))) s).
Definition CMP30 (m : gmap Z Z) (p c0 c1 c2 c3 : Z) : cres bool :=
  cmp_at m p [(0, c0); (2, c2); (3, c3)].

Fixpoint first_match (tests : list (cres bool * http_method)) : cres http_method :=
  match tests with
  | [] => mret HTTP_UNKNOWN
  | (t, mt) :: tests =>
      b ← t; if b : bool then mret mt else first_match tests
  end.

Definition get_request_method (m : gmap Z Z) (s : str_t) : cres http_method :=
  let p := sp s in
  if slen s =? 3 then
    first_match [(CMP m p (str "GET"), HTTP_GET); (CMP m p (str "PUT"), HTTP_PUT)]
  else if slen s =? 4 then
    o ← at_ m p 1 "O"%c;
    if o : bool then
      first_match
        [(CMP30 m p "P"%c "O"%c "S"%c "T"%c, HTTP_POST);
         (CMP30 m p "C"%c "O"%c "P"%c "Y"%c, HTTP_COPY);
         (CMP30 m p "M"%c "O"%c "V"%c "E"%c, HTTP_MOVE);
         (CMP30 m p "L"%c "O"%c "C"%c "K"%c, HTTP_LOCK)]
    else first_match [(CMP m p (str "HEAD"), HTTP_HEAD)]
  else if slen s =? 5 then
    first_match
      [(CMP m p (str "MKCOL"), HTTP_MKCOL); (CMP m p (str "PATCH"), HTTP_PATCH);
       (CMP m p (str "TRACE"), HTTP_TRACE)]
  else if slen s =? 6 then
    first_match
      [(CMP m p (str "DELETE"), HTTP_DELETE); (CMP m p (str "UNLOCK"), HTTP_UNLOCK)]
  else if slen s =? 7 then first_match [(CMP m p (str "OPTIONS"), HTTP_OPTIONS)]
  else if slen s =? 8 then first_match [(CMP m p (str "PROPFIND"), HTTP_PROPFIND)]
  else if slen s =? 9 then first_match [(CMP m p (str "PROPPATCH"), HTTP_PROPPATCH)]
  else mret HTTP_UNKNOWN.

(** ** States *)

Inductive line_state : Type :=
| S_start
| S_method
| S_spaces_before_uri
| S_schema
| S_schema_slash
| S_schema_slash_slash
| S_host_start
| S_host
| S_host_end
| S_host_ip_literal
| S_port
| S_host_http_09
| S_after_slash_in_uri
| S_check_uri
| S_check_uri_http_09
| S_uri
| S_http_09
| S_http_H
| S_http_HT
| S_http_HTT
| S_http_HTTP
| S_first_major_digit
| S_major_digit
| S_first_minor_digit
| S_minor_digit
| S_spaces_after_digit
| S_almost_done.

#[export] Instance line_state_eq_dec : EqDecision line_state.
Proof. solve_decision. Defined.

Definition line_states : list line_state :=
  [S_start; S_method; S_spaces_before_uri; S_schema; S_schema_slash;
   S_schema_slash_slash; S_host_start; S_host; S_host_end; S_host_ip_literal;
   S_port; S_host_http_09; S_after_slash_in_uri; S_check_uri;
   S_check_uri_http_09; S_uri; S_http_09; S_http_H; S_http_HT; S_http_HTT;
   S_http_HTTP; S_first_major_digit; S_major_digit; S_first_minor_digit;
   S_minor_digit; S_spaces_after_digit; S_almost_done].

(* enumerators count from 0 *)
Definition line_code (st : line_state) : Z :=
  match st with
  | S_start => 0 | S_method => 1 | S_spaces_before_uri => 2 | S_schema => 3
  | S_schema_slash => 4 | S_schema_slash_slash => 5 | S_host_start => 6
  | S_host => 7 | S_host_end => 8 | S_host_ip_literal => 9 | S_port => 10
  | S_host_http_09 => 11 | S_after_slash_in_uri => 12 | S_check_uri => 13
  | S_check_uri_http_09 => 14 | S_uri => 15 | S_http_09 => 16 | S_http_H => 17
  | S_http_HT => 18 | S_http_HTT => 19 | S_http_HTTP => 20
  | S_first_major_digit => 21 | S_major_digit => 22 | S_first_minor_digit => 23
  | S_minor_digit => 24 | S_spaces_after_digit => 25 | S_almost_done => 26
  end.

Definition line_state_of (z : Z) : option line_state :=
  if 0 <=? z then line_states !! Z.to_nat z else None.

Lemma line_state_of_code st : line_state_of (line_code st) = Some st.
Proof. by destruct st. Qed.

(** How an iteration ends. *)
Inductive line_step : Type :=
| Next (st : line_state) (r : http_request)    (* break *)
| Again (st : line_state) (r : http_request)   (* p--; break *)
| Fail (code : Z) (r : http_request)           (* return code *)
| Done (r : http_request)                      (* goto done *)
| Fault.                                       (* undefined behaviour *)

(* x->len = p - x->p *)
Definition until (s : str_t) (p : Z) : str_t := set_slen s (size_t (p - sp s)).

Section Cases.
Context (p ch : Z) (r : http_request).

Definition line_start : line_step :=
  let r := set_request_line r (set_sp (request_line r) p) in
  if (ch =? CR) || (ch =? LF) then Next S_start r
  else if negb (is_upper_ ch) then Fail (-1) r
  else
    let r := set_method_name r (set_sp (method_name r) p) in
    Next S_method r.

Definition line_method (m : gmap Z Z) : line_step :=
  if ch =? " "%c then
    let r := set_method_name r (until (method_name r) p) in
    match get_request_method m (method_name r) with
    | Ok mt =>
        let r := set_method r mt in
        if negb (Z.land (method_bits HTTP_UNKNOWN) (method_bits (method r)) =? 0)
        then Fail (-2) r
        else Next S_spaces_before_uri r
    | _ => Fault
    end
  else if negb (is_upper_ ch) then Fail (-3) r
  else Next S_method r.

Definition line_spaces_before_uri : line_step :=
  if ch =? "/"%c then
    let r := set_uri r (set_sp (uri r) p) in
    let r := set_schema r str_init in
    let r := set_host r str_init in
    let r := set_port r str_init in
    Next S_after_slash_in_uri r
  else if is_alpha ch then
    Next S_schema (set_schema r (set_sp (schema r) p))
  else if ch =? " "%c then Next S_spaces_before_uri r
  else Fail (-4) r.

Definition line_schema : line_step :=
  if is_alpha ch then Next S_schema r
  else if ch =? ":"%c then
    Next S_schema_slash (set_schema r (until (schema r) p))
  else Fail (-5) r.

Definition line_schema_slash : line_step :=
  if ch =? "/"%c then Next S_schema_slash_slash r else Fail (-6) r.

Definition line_schema_slash_slash : line_step :=
  if ch =? "/"%c then Next S_host_start r else Fail (-7) r.

Definition line_host_end : line_step :=
  let r := set_host r (until (host r) p) in
  if ch =? ":"%c then Next S_port (set_port r (set_sp (port r) (p + 1)))
  else if ch =? "/"%c then
    let r := set_port r str_init in
    Next S_after_slash_in_uri (set_uri r (set_sp (uri r) p))
  else if ch =? " "%c then
    let r := set_port r str_init in
    Next S_host_http_09
      (set_uri r (Str (sp (schema r) + slen (schema r) + 1) 1))
  else Fail (-8) r.

(* falls through to S_host_end *)
Definition line_host : line_step :=
  if is_alpha ch then Next S_host r
  else if is_digit ch || (ch =? "."%c) || (ch =? "-"%c) then Next S_host r
  else line_host_end.
End Cases.

(* falls through to S_host *)
Definition line_host_start (p ch : Z) (r : http_request) : line_step :=
  let r := set_host r (set_sp (host r) p) in
  if ch =? "["%c then Next S_host_ip_literal r
  else line_host p ch r.

Definition line_host_ip_literal (ch : Z) (r : http_request) : line_step :=
  if is_digit ch then Next S_host_ip_literal r
  else if is_alpha ch then Next S_host_ip_literal r
  else if ch =? ":"%c then Next S_host_ip_literal r
  else if ch =? "]"%c then Next S_host_end r
  else if (ch =? "-"%c) || (ch =? "."%c) || (ch =? "_"%c) || (ch =? "~"%c) then
    Next S_host_ip_literal r
  else if (ch =? "!"%c) || (ch =? "$"%c) || (ch =? "&"%c) || (ch =? "'"%c)
       || (ch =? "("%c) || (ch =? ")"%c) || (ch =? "*"%c) || (ch =? "+"%c)
       || (ch =? ","%c) || (ch =? ";"%c) || (ch =? "="%c) then
    Next S_host_ip_literal r
  else Fail (-9) r.

Definition line_port (p ch : Z) (r : http_request) : line_step :=
  if is_digit ch then Next S_port r
  else
    let r := set_port r (until (port r) p) in
    if ch =? "/"%c then Next S_after_slash_in_uri (set_uri r (set_sp (uri r) p))
    else if ch =? " "%c then
      Next S_host_http_09
        (set_uri r (Str (sp (schema r) + slen (schema r) + 1) 1))
    else Fail (-10) r.

(* r->request_line.len = p - r->request_line.p; goto done *)
Definition finish_line (p : Z) (r : http_request) : line_step :=
  Done (set_request_line r (until (request_line r) p)).

Definition line_host_http_09 (p ch : Z) (r : http_request) : line_step :=
  if ch =? " "%c then Next S_host_http_09 r
  else if ch =? CR then Next S_almost_done (set_http_minor r 9)
  else if ch =? LF then finish_line p (set_http_minor r 9)
  else if ch =? "H"%c then
    Next S_http_H (set_http_protocol r (set_sp (http_protocol r) p))
  else Fail (-11) r.

Definition line_after_slash_in_uri (p ch : Z) (r : http_request) : line_step :=
  if is_usual ch then Next S_check_uri r
  else if ch =? " "%c then
    Next S_check_uri_http_09 (set_uri r (until (uri r) p))
  else if ch =? CR then
    let r := set_uri r (until (uri r) p) in
    Next S_almost_done (set_http_minor r 9)
  else if ch =? LF then
    let r := set_uri r (until (uri r) p) in
    finish_line p (set_http_minor r 9)
  else if ch =? "."%c then Next S_uri (set_complex_uri r 1)
  else if ch =? "%"%c then Next S_uri (set_quoted_uri r 1)
  else if ch =? "/"%c then Next S_uri (set_complex_uri r 1)
  else if ch =? "?"%c then Next S_uri (set_args r (p + 1))
  else if ch =? "#"%c then Next S_uri (set_complex_uri r 1)
  else if ch =? "+"%c then Next S_after_slash_in_uri (set_plus_in_uri r 1)
  else if ch =? 0 then Fail (-12) r
  else Next S_check_uri r.

Definition line_check_uri (p ch : Z) (r : http_request) : line_step :=
  if is_usual ch then Next S_check_uri r
  else if ch =? "/"%c then Next S_after_slash_in_uri (set_exten r str_init)
  else if ch =? "."%c then Next S_check_uri (set_exten r (set_sp (exten r) (p + 1)))
  else if ch =? " "%c then
    Next S_check_uri_http_09 (set_uri r (until (uri r) p))
  else if ch =? CR then
    let r := set_uri r (until (uri r) p) in
    Next S_almost_done (set_http_minor r 9)
  else if ch =? LF then
    let r := set_uri r (until (uri r) p) in
    finish_line p (set_http_minor r 9)
  else if ch =? "%"%c then Next S_uri (set_quoted_uri r 1)
  else if ch =? "?"%c then Next S_uri (set_args r (p + 1))
  else if ch =? "#"%c then Next S_uri (set_complex_uri r 1)
  else if ch =? "+"%c then Next S_check_uri (set_plus_in_uri r 1)
  else if ch =? 0 then Fail (-13) r
  else Next S_check_uri r.

Definition line_check_uri_http_09 (p ch : Z) (r : http_request) : line_step :=
  if ch =? " "%c then Next S_check_uri_http_09 r
  else if ch =? CR then Next S_almost_done (set_http_minor r 9)
  else if ch =? LF then finish_line p (set_http_minor r 9)
  else if ch =? "H"%c then
    Next S_http_H (set_http_protocol r (set_sp (http_protocol r) p))
  else Again S_check_uri (set_space_in_uri r 1).

Definition line_uri (p ch : Z) (r : http_request) : line_step :=
  if is_usual ch then Next S_uri r
  else if ch =? " "%c then Next S_http_09 (set_uri r (until (uri r) p))
  else if ch =? CR then
    let r := set_uri r (until (uri r) p) in
    Next S_almost_done (set_http_minor r 9)
  else if ch =? LF then
    let r := set_uri r (until (uri r) p) in
    finish_line p (set_http_minor r 9)
  else if ch =? "#"%c then Next S_uri (set_complex_uri r 1)
  else if ch =? 0 then Fail (-14) r
  else Next S_uri r.

Definition line_http_09 (p ch : Z) (r : http_request) : line_step :=
  if ch =? " "%c then Next S_http_09 r
  else if ch =? CR then Next S_almost_done (set_http_minor r 9)
  else if ch =? LF then finish_line p (set_http_minor r 9)
  else if ch =? "H"%c then
    Next S_http_H (set_http_protocol r (set_sp (http_protocol r) p))
  else Again S_uri (set_space_in_uri r 1).

Definition line_http_H (ch : Z) (r : http_request) : line_step :=
  if ch =? "T"%c then Next S_http_HT r else Fail (-15) r.
Definition line_http_HT (ch : Z) (r : http_request) : line_step :=
  if ch =? "T"%c then Next S_http_HTT r else Fail (-16) r.
Definition line_http_HTT (ch : Z) (r : http_request) : line_step :=
  if ch =? "P"%c then Next S_http_HTTP r else Fail (-17) r.
Definition line_http_HTTP (ch : Z) (r : http_request) : line_step :=
  if ch =? "/"%c then Next S_first_major_digit r else Fail (-18) r.

Definition line_first_major_digit (ch : Z) (r : http_request) : line_step :=
  if (ch <? "1"%c) || ("9"%c <? ch) then Fail (-19) r
  else Next S_major_digit (set_http_major r (u16 (ch - "0"%c))).

Definition line_major_digit (ch : Z) (r : http_request) : line_step :=
  if ch =? "."%c then Next S_first_minor_digit r
  else if (ch <? "0"%c) || ("9"%c <? ch) then Fail (-20) r
  else Next S_major_digit
         (set_http_major r (u16 (http_major r * 10 + ch - "0"%c))).

Definition line_first_minor_digit (ch : Z) (r : http_request) : line_step :=
  if (ch <? "0"%c) || ("9"%c <? ch) then Fail (-21) r
  else Next S_minor_digit (set_http_minor r (u16 (ch - "0"%c))).

Definition line_minor_digit (p ch : Z) (r : http_request) : line_step :=
  if ch =? CR then
    Next S_almost_done (set_http_protocol r (until (http_protocol r) p))
  else if ch =? LF then
    let r := set_request_line r (until (request_line r) p) in
    Done (set_http_protocol r (until (http_protocol r) p))
  else if ch =? " "%c then
    Next S_spaces_after_digit (set_http_protocol r (until (http_protocol r) p))
  else if (ch <? "0"%c) || ("9"%c <? ch) then Fail (-22) r
  else Next S_minor_digit
         (set_http_minor r (u16 (http_minor r * 10 + ch - "0"%c))).

Definition line_spaces_after_digit (p ch : Z) (r : http_request) : line_step :=
  if ch =? " "%c then Next S_spaces_after_digit r
  else if ch =? CR then Next S_almost_done r
  else if ch =? LF then finish_line p r
  else Fail (-23) r.

Definition line_almost_done (p ch : Z) (r : http_request) : line_step :=
  let r := set_request_line r
             (set_slen (request_line r) (size_t (p - sp (request_line r) - 1))) in
  if ch =? LF then Done r else Fail (-24) r.

(** ** The switch *)

Definition line_switch (m : gmap Z Z) (st : line_state) (p ch : Z)
    (r : http_request) : line_step :=
  match st with
  | S_start => line_start p ch r
  | S_method => line_method p ch r m
  | S_spaces_before_uri => line_spaces_before_uri p ch r
  | S_schema => line_schema p ch r
  | S_schema_slash => line_schema_slash ch r
  | S_schema_slash_slash => line_schema_slash_slash ch r
  | S_host_start => line_host_start p ch r
  | S_host => line_host p ch r
  | S_host_end => line_host_end p ch r
  | S_host_ip_literal => line_host_ip_literal ch r
  | S_port => line_port p ch r
  | S_host_http_09 => line_host_http_09 p ch r
  | S_after_slash_in_uri => line_after_slash_in_uri p ch r
  | S_check_uri => line_check_uri p ch r
  | S_check_uri_http_09 => line_check_uri_http_09 p ch r
  | S_uri => line_uri p ch r
  | S_http_09 => line_http_09 p ch r
  | S_http_H => line_http_H ch r
  | S_http_HT => line_http_HT ch r
  | S_http_HTT => line_http_HTT ch r
  | S_http_HTTP => line_http_HTTP ch r
  | S_first_major_digit => line_first_major_digit ch r
  | S_major_digit => line_major_digit ch r
  | S_first_minor_digit => line_first_minor_digit ch r
  | S_minor_digit => line_minor_digit p ch r
  | S_spaces_after_digit => line_spaces_after_digit p ch r
  | S_almost_done => line_almost_done p ch r
  end.

(** ** The loop and the exits *)

Inductive line_exit : Type :=
| More (p : Z) (st : line_state) (r : http_request)  (* p reached b->last *)
| Failed (code : Z) (r : http_request)               (* return inside the switch *)
| Finished (p : Z) (r : http_request).               (* goto done *)

(* an [Again] undoes the p++ of the loop header *)
Fixpoint line_loop (fuel : nat) (m : gmap Z Z) (last p : Z) (st : line_state)
    (r : http_request) : cres line_exit :=
  match fuel with
  | O => Fuel
  | S fuel =>
      if p =? last then Ok (More p st r)
      else
        ch ← load m p;
        match line_switch m st p ch r with
        | Next st r => line_loop fuel m last (p + 1) st r
        | Again st r => line_loop fuel m last (p - 1 + 1) st r
        | Fail code r => Ok (Failed code r)
        | Done r => Ok (Finished p r)
        | Fault => Ub
        end
  end.

(* at most two iterations per byte *)
Definition line_fuel (p last : Z) : nat := Z.to_nat (2 * (last - p) + 2).

(* the code after the label done *)
Definition line_done (p : Z) (r : http_request) : Z * http_request :=
  let r := if negb (sp (exten r) =? NULL)
           then set_exten r (set_slen (exten r)
                  (size_t (sp (uri r) + slen (uri r) - sp (exten r))))
           else r in
  let r := set_header r (set_pos (header r) (p + 1)) in
  let r := if http_minor r =? 9 then set_http_major r 0 else r in
  let r := set_http_version r (http_major r * 1000 + http_minor r) in
  let r := set_state r (line_code S_start) in
  if (http_version r =? 9) && negb (bool_decide (method r = HTTP_GET))
  then (-25, r)
  else (0, r).

(* Return 0 if complete; < 0 on error; > 0 continue.  The callers pass &r->header
   as the buffer. *)
Definition http_parse_request_line (m : gmap Z Z) (r : http_request) :
    cres (Z * http_request) :=
  let b := header r in
  match line_state_of (state r) with
  | Some st =>
      x ← line_loop (line_fuel (b_pos b) (b_last b)) m (b_last b) (b_pos b) st r;
      match x with
      | More p st r =>
          let r := set_header r (set_pos (header r) p) in
          Ok (1, set_state r (line_code st))
      | Failed code r => Ok (code, r)
      | Finished p r => Ok (line_done p r)
      end
  | None =>
      (* no case label matches: the loop only advances p *)
      Ok (1, set_header r (set_pos b (b_last b)))
  end.
