(* ===== verification/ParseLineRun.v ===== *)
(** The request-line parser as a fold over bytes.

    [line_run] processes a list of bytes, one after the other; [line_loop_run]
    shows that the pointer loop of the parser, which may look at a byte twice, is
    that fold.  Incremental parsing follows from [line_run_app]. *)

From stdpp Require Import base gmap list numbers strings.
From Stdlib Require Import ZArith Lia.
From S2P Require Import Prelude CStr RequestTypes ParseLine.

(** One byte: a case that steps back is followed by the case it steps back to. *)
Definition consume (m : gmap Z Z) (st : line_state) (p ch : Z) (r : http_request) : line_step :=
  match line_switch m st p ch r with
  | Again st r => line_switch m st p ch r
  | x => x
  end.

Fixpoint line_run (m : gmap Z Z) (st : line_state) (p : Z) (r : http_request)
    (l : list Z) : cres line_exit :=
  match l with
  | [] => Ok (More p st r)
  | ch :: l =>
      match consume m st p ch r with
      | Next st r => line_run m st (p + 1) r l
      | Again _ _ | Fault => Ub
      | Fail code r => Ok (Failed code r)
      | Done r => Ok (Finished p r)
      end
  end.

(** Splits every test of the switch. *)
Ltac line_cases :=
  unfold line_switch, line_start, line_method, line_spaces_before_uri, line_schema,
    line_schema_slash, line_schema_slash_slash, line_host_start, line_host,
    line_host_end, line_host_ip_literal, line_port, line_host_http_09,
    line_after_slash_in_uri, line_check_uri, line_check_uri_http_09, line_uri,
    line_http_09, line_http_H, line_http_HT, line_http_HTT, line_http_HTTP,
    line_first_major_digit, line_major_digit, line_first_minor_digit,
    line_minor_digit, line_spaces_after_digit, line_almost_done, finish_line;
  repeat case_match; simplify_eq/=.

(** Stepping back happens in two states only, and the byte is then consumed. *)
Lemma line_switch_again m st p ch r st' r' :
  line_switch m st p ch r = Again st' r' →
  (st = S_check_uri_http_09 ∧ st' = S_check_uri) ∨ (st = S_http_09 ∧ st' = S_uri).
Proof. destruct st; line_cases; intros; simplify_eq; tauto. Qed.

Lemma consume_not_again m st p ch r st' r' : consume m st p ch r ≠ Again st' r'.
Proof.
  unfold consume. destruct (line_switch m st p ch r) as [| st1 r1 | | |] eqn:E; try done.
  intros E'. apply line_switch_again in E, E'. intuition congruence.
Qed.

Lemma line_loop_run m l st p r fuel last :
  bytes_at m p l → last = p + Z.of_nat (length l) → (2 * length l < fuel)%nat →
  line_loop fuel m last p st r = line_run m st p r l.
Proof.
  intros Hb -> Hf. revert fuel p st r Hb Hf.
  induction l as [|ch l IH]; intros fuel p st r Hb Hf.
  - destruct fuel; [simpl in Hf; lia|]. cbn [line_loop line_run length].
    by rewrite Z.add_0_r, Z.eqb_refl.
  - destruct Hb as [Hc Hb]. cbn [length] in *. destruct fuel as [|fuel]; [lia|].
    assert (Hlast : p + Z.of_nat (S (length l)) = p + 1 + Z.of_nat (length l)) by lia.
    assert (Hne : (p =? p + Z.of_nat (S (length l))) = false) by blia.
    assert (Hload : load m p = Ok ch) by (unfold load; by rewrite Hc).
    cbn [line_loop line_run]. rewrite Hne, Hload. cres_simpl.
    unfold consume. destruct (line_switch m st p ch r) as [st1 r1|st1 r1| | |] eqn:E; try done.
    + rewrite Hlast. apply IH; [done | lia].
    + replace (p - 1 + 1) with p by lia. destruct fuel as [|fuel]; [lia|].
      cbn [line_loop]. rewrite Hne, Hload. cres_simpl.
      destruct (line_switch m st1 p ch r1) as [st2 r2|st2 r2| | |] eqn:E'; try done.
      * rewrite Hlast. apply IH; [done | lia].
      * exfalso. eapply (consume_not_again m st p ch r). unfold consume. rewrite E. exact E'.
Qed.

Lemma line_fuel_enough (l : list Z) p last :
  last = p + Z.of_nat (length l) → (2 * length l < line_fuel p last)%nat.
Proof. unfold line_fuel. lia. Qed.

Lemma line_run_app m st p r l1 l2 :
  line_run m st p r (l1 ++ l2) =
  x ← line_run m st p r l1;
  match x with
  | More p' st' r' => line_run m st' p' r' l2
  | x => Ok x
  end.
Proof.
  revert st p r. induction l1 as [|ch l1 IH]; intros st p r; [done|].
  cbn [line_run app]. by destruct (consume m st p ch r).
Qed.

(** Where the fold stops when it wants more. *)
Lemma line_run_more m st p r l p' st' r' :
  line_run m st p r l = Ok (More p' st' r') → p' = p + Z.of_nat (length l).
Proof.
  revert st p r. induction l as [|ch l IH]; intros st p r; cbn [line_run length].
  - intros [= <- <- <-]. lia.
  - destruct (consume m st p ch r); try done. intros H%IH. lia.
Qed.

Lemma line_run_finished m st p r l p' r' :
  line_run m st p r l = Ok (Finished p' r') →
  ∃ l1 ch l2 st1 r1, l = l1 ++ ch :: l2 ∧ p' = p + Z.of_nat (length l1) ∧
    line_run m st p r l1 = Ok (More p' st1 r1) ∧ consume m st1 p' ch r1 = Done r'.
Proof.
  revert st p r. induction l as [|ch l IH]; intros st p r; cbn [line_run]; [done|].
  destruct (consume m st p ch r) as [st1 r1| | |r1|] eqn:E; try done.
  - intros (l1 & c & l2 & st2 & r2 & -> & -> & H1 & H2)%IH.
    exists (ch :: l1), c, l2, st2, r2. cbn [length app line_run]. rewrite E.
    replace (p + Z.of_nat (S (length l1))) with (p + 1 + Z.of_nat (length l1)) by lia. done.
  - intros [= <- <-]. exists [], ch, l, st, r. cbn [length app line_run].
    by rewrite Z.add_0_r.
Qed.

(** ** The buffer is not an input of the switch *)

Definition map_step (f : http_request → http_request) (x : line_step) : line_step :=
  match x with
  | Next st r => Next st (f r)
  | Again st r => Again st (f r)
  | Fail c r => Fail c (f r)
  | Done r => Done (f r)
  | Fault => Fault
  end.

Definition map_exit (f : http_request → http_request) (x : line_exit) : line_exit :=
  match x with
  | More p st r => More p st (f r)
  | Failed c r => Failed c (f r)
  | Finished p r => Finished p (f r)
  end.

(** [f] is an update the switch neither reads nor overwrites. *)
Class Independent (f : http_request → http_request) : Prop :=
  independent m st p ch r :
    line_switch m st p ch (f r) = map_step f (line_switch m st p ch r).

Ltac solve_independent :=
  intros m st p ch r; destruct r, st; line_cases; try reflexivity;
  match goal with
  | H1 : get_request_method _ _ = _, H2 : get_request_method _ _ = _ |- _ =>
      rewrite H1 in H2; simplify_eq
  end; congruence || reflexivity.

#[export] Instance set_header_independent h : Independent (λ r, set_header r h).
Proof. solve_independent. Qed.
#[export] Instance set_state_independent s : Independent (λ r, set_state r s).
Proof. solve_independent. Qed.

Lemma consume_independent f `{!Independent f} m st p ch r :
  consume m st p ch (f r) = map_step f (consume m st p ch r).
Proof.
  unfold consume. rewrite (independent m st p ch r).
  destruct (line_switch m st p ch r); cbn [map_step]; first [apply independent | done].
Qed.

Lemma line_run_independent f `{!Independent f} m st p r l :
  line_run m st p (f r) l = x ← line_run m st p r l; Ok (map_exit f x).
Proof.
  revert st p r. induction l as [|ch l IH]; intros st p r; [done|].
  cbn [line_run]. rewrite (consume_independent f).
  destruct (consume m st p ch r); cbn [map_step]; by rewrite ?IH.
Qed.

Lemma line_run_header m st p r l h :
  line_run m st p (set_header r h) l =
  x ← line_run m st p r l; Ok (map_exit (λ r, set_header r h) x).
Proof. apply (line_run_independent (λ r, set_header r h)). Qed.

Lemma line_run_state m st p r l s :
  line_run m st p (set_state r s) l =
  x ← line_run m st p r l; Ok (map_exit (λ r, set_state r s) x).
Proof. apply (line_run_independent (λ r, set_state r s)). Qed.

(** The fold leaves the buffer descriptor alone. *)
Definition exit_request (x : line_exit) : http_request :=
  match x with More _ _ r | Failed _ r | Finished _ r => r end.

Lemma set_header_id r : set_header r (header r) = r.
Proof. by destruct r. Qed.

Lemma line_run_keeps_header m st p r l x :
  line_run m st p r l = Ok x → header (exit_request x) = header r.
Proof.
  intros H. pose proof (line_run_header m st p r l (header r)) as Hh.
  rewrite set_header_id, H in Hh. cres_simpl. injection Hh as Hx. rewrite Hx.
  by destruct x.
Qed.

(** ** The parser in terms of the fold *)

Definition line_return (x : line_exit) : Z * http_request :=
  match x with
  | More p st r => (1, set_state (set_header r (set_pos (header r) p)) (line_code st))
  | Failed code r => (code, r)
  | Finished p r => line_done p r
  end.

Lemma parse_line_run m r l st :
  line_state_of (state r) = Some st →
  bytes_at m (b_pos (header r)) l →
  b_last (header r) = b_pos (header r) + Z.of_nat (length l) →
  http_parse_request_line m r =
  x ← line_run m st (b_pos (header r)) r l; Ok (line_return x).
Proof.
  intros Hst Hb Hlast. unfold http_parse_request_line. rewrite Hst.
  rewrite (line_loop_run m l) by eauto using line_fuel_enough.
  by destruct (line_run m st (b_pos (header r)) r l) as [[]| |].
Qed.

(** ** Receiving in pieces *)

(** The request with the end of the received data at [e]. *)
Definition upto (r : http_request) (e : Z) : http_request :=
  set_header r (set_last (header r) e).

Lemma line_done_upto p r e :
  line_done p (upto r e) = (λ x, (x.1, upto x.2 e)) (line_done p r).
Proof.
  destruct r. unfold line_done, upto. req_simpl.
  destruct (negb (sp exten =? NULL)); req_simpl; destruct (http_minor =? 9); req_simpl;
    by case_match.
Qed.

Lemma line_return_upto x e :
  line_return (map_exit (λ r, upto r e) x) =
  (λ y, (y.1, upto y.2 e)) (line_return x).
Proof. destruct x; [done|done|]. apply line_done_upto. Qed.

Lemma line_run_upto m st p r l e :
  line_run m st p (upto r e) l =
  x ← line_run m st p r l; Ok (map_exit (λ r, upto r e) x).
Proof.
  unfold upto at 1. rewrite line_run_header.
  destruct (line_run m st p r l) as [x| |] eqn:E; try done. cres_simpl. f_equal.
  apply line_run_keeps_header in E. destruct x; cbn [map_exit exit_request] in *; unfold upto; by rewrite E.
Qed.

(** A return code 1 comes from running out of bytes only. *)
Lemma line_switch_fail_neg m st p ch r c r' :
  line_switch m st p ch r = Fail c r' → -24 ≤ c ≤ -1.
Proof. destruct st; line_cases; intros; simplify_eq; lia. Qed.

Lemma consume_fail_neg m st p ch r c r' :
  consume m st p ch r = Fail c r' → -24 ≤ c ≤ -1.
Proof.
  unfold consume. case_match eqn:E; try done; intros H; simplify_eq; by eapply line_switch_fail_neg.
Qed.

Lemma line_run_fail_neg m st p r l c r' :
  line_run m st p r l = Ok (Failed c r') → -24 ≤ c ≤ -1.
Proof.
  revert st p r. induction l as [|ch l IH]; intros st p r; cbn [line_run]; [done|].
  destruct (consume m st p ch r) eqn:E; try done; [apply IH|].
  intros [= <- <-]. by eapply consume_fail_neg.
Qed.

Lemma line_done_code p r : (line_done p r).1 = 0 ∨ (line_done p r).1 = -25.
Proof. unfold line_done. repeat case_match; auto. Qed.

(** Moving the cursor and the saved state does not change how a line ends; an error
    return leaves both as they were. *)
Definition place (q s : Z) (r : http_request) : http_request :=
  set_state (set_header r (set_pos (header r) q)) s.

Lemma line_done_place p r q s : line_done p (place q s r) = line_done p r.
Proof.
  destruct r. unfold line_done, place. req_simpl.
  destruct (negb (sp exten =? NULL)); req_simpl; destruct (http_minor =? 9); req_simpl;
    by case_match.
Qed.

Lemma line_run_place m st p r l q s :
  line_run m st p (place q s r) l =
  x ← line_run m st p r l; Ok (map_exit (place q s) x).
Proof.
  unfold place at 1. rewrite line_run_state, line_run_header.
  destruct (line_run m st p r l) as [x| |] eqn:E; try done. cres_simpl. f_equal.
  apply line_run_keeps_header in E.
  destruct x; cbn [map_exit exit_request] in *; unfold place; by rewrite E.
Qed.

(** Same return code, and the same request unless a syntax error is returned. *)
Definition same_result (x y : Z * http_request) : Prop :=
  x.1 = y.1 ∧ (x.2 = y.2 ∨ -24 ≤ x.1 ≤ -1).

Definition cres_rel {A} (R : A → A → Prop) (x y : cres A) : Prop :=
  match x, y with
  | Ok a, Ok b => R a b
  | Ub, Ub | Fuel, Fuel => True
  | _, _ => False
  end.

Lemma line_return_place m st p r l x q s :
  line_run m st p r l = Ok x →
  same_result (line_return x) (line_return (map_exit (place q s) x)).
Proof.
  intros E. destruct x as [p' st' r'|c r'|p' r']; cbn [map_exit line_return].
  - split; [done|left]. by destruct r'.
  - split; [done|right]. by eapply line_run_fail_neg.
  - rewrite line_done_place. split; auto.
Qed.

(** Parsing a prefix and then, if it asks for more, going on from there. *)
Definition parse_in_two (m : gmap Z Z) (r : http_request) (mid : Z) : cres (Z * http_request) :=
  x ← http_parse_request_line m (upto r mid);
  if x.1 =? 1 then http_parse_request_line m (upto x.2 (b_last (header r)))
  else Ok (x.1, upto x.2 (b_last (header r))).

Lemma upto_upto r' r e : header r' = header r → upto (upto r' e) (b_last (header r)) = r'.
Proof. intros Hr. destruct r' as [? [] ]. unfold upto. cbn in *. by rewrite <-Hr. Qed.

Lemma upto_line_done p r e :
  (line_done p (upto r e)).2 = upto (line_done p r).2 e.
Proof. by rewrite line_done_upto. Qed.

Lemma parse_line_split m r l1 l2 st :
  line_state_of (state r) = Some st →
  bytes_at m (b_pos (header r)) (l1 ++ l2) →
  b_last (header r) = b_pos (header r) + Z.of_nat (length (l1 ++ l2)) →
  cres_rel same_result (http_parse_request_line m r)
    (parse_in_two m r (b_pos (header r) + Z.of_nat (length l1))).
Proof.
  intros Hst Hb Hlast. unfold parse_in_two. rewrite (parse_line_run m r (l1 ++ l2) st) by done.
  apply bytes_at_app in Hb as [Hb1 Hb2]. rewrite length_app in Hlast.
  rewrite (parse_line_run m (upto r _) l1 st) by done.
  cbn [b_pos header upto set_header set_last]. rewrite line_run_upto, line_run_app.
  destruct (line_run m st (b_pos (header r)) r l1) as [x| |] eqn:E; try done.
  cres_simpl. pose proof (line_run_keeps_header _ _ _ _ _ _ E) as Hh.
  destruct x as [p' st' r'|c r'|p' r']; cbn [exit_request map_exit] in *.
  - apply line_run_more in E. cbn [line_return fst snd]. rewrite Z.eqb_refl.
    replace (upto (set_state _ _) _) with (place p' (line_code st') r')
      by (unfold upto, place; destruct r' as [? [] ]; cbn in *; by rewrite <-Hh).
    rewrite (parse_line_run m (place p' (line_code st') r') l2 st'); cbn.
    + rewrite line_run_place. destruct (line_run m st' p' r' l2) eqn:E2; try done.
      by eapply line_return_place.
    + by rewrite line_state_of_code.
    + by subst p'.
    + rewrite Hh. lia.
  - apply line_run_fail_neg in E. cbn [line_return fst snd].
    rewrite (proj2 (Z.eqb_neq c 1)) by lia. cbn. split; [done|]. by right.
  - cbn [line_return]. pose proof (line_done_code p' (upto r' (b_pos (header r) + Z.of_nat (length l1)))).
    rewrite (proj2 (Z.eqb_neq _ 1)) by (cbn; lia). cbn [cres_rel]. unfold same_result. cbn [fst snd].
    rewrite <-upto_line_done, upto_upto by done. rewrite line_done_upto. cbn. auto.
Qed.
