(* ===== verification/ParseMethod.v ===== *)
(** Method names and the character table of [src/http/parse.c].

    [get_request_method] compares bytes under a [switch] on the length and skips
    index 1 for the names with an O there; [method_of] is the table it encodes. *)

From stdpp Require Import base gmap list numbers strings.
From Stdlib Require Import ZArith Lia.
From S2P Require Import Prelude CStr RequestTypes ParseLine.

Definition method_table : list (list Z * http_method) :=
  [(str "GET", HTTP_GET); (str "PUT", HTTP_PUT); (str "POST", HTTP_POST);
   (str "COPY", HTTP_COPY); (str "MOVE", HTTP_MOVE); (str "LOCK", HTTP_LOCK);
   (str "HEAD", HTTP_HEAD); (str "MKCOL", HTTP_MKCOL); (str "PATCH", HTTP_PATCH);
   (str "TRACE", HTTP_TRACE); (str "DELETE", HTTP_DELETE);
   (str "UNLOCK", HTTP_UNLOCK); (str "OPTIONS", HTTP_OPTIONS);
   (str "PROPFIND", HTTP_PROPFIND); (str "PROPPATCH", HTTP_PROPPATCH)].

Fixpoint method_lookup (t : list (list Z * http_method)) (l : list Z) : http_method :=
  match t with
  | [] => HTTP_UNKNOWN
  | (name, mt) :: t => if bool_decide (l = name) then mt else method_lookup t l
  end.

Definition method_of (l : list Z) : http_method := method_lookup method_table l.

Lemma load_bytes_at m p l i c :
  bytes_at m p l → l !! Z.to_nat i = Some c → 0 ≤ i → load m (p + i) = Ok c.
Proof.
  intros Hb Hi Hpos. unfold load.
  pose proof (bytes_at_lookup _ _ _ _ _ Hb Hi) as H. rewrite Z2Nat.id in H by done.
  by rewrite H.
Qed.

Lemma cmp_at_spec m p l tests :
  bytes_at m p l →
  Forall (λ t, 0 ≤ t.1 < Z.of_nat (length l)) tests →
  cmp_at m p tests = Ok (forallb (λ t, bool_decide (l !! Z.to_nat t.1 = Some t.2)) tests).
Proof.
  intros Hb. induction tests as [|[i c] tests IH]; intros Ht; [done|].
  apply Forall_cons in Ht as [[Hi0 Hi1] Ht]. cbn [fst] in *.
  destruct (lookup_lt_is_Some_2 l (Z.to_nat i)) as [x Hx]; [lia|].
  cbn [cmp_at forallb fst snd]. unfold at_. rewrite (load_bytes_at m p l i x) by done.
  cres_simpl. rewrite Hx. destruct (x =? c) eqn:E.
  - rewrite bool_decide_eq_true_2 by (f_equal; lia). by rewrite IH.
  - rewrite bool_decide_eq_false_2; [done|]. intros [= ->]. blia.
Qed.

Lemma zip_seqZ_forall (s : list Z) k :
  Forall (λ t, k ≤ t.1 < k + Z.of_nat (length s)) (zip (seqZ k (Z.of_nat (length s))) s).
Proof.
  revert k. induction s as [|c s IH]; intros k; [constructor|].
  cbn [length]. rewrite seqZ_cons by lia. cbn [zip zip_with]. constructor; [simpl; lia|].
  replace (Z.pred (Z.of_nat (S (length s)))) with (Z.of_nat (length s)) by lia.
  eapply Forall_impl; [apply IH|]. intros [i x]; simpl. lia.
Qed.

Lemma forallb_zip_seqZ (l s pre : list Z) :
  length l = length s →
  forallb (λ t, bool_decide ((pre ++ l) !! Z.to_nat t.1 = Some t.2))
    (zip (seqZ (Z.of_nat (length pre)) (Z.of_nat (length s))) s) = bool_decide (l = s).
Proof.
  revert l pre. induction s as [|c s IH]; intros [|a l] pre Hlen; simplify_eq/=; [done|].
  rewrite seqZ_cons by lia. cbn [zip zip_with forallb fst snd].
  rewrite Nat2Z.id, lookup_app_r, Nat.sub_diag by lia. cbn [lookup list_lookup].
  replace (Z.pred (Z.of_nat (S (length s)))) with (Z.of_nat (length s)) by lia.
  replace (Z.succ (Z.of_nat (length pre))) with (Z.of_nat (length (pre ++ [a])))
    by (rewrite length_app; simpl; lia).
  replace (pre ++ a :: l) with ((pre ++ [a]) ++ l) by (by rewrite <-app_assoc).
  rewrite IH by lia. destruct (decide (a = c)) as [->|Hne].
  - rewrite bool_decide_eq_true_2 by done. simpl. apply bool_decide_ext. naive_solver.
  - rewrite bool_decide_eq_false_2 by naive_solver. simpl.
    symmetry. apply bool_decide_eq_false_2. naive_solver.
Qed.

Lemma CMP_spec m p l s :
  bytes_at m p l → length l = length s → CMP m p s = Ok (bool_decide (l = s)).
Proof.
  intros Hb Hlen. unfold CMP. rewrite (cmp_at_spec m p l); [|done|].
  - f_equal. by apply (forallb_zip_seqZ l s []).
  - rewrite Hlen. apply (zip_seqZ_forall s 0).
Qed.

(** Table entries of another length do not match. *)
Lemma method_lookup_length (t : list (list Z * http_method)) l :
  method_lookup t l = method_lookup (filter (λ e, length e.1 = length l) t) l.
Proof.
  induction t as [|[name mt] t IH]; [done|].
  rewrite filter_cons. cbn [method_lookup fst]. case_decide as Hlen.
  - cbn [method_lookup]. by rewrite IH.
  - rewrite bool_decide_eq_false_2 by (intros ->; done). done.
Qed.

Lemma first_match_cons b tests mt :
  first_match ((Ok b, mt) :: tests) = if b then Ok mt else first_match tests.
Proof. by destruct b. Qed.

Lemma first_match_map (tests : list (bool * http_method)) :
  first_match (map (λ t, (Ok t.1, t.2)) tests) =
  Ok (foldr (λ t mt, if t.1 : bool then t.2 else mt) HTTP_UNKNOWN tests).
Proof.
  induction tests as [|[b mt] tests IH]; [done|].
  cbn [map fst snd foldr]. rewrite first_match_cons, IH. by destruct b.
Qed.

Lemma bool_decide_Some (x y : Z) : bool_decide (Some x = Some y) = (x =? y).
Proof.
  destruct (Z.eqb_spec x y) as [->|Hne]; [by apply bool_decide_eq_true_2|].
  apply bool_decide_eq_false_2. congruence.
Qed.

Lemma bool_decide_four (a b c d w x y z : Z) :
  bool_decide ([a; b; c; d] = [w; x; y; z]) = (b =? x) && ((a =? w) && ((c =? y) && ((d =? z) && true))).
Proof.
  destruct (Z.eqb_spec b x), (Z.eqb_spec a w), (Z.eqb_spec c y), (Z.eqb_spec d z); subst;
    first [by apply bool_decide_eq_true_2 | apply bool_decide_eq_false_2; congruence].
Qed.

(** The four-letter names: the code tests index 1 once and then the others. *)
Lemma method_four m p a b c d :
  bytes_at m p [a; b; c; d] →
  get_request_method m (Str p 4) = Ok (method_of [a; b; c; d]).
Proof.
  intros Hb. unfold get_request_method. cbn [slen sp]. simpl (_ =? _). cbv iota.
  unfold method_of. rewrite method_lookup_length. compute_const method_table.
  compute_strs.
  unfold at_. rewrite (load_bytes_at m p _ 1 b Hb) by done. cres_simpl.
  unfold CMP30. rewrite !(cmp_at_spec m p [a; b; c; d]) by (first [done | repeat constructor; simpl; lia]).
  rewrite !(CMP_spec m p [a; b; c; d]) by done.
  rewrite !first_match_cons. simpl. rewrite !bool_decide_Some, !bool_decide_four.
  destruct (b =? 79) eqn:Eb; cbn [andb].
  - replace (b =? 69) with false by blia. cbn [andb].
    by repeat (case_match; [done|]).
  - destruct (b =? 69) eqn:Ee; cbn [andb]; [|done]. by case_match.
Qed.

(** Only the entries of the right length are left when the length is known. *)
Ltac select_entries :=
  match goal with
  | |- context [filter ?P method_table] => compute_const (filter P method_table)
  end.

(** The other lengths: the entries of that length, in the order of the tests. *)
Lemma method_not_four m p l :
  bytes_at m p l → (length l ≤ 9)%nat → length l ≠ 4%nat →
  get_request_method m (Str p (Z.of_nat (length l))) = Ok (method_of l).
Proof.
  intros Hb Hl H4. unfold get_request_method, method_of. rewrite method_lookup_length.
  cbn [slen sp].
  destruct (length l) as [|[|[|[|[|[|[|[|[|[|n]]]]]]]]]] eqn:E; try lia;
    simpl (Z.of_nat _); simpl (_ =? _); cbv iota; select_entries; compute_strs;
    rewrite ?(CMP_spec m p l) by done; rewrite ?first_match_cons; cbn [method_lookup];
    by repeat case_match.
Qed.

(** No name is longer than nine bytes. *)
Lemma method_of_long l : (9 < length l)%nat → method_of l = HTTP_UNKNOWN.
Proof.
  intros Hl. unfold method_of.
  assert (Ht : Forall (λ e, (length e.1 ≤ 9)%nat) method_table)
    by (compute_const method_table; repeat constructor; cbn [fst length]; lia).
  induction Ht as [|[name mt] t Hn Ht IH]; [done|].
  cbn [method_lookup fst] in *. rewrite bool_decide_eq_false_2; [done|]. intros ->. lia.
Qed.

Lemma get_request_method_eq m s l :
  holds m s l → get_request_method m s = Ok (method_of l).
Proof.
  destruct s as [p len]. intros [Hlen Hb]. cbn [slen sp] in *. subst len.
  destruct (decide (length l = 4%nat)) as [H4|H4].
  { destruct l as [|a [|b [|c [|d [|]]]]]; try done. by apply method_four. }
  destruct (decide (length l ≤ 9)%nat) as [H9|H9]; [by apply method_not_four|].
  rewrite method_of_long by lia. unfold get_request_method. cbn [slen].
  by rewrite !(proj2 (Z.eqb_neq _ _)) by lia.
Qed.

Lemma method_lookup_unknown t l :
  Forall (λ e, e.2 ≠ HTTP_UNKNOWN) t →
  method_lookup t l = HTTP_UNKNOWN ↔ l ∉ t.*1.
Proof.
  induction 1 as [|[name mt] t Hn Ht IH]; cbn [method_lookup]; [set_solver|].
  rewrite fmap_cons, not_elem_of_cons. cbn [fst snd] in *.
  case_bool_decide; [|rewrite IH]; tauto.
Qed.

Lemma method_unknown_iff l : method_of l = HTTP_UNKNOWN ↔ l ∉ method_table.*1.
Proof. apply method_lookup_unknown. by repeat constructor. Qed.

(** The method recognised from a name is the one the table gives for its bytes,
    for every name and without reading outside the name; exactly the names that are
    not in the table are unknown. *)
Theorem get_request_method_spec m s l :
  holds m s l →
  get_request_method m s = Ok (method_of l) ∧
  (get_request_method m s = Ok HTTP_UNKNOWN ↔ l ∉ method_table.*1).
Proof.
  intros H. rewrite (get_request_method_eq m s l H). split; [done|].
  rewrite <-method_unknown_iff. split; [by intros [= ?] | by intros ->].
Qed.

Lemma get_request_method_spec_witness :
  get_request_method (list_to_map (zip (seqZ 100 4) (str "POST"))) (Str 100 4)
  = Ok (method_of (str "POST")).
Proof.
  refine (proj1 (get_request_method_spec _ (Str 100 4) (str "POST") _)).
  by vm_compute.
Defined.

(** ** The table [usual] *)

(** The characters the URI states look at. *)
Definition uri_specials : list Z :=
  [0; LF; CR; " "%c; "#"%c; "%"%c; "+"%c; "."%c; "/"%c; "?"%c].

Lemma is_usual_spec ch : is_byte ch → is_usual ch = negb (bool_decide (ch ∈ uri_specials)).
Proof.
  intros Hb. apply Bool.eqb_prop. revert ch Hb.
  apply (byte_forall (λ c, Bool.eqb (is_usual c) (negb (bool_decide (c ∈ uri_specials))))).
  by vm_compute.
Qed.

(** A byte is usual, and skipped by the URI states, unless it is one of the ten
    characters they switch on. *)
Theorem usual_table ch : is_byte ch → is_usual ch = false ↔ ch ∈ uri_specials.
Proof. intros Hb. rewrite is_usual_spec by done. rewrite negb_false_iff. apply bool_decide_eq_true. Qed.

Lemma usual_table_witness : is_usual "?"%c = false ↔ "?"%c ∈ uri_specials.
Proof. apply (usual_table 63). by vm_compute. Defined.
