(* ===== verification/ParseLineSafety.v ===== *)
(** The request-line parser: totality, memory safety, slices, incremental use.

    [line_inv lo p st r] says what the fields of the request hold when the parser
    stands at address [p] in state [st], for a buffer that starts at [lo]. *)

From stdpp Require Import base gmap list numbers strings.
From Stdlib Require Import ZArith Lia.
From S2P Require Import Prelude CStr RequestTypes ParseLine ParseLineRun ParseMethod.

Definition in_range (lo hi : Z) (s : str_t) : Prop :=
  lo ≤ sp s ∧ 0 ≤ slen s ∧ sp s + slen s ≤ hi.
Definition null_or_in (lo hi : Z) (s : str_t) : Prop :=
  (sp s = NULL ∧ slen s = 0) ∨ in_range lo hi s.
(* the pointer is set, the length is not yet *)
Definition opened (lo p : Z) (s : str_t) : Prop := lo ≤ sp s < p.

(** States in which the URI is being read, or has been read. *)
Definition in_uri (st : line_state) : bool :=
  match st with S_after_slash_in_uri | S_check_uri | S_uri => true | _ => false end.
Definition after_uri (st : line_state) : bool :=
  match st with
  | S_host_http_09 | S_check_uri_http_09 | S_http_09 | S_http_H | S_http_HT
  | S_http_HTT | S_http_HTTP | S_first_major_digit | S_major_digit
  | S_first_minor_digit | S_minor_digit | S_spaces_after_digit | S_almost_done => true
  | _ => false
  end.
Definition in_protocol (st : line_state) : bool :=
  match st with
  | S_http_H | S_http_HT | S_http_HTT | S_http_HTTP | S_first_major_digit
  | S_major_digit | S_first_minor_digit | S_minor_digit => true
  | _ => false
  end.

Definition schema_inv (lo p : Z) (st : line_state) (s : str_t) : Prop :=
  match st with
  | S_start | S_method | S_spaces_before_uri => True
  | S_schema => opened lo p s
  | S_schema_slash => in_range lo (p - 1) s
  | S_schema_slash_slash | S_host_start | S_host | S_host_end | S_host_ip_literal
  | S_port | S_host_http_09 => in_range lo (p - 2) s
  | _ => null_or_in lo p s
  end.

Definition host_inv (lo p : Z) (st : line_state) (s : str_t) : Prop :=
  match st with
  | S_host | S_host_end | S_host_ip_literal => opened lo p s
  | S_port => in_range lo p s
  | _ => if in_uri st || after_uri st then null_or_in lo p s else True
  end.

Definition port_inv (lo p : Z) (st : line_state) (s : str_t) : Prop :=
  match st with
  | S_port => lo ≤ sp s ≤ p
  | _ => if in_uri st || after_uri st then null_or_in lo p s else True
  end.

Definition uri_inv (lo p : Z) (st : line_state) (s : str_t) : Prop :=
  if in_uri st then opened lo p s
  else if after_uri st then in_range lo p s ∧ 1 ≤ slen s
  else True.

Definition exten_inv (p : Z) (st : line_state) (u e : str_t) : Prop :=
  (sp e = NULL ∧ slen e = 0) ∨
  (if in_uri st then sp u ≤ sp e ≤ p
   else if after_uri st then sp u ≤ sp e ≤ sp u + slen u
   else False).

Definition protocol_inv (lo p : Z) (st : line_state) (s : str_t) : Prop :=
  if in_protocol st then opened lo p s
  else match st with
       | S_spaces_after_digit | S_almost_done => null_or_in lo p s
       | _ => sp s = NULL ∧ slen s = 0
       end.

Definition line_inv (lo p : Z) (st : line_state) (r : http_request) : Prop :=
  match st with S_start => True | _ => opened lo p (request_line r) end ∧
  match st with
  | S_start => True
  | S_method => opened lo p (method_name r)
  | _ => in_range lo p (method_name r)
  end ∧
  schema_inv lo p st (schema r) ∧
  host_inv lo p st (host r) ∧
  port_inv lo p st (port r) ∧
  uri_inv lo p st (uri r) ∧
  exten_inv p st (uri r) (exten r) ∧
  protocol_inv lo p st (http_protocol r) ∧
  (args r = NULL ∨ lo ≤ args r ≤ p).

(** Every slice of a parsed request line lies between [lo] and [hi]. *)
Definition slices_in (lo hi : Z) (r : http_request) : Prop :=
  in_range lo hi (request_line r) ∧
  in_range lo hi (method_name r) ∧
  in_range lo hi (uri r) ∧
  null_or_in lo hi (schema r) ∧
  null_or_in lo hi (host r) ∧
  null_or_in lo hi (port r) ∧
  null_or_in lo hi (exten r) ∧
  null_or_in lo hi (http_protocol r) ∧
  (args r = NULL ∨ lo ≤ args r ≤ hi).

(** What holds at the label [done]: only the length of [exten] is missing. *)
Definition done_inv (lo hi : Z) (r : http_request) : Prop :=
  slices_in lo hi (set_exten r str_init) ∧
  ((sp (exten r) = NULL ∧ slen (exten r) = 0) ∨
   sp (uri r) ≤ sp (exten r) ≤ sp (uri r) + slen (uri r)).

(** ** Slices of mapped memory hold some bytes *)

Lemma mapped_bytes m p n : mapped m p (p + Z.of_nat n) → ∃ l, length l = n ∧ bytes_at m p l.
Proof.
  revert p. induction n as [|n IH]; intros p Hm; [by exists []|].
  destruct (Hm p) as [c Hc]; [lia|].
  destruct (IH (p + 1)) as (l & Hl & Hb); [intros a Ha; apply Hm; lia|].
  exists (c :: l). simpl. auto.
Qed.

Lemma mapped_holds m lo hi s : mapped m lo hi → in_range lo hi s → ∃ l, holds m s l.
Proof.
  intros Hm (H1 & H2 & H3).
  destruct (mapped_bytes m (sp s) (Z.to_nat (slen s))) as (l & Hl & Hb).
  { intros a Ha. apply Hm. lia. }
  exists l. split; [lia | done].
Qed.

Lemma bytes_at_mapped m p l : bytes_at m p l → mapped m p (p + Z.of_nat (length l)).
Proof.
  intros Hb a Ha. destruct (lookup_lt_is_Some_2 l (Z.to_nat (a - p))) as [c Hc]; [lia|].
  exists c. pose proof (bytes_at_lookup _ _ _ _ _ Hb Hc) as H.
  by replace (p + Z.of_nat (Z.to_nat (a - p))) with a in H by lia.
Qed.

(** ** The invariant is preserved by the switch *)

Ltac inv_unfold :=
  unfold line_inv, done_inv, slices_in, exten_inv, schema_inv, host_inv, port_inv,
    uri_inv, protocol_inv, null_or_in, in_range, opened, until, NULL_STRING, str_init in *;
  cbn in *; unfold NULL in *.

(** The tests on characters say nothing about addresses. *)
Ltac clear_tests :=
  repeat match goal with H : _ = _ :> bool |- _ => clear H end.

(** Lengths computed by pointer subtraction do not wrap. *)
Ltac drop_size_t :=
  repeat match goal with
  | |- context [size_t ?e] => rewrite (size_t_id e) by lia
  end.

Lemma line_switch_inv m lo p st ch r :
  0 < lo ≤ p → p + 1 < 2 ^ 64 → mapped m lo p → line_inv lo p st r →
  match line_switch m st p ch r with
  | Next st' r' => line_inv lo (p + 1) st' r'
  | Again st' r' => line_inv lo p st' r'
  | Fail _ _ => True
  | Done r' => done_inv lo (p + 1) r'
  | Fault => False
  end.
Proof.
  intros Hlo Hp Hm Hinv. destruct st; cbn [line_switch].
  2: {
    unfold line_method. destruct (ch =? 32) eqn:E;
      [|destruct (negb (is_upper_ ch)); [done|]; inv_unfold; lia].
    cbn [method_name set_method_name].
    destruct (mapped_holds m lo p (until (method_name r) p) Hm) as [l Hl].
    { inv_unfold. drop_size_t. lia. }
    rewrite (get_request_method_eq _ _ _ Hl). destruct (negb _); [done|].
    inv_unfold. drop_size_t. lia. }
  all: destruct r; line_cases; try done; clear_tests; inv_unfold; destruct_and?;
    drop_size_t; split_and?; first [assumption | lia].
Qed.

Lemma consume_inv m lo p st ch r :
  0 < lo ≤ p → p + 1 < 2 ^ 64 → mapped m lo p → line_inv lo p st r →
  match consume m st p ch r with
  | Next st' r' => line_inv lo (p + 1) st' r'
  | Fail _ _ => True
  | Done r' => done_inv lo (p + 1) r'
  | Again _ _ | Fault => False
  end.
Proof.
  intros Hlo Hp Hm Hinv. pose proof (consume_not_again m st p ch r) as Hna.
  unfold consume in *. pose proof (line_switch_inv m lo p st ch r Hlo Hp Hm Hinv) as H.
  destruct (line_switch m st p ch r) as [|st1 r1| | |]; try done.
  pose proof (line_switch_inv m lo p st1 ch r1 Hlo Hp Hm H) as H1.
  destruct (line_switch m st1 p ch r1); try done. by eapply Hna.
Qed.

Lemma line_run_inv m lo p st r l :
  0 < lo ≤ p → p + Z.of_nat (length l) < 2 ^ 64 →
  mapped m lo p → bytes_at m p l → line_inv lo p st r →
  match line_run m st p r l with
  | Ok (More p' st' r') => line_inv lo p' st' r' ∧ p' = p + Z.of_nat (length l)
  | Ok (Finished p' r') => done_inv lo (p' + 1) r' ∧ p ≤ p' < p + Z.of_nat (length l)
  | Ok (Failed _ _) => True
  | Ub | Fuel => False
  end.
Proof.
  revert p st r. induction l as [|ch l IH]; intros p st r Hlo Hp Hm Hb Hinv; cbn [line_run length] in *.
  { split; [done | lia]. }
  destruct Hb as [Hc Hb]. pose proof (consume_inv m lo p st ch r Hlo ltac:(lia) Hm Hinv) as H.
  destruct (consume m st p ch r) as [st1 r1| | |r1|]; try done; [|split; [done|lia]].
  assert (Hm1 : mapped m lo (p + 1)).
  { intros a Ha. destruct (decide (a = p)) as [->|]; [by eexists | apply Hm; lia]. }
  specialize (IH (p + 1) st1 r1 ltac:(lia) ltac:(lia) Hm1 Hb H).
  destruct (line_run m st1 (p + 1) r1 l) as [[p' st' r'| |p' r']| |]; try done; lia || (split; [tauto|lia]).
Qed.
