(* ===== verification/ParseLineFacts.v ===== *)
(** The request-line parser as a step of the connection.

    [parse_line_ready] packs totality, memory safety and the slices into one
    statement over [line_ready]; the properties of the parser are read off it. *)

From stdpp Require Import base gmap list numbers strings.
From Stdlib Require Import ZArith Lia.
From S2P Require Import Prelude CStr RequestTypes ParseLine ParseLineRun ParseMethod ParseLineSafety.

(** ** Theorems about the parser *)

(** The buffer of the request is well formed and its received part is mapped. *)
Definition buffer_ok (m : gmap Z Z) (b : buffer) : Prop :=
  0 < b_start b ≤ b_pos b ∧ b_pos b ≤ b_last b ∧ b_last b ≤ b_end b ∧
  b_end b < 2 ^ 64 ∧ mapped m (b_start b) (b_end b).

(** A request the parser can be started or resumed on. *)
Definition line_ready (m : gmap Z Z) (r : http_request) : Prop :=
  buffer_ok m (header r) ∧
  ∃ st, line_state_of (state r) = Some st ∧
        line_inv (b_start (header r)) (b_pos (header r)) st r.

Lemma buffer_bytes m b :
  buffer_ok m b →
  ∃ l, b_last b = b_pos b + Z.of_nat (length l) ∧ bytes_at m (b_pos b) l.
Proof.
  intros (H1 & H2 & H3 & H4 & Hm).
  destruct (mapped_bytes m (b_pos b) (Z.to_nat (b_last b - b_pos b))) as (l & Hl & Hb).
  { intros a Ha. apply Hm. lia. }
  exists l. split; [lia | done].
Qed.

Lemma mapped_mono m lo hi lo' hi' : mapped m lo hi → lo ≤ lo' → hi' ≤ hi → mapped m lo' hi'.
Proof. intros Hm ?? a Ha. apply Hm. lia. Qed.

(** The version as the code computes it; no intermediate value leaves [int]. *)
Definition version_of (major minor : Z) : Z :=
  if minor =? 9 then 9 else major * 1000 + minor.

Lemma line_done_request p r :
  let r' := (line_done p r).2 in
  header r' = set_pos (header r) (p + 1) ∧ state r' = 0 ∧
  http_version r' = version_of (http_major r) (http_minor r).
Proof.
  destruct r. unfold line_done, version_of. req_simpl.
  destruct (negb (sp exten =? NULL)); req_simpl; destruct (http_minor =? 9) eqn:E; req_simpl;
    case_match; req_simpl; split_and!; blia || done.
Qed.

Lemma line_done_slices lo hi p r :
  0 < lo → hi < 2 ^ 64 → done_inv lo hi r → slices_in lo hi (line_done p r).2.
Proof.
  intros Hlo Hhi Hinv. destruct r. unfold line_done. req_simpl.
  destruct (Z.eqb_spec (sp exten) NULL) as [En|En]; cbn [negb]; req_simpl;
    destruct (http_minor =? 9); req_simpl; case_match; clear_tests; inv_unfold; destruct_and?; drop_size_t; split_and?;
    first [assumption | lia].
Qed.

(** The parser as one step of the connection: it returns, it touches no unmapped
    byte, it stays in the buffer, and what it leaves is fit for the next step. *)
Lemma parse_line_ready m r :
  line_ready m r →
  ∃ code r', http_parse_request_line m r = Ok (code, r') ∧ -25 ≤ code ≤ 1 ∧
    (code = 1 → line_ready m r' ∧ header r' = set_pos (header r) (b_last (header r))) ∧
    (code = 0 → slices_in (b_start (header r)) (b_pos (header r')) r' ∧ state r' = 0 ∧
       ∃ p, header r' = set_pos (header r) p ∧
            b_pos (header r) < p ≤ b_last (header r)).
Proof.
  intros [Hbuf (st & Hst & Hinv)]. destruct (buffer_bytes _ _ Hbuf) as (l & Hlast & Hb).
  destruct Hbuf as (H1 & H2 & H3 & H4 & Hm).
  rewrite (parse_line_run m r l st) by done.
  pose proof (line_run_inv m (b_start (header r)) (b_pos (header r)) st r l H1 ltac:(lia)
    ltac:(eapply mapped_mono; [exact Hm|lia..]) Hb Hinv) as Hrun.
  destruct (line_run m st _ r l) as [[p' st' r'|c r'|p' r']| |] eqn:E; try done; cres_simpl.
  - pose proof (line_run_keeps_header _ _ _ _ _ _ E) as Hh. cbn [exit_request] in Hh.
    destruct Hrun as [Hr ->]. exists 1, (line_return (More (b_pos (header r) + Z.of_nat (length l)) st' r')).2. split; [done|]. split; [lia|]. split; [|lia].
    intros _. rewrite <-Hlast in *.
    assert (Hpos : header (line_return (More (b_last (header r)) st' r')).2
                   = set_pos (header r) (b_last (header r))) by (cbn; by rewrite Hh).
    split; [|exact Hpos]. split; rewrite Hpos.
    + split_and!; cbn; try lia. done.
    + exists st'. split; [apply line_state_of_code|exact Hr].
  - exists c, r'. pose proof (line_run_fail_neg _ _ _ _ _ _ _ E).
    split; [done|]. split; [lia|]. split; lia.
  - pose proof (line_run_keeps_header _ _ _ _ _ _ E) as Hh. cbn [exit_request] in Hh.
    destruct Hrun as [Hd Hp]. cbn [line_return].
    pose proof (line_done_code p' r') as Hc.
    pose proof (line_done_request p' r') as (Hh' & Hs & _).
    exists (line_done p' r').1, (line_done p' r').2.
    split; [by destruct (line_done p' r')|]. split; [lia|]. split; [lia|]. intros _.
    rewrite Hh', Hh. cbn [b_pos set_pos]. split; [|split; [done|]].
    + apply line_done_slices; [lia|lia|done].
    + exists (p' + 1). split; [done|lia].
Qed.

(** ** Starting on a fresh request *)

(** What [http_request_handler] establishes before the first call. *)
Definition fresh_request (r : http_request) : Prop :=
  state r = 0 ∧ exten r = NULL_STRING ∧ http_protocol r = NULL_STRING ∧ args r = NULL.

Lemma fresh_line_ready m r : buffer_ok m (header r) → fresh_request r → line_ready m r.
Proof.
  intros Hb (Hs & He & Hp & Ha). split; [done|]. exists S_start. rewrite Hs. split; [done|].
  unfold line_inv. rewrite He, Hp, Ha. inv_unfold. split_and!; auto.
Qed.

Lemma bytes_buffer_ok m b :
  0 < b_start b ≤ b_pos b → b_pos b ≤ b_last b → b_last b ≤ b_end b → b_end b < 2 ^ 64 →
  (∃ l, length l = Z.to_nat (b_end b - b_start b) ∧ bytes_at m (b_start b) l) →
  buffer_ok m b.
Proof.
  intros ???? (l & Hl & Hb). split_and!; try lia.
  apply bytes_at_mapped in Hb. eapply mapped_mono; [exact Hb|lia..].
Qed.

(** The request used in the witnesses: a buffer at address 4096 that holds the given
    bytes, all received and not yet parsed. *)
Definition loaded (l : list Z) : http_request :=
  zero_request (Buffer 4096 (4096 + Z.of_nat (length l)) 4096 (4096 + Z.of_nat (length l))).

Lemma loaded_ready (l : list Z) :
  Z.of_nat (length l) < 2 ^ 32 → bytes_at (mem_of 4096 l) 4096 l → line_ready (mem_of 4096 l) (loaded l).
Proof.
  intros Hl Hb. apply fresh_line_ready; [|by repeat split].
  apply bytes_buffer_ok; cbn; try lia. exists l. split; [lia|done].
Qed.

(** ** Properties *)

(** C8: on a well-formed request the parser returns, with one of its documented codes,
    and reads no byte outside the buffer; when it asks for more data it has consumed
    everything received and can be resumed. *)
Theorem parse_line_total m r :
  line_ready m r →
  ∃ code r', http_parse_request_line m r = Ok (code, r') ∧ -25 ≤ code ≤ 1 ∧
    (code = 1 → line_ready m r' ∧ b_pos (header r') = b_last (header r)).
Proof.
  intros (code & r' & H & Hc & H1 & _)%parse_line_ready. exists code, r'.
  split; [done|]. split; [done|]. intros ->. destruct (H1 eq_refl) as [? ->]. done.
Qed.

Lemma parse_line_total_witness :
  ∃ code r', http_parse_request_line (mem_of 4096 (str "GET /ind")) (loaded (str "GET /ind"))
               = Ok (code, r') ∧ -25 ≤ code ≤ 1 ∧
    (code = 1 → line_ready (mem_of 4096 (str "GET /ind")) r' ∧
       b_pos (header r') = b_last (header (loaded (str "GET /ind")))).
Proof. apply parse_line_total. apply loaded_ready; by vm_compute. Defined.

(** C11: when a request line is accepted, every slice the parser recorded (line, method,
    URI, schema, host, port, extension, protocol, arguments) lies inside the part of the
    buffer that was consumed, and the consumed part ends within the received data. *)
Theorem parse_line_slices m r r' :
  line_ready m r → http_parse_request_line m r = Ok (0, r') →
  slices_in (b_start (header r)) (b_pos (header r')) r' ∧
  b_pos (header r) < b_pos (header r') ≤ b_last (header r).
Proof.
  intros (code & r1 & H & _ & _ & H0)%parse_line_ready E. rewrite E in H. simplify_eq.
  destruct (H0 eq_refl) as (Hs & _ & p & Hh & Hp). rewrite Hh in *. done.
Qed.

(* an absolute URI with a port and an extension *)
Definition sample_line : list Z := str "GET http://a.b:80/x/y.html HTTP/1.0" ++ CRLF.

Lemma sample_line_ready : line_ready (mem_of 4096 sample_line) (loaded sample_line).
Proof. apply loaded_ready; by vm_compute. Qed.

Definition sample_request : http_request :=
  match http_parse_request_line (mem_of 4096 sample_line) (loaded sample_line) with
  | Ok (_, r') => r'
  | _ => loaded sample_line
  end.

Lemma parse_line_slices_witness :
  slices_in (b_start (header (loaded sample_line))) (b_pos (header sample_request)) sample_request ∧
  b_pos (header (loaded sample_line)) < b_pos (header sample_request)
    ≤ b_last (header (loaded sample_line)).
Proof.
  apply (parse_line_slices (mem_of 4096 sample_line) (loaded sample_line) sample_request).
  - exact sample_line_ready.
  - vm_compute. reflexivity.
Defined.

(** C10: parsing is incremental.  Cutting the received bytes at any point, parsing the
    first piece and resuming on the rest gives the return code of parsing them at once,
    and the same request whenever that code is not a syntax error. *)
Theorem parse_line_incremental m r mid :
  line_ready m r → b_pos (header r) ≤ mid ≤ b_last (header r) →
  ∃ x y, http_parse_request_line m r = Ok x ∧ parse_in_two m r mid = Ok y ∧
    x.1 = y.1 ∧ (x.2 = y.2 ∨ -24 ≤ x.1 ≤ -1).
Proof.
  intros Hr Hmid. destruct (parse_line_ready m r Hr) as (c & r' & H & _).
  destruct Hr as [Hbuf (st & Hst & _)]. destruct (buffer_bytes _ _ Hbuf) as (l & Hlast & Hb).
  set (n := Z.to_nat (mid - b_pos (header r))).
  rewrite <-(take_drop n l) in Hb, Hlast.
  pose proof (parse_line_split m r (take n l) (drop n l) st Hst Hb Hlast) as Hs.
  rewrite length_take_le in Hs by (rewrite take_drop in Hlast; lia).
  replace (b_pos (header r) + Z.of_nat n) with mid in Hs by lia.
  rewrite H in *. destruct (parse_in_two m r mid) as [y| |]; try done.
  exists (c, r'), y. done.
Qed.

Lemma parse_line_incremental_witness :
  ∃ x y, http_parse_request_line (mem_of 4096 sample_line) (loaded sample_line) = Ok x ∧
    parse_in_two (mem_of 4096 sample_line) (loaded sample_line) 4104 = Ok y ∧
    x.1 = y.1 ∧ (x.2 = y.2 ∨ -24 ≤ x.1 ≤ -1).
Proof.
  apply parse_line_incremental; [exact sample_line_ready|]. vm_compute. split; discriminate.
Defined.
