(* ===== verification/ParseLineRoundTrip.v ===== *)
(** Printing and parsing a request line.

    [print_line] is the text of a request line in origin form.  The lemmas follow
    the parser through its segments (method, URI, protocol, version digits);
    [parse_print_line] puts them together. *)

From stdpp Require Import base gmap list numbers strings.
From Stdlib Require Import ZArith Lia.
From S2P Require Import Prelude CStr RequestTypes ParseLine ParseLineRun ParseMethod ParseLineSafety.
From S2P Require Import ParseLineFacts.

(** ** The text of a request line *)

Definition print_line (name uri major minor : list Z) : list Z :=
  name ++ [" "%c] ++ uri ++ str " HTTP/" ++ major ++ ["."%c] ++ minor.

(* a byte that ends or breaks the URI *)
Definition uri_stop (c : Z) : bool :=
  (c =? 0) || (c =? LF) || (c =? CR) || (c =? " "%c).

(* digits, the first of them at least [d] *)
Definition number_from (d : Z) (l : list Z) : Prop :=
  match l with
  | c :: l' => d ≤ c ≤ "9"%c ∧ forallb is_digit l' = true
  | [] => False
  end.

(** ** Segments *)

Lemma is_upper_not_special c :
  is_upper_ c = true → (c =? CR) = false ∧ (c =? LF) = false ∧ (c =? " "%c) = false.
Proof. unfold is_upper_, CR, LF. bool_to_prop. lia. Qed.

Lemma run_blank_prefix m p r pre c l :
  forallb (λ c, (c =? CR) || (c =? LF)) pre = true →
  line_run m S_start p r (pre ++ c :: l) =
  line_run m S_start (p + Z.of_nat (length pre)) r (c :: l).
Proof.
  revert p r. induction pre as [|a pre IH]; intros p r Hpre; cbn [app length].
  - by rewrite Z.add_0_r.
  - cbn [forallb] in Hpre. apply andb_true_iff in Hpre as [Ha Hpre].
    assert (Hstep : line_run m S_start p r (a :: pre ++ c :: l) =
      line_run m S_start (p + 1) (set_request_line r (set_sp (request_line r) p)) (pre ++ c :: l)).
    { cbn [line_run]. unfold consume. cbn [line_switch]. unfold line_start. by rewrite Ha. }
    rewrite Hstep, IH by done.
    replace (p + 1 + Z.of_nat (length pre)) with (p + Z.of_nat (S (length pre))) by lia.
    by destruct r.
Qed.

Lemma run_method_rest m p r l :
  forallb is_upper_ l = true →
  line_run m S_method p r l = Ok (More (p + Z.of_nat (length l)) S_method r).
Proof.
  revert p. induction l as [|c l IH]; intros p Hl; cbn [line_run length].
  - by rewrite Z.add_0_r.
  - cbn [forallb] in Hl. apply andb_true_iff in Hl as [Hc Hl].
    destruct (is_upper_not_special c Hc) as (_ & _ & Hs).
    unfold consume. cbn [line_switch]. unfold line_method. rewrite Hs, Hc. cbn [negb].
    rewrite IH by done. by replace (p + 1 + Z.of_nat (length l)) with (p + Z.of_nat (S (length l))) by lia.
Qed.

(** The method: from the start of the line to the space after the name. *)
Lemma run_method m p r name mt :
  name ≠ [] → forallb is_upper_ name = true → bytes_at m p name →
  method_of name = mt → mt ≠ HTTP_UNKNOWN → Z.of_nat (length name) < 2 ^ 64 →
  line_run m S_start p r (name ++ [" "%c]) =
  Ok (More (p + Z.of_nat (length name) + 1) S_spaces_before_uri
    (set_method (set_method_name (set_request_line r (set_sp (request_line r) p))
      (Str p (Z.of_nat (length name)))) mt)).
Proof.
  intros Hne Hup Hb Hmt Hknown Hlen. rewrite line_run_app.
  destruct name as [|c name]; [done|].
  pose proof Hup as Hup'. cbn [forallb] in Hup'. apply andb_true_iff in Hup' as [Hc Hrest].
  destruct (is_upper_not_special c Hc) as (H1 & H2 & _).
  set (r1 := set_method_name (set_request_line r (set_sp (request_line r) p)) (set_sp (method_name r) p)).
  assert (Hrun : line_run m S_start p r (c :: name) = Ok (More (p + Z.of_nat (length (c :: name))) S_method r1)).
  { cbn [line_run]. unfold consume. cbn [line_switch]. unfold line_start.
    rewrite H1, H2, Hc. cbn [orb negb]. rewrite run_method_rest by done.
    cbn [length]. by replace (p + 1 + Z.of_nat (length name)) with (p + Z.of_nat (S (length name))) by lia. }
  rewrite Hrun. cres_simpl. cbn [line_run]. unfold consume. cbn [line_switch]. unfold line_method.
  rewrite Z.eqb_refl.
  assert (Hu : until (method_name r1) (p + Z.of_nat (length (c :: name))) = Str p (Z.of_nat (length (c :: name)))).
  { unfold until, r1, set_slen. cbn [sp set_sp method_name set_method_name]. f_equal. rewrite size_t_id; lia. }
  req_simpl. rewrite Hu, (get_request_method_eq m _ (c :: name)) by done. rewrite Hmt.
  by destruct mt.
Qed.

(** ** The URI *)

(** The fields the URI states leave alone. *)
Definition same_core (r r' : http_request) : Prop :=
  header r' = header r ∧ request_line r' = request_line r ∧
  method_name r' = method_name r ∧ method r' = method r ∧ schema r' = schema r ∧
  host r' = host r ∧ port r' = port r ∧ uri r' = uri r.

Lemma same_core_refl r : same_core r r.
Proof. by repeat split. Qed.

Lemma same_core_trans r1 r2 r3 : same_core r1 r2 → same_core r2 r3 → same_core r1 r3.
Proof. unfold same_core. intuition congruence. Qed.

Lemma uri_step m st p c r :
  is_byte c → in_uri st = true → uri_stop c = false →
  ∃ st' r', consume m st p c r = Next st' r' ∧ in_uri st' = true ∧ same_core r r'.
Proof.
  intros Hc Hst Hstop. unfold uri_stop in Hstop. rewrite !orb_false_iff in Hstop.
  destruct Hstop as [[[H0 HLF] HCR] Hsp].
  destruct st; try done; unfold consume; cbn [line_switch];
    unfold line_after_slash_in_uri, line_check_uri, line_uri; rewrite ?H0, ?HLF, ?HCR, ?Hsp;
    repeat case_match; simplify_eq; by do 2 eexists; split; [reflexivity|]; repeat split.
Qed.

Lemma run_uri_rest m st p r l :
  Forall is_byte l → in_uri st = true → forallb (λ c, negb (uri_stop c)) l = true →
  ∃ st' r', line_run m st p r l = Ok (More (p + Z.of_nat (length l)) st' r') ∧
    in_uri st' = true ∧ same_core r r'.
Proof.
  revert st p r. induction l as [|c l IH]; intros st p r Hb Hst Hl; cbn [line_run length].
  - exists st, r. rewrite Z.add_0_r. auto using same_core_refl.
  - apply Forall_cons in Hb as [Hc Hb]. cbn [forallb] in Hl.
    apply andb_true_iff in Hl as [Hs Hl]. apply negb_true_iff in Hs.
    destruct (uri_step m st p c r Hc Hst Hs) as (st1 & r1 & -> & Hst1 & Hcore1).
    destruct (IH st1 (p + 1) r1 Hb Hst1 Hl) as (st2 & r2 & -> & Hst2 & Hcore2).
    exists st2, r2. rewrite Nat2Z.inj_succ, <-Z.add_1_l, Z.add_assoc.
    eauto using same_core_trans.
Qed.

(** The URI and the space after it. *)
Lemma run_uri m p r rest :
  Forall is_byte rest → forallb (λ c, negb (uri_stop c)) rest = true →
  Z.of_nat (length rest) + 1 < 2 ^ 64 →
  ∃ st' r', line_run m S_spaces_before_uri p r ("/"%c :: rest ++ [" "%c]) =
      Ok (More (p + Z.of_nat (length rest) + 2) st' r') ∧
    (st' = S_check_uri_http_09 ∨ st' = S_http_09) ∧
    same_core (set_uri (set_port (set_host (set_schema r str_init) str_init) str_init)
                 (Str p (Z.of_nat (length rest) + 1))) r'.
Proof.
  intros Hb Hrest Hlen.
  set (r0 := set_port (set_host (set_schema (set_uri r (set_sp (uri r) p)) str_init) str_init) str_init).
  assert (H0 : line_run m S_spaces_before_uri p r ("/"%c :: rest ++ [" "%c]) =
               line_run m S_after_slash_in_uri (p + 1) r0 (rest ++ [" "%c])) by done.
  rewrite H0, line_run_app.
  destruct (run_uri_rest m S_after_slash_in_uri (p + 1) r0 rest Hb eq_refl Hrest)
    as (st1 & r1 & -> & Hst1 & Hcore). cres_simpl.
  assert (Hu : until (uri r1) (p + 1 + Z.of_nat (length rest)) = Str p (Z.of_nat (length rest) + 1)).
  { destruct Hcore as (_ & _ & _ & _ & _ & _ & _ & ->). unfold until, set_slen, r0. req_simpl.
    f_equal. rewrite size_t_id; lia. }
  cbn [line_run].
  replace (p + Z.of_nat (length rest) + 2) with (p + 1 + Z.of_nat (length rest) + 1) by lia.
  assert (Hfin : same_core (set_uri (set_port (set_host (set_schema r str_init) str_init) str_init)
      (Str p (Z.of_nat (length rest) + 1))) (set_uri r1 (until (uri r1) (p + 1 + Z.of_nat (length rest))))).
  { unfold same_core, r0 in *. req_simpl. intuition congruence. }
  destruct st1; try done; do 2 eexists; (split; [reflexivity|]); auto.
Qed.

(** ** Protocol and version *)

Lemma run_http m st p r :
  st = S_check_uri_http_09 ∨ st = S_http_09 →
  line_run m st p r (str "HTTP/") =
  Ok (More (p + 5) S_first_major_digit (set_http_protocol r (set_sp (http_protocol r) p))).
Proof.
  intros [-> | ->]; compute_strs; cbn -[Z.add]; by replace (p + 1 + 1 + 1 + 1 + 1) with (p + 5) by lia.
Qed.

(* a 16-bit accumulator of decimal digits *)
Definition digit16 (v c : Z) : Z := u16 (v * 10 + c - "0"%c).

Lemma digit16_fold l v :
  fold_left digit16 l (u16 v) = u16 (fold_left dec_step l v).
Proof.
  revert v. induction l as [|c l IH]; intros v; [done|]. cbn [fold_left].
  rewrite <-IH. f_equal. unfold digit16, u16, dec_step. change "0"%c with 48.
  replace (v mod 2 ^ 16 * 10 + c - 48) with (v mod 2 ^ 16 * 10 + (c - 48)) by lia.
  rewrite <-Z.add_mod_idemp_l, Z.mul_mod_idemp_l, Z.add_mod_idemp_l by done. f_equal. lia.
Qed.

Lemma is_digit_tests c :
  is_digit c = true →
  (c =? "."%c) = false ∧ (c =? CR) = false ∧ (c =? LF) = false ∧ (c =? " "%c) = false ∧
  (c <? "0"%c) || ("9"%c <? c) = false.
Proof. unfold is_digit, CR, LF. bool_to_prop. lia. Qed.

Lemma run_major_rest m p r v l :
  forallb is_digit l = true →
  line_run m S_major_digit p (set_http_major r v) l =
  Ok (More (p + Z.of_nat (length l)) S_major_digit (set_http_major r (fold_left digit16 l v))).
Proof.
  revert p v. induction l as [|c l IH]; intros p v Hl; cbn [line_run length].
  - by rewrite Z.add_0_r.
  - cbn [forallb] in Hl. apply andb_true_iff in Hl as [Hc Hl].
    destruct (is_digit_tests c Hc) as (Hd & _ & _ & _ & Hr).
    unfold consume. cbn [line_switch]. unfold line_major_digit. rewrite Hd, Hr. req_simpl.
    etransitivity; [apply (IH (p + 1) (digit16 v c) Hl)|]. cbn [fold_left].
    by replace (p + 1 + Z.of_nat (length l)) with (p + Z.of_nat (S (length l))) by lia.
Qed.

Lemma run_minor_rest m p r v l :
  forallb is_digit l = true →
  line_run m S_minor_digit p (set_http_minor r v) l =
  Ok (More (p + Z.of_nat (length l)) S_minor_digit (set_http_minor r (fold_left digit16 l v))).
Proof.
  revert p v. induction l as [|c l IH]; intros p v Hl; cbn [line_run length].
  - by rewrite Z.add_0_r.
  - cbn [forallb] in Hl. apply andb_true_iff in Hl as [Hc Hl].
    destruct (is_digit_tests c Hc) as (_ & H1 & H2 & H3 & Hr).
    unfold consume. cbn [line_switch]. unfold line_minor_digit. rewrite H1, H2, H3, Hr. req_simpl.
    etransitivity; [apply (IH (p + 1) (digit16 v c) Hl)|]. cbn [fold_left].
    by replace (p + 1 + Z.of_nat (length l)) with (p + Z.of_nat (S (length l))) by lia.
Qed.

Lemma run_major m p r major :
  number_from "1"%c major →
  line_run m S_first_major_digit p r (major ++ ["."%c]) =
  Ok (More (p + Z.of_nat (length major) + 1) S_first_minor_digit
        (set_http_major r (u16 (decimal major)))).
Proof.
  destruct major as [|c l]; [done|]. intros [Hc Hl].
  assert (Hfirst : line_run m S_first_major_digit p r (c :: l) =
    line_run m S_major_digit (p + 1) (set_http_major r (u16 (dec_step 0 c))) l).
  { cbn [line_run]. unfold consume. cbn [line_switch]. unfold line_first_major_digit.
    by replace ((c <? "1"%c) || ("9"%c <? c)) with false by (symmetry; blia). }
  rewrite line_run_app, Hfirst, run_major_rest by done. cres_simpl.
  rewrite digit16_fold. unfold decimal. cbn [length fold_left].
  by replace (p + Z.of_nat (S (length l)) + 1) with (p + 1 + Z.of_nat (length l) + 1) by lia.
Qed.

Lemma run_minor m p r minor :
  number_from "0"%c minor →
  line_run m S_first_minor_digit p r minor =
  Ok (More (p + Z.of_nat (length minor)) S_minor_digit (set_http_minor r (u16 (decimal minor)))).
Proof.
  destruct minor as [|c l]; [done|]. intros [Hc Hl]. cbn [line_run].
  unfold consume. cbn [line_switch]. unfold line_first_minor_digit.
  replace ((c <? "0"%c) || ("9"%c <? c)) with false by (symmetry; blia). cbv beta iota.
  etransitivity; [apply (run_minor_rest m (p + 1) r (u16 (dec_step 0 c)) l Hl)|].
  rewrite digit16_fold. unfold decimal. cbn [length fold_left].
  by replace (p + 1 + Z.of_nat (length l)) with (p + Z.of_nat (S (length l))) by lia.
Qed.

Lemma run_crlf m p r tail :
  line_run m S_minor_digit p r (CRLF ++ tail) =
  Ok (Finished (p + 1)
       (set_request_line (set_http_protocol r (until (http_protocol r) p))
          (set_slen (request_line r) (size_t (p + 1 - sp (request_line r) - 1))))).
Proof. by destruct r. Qed.

(** ** The whole line *)

Section Line.
Context (m : gmap Z Z) (p : Z) (name rest major minor : list Z) (mt : http_method).

Definition protocol_text : list Z := str "HTTP/" ++ major ++ ["."%c] ++ minor.

Lemma print_line_protocol u :
  print_line name u major minor = name ++ [" "%c] ++ u ++ [" "%c] ++ protocol_text.
Proof. done. Qed.

Lemma run_protocol st q r tail :
  st = S_check_uri_http_09 ∨ st = S_http_09 →
  number_from "1"%c major → number_from "0"%c minor →
  Z.of_nat (length protocol_text) < 2 ^ 64 →
  0 ≤ q + Z.of_nat (length protocol_text) - sp (request_line r) < 2 ^ 64 →
  let hi := q + Z.of_nat (length protocol_text) in
  line_run m st q r (protocol_text ++ CRLF ++ tail) =
  Ok (Finished (hi + 1)
    (set_request_line (set_http_protocol
       (set_http_minor (set_http_major r (u16 (decimal major))) (u16 (decimal minor)))
       (Str q (Z.of_nat (length protocol_text))))
       (Str (sp (request_line r)) (hi - sp (request_line r))))).
Proof.
  intros Hst Hmaj Hmin Hlen Hrl hi. subst hi. unfold protocol_text in *.
  assert (H5 : length (str "HTTP/") = 5%nat) by done.
  rewrite !length_app, H5 in *. cbn [length] in *.
  rewrite <-!app_assoc, line_run_app, run_http by done. cres_simpl.
  rewrite (app_assoc major), line_run_app, run_major by done. cres_simpl.
  rewrite line_run_app, run_minor by done. cres_simpl.
  rewrite run_crlf. unfold until, set_slen. req_simpl. rewrite !size_t_id by lia.
  set (k := Z.of_nat (5 + _)).
  replace (q + 5 + Z.of_nat (length major) + 1 + Z.of_nat (length minor)) with (q + k) by lia.
  replace (q + k - q) with k by lia.
  replace (q + k + 1 - sp (request_line r) - 1) with (q + k - sp (request_line r)) by lia.
  by destruct r.
Qed.

Lemma run_print_line r tail :
  let line := print_line name ("/"%c :: rest) major minor in
  name ≠ [] → forallb is_upper_ name = true → method_of name = mt → mt ≠ HTTP_UNKNOWN →
  Forall is_byte rest → forallb (λ c, negb (uri_stop c)) rest = true →
  number_from "1"%c major → number_from "0"%c minor →
  bytes_at m p line → Z.of_nat (length line) < 2 ^ 64 →
  ∃ r', line_run m S_start p r (line ++ CRLF ++ tail) =
      Ok (Finished (p + Z.of_nat (length line) + 1) r') ∧
    header r' = header r ∧ method r' = mt ∧
    request_line r' = Str p (Z.of_nat (length line)) ∧
    method_name r' = Str p (Z.of_nat (length name)) ∧
    uri r' = Str (p + Z.of_nat (length name) + 1) (Z.of_nat (length rest) + 1) ∧
    http_protocol r' = Str (p + Z.of_nat (length name) + Z.of_nat (length rest) + 3)
                           (Z.of_nat (length protocol_text)) ∧
    http_major r' = u16 (decimal major) ∧ http_minor r' = u16 (decimal minor).
Proof.
  intros line Hne Hup Hmt Hknown Hbyte Hstop Hmaj Hmin Hb Hlen. subst line.
  rewrite print_line_protocol in *. rewrite <-!app_assoc.
  apply bytes_at_app in Hb as [Hbn _].
  rewrite !length_app in *. cbn [length] in *.
  rewrite (app_assoc name), line_run_app, (run_method m p r name mt) by (done || lia). cres_simpl.
  set (r1 := set_method _ mt).
  destruct (run_uri m (p + Z.of_nat (length name) + 1) r1 rest Hbyte Hstop ltac:(lia))
    as (st & r2 & Hrun & Hst & Hcore).
  change (("/"%c :: rest) ++ [" "%c] ++ protocol_text ++ CRLF ++ tail)
    with ("/"%c :: (rest ++ [" "%c] ++ protocol_text ++ CRLF ++ tail)).
  rewrite (app_assoc rest [" "%c]), app_comm_cons, line_run_app, Hrun. cres_simpl.
  destruct Hcore as (Hh & Hrl & Hmn & Hm & _ & _ & _ & Huri). unfold r1 in *. req_simpl.
  rewrite run_protocol; try done; [|lia|rewrite Hrl; unfold set_sp; cbn [sp]; lia].
  eexists. split; [|].
  { do 2 f_equal. lia. }
  req_simpl. rewrite Hrl, Hh, Hm, Hmn, Huri. unfold set_sp. cbn [sp].
  split_and!; try done; f_equal; lia.
Qed.
End Line.

(** Names of the table are words of capitals, and the table is a function. *)
Lemma method_table_entry name mt :
  (name, mt) ∈ method_table →
  name ≠ [] ∧ forallb is_upper_ name = true ∧ method_of name = mt ∧ mt ≠ HTTP_UNKNOWN ∧
  (length name ≤ 9)%nat.
Proof.
  intros H.
  assert (Hall : Forall (λ e, e.1 ≠ [] ∧ forallb is_upper_ e.1 = true ∧ method_of e.1 = e.2 ∧
    e.2 ≠ HTTP_UNKNOWN ∧ (length e.1 ≤ 9)%nat) method_table).
  { repeat constructor; try done; simpl; lia. }
  by apply (proj1 (Forall_forall _ _) Hall) in H.
Qed.

(** A request line in origin form, with a method of the table. *)
Record line_text (name : list Z) (mt : http_method) (rest major minor : list Z) : Prop := {
  lt_method : (name, mt) ∈ method_table;
  lt_bytes : Forall is_byte rest;
  lt_uri : forallb (λ c, negb (uri_stop c)) rest = true;
  lt_major : number_from "1"%c major;
  lt_minor : number_from "0"%c minor
}.

Lemma line_done_fields p r :
  let r' := (line_done p r).2 in
  request_line r' = request_line r ∧ method_name r' = method_name r ∧ method r' = method r ∧
  uri r' = uri r ∧ http_protocol r' = http_protocol r ∧ host r' = host r.
Proof.
  destruct r. unfold line_done. req_simpl.
  destruct (negb (sp exten =? NULL)); req_simpl; destruct (http_minor =? 9) eqn:E; req_simpl;
    case_match; req_simpl; done.
Qed.

Lemma line_done_return p r :
  (line_done p r).1 =
  if (version_of (http_major r) (http_minor r) =? 9) && negb (bool_decide (method r = HTTP_GET))
  then -25 else 0.
Proof.
  destruct r. unfold line_done, version_of. req_simpl.
  destruct (negb (sp exten =? NULL)); req_simpl; destruct (http_minor =? 9) eqn:E; req_simpl;
    try (apply Z.eqb_eq in E as ->); first [by destruct (bool_decide _) | by case_match].
Qed.

(** C9: parsing a printed request line gives it back.  For every method of the table,
    every URI starting with a slash and free of NUL, CR, LF and spaces, and every version
    number, with blank lines before it and anything after it, the parser recognises the
    method, cuts out the line, the name, the URI and the protocol, computes the version
    from 16-bit numbers, and stops right after the line; it refuses exactly the version 9
    on methods other than GET. *)
Theorem parse_print_line m r pre name mt rest major minor tail :
  let line := print_line name ("/"%c :: rest) major minor in
  let full := pre ++ line ++ CRLF ++ tail in
  let version := version_of (u16 (decimal major)) (u16 (decimal minor)) in
  state r = 0 → line_text name mt rest major minor →
  forallb (λ c, (c =? CR) || (c =? LF)) pre = true →
  bytes_at m (b_pos (header r)) full →
  b_last (header r) = b_pos (header r) + Z.of_nat (length full) →
  Z.of_nat (length full) < 2 ^ 64 →
  ∃ code r', http_parse_request_line m r = Ok (code, r') ∧
    code = (if (version =? 9) && negb (bool_decide (mt = HTTP_GET)) then -25 else 0) ∧
    method r' = mt ∧ holds m (request_line r') line ∧ holds m (method_name r') name ∧
    holds m (uri r') ("/"%c :: rest) ∧ holds m (http_protocol r') (protocol_text major minor) ∧
    http_version r' = version ∧ state r' = 0 ∧
    b_pos (header r') = b_pos (header r) + Z.of_nat (length (pre ++ line ++ CRLF)).
Proof.
  intros line full version Hst [Hmt Hby Hu Hmaj Hmin] Hpre Hb Hlast Hlen.
  destruct (method_table_entry name mt Hmt) as (Hne & Hup & Hof & Hknown & _).
  rewrite (parse_line_run m r full S_start) by (by rewrite ?Hst).
  assert (Hbl : bytes_at m (b_pos (header r) + Z.of_nat (length pre)) line).
  { apply bytes_at_app in Hb as [_ Hb]. by apply bytes_at_app in Hb as [Hb _]. }
  assert (Hll : Z.of_nat (length line) < 2 ^ 64) by (unfold full in Hlen; rewrite !length_app in Hlen; lia).
  destruct (run_print_line m _ name rest major minor mt r tail Hne Hup Hof Hknown Hby Hu Hmaj Hmin Hbl Hll)
    as (r' & Hrun & Hh & Hm & Hrl & Hmn & Huri & Hpr & Hma & Hmi).
  fold line in Hrun, Hrl. set (q := b_pos (header r) + Z.of_nat (length pre)) in *.
  assert (Hrun' : line_run m S_start (b_pos (header r)) r full =
    Ok (Finished (q + Z.of_nat (length line) + 1) r')).
  { unfold full. rewrite <-Hrun. unfold line, print_line. destruct name as [|c name]; [done|].
    by apply run_blank_prefix. }
  rewrite Hrun'. cres_simpl. cbn [line_return].
  destruct (line_done_request (q + Z.of_nat (length line) + 1) r') as (Hh' & Hs' & Hv).
  destruct (line_done_fields (q + Z.of_nat (length line) + 1) r') as (F1 & F2 & F3 & F4 & F5 & _).
  pose proof (line_done_return (q + Z.of_nat (length line) + 1) r') as Hc.
  do 2 eexists. split; [by rewrite <-surjective_pairing|].
  rewrite Hc, F1, F2, F3, F4, F5, Hv, Hs', Hh', Hh, Hm, Hrl, Hmn, Huri, Hpr, Hma, Hmi.
  pose proof Hbl as Hparts. unfold line in Hparts. rewrite print_line_protocol in Hparts.
  apply bytes_at_app in Hparts as [B1 Hparts]. apply bytes_at_app in Hparts as [_ Hparts].
  apply bytes_at_app in Hparts as [B2 Hparts]. apply bytes_at_app in Hparts as [_ B3].
  rewrite !length_app. cbn [length] in *.
  split; [done|]. split; [done|]. unfold holds. req_simpl.
  split_and!; try done; try lia.
  - cbn [length]. lia.
  - by replace (q + _ + _ + 3) with (q + Z.of_nat (length name) + 1 + Z.of_nat (S (length rest)) + 1) by lia.
  - unfold q, CRLF. cbn [length]. lia.
Qed.

(* a POST with a query, after a blank line and before a header *)
Definition sample_post : list Z :=
  CRLF ++ print_line (str "POST") (str "/form.cgi?x=1") (str "1") (str "1")
       ++ CRLF ++ str "Host: h".

Lemma parse_print_line_witness :
  ∃ code r',
    http_parse_request_line (mem_of 4096 sample_post) (loaded sample_post) = Ok (code, r') ∧
    code = 0 ∧ method r' = HTTP_POST ∧
    holds (mem_of 4096 sample_post) (uri r') (str "/form.cgi?x=1") ∧
    http_version r' = 1001 ∧ b_pos (header r') = 4096 + 31.
Proof.
  destruct (parse_print_line (mem_of 4096 sample_post) (loaded sample_post) CRLF
    (str "POST") HTTP_POST (str "form.cgi?x=1") (str "1") (str "1") (str "Host: h"))
    as (code & r' & H & Hc & Hm & _ & _ & Hu & _ & Hv & _ & Hp).
  - reflexivity.
  - split; [|by repeat constructor|by vm_compute..]. by vm_compute; repeat constructor.
  - reflexivity.
  - by vm_compute.
  - reflexivity.
  - reflexivity.
  - exists code, r'. split; [exact H|]. split; [exact Hc|]. split; [exact Hm|].
    split; [exact Hu|]. split; [exact Hv|exact Hp].
Defined.
