(* ===== verification/ParseHeader.v ===== *)
(** The header parser: [http_parse_request_header] of [src/http/parse.c].

    One definition per [case]; the local variables [hash] and [i] of the parser are
    threaded beside the request, since only the regular exits write them back.  The
    store into [lowcase_header] is checked against the size of the array. *)

From stdpp Require Import base gmap list numbers strings.
From Stdlib Require Import ZArith Lia.
From S2P Require Import Prelude CStr RequestTypes ParseLine.

(* ((unsigned) key * 31 + c), src/util/hashtable.h *)
Definition HASH (key c : Z) : Z := u32 (u32 key * 31 + c).

(* the string literals of the table, with its terminating NUL *)
Definition lowcase : list Z :=
  replicate 32 0 ++
  replicate 13 0 ++ ["-"%c] ++ replicate 2 0 ++
  str "0123456789" ++ replicate 6 0 ++
  [0] ++ str "abcdefghijklmnopqrstuvwxyz" ++ replicate 5 0 ++
  [0] ++ str "abcdefghijklmnopqrstuvwxyz" ++ replicate 5 0 ++
  replicate 32 0 ++ replicate 32 0 ++ replicate 32 0 ++ replicate 31 0 ++ [0].

Definition low (ch : Z) : Z := nth (Z.to_nat ch) lowcase 0.

Inductive header_state : Type :=
| H_start
| H_name
| H_space_before_value
| H_value
| H_space_after_value
| H_almost_done
| H_header_almost_done.

#[export] Instance header_state_eq_dec : EqDecision header_state.
Proof. solve_decision. Defined.

Definition header_states : list header_state :=
  [H_start; H_name; H_space_before_value; H_value; H_space_after_value;
   H_almost_done; H_header_almost_done].

Definition header_code (st : header_state) : Z :=
  match st with
  | H_start => 0 | H_name => 1 | H_space_before_value => 2 | H_value => 3
  | H_space_after_value => 4 | H_almost_done => 5 | H_header_almost_done => 6
  end.

Definition header_state_of (z : Z) : option header_state :=
  if 0 <=? z then header_states !! Z.to_nat z else None.

Lemma header_state_of_code st : header_state_of (header_code st) = Some st.
Proof. by destruct st. Qed.

(** How an iteration ends. *)
Inductive header_step : Type :=
| HNext (st : header_state) (hash i : Z) (r : http_request)   (* break *)
| HFail (code : Z) (r : http_request)                         (* return code *)
| HDone (hash i : Z) (r : http_request)                       (* goto done *)
| HAll (r : http_request)                                     (* goto header_done *)
| HFault.                                                     (* store outside lowcase_header *)

(* r->lowcase_header[i] = c *)
Definition put_lowcase (r : http_request) (i c : Z) : option http_request :=
  if i <? HTTP_LC_HEADER_LEN
  then Some (set_lowcase_header r (<[Z.to_nat i := c]> (lowcase_header r)))
  else None.

Section Cases.
Context (p ch hash i : Z) (r : http_request).

Definition header_start : header_step :=
  let r := set_header_name r (set_sp (header_name r) p) in
  let r := set_invalid_header r 0 in
  if ch =? CR then
    HNext H_header_almost_done hash i (set_header_name r (until (header_name r) p))
  else if ch =? LF then
    HAll (set_header_name r (until (header_name r) p))
  else
    let c := low ch in
    if negb (c =? 0) then
      match put_lowcase r 0 c with
      | Some r => HNext H_name (HASH 0 c) 1 r
      | None => HFault
      end
    else if ch =? 0 then HFail (-1) r
    else HNext H_name hash i (set_invalid_header r 1).

Definition header_name_case : header_step :=
  let c := low ch in
  if negb (c =? 0) then
    match put_lowcase r i c with
    | Some r => HNext H_name (HASH hash c) (Z.land (u32 (i + 1)) (HTTP_LC_HEADER_LEN - 1)) r
    | None => HFault
    end
  else if ch =? ":"%c then
    HNext H_space_before_value hash i (set_header_name r (until (header_name r) p))
  else if ch =? CR then
    let r := set_header_name r (until (header_name r) p) in
    HNext H_almost_done hash i (set_header_value r str_init)
  else if ch =? LF then
    let r := set_header_name r (until (header_name r) p) in
    HDone hash i (set_header_value r str_init)
  else if ch =? 0 then HFail (-2) r
  else HNext H_name hash i (set_invalid_header r 1).

Definition header_space_before_value : header_step :=
  if ch =? " "%c then HNext H_space_before_value hash i r
  else if ch =? CR then HNext H_almost_done hash i (set_header_value r str_init)
  else if ch =? LF then HDone hash i (set_header_value r str_init)
  else if ch =? 0 then HFail (-3) r
  else HNext H_value hash i (set_header_value r (set_sp (header_value r) p)).

Definition header_value_case : header_step :=
  if ch =? " "%c then
    HNext H_space_after_value hash i (set_header_value r (until (header_value r) p))
  else if ch =? CR then
    HNext H_almost_done hash i (set_header_value r (until (header_value r) p))
  else if ch =? LF then HDone hash i (set_header_value r (until (header_value r) p))
  else if ch =? 0 then HFail (-4) r
  else HNext H_value hash i r.

Definition header_space_after_value : header_step :=
  if ch =? " "%c then HNext H_space_after_value hash i r
  else if ch =? CR then HNext H_almost_done hash i r
  else if ch =? LF then HDone hash i r
  else if ch =? 0 then HFail (-5) r
  else HNext H_value hash i r.

Definition header_almost_done : header_step :=
  if ch =? LF then HDone hash i r
  else if ch =? CR then HNext H_almost_done hash i r
  else HFail (-6) r.

Definition header_header_almost_done : header_step :=
  if ch =? LF then HAll r else HFail (-7) r.

Definition header_switch (st : header_state) : header_step :=
  match st with
  | H_start => header_start
  | H_name => header_name_case
  | H_space_before_value => header_space_before_value
  | H_value => header_value_case
  | H_space_after_value => header_space_after_value
  | H_almost_done => header_almost_done
  | H_header_almost_done => header_header_almost_done
  end.
End Cases.

Inductive header_exit : Type :=
| HMore (p : Z) (st : header_state) (hash i : Z) (r : http_request)
| HFailed (code : Z) (r : http_request)
| HLine (p hash i : Z) (r : http_request)
| HEnd (p : Z) (r : http_request).

(* [n] bytes are left before b->last *)
Fixpoint header_loop (n : nat) (m : gmap Z Z) (p : Z) (st : header_state)
    (hash i : Z) (r : http_request) : cres header_exit :=
  match n with
  | O => Ok (HMore p st hash i r)
  | S n =>
      ch ← load m p;
      match header_switch p ch hash i r st with
      | HNext st hash i r => header_loop n m (p + 1) st hash i r
      | HFail code r => Ok (HFailed code r)
      | HDone hash i r => Ok (HLine p hash i r)
      | HAll r => Ok (HEnd p r)
      | HFault => Ub
      end
  end.

(* r->header_hash = hash; r->lowcase_index = i *)
Definition save_locals (r : http_request) (hash i : Z) : http_request :=
  set_lowcase_index (set_header_hash r hash) i.

Definition header_return (x : header_exit) : Z * http_request :=
  match x with
  | HMore p st hash i r =>
      (1, save_locals (set_state (set_header r (set_pos (header r) p)) (header_code st)) hash i)
  | HFailed code r => (code, r)
  | HLine p hash i r =>
      (0, save_locals (set_state (set_header r (set_pos (header r) (p + 1))) 0) hash i)
  | HEnd p r => (100, set_state (set_header r (set_pos (header r) (p + 1))) 0)
  end.

(* Return 0: done with one line; 1: continue; 100: all headers read; < 0 on error. *)
Definition http_parse_request_header (m : gmap Z Z) (r : http_request) :
    cres (Z * http_request) :=
  let b := header r in
  match header_state_of (state r) with
  | Some st =>
      x ← header_loop (Z.to_nat (b_last b - b_pos b)) m (b_pos b) st
            (header_hash r) (lowcase_index r) r;
      Ok (header_return x)
  | None => Ok (1, set_header r (set_pos b (Z.max (b_pos b) (b_last b))))
  end.
