(* ===== verification/ParseHeaderFacts.v ===== *)
(** The header parser: totality, array bounds, slices, incremental use, round trip. *)

From stdpp Require Import base gmap list numbers strings.
From Stdlib Require Import ZArith Lia.
From S2P Require Import Prelude CStr RequestTypes ParseLine ParseLineRun ParseLineSafety.
From S2P Require Import ParseLineFacts ParseLineRoundTrip ParseHeader.

(** ** The parser as a fold over bytes *)

Fixpoint header_run (p : Z) (st : header_state) (hash i : Z) (r : http_request)
    (l : list Z) : cres header_exit :=
  match l with
  | [] => Ok (HMore p st hash i r)
  | ch :: l =>
      match header_switch p ch hash i r st with
      | HNext st hash i r => header_run (p + 1) st hash i r l
      | HFail code r => Ok (HFailed code r)
      | HDone hash i r => Ok (HLine p hash i r)
      | HAll r => Ok (HEnd p r)
      | HFault => Ub
      end
  end.

Lemma header_loop_run m p st hash i r l :
  bytes_at m p l → header_loop (length l) m p st hash i r = header_run p st hash i r l.
Proof.
  revert p st hash i r. induction l as [|c l IH]; intros p st hash i r Hb; [done|].
  destruct Hb as [Hc Hb]. cbn [length header_loop header_run]. unfold load. rewrite Hc. cres_simpl.
  destruct (header_switch p c hash i r st); try done. by apply IH.
Qed.

Lemma header_run_app p st hash i r l1 l2 :
  header_run p st hash i r (l1 ++ l2) =
  x ← header_run p st hash i r l1;
  match x with
  | HMore p st hash i r => header_run p st hash i r l2
  | x => Ok x
  end.
Proof.
  revert p st hash i r. induction l1 as [|c l1 IH]; intros p st hash i r; [done|].
  cbn [app header_run]. by destruct (header_switch p c hash i r st).
Qed.

Ltac header_cases :=
  unfold header_switch, header_start, header_name_case, header_space_before_value,
    header_value_case, header_space_after_value, header_almost_done,
    header_header_almost_done, put_lowcase;
  repeat case_match; simplify_eq/=.

Lemma parse_header_run m r l st :
  header_state_of (state r) = Some st →
  bytes_at m (b_pos (header r)) l →
  b_last (header r) = b_pos (header r) + Z.of_nat (length l) →
  http_parse_request_header m r =
  x ← header_run (b_pos (header r)) st (header_hash r) (lowcase_index r) r l;
  Ok (header_return x).
Proof.
  intros Hst Hb Hlast. unfold http_parse_request_header. rewrite Hst, Hlast.
  replace (Z.to_nat (_ + _ - _)) with (length l) by lia. by rewrite header_loop_run.
Qed.

(** ** What the switch does not depend on *)

Definition map_hstep (f : http_request → http_request) (x : header_step) : header_step :=
  match x with
  | HNext st h i r => HNext st h i (f r)
  | HFail c r => HFail c (f r)
  | HDone h i r => HDone h i (f r)
  | HAll r => HAll (f r)
  | HFault => HFault
  end.

Definition map_hexit (f : http_request → http_request) (x : header_exit) : header_exit :=
  match x with
  | HMore p st h i r => HMore p st h i (f r)
  | HFailed c r => HFailed c (f r)
  | HLine p h i r => HLine p h i (f r)
  | HEnd p r => HEnd p (f r)
  end.

(** [f] is an update the switch neither reads nor overwrites. *)
Class HIndependent (f : http_request → http_request) : Prop :=
  hindependent p ch hash i r st :
    header_switch p ch hash i (f r) st = map_hstep f (header_switch p ch hash i r st).

Ltac solve_hindependent :=
  intros p ch hash i r st; destruct r, st; header_cases; reflexivity.

#[export] Instance set_header_hindependent h : HIndependent (λ r, set_header r h).
Proof. solve_hindependent. Qed.
#[export] Instance set_state_hindependent s : HIndependent (λ r, set_state r s).
Proof. solve_hindependent. Qed.
#[export] Instance save_locals_hindependent h j : HIndependent (λ r, save_locals r h j).
Proof. solve_hindependent. Qed.

Lemma header_run_independent f `{!HIndependent f} p st hash i r l :
  header_run p st hash i (f r) l = x ← header_run p st hash i r l; Ok (map_hexit f x).
Proof.
  revert p st hash i r. induction l as [|ch l IH]; intros p st hash i r; [done|].
  cbn [header_run]. rewrite (hindependent p ch hash i r st).
  destruct (header_switch p ch hash i r st); cbn [map_hstep]; by rewrite ?IH.
Qed.

Definition hexit_request (x : header_exit) : http_request :=
  match x with HMore _ _ _ _ r | HFailed _ r | HLine _ _ _ r | HEnd _ r => r end.

Lemma header_run_keeps_header p st hash i r l x :
  header_run p st hash i r l = Ok x → header (hexit_request x) = header r.
Proof.
  intros H. pose proof (header_run_independent (λ r', set_header r' (header r)) p st hash i r l) as Hh.
  cbv beta in Hh. rewrite set_header_id, H in Hh. cres_simpl. injection Hh as Hx. rewrite Hx.
  by destruct x.
Qed.

Lemma header_run_more p st hash i r l p' st' hash' i' r' :
  header_run p st hash i r l = Ok (HMore p' st' hash' i' r') → p' = p + Z.of_nat (length l).
Proof.
  revert p st hash i r. induction l as [|ch l IH]; intros p st hash i r; cbn [header_run length].
  - intros [= <- <- <- <- <-]. lia.
  - destruct (header_switch p ch hash i r st); try done. intros H%IH. lia.
Qed.

Lemma header_switch_fail p ch hash i r st c r' :
  header_switch p ch hash i r st = HFail c r' → -7 ≤ c ≤ -1.
Proof. destruct st; header_cases; intros; simplify_eq; lia. Qed.

Lemma header_run_fail p st hash i r l c r' :
  header_run p st hash i r l = Ok (HFailed c r') → -7 ≤ c ≤ -1.
Proof.
  revert p st hash i r. induction l as [|ch l IH]; intros p st hash i r; cbn [header_run]; [done|].
  destruct (header_switch p ch hash i r st) eqn:E; try done; [apply IH|].
  intros [= <- <-]. by eapply header_switch_fail.
Qed.

(** ** The invariant *)

Definition hname_inv (lo p : Z) (st : header_state) (s : str_t) : Prop :=
  match st with
  | H_start => True
  | H_name => opened lo p s
  | _ => in_range lo p s
  end.

Definition hvalue_inv (lo p : Z) (st : header_state) (s : str_t) : Prop :=
  match st with
  | H_value => opened lo p s
  | H_space_after_value => in_range lo p s
  | H_almost_done => null_or_in lo p s
  | _ => True
  end.

Definition lowcase_ok (i : Z) (r : http_request) : Prop :=
  0 ≤ i < HTTP_LC_HEADER_LEN ∧ length (lowcase_header r) = Z.to_nat HTTP_LC_HEADER_LEN.

Definition header_inv (lo p : Z) (st : header_state) (i : Z) (r : http_request) : Prop :=
  lowcase_ok i r ∧ hname_inv lo p st (header_name r) ∧ hvalue_inv lo p st (header_value r).

(** A complete header line: name and value lie in the consumed part. *)
Definition header_slices (lo hi : Z) (r : http_request) : Prop :=
  in_range lo hi (header_name r) ∧ null_or_in lo hi (header_value r).

Ltac hinv_unfold :=
  unfold header_inv, header_slices, lowcase_ok, hname_inv, hvalue_inv, null_or_in, in_range,
    opened, until, NULL_STRING, str_init, HTTP_LC_HEADER_LEN in *;
  cbn in *; unfold NULL in *.

Lemma next_index_range i : 0 ≤ Z.land (u32 (i + 1)) (HTTP_LC_HEADER_LEN - 1) < 32.
Proof.
  change (HTTP_LC_HEADER_LEN - 1) with (Z.ones 5). rewrite Z.land_ones by lia.
  apply Z.mod_pos_bound. lia.
Qed.

Lemma header_switch_inv lo p st ch hash i r :
  0 < lo ≤ p → p + 1 < 2 ^ 64 → header_inv lo p st i r →
  match header_switch p ch hash i r st with
  | HNext st' _ i' r' => header_inv lo (p + 1) st' i' r'
  | HFail _ _ => True
  | HDone _ i' r' => lowcase_ok i' r' ∧ header_slices lo (p + 1) r'
  | HAll _ => True
  | HFault => False
  end.
Proof.
  intros Hlo Hp Hinv. pose proof (next_index_range i) as Hi.
  destruct st; unfold header_switch, header_start, header_name_case, header_space_before_value,
    header_value_case, header_space_after_value, header_almost_done, header_header_almost_done,
    put_lowcase.
  2: { destruct (i <? HTTP_LC_HEADER_LEN) eqn:Ei; [|hinv_unfold; lia].
       repeat case_match; try done; clear_tests; simplify_eq; hinv_unfold;
         rewrite ?length_insert; destruct_and?; drop_size_t; split_and?; first [done | lia]. }
  all: repeat case_match; try done; clear_tests; simplify_eq; hinv_unfold;
    rewrite ?length_insert; destruct_and?; drop_size_t; split_and?; first [done | lia].
Qed.

Lemma header_run_inv lo p st hash i r l :
  0 < lo ≤ p → p + Z.of_nat (length l) < 2 ^ 64 → header_inv lo p st i r →
  match header_run p st hash i r l with
  | Ok (HMore p' st' _ i' r') => header_inv lo p' st' i' r' ∧ p' = p + Z.of_nat (length l)
  | Ok (HLine p' _ i' r') =>
      lowcase_ok i' r' ∧ header_slices lo (p' + 1) r' ∧ p ≤ p' < p + Z.of_nat (length l)
  | Ok (HEnd p' r') => p ≤ p' < p + Z.of_nat (length l)
  | Ok (HFailed _ _) => True
  | Ub | Fuel => False
  end.
Proof.
  revert p st hash i r. induction l as [|ch l IH]; intros p st hash i r Hlo Hp Hinv;
    cbn [header_run length] in *; [split; [done|lia]|].
  pose proof (header_switch_inv lo p st ch hash i r Hlo ltac:(lia) Hinv) as H.
  destruct (header_switch p ch hash i r st) as [st1 h1 i1 r1| |h1 i1 r1|r1|]; try done;
    [|split_and!; tauto || lia|lia].
  specialize (IH (p + 1) st1 h1 i1 r1 ltac:(lia) ltac:(lia) H).
  destruct (header_run (p + 1) st1 h1 i1 r1 l) as [[]| |]; try done;
    destruct_and?; split_and?; first [done | lia].
Qed.

(** The array keeps its length, and the index is only stored at the end. *)
Lemma header_switch_lowcase p ch hash i r st :
  match header_switch p ch hash i r st with
  | HNext _ _ _ r' | HFail _ r' | HDone _ _ r' | HAll r' => length (lowcase_header r') = length (lowcase_header r) ∧ lowcase_index r' = lowcase_index r
  | HFault => True
  end.
Proof.
  destruct st; unfold header_switch, header_start, header_name_case, header_space_before_value,
    header_value_case, header_space_after_value, header_almost_done, header_header_almost_done, put_lowcase;
    repeat case_match; try done; simplify_eq; req_simpl; by rewrite ?length_insert.
Qed.

Lemma header_run_lowcase l : ∀ p st hash i r x,
  header_run p st hash i r l = Ok x →
  length (lowcase_header (hexit_request x)) = length (lowcase_header r) ∧ lowcase_index (hexit_request x) = lowcase_index r.
Proof.
  induction l as [|ch l IH]; intros p st hash i r x; cbn [header_run]; [by intros [= <-]|].
  pose proof (header_switch_lowcase p ch hash i r st) as H. destruct (header_switch p ch hash i r st) as [st1 h1 i1 r1| |h1 i1 r1|r1|]; try (by intros [= <-]).
  intros E. destruct (IH _ _ _ _ _ _ E) as [-> ->]. exact H.
Qed.

(** A request the header parser can be started or resumed on. *)
Definition header_ready (m : gmap Z Z) (r : http_request) : Prop :=
  buffer_ok m (header r) ∧
  ∃ st, header_state_of (state r) = Some st ∧
        header_inv (b_start (header r)) (b_pos (header r)) st (lowcase_index r) r.

Lemma buffer_ok_pos m b p :
  buffer_ok m b → b_pos b ≤ p ≤ b_last b → buffer_ok m (set_pos b p).
Proof. unfold buffer_ok. cbn. intuition lia. Qed.

Lemma parse_header_ready m r :
  header_ready m r →
  ∃ code r', http_parse_request_header m r = Ok (code, r') ∧
    (-7 ≤ code ≤ 1 ∨ code = 100) ∧
    (code = 1 → header_ready m r' ∧ header r' = set_pos (header r) (b_last (header r))) ∧
    (code = 0 → header_ready m r' ∧ state r' = 0 ∧
       header_slices (b_start (header r)) (b_pos (header r')) r') ∧
    (code = 0 ∨ code = 100 →
       ∃ p, header r' = set_pos (header r) p ∧ b_pos (header r) < p ≤ b_last (header r)).
Proof.
  intros [Hbuf (st & Hst & Hinv)]. destruct (buffer_bytes _ _ Hbuf) as (l & Hlast & Hb).
  pose proof Hbuf as (H1 & H2 & H3 & H4 & Hm).
  rewrite (parse_header_run m r l st) by done.
  pose proof (header_run_inv (b_start (header r)) (b_pos (header r)) st (header_hash r)
    (lowcase_index r) r l H1 ltac:(lia) Hinv) as Hrun.
  destruct (header_run _ _ _ _ r l) as [x| |] eqn:E; try done. cres_simpl.
  pose proof (header_run_keeps_header _ _ _ _ _ _ _ E) as Hh.
  destruct x as [p' st' h' i' r'|c r'|p' h' i' r'|p' r']; cbn [hexit_request] in *;
    cbn [header_return]; do 2 eexists; (split; [done|]).
  - destruct Hrun as [Hi ->]. rewrite <-Hlast in *. split; [lia|]. split; [|lia].
    intros _. unfold save_locals. req_simpl. rewrite Hh. split; [|done].
    split; req_simpl; [apply buffer_ok_pos; [done|lia]|]. exists st'. split; [apply header_state_of_code|done].
  - apply header_run_fail in E. split_and!; lia.
  - destruct Hrun as (Hi & Hs & Hp). split; [lia|]. split; [lia|]. split.
    + intros _. unfold save_locals. req_simpl. rewrite Hh. split; [|done].
      split; req_simpl; [apply buffer_ok_pos; [done|lia]|].
      exists H_start. by split.
    + intros _. exists (p' + 1). unfold save_locals. req_simpl. rewrite Hh. split; [done|lia].
  - split; [lia|]. split; [lia|]. split; [lia|]. intros _. exists (p' + 1). req_simpl.
    rewrite Hh. split; [done|lia].
Qed.
