(* ===== verification/ParseHeaderProps.v ===== *)
(** Properties of the header parser: safety, incremental use, printing and parsing. *)

From stdpp Require Import base gmap list numbers strings.
From Stdlib Require Import ZArith Lia.
From S2P Require Import Prelude CStr RequestTypes ParseLine ParseLineRun ParseLineSafety.
From S2P Require Import ParseLineFacts ParseLineRoundTrip ParseHeader ParseHeaderFacts.

Lemma fresh_header_ready m r :
  buffer_ok m (header r) → state r = 0 → lowcase_ok (lowcase_index r) r → header_ready m r.
Proof. intros Hb Hs Hl. split; [done|]. exists H_start. rewrite Hs. by split_and!. Qed.

Lemma loaded_header_ready (l : list Z) :
  Z.of_nat (length l) < 2 ^ 32 → bytes_at (mem_of 4096 l) 4096 l →
  header_ready (mem_of 4096 l) (loaded l).
Proof.
  intros Hl Hb. apply fresh_header_ready; [|done|by split].
  destruct (loaded_ready l Hl Hb) as [? _]. done.
Qed.

(** C15: with a valid [lowcase_index] the header parser returns, never stores outside
    [lowcase_header] and reads only the buffer; after a complete line the name and the
    value lie in the consumed part, and in every case that is not an error the request
    is ready for the next call. *)
Theorem parse_header_total m r :
  header_ready m r →
  ∃ code r', http_parse_request_header m r = Ok (code, r') ∧
    (-7 ≤ code ≤ 1 ∨ code = 100) ∧
    (code = 0 ∨ code = 1 → header_ready m r') ∧
    (code = 0 → header_slices (b_start (header r)) (b_pos (header r')) r' ∧
                b_pos (header r) < b_pos (header r') ≤ b_last (header r)).
Proof.
  intros (code & r' & H & Hc & H1 & H0 & Hp)%parse_header_ready. exists code, r'.
  split; [done|]. split; [done|]. split.
  { intros [->| ->]; [exact (proj1 (H0 eq_refl)) | exact (proj1 (H1 eq_refl))]. }
  intros ->. split; [exact (proj2 (proj2 (H0 eq_refl)))|]. destruct (Hp (or_introl eq_refl)) as (p & -> & ?). done.
Qed.

Lemma parse_header_total_witness :
  let l := str "Host: a" ++ CRLF in
  ∃ code r', http_parse_request_header (mem_of 4096 l) (loaded l) = Ok (code, r') ∧
    (-7 ≤ code ≤ 1 ∨ code = 100) ∧
    (code = 0 ∨ code = 1 → header_ready (mem_of 4096 l) r') ∧
    (code = 0 → header_slices 4096 (b_pos (header r')) r' ∧
                4096 < b_pos (header r') ≤ 4096 + Z.of_nat (length l)).
Proof. intros l. apply (parse_header_total _ (loaded l)). apply loaded_header_ready; by vm_compute. Defined.

(** [lowcase_index] must have been initialised.  If it holds 32 or more when parsing
    starts, as the uninitialised field of a new allocation may, a header line whose first
    character is not a letter, digit or dash and whose second one is makes the parser
    store outside the array. *)
Theorem parse_header_stale_index m r c1 c2 l :
  state r = 0 → HTTP_LC_HEADER_LEN ≤ lowcase_index r →
  low c1 = 0 → c1 ≠ 0 → c1 ≠ CR → c1 ≠ LF → low c2 ≠ 0 →
  bytes_at m (b_pos (header r)) (c1 :: c2 :: l) →
  b_last (header r) = b_pos (header r) + Z.of_nat (length (c1 :: c2 :: l)) →
  http_parse_request_header m r = Ub.
Proof.
  intros Hs Hi L1 N0 N1 N2 L2 Hb Hlast.
  rewrite (parse_header_run m r (c1 :: c2 :: l) H_start) by (by rewrite ?Hs).
  cbn [header_run header_switch]. unfold header_start, header_name_case, put_lowcase.
  rewrite L1. cbn [Z.eqb negb].
  rewrite (proj2 (Z.eqb_neq c1 CR)), (proj2 (Z.eqb_neq c1 LF)), (proj2 (Z.eqb_neq c1 0)) by done.
  cbv beta iota. unfold header_switch, header_name_case, put_lowcase.
  by rewrite (proj2 (Z.eqb_neq (low c2) 0)), (proj2 (Z.ltb_ge (lowcase_index r) _)) by done.
Qed.

Lemma parse_header_stale_index_witness :
  http_parse_request_header (mem_of 4096 (str "_a: b"))
    (set_lowcase_index (loaded (str "_a: b")) 4000000000) = Ub.
Proof.
  apply (parse_header_stale_index _ _ "_"%c "a"%c (str ": b")); by vm_compute.
Defined.

(** ** Receiving in pieces *)

Definition parse_header_in_two (m : gmap Z Z) (r : http_request) (mid : Z) : cres (Z * http_request) :=
  x ← http_parse_request_header m (upto r mid);
  if x.1 =? 1 then http_parse_request_header m (upto x.2 (b_last (header r)))
  else Ok (x.1, upto x.2 (b_last (header r))).

(* where the first piece leaves the request *)
Definition suspended (q s h j : Z) (r : http_request) : http_request :=
  save_locals (place q s r) h j.

(** The request, the two locals aside, is the same unless there is a syntax error; a
    header line or a request for more agree on the locals too. *)
Definition same_header_result (x y : Z * http_request) : Prop :=
  x.1 = y.1 ∧
  (-7 ≤ x.1 ≤ -1 ∨ x.2 = y.2 ∨
   (x.1 = 100 ∧ ∃ h j, x.2 = save_locals y.2 h j)).

Lemma header_run_suspended p st hash i r l q s h j :
  header_run p st hash i (suspended q s h j r) l =
  x ← header_run p st hash i r l; Ok (map_hexit (suspended q s h j) x).
Proof.
  unfold suspended at 1, place.
  rewrite (header_run_independent (λ r, save_locals r h j)),
    (header_run_independent (λ r, set_state r s)),
    (header_run_independent (λ r', set_header r' (set_pos (header r) q))).
  destruct (header_run p st hash i r l) as [x| |] eqn:E; try done. cres_simpl. f_equal.
  apply header_run_keeps_header in E.
  destruct x; cbn [map_hexit hexit_request] in *; unfold suspended, place; by rewrite E.
Qed.

Lemma header_return_suspended p st hash i r l x q s h j :
  header_run p st hash i r l = Ok x →
  same_header_result (header_return x) (header_return (map_hexit (suspended q s h j) x)).
Proof.
  intros E. destruct x as [p' st' h' i' r'|c r'|p' h' i' r'|p' r']; split; try done;
    cbn [header_return map_hexit].
  - right; left. by destruct r'.
  - left. by eapply header_run_fail.
  - right; left. by destruct r'.
  - right; right. split; [done|]. exists (header_hash r'), (lowcase_index r'). by destruct r'.
Qed.

Lemma header_run_upto p st hash i r l e :
  header_run p st hash i (upto r e) l =
  x ← header_run p st hash i r l; Ok (map_hexit (λ r, upto r e) x).
Proof.
  unfold upto at 1. rewrite (header_run_independent (λ r', set_header r' (set_last (header r) e))).
  destruct (header_run p st hash i r l) as [x| |] eqn:E; try done. cres_simpl. f_equal.
  apply header_run_keeps_header in E.
  destruct x; cbn [map_hexit hexit_request] in *; unfold upto; by rewrite E.
Qed.

Lemma parse_header_split m r l1 l2 st :
  header_state_of (state r) = Some st →
  bytes_at m (b_pos (header r)) (l1 ++ l2) →
  b_last (header r) = b_pos (header r) + Z.of_nat (length (l1 ++ l2)) →
  cres_rel same_header_result (http_parse_request_header m r)
    (parse_header_in_two m r (b_pos (header r) + Z.of_nat (length l1))).
Proof.
  intros Hst Hb Hlast. unfold parse_header_in_two.
  rewrite (parse_header_run m r (l1 ++ l2) st) by done.
  apply bytes_at_app in Hb as [Hb1 Hb2]. rewrite length_app in Hlast.
  rewrite (parse_header_run m (upto r _) l1 st) by done.
  cbn [b_pos header upto set_header set_last header_hash lowcase_index].
  rewrite header_run_upto, header_run_app.
  destruct (header_run _ st _ _ r l1) as [x| |] eqn:E; try done.
  cres_simpl. pose proof (header_run_keeps_header _ _ _ _ _ _ _ E) as Hh.
  destruct x as [p' st' h' i' r'|c r'|p' h' i' r'|p' r']; cbn [hexit_request map_hexit] in *.
  - apply header_run_more in E. cbn [header_return fst snd]. rewrite Z.eqb_refl.
    replace (upto (save_locals _ _ _) _) with (suspended p' (header_code st') h' i' r')
      by (unfold upto, suspended, place, save_locals; destruct r' as [? [] ]; cbn in *; by rewrite <-Hh).
    rewrite (parse_header_run m (suspended p' (header_code st') h' i' r') l2 st'); cbn.
    + rewrite header_run_suspended. destruct (header_run p' st' h' i' r' l2) eqn:E2; try done.
      by eapply header_return_suspended.
    + apply header_state_of_code.
    + by subst p'.
    + rewrite Hh. lia.
  - apply header_run_fail in E. cbn [header_return fst snd].
    rewrite (proj2 (Z.eqb_neq c 1)) by lia. split; [done|]. by left.
  - cbn. split; [done|]. right; left. unfold save_locals, upto. destruct r' as [? [] ]. cbn in *. by rewrite <-Hh.
  - cbn. split; [done|]. right; left. unfold upto. destruct r' as [? [] ]. cbn in *. by rewrite <-Hh.
Qed.

(** C35: header parsing is incremental.  Cutting the received bytes anywhere and resuming
    gives the same return code and, unless that code is a syntax error, the same request
    (up to the two work fields when the empty line was reached). *)
Theorem parse_header_incremental m r mid :
  header_ready m r → b_pos (header r) ≤ mid ≤ b_last (header r) →
  ∃ x y, http_parse_request_header m r = Ok x ∧ parse_header_in_two m r mid = Ok y ∧
    same_header_result x y.
Proof.
  intros Hr Hmid. destruct (parse_header_ready m r Hr) as (c & r' & H & _).
  destruct Hr as [Hbuf (st & Hst & _)]. destruct (buffer_bytes _ _ Hbuf) as (l & Hlast & Hb).
  set (n := Z.to_nat (mid - b_pos (header r))).
  rewrite <-(take_drop n l) in Hb, Hlast.
  pose proof (parse_header_split m r (take n l) (drop n l) st Hst Hb Hlast) as Hs.
  rewrite length_take_le in Hs by (rewrite take_drop in Hlast; lia).
  replace (b_pos (header r) + Z.of_nat n) with mid in Hs by lia.
  rewrite H in *. destruct (parse_header_in_two m r mid) as [y| |]; try done.
  exists (c, r'), y. done.
Qed.

Lemma parse_header_incremental_witness :
  let l := str "Content-Length: 12" ++ CRLF in
  ∃ x y, http_parse_request_header (mem_of 4096 l) (loaded l) = Ok x ∧
    parse_header_in_two (mem_of 4096 l) (loaded l) 4100 = Ok y ∧ same_header_result x y.
Proof.
  intros l. apply parse_header_incremental.
  - apply loaded_header_ready; by vm_compute.
  - vm_compute. split; discriminate.
Defined.
