(* ===== verification/ParseHeaderRoundTrip.v ===== *)
(** Printing and parsing a header line. *)

From stdpp Require Import base gmap list numbers strings.
From Stdlib Require Import ZArith Lia.
From S2P Require Import Prelude CStr RequestTypes ParseLine ParseLineRun ParseLineSafety.
From S2P Require Import ParseLineFacts ParseLineRoundTrip ParseHeader ParseHeaderFacts.

(** ** The text of a header line *)

Definition spaces (n : nat) : list Z := replicate n " "%c.

Definition print_header (name : list Z) (before : nat) (value : list Z) (after : nat) : list Z :=
  name ++ [":"%c] ++ spaces before ++ value ++ spaces after ++ CRLF.

(* the hash of a name, character by character in lower case *)
Definition hash_lc (k : Z) (name : list Z) : Z := fold_left (λ k c, HASH k (low c)) name k.

(* a character a value may contain *)
Definition value_char (c : Z) : bool := negb ((c =? CR) || (c =? LF) || (c =? 0)).

(** A name of letters, digits and dashes, and a value without spaces at its ends. *)
Record header_text (name value : list Z) : Prop := {
  ht_nonempty : name ≠ [];
  ht_name : forallb (λ c, negb (low c =? 0)) name = true;
  ht_value : forallb value_char value = true;
  ht_first : head value ≠ Some " "%c;
  ht_last : last value ≠ Some " "%c
}.

(** ** The name *)

Lemma low_not_special c :
  negb (low c =? 0) = true → (c =? CR) = false ∧ (c =? LF) = false ∧ (c =? ":"%c) = false.
Proof.
  intros H. split_and!; apply Z.eqb_neq; intros ->; by vm_compute in H.
Qed.

Lemma run_name_rest p h i r l :
  0 ≤ i < HTTP_LC_HEADER_LEN → forallb (λ c, negb (low c =? 0)) l = true →
  ∃ i' lc, header_run p H_name h i r l =
      Ok (HMore (p + Z.of_nat (length l)) H_name (hash_lc h l) i' (set_lowcase_header r lc)) ∧
    0 ≤ i' < HTTP_LC_HEADER_LEN.
Proof.
  revert p h i r. induction l as [|c l IH]; intros p h i r Hi Hl; cbn [header_run length].
  - exists i, (lowcase_header r). rewrite Z.add_0_r. by destruct r.
  - cbn [forallb] in Hl. apply andb_true_iff in Hl as [Hc Hl].
    unfold header_switch, header_name_case, put_lowcase. rewrite Hc.
    rewrite (proj2 (Z.ltb_lt i _)) by lia.
    destruct (IH (p + 1) (HASH h (low c)) (Z.land (u32 (i + 1)) (HTTP_LC_HEADER_LEN - 1))
      (set_lowcase_header r (<[Z.to_nat i:=low c]> (lowcase_header r)))
      (next_index_range i) Hl) as (i' & lc & -> & Hi').
    exists i', lc. split; [|done]. cbn [hash_lc fold_left].
    replace (p + 1 + Z.of_nat (length l)) with (p + Z.of_nat (S (length l))) by lia. done.
Qed.

(** From the start of the line to the colon. *)
Lemma run_name p h i r name :
  name ≠ [] → forallb (λ c, negb (low c =? 0)) name = true → Z.of_nat (length name) < 2 ^ 64 →
  ∃ i' lc, header_run p H_start h i r (name ++ [":"%c]) =
      Ok (HMore (p + Z.of_nat (length name) + 1) H_space_before_value (hash_lc 0 name) i'
        (set_header_name (set_invalid_header (set_lowcase_header r lc) 0)
          (Str p (Z.of_nat (length name))))) ∧
    0 ≤ i' < HTTP_LC_HEADER_LEN.
Proof.
  intros Hne Hn Hlen. destruct name as [|c l]; [done|]. rewrite header_run_app.
  cbn [forallb] in Hn. apply andb_true_iff in Hn as [Hc Hl].
  destruct (low_not_special c Hc) as (HCR & HLF & _).
  set (r1 := set_lowcase_header (set_invalid_header (set_header_name r (set_sp (header_name r) p)) 0)
               (<[Z.to_nat 0:=low c]> (lowcase_header r))).
  destruct (run_name_rest (p + 1) (HASH 0 (low c)) 1 r1 l ltac:(done) Hl) as (i' & lc & Hrun & Hi').
  assert (Hfirst : header_run p H_start h i r (c :: l) = header_run (p + 1) H_name (HASH 0 (low c)) 1 r1 l).
  { cbn [header_run]. unfold header_switch, header_start, put_lowcase. by rewrite HCR, HLF, Hc. }
  rewrite Hfirst, Hrun. cres_simpl. exists i', lc. split; [|done].
  cbn [header_run]. unfold header_switch, header_name_case. simpl (low _). cbn [Z.eqb negb].
  rewrite Z.eqb_refl. cbn [length] in *. unfold r1, until, set_slen. req_simpl.
  rewrite size_t_id by lia. replace (p + 1 + Z.of_nat (length l)) with (p + Z.of_nat (S (length l))) by lia.
  replace (p + Z.of_nat (S (length l)) - p) with (Z.of_nat (S (length l))) by lia. done.
Qed.

(** ** The value *)

Lemma run_spaces_before p h i r n l :
  header_run p H_space_before_value h i r (spaces n ++ l) =
  header_run (p + Z.of_nat n) H_space_before_value h i r l.
Proof.
  revert p. induction n as [|n IH]; intros p; cbn [spaces replicate app].
  - by rewrite Z.add_0_r.
  - cbn [header_run]. unfold header_switch, header_space_before_value. rewrite Z.eqb_refl.
    rewrite IH. f_equal. lia.
Qed.

Lemma run_spaces_after p h i r n l :
  header_run p H_space_after_value h i r (spaces n ++ l) =
  header_run (p + Z.of_nat n) H_space_after_value h i r l.
Proof.
  revert p. induction n as [|n IH]; intros p; cbn [spaces replicate app].
  - by rewrite Z.add_0_r.
  - cbn [header_run]. unfold header_switch, header_space_after_value. rewrite Z.eqb_refl.
    rewrite IH. f_equal. lia.
Qed.

Lemma value_char_tests c :
  value_char c = true → (c =? CR) = false ∧ (c =? LF) = false ∧ (c =? 0) = false.
Proof. unfold value_char. rewrite negb_true_iff, !orb_false_iff. tauto. Qed.

(* the state after the bytes [l] of a value *)
Definition value_state (st : header_state) (l : list Z) : header_state :=
  match last l with
  | None => st
  | Some c => if c =? " "%c then H_space_after_value else H_value
  end.

Lemma set_header_value_id r :
  set_header_value r (Str (sp (header_value r)) (slen (header_value r))) = r.
Proof. destruct r. cbn. by destruct header_value. Qed.

Lemma run_value_rest p st h i r l :
  st = H_value ∨ st = H_space_after_value → forallb value_char l = true →
  ∃ n, header_run p st h i r l =
    Ok (HMore (p + Z.of_nat (length l)) (value_state st l) h i
          (set_header_value r (Str (sp (header_value r)) n))).
Proof.
  revert p st r. induction l as [|c l IH]; intros p st r Hst Hl; cbn [header_run length].
  - exists (slen (header_value r)). by rewrite Z.add_0_r, set_header_value_id.
  - cbn [forallb] in Hl. apply andb_true_iff in Hl as [Hc Hl].
    destruct (value_char_tests c Hc) as (H1 & H2 & H3).
    assert (Hstep : ∃ n, header_switch p c h i r st =
      HNext (if c =? " "%c then H_space_after_value else H_value) h i
        (set_header_value r (Str (sp (header_value r)) n))).
    { destruct Hst as [-> | ->]; unfold header_switch, header_value_case, header_space_after_value;
        rewrite H1, H2, H3; destruct (c =? " "%c); try (by eexists);
        exists (slen (header_value r)); by rewrite set_header_value_id. }
    destruct Hstep as [n ->].
    destruct (IH (p + 1) (if c =? " "%c then H_space_after_value else H_value)
      (set_header_value r (Str (sp (header_value r)) n)) ltac:(destruct (c =? " "%c); auto) Hl) as [n' ->].
    exists n'. unfold value_state. rewrite last_cons.
    replace (p + 1 + Z.of_nat (length l)) with (p + Z.of_nat (S (length l))) by lia.
    destruct (last l); by destruct r.
Qed.

(** The first character of the value up to its last one. *)
Lemma run_value p h i r c l :
  forallb value_char (c :: l) = true → c ≠ " "%c → last (c :: l) ≠ Some " "%c →
  ∃ n, header_run p H_space_before_value h i r (c :: l) =
    Ok (HMore (p + Z.of_nat (length (c :: l))) H_value h i (set_header_value r (Str p n))).
Proof.
  intros Hl Hc Hlast. cbn [forallb] in Hl. apply andb_true_iff in Hl as [Hvc Hl].
  destruct (value_char_tests c Hvc) as (H1 & H2 & H3).
  destruct (run_value_rest (p + 1) H_value h i (set_header_value r (set_sp (header_value r) p)) l
    (or_introl eq_refl) Hl) as [n Hrun].
  exists n. cbn [header_run]. unfold header_switch, header_space_before_value.
  rewrite (proj2 (Z.eqb_neq c " "%c)), H1, H2, H3 by done. rewrite Hrun. req_simpl. cbn [length].
  replace (p + 1 + Z.of_nat (length l)) with (p + Z.of_nat (S (length l))) by lia.
  replace (value_state H_value l) with H_value; [by destruct r|].
  unfold value_state. rewrite last_cons in Hlast. destruct (last l) as [d|]; [|done].
  rewrite (proj2 (Z.eqb_neq d " "%c)); [done|congruence].
Qed.

(** Trailing spaces and the end of the line. *)
Lemma run_value_end p h i r n tail :
  ∃ p', p' = p + Z.of_nat n + 1 ∧
  header_run p H_value h i r (spaces n ++ CRLF ++ tail) =
  Ok (HLine p' h i (set_header_value r (until (header_value r) p))).
Proof.
  exists (p + Z.of_nat n + 1). split; [done|]. destruct n as [|n].
  - replace (p + Z.of_nat 0 + 1) with (p + 1) by lia. reflexivity.
  - change (spaces (S n) ++ CRLF ++ tail) with (" "%c :: spaces n ++ CRLF ++ tail).
    cbn [header_run]. unfold header_switch, header_value_case. rewrite Z.eqb_refl.
    rewrite run_spaces_after.
    replace (p + Z.of_nat (S n) + 1) with (p + 1 + Z.of_nat n + 1) by lia. reflexivity.
Qed.

(** ** The whole line *)

Lemma run_print_header p h i r name before value after tail :
  header_text name value →
  Z.of_nat (length (print_header name before value after)) < 2 ^ 64 →
  ∃ i' r', header_run p H_start h i r (print_header name before value after ++ tail) =
      Ok (HLine (p + Z.of_nat (length (print_header name before value after)) - 1)
            (hash_lc 0 name) i' r') ∧
    0 ≤ i' < HTTP_LC_HEADER_LEN ∧ header r' = header r ∧ invalid_header r' = 0 ∧
    header_name r' = Str p (Z.of_nat (length name)) ∧
    slen (header_value r') = Z.of_nat (length value) ∧
    (value ≠ [] → sp (header_value r') = p + Z.of_nat (length name) + 1 + Z.of_nat before).
Proof.
  intros [Hne Hn Hv Hfirst Hlast] Hlen. unfold print_header in *.
  rewrite !length_app in *. unfold spaces in Hlen. rewrite !length_replicate in Hlen.
  rewrite <-!app_assoc.
  destruct (run_name p h i r name Hne Hn ltac:(lia)) as (i' & lc & Hname & Hi').
  rewrite (app_assoc name), header_run_app, Hname. cres_simpl. rewrite run_spaces_before.
  set (r1 := set_header_name _ _). exists i'. cbn [length] in *.
  set (q := p + Z.of_nat (length name) + 1 + Z.of_nat before).
  destruct value as [|c l]; cbn [app].
  - rewrite run_spaces_before. exists (set_header_value r1 str_init).
    split; [|split; [done|]; by repeat split].
    replace (p + Z.of_nat _ - 1) with (q + Z.of_nat after + 1); [reflexivity|].
    unfold q, spaces. rewrite !length_replicate. cbn [length CRLF]. lia.
  - assert (Hc : c ≠ " "%c) by (intros ->; by apply Hfirst).
    destruct (run_value q (hash_lc 0 name) i' r1 c l Hv Hc Hlast) as [n Hval].
    change (c :: l ++ spaces after ++ CRLF ++ tail) with ((c :: l) ++ (spaces after ++ CRLF ++ tail)).
    rewrite header_run_app, Hval. cres_simpl.
    destruct (run_value_end (q + Z.of_nat (length (c :: l))) (hash_lc 0 name) i'
      (set_header_value r1 (Str q n)) after tail) as (p' & -> & ->).
    eexists. split.
    + do 2 f_equal. unfold q, spaces. rewrite !length_replicate. cbn [length CRLF]. lia.
    + unfold r1, until, set_slen. req_simpl. cbn [length] in *. rewrite size_t_id by lia.
      split; [exact Hi'|]. split_and!; first [done | lia].
Qed.

(** C34: parsing a printed header line gives it back.  For every name of letters, digits
    and dashes and every value without NUL, CR and LF and without spaces at its ends, with
    any number of spaces around the value and anything after the line, the parser returns 0,
    cuts out the name and the value, marks the header valid, leaves the hash of the name in
    lower case for the dispatch, and stops right after the line. *)
Theorem parse_print_header m r name before value after tail :
  let line := print_header name before value after in
  state r = 0 → header_text name value →
  bytes_at m (b_pos (header r)) (line ++ tail) →
  b_last (header r) = b_pos (header r) + Z.of_nat (length (line ++ tail)) →
  Z.of_nat (length line) < 2 ^ 64 →
  ∃ r', http_parse_request_header m r = Ok (0, r') ∧
    holds m (header_name r') name ∧ holds m (header_value r') value ∧
    invalid_header r' = 0 ∧ header_hash r' = hash_lc 0 name ∧ state r' = 0 ∧
    b_pos (header r') = b_pos (header r) + Z.of_nat (length line).
Proof.
  intros line Hst Ht Hb Hlast Hlen.
  rewrite (parse_header_run m r (line ++ tail) H_start) by (by rewrite ?Hst).
  destruct (run_print_header (b_pos (header r)) (header_hash r) (lowcase_index r) r name before
    value after tail Ht Hlen) as (i' & r' & Hrun & _ & Hh & Hv & Hn & Hvl & Hvp).
  fold line in Hrun. rewrite Hrun. cres_simpl. eexists. split; [done|]. unfold save_locals. req_simpl. rewrite ?Hh, Hn.
  apply bytes_at_app in Hb as [Hb _]. unfold line, print_header in Hb.
  apply bytes_at_app in Hb as [B1 Hb]. apply bytes_at_app in Hb as [_ Hb].
  apply bytes_at_app in Hb as [_ Hb]. apply bytes_at_app in Hb as [B2 _].
  split_and!; try done; [|unfold line; cbn; lia].
  split; [done|]. destruct value as [|c l]; [done|]. rewrite Hvp by done.
  unfold spaces in B2. by rewrite length_replicate in B2.
Qed.

Lemma parse_print_header_witness :
  let l := print_header (str "User-Agent") 1 (str "curl 8") 2 ++ str "Host: a" in
  ∃ r', http_parse_request_header (mem_of 4096 l) (loaded l) = Ok (0, r') ∧
    holds (mem_of 4096 l) (header_name r') (str "User-Agent") ∧
    holds (mem_of 4096 l) (header_value r') (str "curl 8") ∧
    invalid_header r' = 0 ∧ header_hash r' = hash_lc 0 (str "User-Agent") ∧ state r' = 0 ∧
    b_pos (header r') = 4096 + 22.
Proof.
  intros l. apply (parse_print_header (mem_of 4096 l) (loaded l)
    (str "User-Agent") 1 (str "curl 8") 2 (str "Host: a")).
  - reflexivity.
  - split; by vm_compute.
  - by vm_compute.
  - reflexivity.
  - reflexivity.
Defined.

(** The hash distinguishes names only up to collisions, and the dispatch compares
    nothing else: a header line [j1st: ...] is parsed as valid with the hash of [host]. *)
Theorem header_hash_collision :
  hash_lc 0 (str "j1st") = hash_lc 0 (str "host") ∧ str "j1st" ≠ str "host" ∧
  match http_parse_request_header (mem_of 4096 (str "j1st: x" ++ CRLF)) (loaded (str "j1st: x" ++ CRLF)) with
  | Ok (code, r') => code = 0 ∧ invalid_header r' = 0 ∧ header_hash r' = hash_lc 0 (str "host")
  | _ => False
  end.
Proof. by vm_compute. Qed.
