(* ===== verification/ListHead.v ===== *)
(** Circular doubly linked lists: [src/util/list.h].

    A heap of [struct list_head] nodes, with the operations as sequences of stores in
    the order of the source.  [dlist h hd xs] says that the list with head [hd] has the
    entries [xs]; the operations are shown to insert and remove at the level of [xs]. *)

From stdpp Require Import base gmap list numbers strings.
From Stdlib Require Import ZArith Lia.
From S2P Require Import Prelude.

Record list_head : Type := Node { next : Z; prev : Z }.

Definition get_next (h : gmap Z list_head) (a : Z) : cres Z :=
  n ← of_option (h !! a); mret (next n).
Definition get_prev (h : gmap Z list_head) (a : Z) : cres Z :=
  n ← of_option (h !! a); mret (prev n).
Definition set_next (h : gmap Z list_head) (a v : Z) : cres (gmap Z list_head) :=
  n ← of_option (h !! a); mret (<[a := Node v (prev n)]> h).
Definition set_prev (h : gmap Z list_head) (a v : Z) : cres (gmap Z list_head) :=
  n ← of_option (h !! a); mret (<[a := Node (next n) v]> h).

Definition INIT_LIST_HEAD (h : gmap Z list_head) (list : Z) : cres (gmap Z list_head) :=
  h ← set_next h list list;
  set_prev h list list.

Definition __list_add (h : gmap Z list_head) (newer prev next : Z) : cres (gmap Z list_head) :=
  h ← set_prev h next newer;
  h ← set_next h newer next;
  h ← set_prev h newer prev;
  set_next h prev newer.

Definition list_add (h : gmap Z list_head) (newer head : Z) : cres (gmap Z list_head) :=
  n ← get_next h head;
  __list_add h newer head n.

Definition list_add_tail (h : gmap Z list_head) (newer head : Z) : cres (gmap Z list_head) :=
  p ← get_prev h head;
  __list_add h newer p head.

Definition __list_del (h : gmap Z list_head) (prev next : Z) : cres (gmap Z list_head) :=
  h ← set_prev h next prev;
  set_next h prev next.

Definition list_del (h : gmap Z list_head) (entry : Z) : cres (gmap Z list_head) :=
  p ← get_prev h entry;
  n ← get_next h entry;
  __list_del h p n.

Definition list_del_init (h : gmap Z list_head) (entry : Z) : cres (gmap Z list_head) :=
  p ← get_prev h entry;
  n ← get_next h entry;
  h ← __list_del h p n;
  INIT_LIST_HEAD h entry.

Definition list_empty (h : gmap Z list_head) (head : Z) : cres bool :=
  n ← get_next h head; mret (n =? head).

(** ** Representation *)

Definition nxt (h : gmap Z list_head) (a : Z) : option Z := next <$> h !! a.
Definition prv (h : gmap Z list_head) (a : Z) : option Z := prev <$> h !! a.

(** [a] is followed by [b]. *)
Definition linked (h : gmap Z list_head) (e : Z * Z) : Prop :=
  nxt h e.1 = Some e.2 ∧ prv h e.2 = Some e.1.

Definition dlist (h : gmap Z list_head) (hd : Z) (xs : list Z) : Prop :=
  NoDup (hd :: xs) ∧ Forall (linked h) (zip (hd :: xs) (xs ++ [hd])).

(** The heap outside a list is not involved. *)
Lemma dlist_ext h h' hd xs :
  (∀ a, a ∈ hd :: xs → h' !! a = h !! a) → dlist h hd xs → dlist h' hd xs.
Proof.
  intros He [Hnd Hl]. split; [done|]. apply Forall_forall. intros [a b] Hab.
  pose proof (proj1 (Forall_forall _ _) Hl _ Hab) as [Hn Hp].
  pose proof (elem_of_zip_l _ _ _ _ Hab) as Ha. pose proof (elem_of_zip_r _ _ _ _ Hab) as Hb.
  unfold linked, nxt, prv in *. cbn [fst snd] in *.
  rewrite (He a) by done. rewrite (He b); [done|].
  apply elem_of_app in Hb as [Hb| ->%list_elem_of_singleton]; [by right | by left].
Qed.

(** ** Stores, seen through the links *)

Lemma set_next_ok h a v :
  is_Some (h !! a) → ∃ h', set_next h a v = Ok h' ∧
    (∀ x, nxt h' x = if decide (x = a) then Some v else nxt h x) ∧ (∀ x, prv h' x = prv h x) ∧
    (∀ x, x ≠ a → h' !! x = h !! x) ∧ (∀ x, is_Some (h' !! x) ↔ is_Some (h !! x)).
Proof.
  intros [n Ha]. unfold set_next. rewrite Ha. cres_simpl. eexists. split; [done|].
  unfold nxt, prv. split_and!; intros x; [| | intros Hx; by rewrite lookup_insert_ne by done|];
    destruct (decide (x = a)) as [->|Hx]; rewrite ?lookup_insert_eq, ?lookup_insert_ne by done; try done;
    rewrite Ha; done.
Qed.

Lemma set_prev_ok h a v :
  is_Some (h !! a) → ∃ h', set_prev h a v = Ok h' ∧
    (∀ x, prv h' x = if decide (x = a) then Some v else prv h x) ∧ (∀ x, nxt h' x = nxt h x) ∧
    (∀ x, x ≠ a → h' !! x = h !! x) ∧ (∀ x, is_Some (h' !! x) ↔ is_Some (h !! x)).
Proof.
  intros [n Ha]. unfold set_prev. rewrite Ha. cres_simpl. eexists. split; [done|].
  unfold nxt, prv. split_and!; intros x; [| | intros Hx; by rewrite lookup_insert_ne by done|];
    destruct (decide (x = a)) as [->|Hx]; rewrite ?lookup_insert_eq, ?lookup_insert_ne by done; try done;
    rewrite Ha; done.
Qed.

Lemma get_next_ok h a v : nxt h a = Some v → get_next h a = Ok v.
Proof. unfold nxt, get_next. intros (n & -> & ->)%fmap_Some. done. Qed.

Lemma get_prev_ok h a v : prv h a = Some v → get_prev h a = Ok v.
Proof. unfold prv, get_prev. intros (n & -> & ->)%fmap_Some. done. Qed.

Lemma nxt_mapped h a v : nxt h a = Some v → is_Some (h !! a).
Proof. unfold nxt. intros (n & -> & _)%fmap_Some. done. Qed.

Lemma prv_mapped h a v : prv h a = Some v → is_Some (h !! a).
Proof. unfold prv. intros (n & -> & _)%fmap_Some. done. Qed.

(** ** The cycle *)

Lemma zip_split (pre post l1 l2 : list Z) (a b : Z) :
  length pre = length l1 → zip (pre ++ a :: post) (l1 ++ b :: l2) = zip pre l1 ++ (a, b) :: zip post l2.
Proof. intros H. by rewrite zip_with_app by done. Qed.

(** The cycle seen from a gap: [a] is the entry (or the head) before it and [b] the one
    after it. *)
Record gap (hd : Z) (l1 l2 pre suf : list Z) (a b : Z) : Prop := Gap {
  gap_before : hd :: l1 = pre ++ [a];
  gap_after : l2 ++ [hd] = b :: suf;
}.

Lemma gap_exists hd l1 l2 : ∃ pre suf a b, gap hd l1 l2 pre suf a b.
Proof.
  destruct (exists_last (l:=hd :: l1)) as (pre & a & Ea); [done|].
  destruct (l2 ++ [hd]) as [|b suf] eqn:Eb; [by destruct l2|]. by exists pre, suf, a, b.
Qed.

Lemma gap_length hd l1 l2 pre suf a b : gap hd l1 l2 pre suf a b → length pre = length l1.
Proof. intros [E _]. apply (f_equal length) in E. rewrite length_app in E. simpl in E. lia. Qed.

(** What [dlist] says around the gap, with [mid] filling it. *)
Lemma dlist_gap h hd l1 mid l2 pre suf a b :
  gap hd l1 l2 pre suf a b →
  dlist h hd (l1 ++ mid ++ l2) ↔
  NoDup (pre ++ a :: mid ++ l2) ∧ NoDup (l1 ++ mid ++ b :: suf) ∧ Forall (linked h) (zip pre l1) ∧
  Forall (linked h) (zip (a :: mid) (mid ++ [b])) ∧ Forall (linked h) (zip l2 suf).
Proof.
  intros Hg. pose proof (gap_length _ _ _ _ _ _ _ Hg) as Hlen. destruct Hg as [Ea Eb]. unfold dlist.
  assert (E1 : hd :: l1 ++ mid ++ l2 = pre ++ a :: mid ++ l2)
    by (rewrite app_comm_cons, Ea, <-app_assoc; done).
  assert (E2 : (l1 ++ mid ++ l2) ++ [hd] = l1 ++ mid ++ b :: suf) by (rewrite <-!app_assoc, Eb; done).
  rewrite <-E1, E2. rewrite E1 at 2.
  assert (E3 : zip (pre ++ a :: mid ++ l2) (l1 ++ mid ++ b :: suf)
    = zip pre l1 ++ zip (a :: mid) (mid ++ [b]) ++ zip l2 suf).
  { rewrite zip_with_app by done. f_equal.
    change (a :: mid ++ l2) with ((a :: mid) ++ l2).
    replace (mid ++ b :: suf) with ((mid ++ [b]) ++ suf) by (rewrite <-app_assoc; done).
    rewrite zip_with_app; [done|]. rewrite length_app. simpl. lia. }
  rewrite E3, !Forall_app.
  assert (E4 : NoDup (hd :: l1 ++ mid ++ l2) ↔ NoDup (l1 ++ mid ++ b :: suf)).
  { rewrite <-E2. apply NoDup_Permutation_proper, Permutation_cons_append. }
  tauto.
Qed.

(** Links that do not start in [a] or end in [b] survive a change of those two fields. *)
Lemma linked_update h h' (xs ys : list Z) (P Q : Z → Prop) :
  (∀ x, ¬ P x → nxt h' x = nxt h x) → (∀ y, ¬ Q y → prv h' y = prv h y) →
  (∀ x, x ∈ xs → ¬ P x) → (∀ y, y ∈ ys → ¬ Q y) →
  Forall (linked h) (zip xs ys) → Forall (linked h') (zip xs ys).
Proof.
  intros Hn Hp Ha Hb Hl. apply Forall_forall. intros [x y] Hxy.
  pose proof (proj1 (Forall_forall _ _) Hl _ Hxy) as [Hnx Hpy].
  pose proof (elem_of_zip_l _ _ _ _ Hxy). pose proof (elem_of_zip_r _ _ _ _ Hxy).
  split; cbn [fst snd] in *; [rewrite Hn | rewrite Hp]; auto.
Qed.

(** ** The operations on represented lists *)

Lemma INIT_LIST_HEAD_ok h l :
  is_Some (h !! l) → ∃ h', INIT_LIST_HEAD h l = Ok h' ∧ dlist h' l [] ∧ (∀ x, x ≠ l → h' !! x = h !! x).
Proof.
  intros Hl. unfold INIT_LIST_HEAD.
  destruct (set_next_ok h l l Hl) as (h1 & -> & Hn1 & Hp1 & Hf1 & Hd1). cres_simpl.
  destruct (set_prev_ok h1 l l) as (h2 & E2 & Hp2 & Hn2 & Hf2 & Hd2); [by apply Hd1|].
  exists h2. split_and!; [done | | intros x Hx; by rewrite Hf2, Hf1].
  split; [by apply NoDup_singleton|]. constructor; [|constructor].
  split; cbn [fst snd]; [rewrite Hn2, Hn1 | rewrite Hp2]; by rewrite decide_True.
Qed.

(** The effect of the stores of [__list_add] and [__list_del] on the links. *)
Lemma list_add_links h newer a b :
  is_Some (h !! newer) → is_Some (h !! a) → is_Some (h !! b) → newer ≠ a → newer ≠ b →
  ∃ h', __list_add h newer a b = Ok h' ∧
    (∀ x, nxt h' x = if decide (x = a) then Some newer else if decide (x = newer) then Some b else nxt h x) ∧
    (∀ x, prv h' x = if decide (x = b) then Some newer else if decide (x = newer) then Some a else prv h x) ∧
    (∀ x, x ≠ newer → x ≠ a → x ≠ b → h' !! x = h !! x).
Proof.
  intros Hnew Ha Hb Hna Hnb. unfold __list_add.
  destruct (set_prev_ok h b newer Hb) as (h1 & -> & Hp1 & Hn1 & Hf1 & Hd1). cres_simpl.
  destruct (set_next_ok h1 newer b) as (h2 & -> & Hn2 & Hp2 & Hf2 & Hd2); [by apply Hd1|]. cres_simpl.
  destruct (set_prev_ok h2 newer a) as (h3 & -> & Hp3 & Hn3 & Hf3 & Hd3); [by apply Hd2, Hd1|]. cres_simpl.
  destruct (set_next_ok h3 a newer) as (h4 & E4 & Hn4 & Hp4 & Hf4 & Hd4); [by apply Hd3, Hd2, Hd1|].
  exists h4. split; [done|]. split_and!; intros x.
  - rewrite Hn4, Hn3, Hn2, Hn1. done.
  - rewrite Hp4, Hp3, Hp2, Hp1. repeat case_decide; congruence.
  - intros. rewrite Hf4, Hf3, Hf2, Hf1; done.
Qed.

Lemma list_del_links h a b :
  is_Some (h !! a) → is_Some (h !! b) →
  ∃ h', __list_del h a b = Ok h' ∧
    (∀ x, nxt h' x = if decide (x = a) then Some b else nxt h x) ∧
    (∀ x, prv h' x = if decide (x = b) then Some a else prv h x) ∧
    (∀ x, x ≠ a → x ≠ b → h' !! x = h !! x) ∧ (∀ x, is_Some (h' !! x) ↔ is_Some (h !! x)).
Proof.
  intros Ha Hb. unfold __list_del.
  destruct (set_prev_ok h b a Hb) as (h1 & -> & Hp1 & Hn1 & Hf1 & Hd1). cres_simpl.
  destruct (set_next_ok h1 a b) as (h2 & E2 & Hn2 & Hp2 & Hf2 & Hd2); [by apply Hd1|].
  exists h2. split; [done|]. split_and!; intros x.
  - by rewrite Hn2, Hn1.
  - by rewrite Hp2, Hp1.
  - intros. by rewrite Hf2, Hf1.
  - by rewrite Hd2, Hd1.
Qed.

Lemma gap_elem hd l1 l2 pre suf a b x :
  gap hd l1 l2 pre suf a b →
  (x ∈ pre ++ a :: l2 ↔ x ∈ hd :: l1 ++ l2) ∧ (x ∈ l1 ++ b :: suf ↔ x ∈ hd :: l1 ++ l2).
Proof.
  intros [Ea Eb]. split.
  - by rewrite app_comm_cons, Ea, <-app_assoc.
  - rewrite <-Eb. rewrite !elem_of_cons, !elem_of_app, list_elem_of_singleton. tauto.
Qed.

(** [__list_add] between the two neighbours of a gap. *)
Lemma list_add_gap h hd l1 l2 pre suf a b newer :
  gap hd l1 l2 pre suf a b → dlist h hd (l1 ++ l2) → is_Some (h !! newer) → newer ∉ hd :: l1 ++ l2 →
  ∃ h', __list_add h newer a b = Ok h' ∧ dlist h' hd (l1 ++ newer :: l2) ∧
    (∀ x, x ∉ hd :: l1 ++ newer :: l2 → h' !! x = h !! x).
Proof.
  intros Hg Hd Hnew Hnin.
  pose proof (proj1 (dlist_gap h hd l1 [] l2 _ _ _ _ Hg) Hd) as (N1 & N2 & F1 & F2 & F3).
  cbn [app] in *. inversion_clear F2 as [|? ? [Ln Lp] _]. cbn [fst snd] in *.
  destruct (gap_elem _ _ _ _ _ _ _ newer Hg) as [Hi1 Hi2].
  assert (Hx1 : newer ∉ pre ++ a :: l2) by tauto. assert (Hx2 : newer ∉ l1 ++ b :: suf) by tauto.
  destruct (list_add_links h newer a b) as (h' & E & Hn & Hp & Hf);
    [done | eapply nxt_mapped | eapply prv_mapped | set_solver | set_solver |]; [done | done |].
  exists h'. split; [done|]. split.
  - change (newer :: l2) with ([newer] ++ l2). apply (dlist_gap _ _ _ [newer] _ _ _ _ _ Hg).
    apply NoDup_app in N1 as (? & Hd1 & ?), N2 as (? & Hd2 & ?).
    split_and!.
    + cbn [app]. apply NoDup_app. split_and!; [done | set_solver |].
      apply NoDup_cons in H0 as [? ?]. apply NoDup_cons; split; [set_solver|]. apply NoDup_cons; set_solver.
    + cbn [app]. apply NoDup_app. split_and!; [done | set_solver |]. apply NoDup_cons; set_solver.
    + eapply (linked_update h h' _ _ (λ x, x = a ∨ x = newer) (λ x, x = b ∨ x = newer)); [| | | |done].
      * intros x Hx. rewrite Hn, !decide_False by tauto. done.
      * intros x Hx. rewrite Hp, !decide_False by tauto. done.
      * set_solver.
      * set_solver.
    + repeat constructor; cbn [fst snd]; rewrite ?Hn, ?Hp, ?decide_True by done; try done.
      * rewrite decide_False by set_solver. by rewrite decide_True.
      * rewrite decide_False by set_solver. by rewrite decide_True.
    + eapply (linked_update h h' _ _ (λ x, x = a ∨ x = newer) (λ x, x = b ∨ x = newer)); [| | | |done].
      * intros x Hx. rewrite Hn, !decide_False by tauto. done.
      * intros x Hx. rewrite Hp, !decide_False by tauto. done.
      * apply NoDup_cons in H0 as [? ?]. set_solver.
      * apply NoDup_cons in H2 as [? ?]. set_solver.
  - intros x Hx. assert (Hx' : x ∉ hd :: l1 ++ l2) by set_solver.
    destruct (gap_elem _ _ _ _ _ _ _ x Hg) as [Hj1 Hj2].
    apply Hf; [set_solver | |]; intros ->; apply Hx'; [apply Hj1 | apply Hj2]; set_solver.
Qed.

(** The neighbours of a gap are what [next] and [prev] of either side hold. *)
Lemma gap_links h hd l1 l2 pre suf a b :
  gap hd l1 l2 pre suf a b → dlist h hd (l1 ++ l2) → nxt h a = Some b ∧ prv h b = Some a.
Proof.
  intros Hg Hd. pose proof (proj1 (dlist_gap h hd l1 [] l2 _ _ _ _ Hg) Hd) as (_ & _ & _ & F2 & _).
  cbn [app] in *. by inversion_clear F2 as [|? ? [Ln Lp] _].
Qed.

(** [list_add_tail newer pos] inserts before [pos], an entry or the head itself. *)
Lemma list_add_tail_before h hd l1 l2 pos newer :
  head (l2 ++ [hd]) = Some pos → dlist h hd (l1 ++ l2) → is_Some (h !! newer) → newer ∉ hd :: l1 ++ l2 →
  ∃ h', list_add_tail h newer pos = Ok h' ∧ dlist h' hd (l1 ++ newer :: l2) ∧
    (∀ x, x ∉ hd :: l1 ++ newer :: l2 → h' !! x = h !! x).
Proof.
  intros Hpos Hd Hm Hnin. destruct (gap_exists hd l1 l2) as (pre & suf & a & b & Hg).
  rewrite (gap_after _ _ _ _ _ _ _ Hg) in Hpos. injection Hpos as <-.
  destruct (gap_links _ _ _ _ _ _ _ _ Hg Hd) as [_ Hp]. unfold list_add_tail.
  rewrite (get_prev_ok _ _ _ Hp). cres_simpl. by eapply list_add_gap.
Qed.

(** [list_add newer pos] inserts after [pos], an entry or the head itself. *)
Lemma list_add_after h hd l1 l2 pos newer :
  last (hd :: l1) = Some pos → dlist h hd (l1 ++ l2) → is_Some (h !! newer) → newer ∉ hd :: l1 ++ l2 →
  ∃ h', list_add h newer pos = Ok h' ∧ dlist h' hd (l1 ++ newer :: l2) ∧
    (∀ x, x ∉ hd :: l1 ++ newer :: l2 → h' !! x = h !! x).
Proof.
  intros Hpos Hd Hm Hnin. destruct (gap_exists hd l1 l2) as (pre & suf & a & b & Hg).
  rewrite (gap_before _ _ _ _ _ _ _ Hg), last_snoc in Hpos. injection Hpos as <-.
  destruct (gap_links _ _ _ _ _ _ _ _ Hg Hd) as [Hn _]. unfold list_add.
  rewrite (get_next_ok _ _ _ Hn). cres_simpl. by eapply list_add_gap.
Qed.

(** Removal of an entry: its own node is not written. *)
Lemma list_del_entry h hd l1 l2 e :
  dlist h hd (l1 ++ e :: l2) →
  ∃ p n h', get_prev h e = Ok p ∧ get_next h e = Ok n ∧ __list_del h p n = Ok h' ∧
    dlist h' hd (l1 ++ l2) ∧ (∀ x, x ∉ hd :: l1 ++ l2 → h' !! x = h !! x).
Proof.
  intros Hd. destruct (gap_exists hd l1 l2) as (pre & suf & a & b & Hg).
  pose proof (proj1 (dlist_gap h hd l1 [e] l2 _ _ _ _ Hg) Hd) as (N1 & N2 & F1 & F2 & F3). cbn [app zip_with] in *.
  inversion_clear F2 as [|? ? [Ln1 Lp1] F2']. inversion_clear F2' as [|? ? [Ln2 Lp2] _]. cbn [fst snd] in *.
  destruct (list_del_links h a b) as (h' & E & Hn & Hp & Hf & _); [by eapply nxt_mapped | by eapply prv_mapped |].
  exists a, b, h'. split_and!; [by apply get_prev_ok | by apply get_next_ok | done | |].
  - apply (dlist_gap _ _ _ [] _ _ _ _ _ Hg). cbn [app zip_with].
    apply NoDup_app in N1 as (? & Hd1 & (? & ?)%NoDup_cons), N2 as (? & Hd2 & (? & (? & ?)%NoDup_cons)%NoDup_cons).
    split_and!.
    + apply NoDup_app. split_and!; [done | set_solver |]. apply NoDup_cons; split; [set_solver|].
      by apply NoDup_cons in H1 as [? ?].
    + apply NoDup_app. split_and!; [done | set_solver |]. by apply NoDup_cons.
    + eapply (linked_update h h' _ _ (λ y, y = a) (λ y, y = b)); [| | set_solver | set_solver | done].
      * intros y Hy. by rewrite Hn, decide_False by done.
      * intros y Hy. by rewrite Hp, decide_False by done.
    + repeat constructor; cbn [fst snd]; by rewrite ?Hn, ?Hp, decide_True by done.
    + eapply (linked_update h h' _ _ (λ y, y = a) (λ y, y = b)); [| | set_solver | set_solver | done].
      * intros y Hy. by rewrite Hn, decide_False by done.
      * intros y Hy. by rewrite Hp, decide_False by done.
  - intros y Hy. destruct (gap_elem _ _ _ _ _ _ _ y Hg) as [Hj1 Hj2].
    apply Hf; intros ->; apply Hy; [apply Hj1 | apply Hj2]; set_solver.
Qed.

Lemma list_del_ok h hd l1 l2 e :
  dlist h hd (l1 ++ e :: l2) →
  ∃ h', list_del h e = Ok h' ∧ dlist h' hd (l1 ++ l2) ∧ (∀ x, x ∉ hd :: l1 ++ l2 → h' !! x = h !! x).
Proof.
  intros Hd. destruct (list_del_entry _ _ _ _ _ Hd) as (p & n & h' & Ep & En & E & H).
  exists h'. unfold list_del. rewrite Ep. cres_simpl. rewrite En. by cres_simpl.
Qed.

Lemma dlist_nodup h hd xs : dlist h hd xs → NoDup (hd :: xs).
Proof. by intros [? _]. Qed.

Lemma dlist_mapped h hd xs x : dlist h hd xs → x ∈ hd :: xs → is_Some (h !! x).
Proof.
  intros [_ Hl] Hx. apply list_elem_of_lookup_1 in Hx as [i Hi].
  destruct (lookup_lt_is_Some_2 (xs ++ [hd]) i) as [y Hy].
  { rewrite length_app. apply lookup_lt_Some in Hi. simpl in *. lia. }
  assert (Hz : zip (hd :: xs) (xs ++ [hd]) !! i = Some (x, y)).
  { apply lookup_zip_with_Some. eauto. }
  destruct (Forall_lookup_1 _ _ _ _ Hl Hz) as [Hn _]. by eapply nxt_mapped.
Qed.

Lemma list_del_init_ok h hd l1 l2 e :
  dlist h hd (l1 ++ e :: l2) →
  ∃ h', list_del_init h e = Ok h' ∧ dlist h' hd (l1 ++ l2) ∧ dlist h' e [] ∧
    (∀ x, x ∉ hd :: l1 ++ e :: l2 → h' !! x = h !! x).
Proof.
  intros Hd. destruct (list_del_entry _ _ _ _ _ Hd) as (p & n & h1 & Ep & En & E & Hd1 & Hf).
  assert (Hnin : e ∉ hd :: l1 ++ l2).
  { pose proof (dlist_nodup _ _ _ Hd) as Hnd. rewrite app_comm_cons in Hnd |- *.
    apply NoDup_app in Hnd as (_ & ? & [? _]%NoDup_cons). set_solver. }
  destruct (INIT_LIST_HEAD_ok h1 e) as (h2 & E2 & He & Hf2).
  { rewrite Hf by done. eapply dlist_mapped; [done|]. set_solver. }
  exists h2. unfold list_del_init. rewrite Ep. cres_simpl. rewrite En. cres_simpl. rewrite E. cres_simpl.
  split_and!; [done | | done |].
  - eapply dlist_ext; [|done]. intros a Ha. apply Hf2. set_solver.
  - intros x Hx. rewrite Hf2, Hf; set_solver.
Qed.

Lemma dlist_next h hd l1 l2 x :
  last (hd :: l1) = Some x → dlist h hd (l1 ++ l2) → get_next h x = Ok (default hd (head l2)).
Proof.
  intros Hx Hd. destruct (gap_exists hd l1 l2) as (pre & suf & a & b & Hg).
  rewrite (gap_before _ _ _ _ _ _ _ Hg), last_snoc in Hx. injection Hx as <-.
  destruct (gap_links _ _ _ _ _ _ _ _ Hg Hd) as [Hn _]. rewrite (get_next_ok _ _ _ Hn). f_equal.
  pose proof (gap_after _ _ _ _ _ _ _ Hg) as Eb. destruct l2; simpl in *; congruence.
Qed.

Lemma list_empty_ok h hd xs : dlist h hd xs → list_empty h hd = Ok (bool_decide (xs = [])).
Proof.
  intros Hd. unfold list_empty. rewrite (dlist_next h hd [] xs hd) by done. cres_simpl. f_equal.
  pose proof (dlist_nodup _ _ _ Hd) as [Hh _]%NoDup_cons. destruct xs as [|x xs]; simpl; [by rewrite Z.eqb_refl|].
  apply Z.eqb_neq. set_solver.
Qed.

(** ** Claims *)

(** On a well-formed circular list, [list_add newer pos] inserts right after [pos] and
    [list_add_tail newer pos'] right before [pos'], where [pos] and [pos'] are the two
    neighbours of any gap (an entry or the head); the entries keep their order, the result
    is well formed in both directions and no cell outside the list is written. *)
Theorem list_add_spec h hd l1 l2 pos pos' newer :
  dlist h hd (l1 ++ l2) → is_Some (h !! newer) → newer ∉ hd :: l1 ++ l2 →
  last (hd :: l1) = Some pos → head (l2 ++ [hd]) = Some pos' →
  (∃ h', list_add h newer pos = Ok h' ∧ list_add_tail h newer pos' = Ok h' ∧
    dlist h' hd (l1 ++ newer :: l2) ∧ (∀ x, x ∉ hd :: l1 ++ newer :: l2 → h' !! x = h !! x)).
Proof.
  intros Hd Hm Hnin Hl Hh.
  destruct (gap_exists hd l1 l2) as (pre & suf & a & b & Hg).
  rewrite (gap_before _ _ _ _ _ _ _ Hg), last_snoc in Hl. injection Hl as <-.
  rewrite (gap_after _ _ _ _ _ _ _ Hg) in Hh. injection Hh as <-.
  destruct (gap_links _ _ _ _ _ _ _ _ Hg Hd) as [Hn Hp]. unfold list_add, list_add_tail.
  rewrite (get_next_ok _ _ _ Hn), (get_prev_ok _ _ _ Hp). cres_simpl.
  destruct (list_add_gap _ _ _ _ _ _ _ _ _ Hg Hd Hm Hnin) as (h' & E & H). by exists h'.
Qed.

(** [list_del_init] unlinks an entry of a well-formed list: the remaining entries keep
    their order, the entry becomes an empty list of its own (so that [list_empty] holds of
    it), and no cell outside the list is written. *)
Theorem list_del_init_spec h hd l1 l2 e :
  dlist h hd (l1 ++ e :: l2) →
  ∃ h', list_del_init h e = Ok h' ∧ dlist h' hd (l1 ++ l2) ∧ list_empty h' e = Ok true ∧
    list_empty h' hd = Ok (bool_decide (l1 ++ l2 = [])) ∧ (∀ x, x ∉ hd :: l1 ++ e :: l2 → h' !! x = h !! x).
Proof.
  intros Hd. destruct (list_del_init_ok _ _ _ _ _ Hd) as (h' & E & H1 & H2 & Hf).
  exists h'. split_and!; [done | done | | by apply list_empty_ok | done].
  by rewrite (list_empty_ok _ _ _ H2).
Qed.

(** A list with head 1 and entries 2 and 3, and an unlinked node 9. *)
Definition sample_list : gmap Z list_head :=
  {[1 := Node 2 3; 2 := Node 3 1; 3 := Node 1 2; 9 := Node 0 0]}.

Lemma sample_dlist : dlist sample_list 1 [2; 3].
Proof.
  split; [apply (bool_decide_unpack (NoDup [1; 2; 3])); vm_compute; done|].
  repeat constructor.
Qed.

Lemma list_add_spec_witness :
  ∃ h', list_add sample_list 9 2 = Ok h' ∧ list_add_tail sample_list 9 3 = Ok h' ∧
    dlist h' 1 ([2] ++ 9 :: [3]) ∧ (∀ x, x ∉ 1 :: [2] ++ 9 :: [3] → h' !! x = sample_list !! x).
Proof.
  apply (list_add_spec sample_list 1 [2] [3] 2 3 9).
  - exact sample_dlist.
  - by exists (Node 0 0).
  - apply (bool_decide_unpack (9 ∉ [1; 2; 3])). vm_compute. done.
  - reflexivity.
  - reflexivity.
Defined.

Lemma list_del_init_spec_witness :
  ∃ h', list_del_init sample_list 2 = Ok h' ∧ dlist h' 1 [3] ∧ list_empty h' 2 = Ok true ∧
    list_empty h' 1 = Ok false ∧ (∀ x, x ∉ 1 :: [] ++ 2 :: [3] → h' !! x = sample_list !! x).
Proof. apply (list_del_init_spec sample_list 1 [] [3] 2). exact sample_dlist. Defined.
