(* ===== verification/HashTable.v ===== *)
(** The hash table of [src/util/hashtable.c].

    Elements are heap cells whose first member is the list node, so an element and its
    node have the same address.  [malloc] is an argument of the operations that allocate:
    the address it returns, NULL when it fails.  [free] unmaps the element, so a use after
    free is undefined behaviour.  The buckets are kept sorted by key; [table_rep] states
    that and [is_map] relates a table to the finite map it implements. *)

From stdpp Require Import base gmap list numbers sorting.
From Stdlib Require Import ZArith Lia.
From S2P Require Import Prelude ListHead.

Record hash_element : Type := Element { key : Z; object : Z }.
Record hash_table : Type := Table { bucket_size : Z; buckets : Z }.

(** The part of the heap hash tables live in. *)
Record hheap : Type := Heap { nodes : gmap Z list_head; elems : gmap Z hash_element }.

Definition SIZEOF_LIST_HEAD : Z := 16.
Definition SIZEOF_HASH_TABLE : Z := 16.

(** [malloc] of an element: the cell is mapped, its contents are not meaningful yet. *)
Definition new_element (h : hheap) (p key object : Z) : hheap :=
  Heap (<[p := Node NULL NULL]> (nodes h)) (<[p := Element key object]> (elems h)).
Definition free_element (h : hheap) (p : Z) : cres hheap :=
  _ ← of_option (elems h !! p);
  mret (Heap (delete p (nodes h)) (delete p (elems h))).
Definition with_nodes (h : hheap) (r : cres (gmap Z list_head)) : cres hheap :=
  n ← r; mret (Heap n (elems h)).
Definition get_elem (h : hheap) (p : Z) : cres hash_element := of_option (elems h !! p).

(** [&ht->buckets[key % ht->bucket_size]] *)
Definition bucket_of (ht : hash_table) (key : Z) : cres Z :=
  if bucket_size ht =? 0 then Ub
  else mret (buckets ht + SIZEOF_LIST_HEAD * (key mod bucket_size ht)).

(** The iterations of a [list_for_each_entry] over a well-formed bucket are fewer than
    the nodes of the heap. *)
Definition walk_fuel (h : hheap) : nat := S (size (nodes h)).

Fixpoint find_loop (fuel : nat) (h : hheap) (bucket k loop : Z) : cres Z :=
  match fuel with
  | O => Fuel
  | S fuel =>
    if loop =? bucket then mret NULL else
    e ← get_elem h loop;
    if key e <? k then n ← get_next (nodes h) loop; find_loop fuel h bucket k n else
    if key e =? k then mret (object e) else mret NULL
  end.

Definition hash_table_find (h : hheap) (ht : hash_table) (k : Z) : cres Z :=
  bucket ← bucket_of ht k;
  n ← get_next (nodes h) bucket;
  find_loop (walk_fuel h) h bucket k n.

Fixpoint remove_loop (fuel : nat) (h : hheap) (bucket k loop : Z) : cres (Z * hheap) :=
  match fuel with
  | O => Fuel
  | S fuel =>
    if loop =? bucket then mret (NULL, h) else
    e ← get_elem h loop;
    if k =? key e then
      h ← with_nodes h (list_del_init (nodes h) loop);
      e ← get_elem h loop;
      let obj := object e in
      h ← free_element h loop;
      mret (obj, h)
    else n ← get_next (nodes h) loop; remove_loop fuel h bucket k n
  end.

Definition hash_table_remove (h : hheap) (ht : hash_table) (k : Z) : cres (Z * hheap) :=
  bucket ← bucket_of ht k;
  n ← get_next (nodes h) bucket;
  remove_loop (walk_fuel h) h bucket k n.

Fixpoint add_loop (fuel : nat) (h : hheap) (bucket k elem loop : Z) : cres (Z * hheap) :=
  match fuel with
  | O => Fuel
  | S fuel =>
    if loop =? bucket then
      h ← with_nodes h (list_add_tail (nodes h) elem loop); mret (0, h)
    else
    e ← get_elem h loop;
    if key e <? k then n ← get_next (nodes h) loop; add_loop fuel h bucket k elem n else
    if key e =? k then h ← free_element h elem; mret (-2, h) else
    h ← with_nodes h (list_add_tail (nodes h) elem loop); mret (0, h)
  end.

(** [elem] is what [malloc] returns. *)
Definition hash_table_add (elem : Z) (h : hheap) (ht : hash_table) (k obj : Z) : cres (Z * hheap) :=
  bucket ← bucket_of ht k;
  if elem =? NULL then mret (-1, h) else
  let h := new_element h elem k obj in
  n ← get_next (nodes h) bucket;
  add_loop (walk_fuel h) h bucket k elem n.

(** [while (bucket_size--) INIT_LIST_HEAD(&ht->buckets[bucket_size])] *)
Fixpoint init_buckets (n : nat) (h : hheap) (ht : hash_table) : cres hheap :=
  match n with
  | O => mret h
  | S n =>
    h ← with_nodes h (INIT_LIST_HEAD (nodes h) (buckets ht + SIZEOF_LIST_HEAD * Z.of_nat n));
    init_buckets n h ht
  end.

(** The cells a [malloc] of [n] list heads maps. *)
Fixpoint new_nodes (n : nat) (m : gmap Z list_head) (base : Z) : gmap Z list_head :=
  match n with
  | O => m
  | S n => <[base + SIZEOF_LIST_HEAD * Z.of_nat n := Node NULL NULL]> (new_nodes n m base)
  end.

(** [ht] is what [malloc] returns; the result is the table the pointer refers to. *)
Definition hash_table_create (ht : Z) (h : hheap) (size : Z) : cres (option hash_table * hheap) :=
  if (size =? 0) || negb (Z.land size (u32 (size - 1)) =? 0) then mret (None, h) else
  if ht =? NULL then mret (None, h) else
  let n := Z.to_nat size in
  let tbl := Table size (ht + SIZEOF_HASH_TABLE) in
  let h := Heap (new_nodes n (nodes h) (ht + SIZEOF_HASH_TABLE)) (elems h) in
  h ← init_buckets n h tbl;
  mret (Some tbl, h).

(** ** Representation *)

Record ent : Type := Ent { e_addr : Z; e_key : Z; e_obj : Z }.

(** The bucket whose head is at [hd] holds the elements [l]. *)
Record bucket_rep (h : hheap) (hd : Z) (l : list ent) : Prop := BucketRep {
  br_list : dlist (nodes h) hd (e_addr <$> l);
  br_elems : Forall (λ e, elems h !! e_addr e = Some (Element (e_key e) (e_obj e))) l;
  br_sorted : StronglySorted Z.lt (e_key <$> l);
}.

Fixpoint assoc (k : Z) (l : list ent) : option Z :=
  match l with
  | [] => None
  | e :: l => if e_key e =? k then Some (e_obj e) else assoc k l
  end.

(** *** Walking a bucket *)

Lemma bucket_fuel h hd l : bucket_rep h hd l → (length l < size (nodes h))%nat.
Proof.
  intros [Hd _ _]. assert (Hs : list_to_set (hd :: (e_addr <$> l)) ⊆ dom (nodes h)).
  { intros x Hx%elem_of_list_to_set. apply elem_of_dom. by eapply dlist_mapped. }
  apply subseteq_size in Hs. rewrite size_list_to_set in Hs by (by eapply dlist_nodup).
  rewrite size_dom in Hs. simpl in Hs. rewrite length_fmap in Hs. lia.
Qed.

(** The node a walk is at when the entries [l2] are still to be visited. *)
Definition cursor (hd : Z) (l2 : list ent) : Z := default hd (head (e_addr <$> l2)).

Lemma cursor_next h hd l1 e l2 :
  bucket_rep h hd (l1 ++ e :: l2) → get_next (nodes h) (e_addr e) = Ok (cursor hd l2).
Proof.
  intros [Hd _ _]. rewrite fmap_app, fmap_cons in Hd. unfold cursor.
  apply (dlist_next _ _ ((e_addr <$> l1) ++ [e_addr e])).
  - by rewrite app_comm_cons, last_snoc.
  - by rewrite <-app_assoc.
Qed.

Lemma cursor_first h hd l : bucket_rep h hd l → get_next (nodes h) hd = Ok (cursor hd l).
Proof. intros [Hd _ _]. by apply (dlist_next _ _ []). Qed.

Lemma cursor_end hd : cursor hd [] = hd.
Proof. done. Qed.

Lemma bucket_entry h hd l1 e l2 :
  bucket_rep h hd (l1 ++ e :: l2) →
  get_elem h (e_addr e) = Ok (Element (e_key e) (e_obj e)) ∧ (e_addr e =? hd) = false.
Proof.
  intros [Hd He _]. split.
  - unfold get_elem. apply Forall_app in He as [_ [-> _]%Forall_cons]. done.
  - apply Z.eqb_neq. apply dlist_nodup in Hd as [Hn _]%NoDup_cons. rewrite fmap_app in Hn. set_solver.
Qed.

Lemma assoc_lt k l : StronglySorted Z.lt (k :: (e_key <$> l)) → assoc k l = None.
Proof.
  intros [_ Hf]%StronglySorted_inv. induction l as [|e l IH]; [done|].
  rewrite fmap_cons in Hf. apply Forall_cons in Hf as [He Hf]. simpl.
  rewrite (proj2 (Z.eqb_neq _ _)) by lia. auto.
Qed.

Lemma assoc_above k e l :
  StronglySorted Z.lt (e_key <$> e :: l) → k < e_key e → assoc k (e :: l) = None.
Proof.
  intros Hs Hk. apply assoc_lt. constructor; [done|].
  rewrite fmap_cons in *. apply StronglySorted_inv in Hs as [_ Hf]. constructor; [done|].
  eapply Forall_impl; [done|]. intros x Hx. lia.
Qed.

Lemma sorted_suffix (l1 l2 : list ent) :
  StronglySorted Z.lt (e_key <$> l1 ++ l2) → StronglySorted Z.lt (e_key <$> l2).
Proof. rewrite fmap_app. apply StronglySorted_app_1_r. Qed.

Lemma find_loop_ok fuel h hd k l1 l2 :
  bucket_rep h hd (l1 ++ l2) → (length l2 < fuel)%nat →
  find_loop fuel h hd k (cursor hd l2) = Ok (default NULL (assoc k l2)).
Proof.
  revert l1 l2. induction fuel as [|fuel IH]; intros l1 l2 Hb Hf; [lia|]. simpl.
  destruct l2 as [|e l2]; [by rewrite cursor_end, Z.eqb_refl|].
  destruct (bucket_entry _ _ _ _ _ Hb) as [He Hne].
  change (cursor hd (e :: l2)) with (e_addr e). rewrite Hne, He. cres_simpl. cbn [key object].
  pose proof (sorted_suffix _ _ (br_sorted _ _ _ Hb)) as Hs.
  destruct (e_key e <? k) eqn:E1.
  - rewrite (cursor_next _ _ _ _ _ Hb). cres_simpl.
    rewrite (IH (l1 ++ [e]) l2); [|by rewrite <-app_assoc | simpl in Hf; lia].
    cbn [assoc]. by rewrite (proj2 (Z.eqb_neq _ _)) by blia.
  - destruct (e_key e =? k) eqn:E2; [cbn [assoc]; by rewrite E2|].
    rewrite assoc_above; [done | done | blia].
Qed.

(** A bucket is not affected by changes elsewhere. *)
Lemma bucket_rep_ext h h' hd l :
  (∀ a, a ∈ hd :: (e_addr <$> l) → nodes h' !! a = nodes h !! a) →
  (∀ a, a ∈ e_addr <$> l → elems h' !! a = elems h !! a) →
  bucket_rep h hd l → bucket_rep h' hd l.
Proof.
  intros Hn He [Hd Hf Hs]. split; [by eapply dlist_ext | | done].
  apply Forall_forall. intros e Hin. rewrite He; [|by apply list_elem_of_fmap_2].
  by apply (proj1 (Forall_forall _ _) Hf).
Qed.

Lemma sorted_middle (l1 l2 : list ent) e :
  Forall (λ d, e_key d < e_key e) l1 → StronglySorted Z.lt (e_key <$> l1 ++ l2) →
  StronglySorted Z.lt (e_key <$> e :: l2) → StronglySorted Z.lt (e_key <$> l1 ++ e :: l2).
Proof.
  intros Hlt Hs H2. induction l1 as [|d l1 IH]; [done|]. rewrite <-app_comm_cons, fmap_cons in *.
  apply Forall_cons in Hlt as [Hd Hlt]. apply StronglySorted_inv in Hs as [Hs Hf].
  constructor; [by apply IH|]. rewrite fmap_app in *. apply Forall_app in Hf as [Hf1 Hf2].
  apply Forall_app. split; [done|]. rewrite fmap_cons. constructor; done.
Qed.

Lemma sorted_delete (l1 l2 : list ent) e :
  StronglySorted Z.lt (e_key <$> l1 ++ e :: l2) → StronglySorted Z.lt (e_key <$> l1 ++ l2).
Proof.
  induction l1 as [|d l1 IH]; rewrite <-?app_comm_cons, ?fmap_cons; cbn [app];
    intros [Hs Hf]%StronglySorted_inv; [done|].
  constructor; [by apply IH|]. rewrite fmap_app, fmap_cons in *.
  apply Forall_app in Hf as [? [? ?]%Forall_cons]. by apply Forall_app.
Qed.

Lemma cursor_head hd l2 : head ((e_addr <$> l2) ++ [hd]) = Some (cursor hd l2).
Proof. by destruct l2. Qed.

(** What an element about to be inserted looks like in the heap. *)
Definition detached (h : hheap) (hd : Z) (l : list ent) (e : ent) : Prop :=
  is_Some (nodes h !! e_addr e) ∧ elems h !! e_addr e = Some (Element (e_key e) (e_obj e)) ∧
  e_addr e ∉ hd :: (e_addr <$> l).

Lemma insert_ok h hd l1 l2 e :
  bucket_rep h hd (l1 ++ l2) → detached h hd (l1 ++ l2) e →
  Forall (λ d, e_key d < e_key e) l1 → StronglySorted Z.lt (e_key <$> e :: l2) →
  ∃ n', list_add_tail (nodes h) (e_addr e) (cursor hd l2) = Ok n' ∧
    bucket_rep (Heap n' (elems h)) hd (l1 ++ e :: l2) ∧
    (∀ x, x ∉ hd :: (e_addr <$> l1 ++ e :: l2) → n' !! x = nodes h !! x).
Proof.
  intros [Hd He Hs] (Hm & Hel & Hnin) Hlt Hgt. rewrite fmap_app in Hd, Hnin.
  destruct (list_add_tail_before (nodes h) hd (e_addr <$> l1) (e_addr <$> l2) (cursor hd l2) (e_addr e))
    as (n' & E & Hd' & Hf); [apply cursor_head | done | done | done |].
  exists n'. rewrite fmap_app, fmap_cons. split_and!; [done | | done]. split.
  - by rewrite fmap_app, fmap_cons.
  - cbn [elems]. apply Forall_app in He as [? ?]. apply Forall_app. split; [done|]. by constructor.
  - by apply sorted_middle.
Qed.

(** The effect of [hash_table_add] on the bucket, from any point of its walk. *)
Lemma add_loop_ok fuel h hd l1 l2 e :
  bucket_rep h hd (l1 ++ l2) → detached h hd (l1 ++ l2) e → (length l2 < fuel)%nat →
  Forall (λ d, e_key d < e_key e) l1 →
  match assoc (e_key e) l2 with
  | Some _ => add_loop fuel h hd (e_key e) (e_addr e) (cursor hd l2)
      = (h ← free_element h (e_addr e); mret (-2, h))
  | None => ∃ n' m1 m2, add_loop fuel h hd (e_key e) (e_addr e) (cursor hd l2) = Ok (0, Heap n' (elems h)) ∧
      l2 = m1 ++ m2 ∧ bucket_rep (Heap n' (elems h)) hd (l1 ++ m1 ++ e :: m2) ∧
      (∀ x, x ∉ hd :: (e_addr <$> l1 ++ e :: l2) → n' !! x = nodes h !! x)
  end.
Proof.
  revert l1 l2. induction fuel as [|fuel IH]; intros l1 l2 Hb Hdet Hf Hlt; [lia|].
  destruct l2 as [|d l2]; cbn [add_loop].
  { rewrite cursor_end, Z.eqb_refl. cbn [assoc].
    destruct (insert_ok _ _ _ _ _ Hb Hdet Hlt) as (n' & E & Hb' & Hfr); [repeat constructor|].
    rewrite cursor_end in E. exists n', [], []. rewrite E. by cres_simpl. }
  destruct (bucket_entry _ _ _ _ _ Hb) as [Hd Hne].
  change (cursor hd (d :: l2)) with (e_addr d). rewrite Hne, Hd. cres_simpl. cbn [key object assoc].
  destruct (e_key d <? e_key e) eqn:E1.
  - rewrite (cursor_next _ _ _ _ _ Hb), (proj2 (Z.eqb_neq _ _)) by blia. cres_simpl.
    assert (El : l1 ++ d :: l2 = (l1 ++ [d]) ++ l2) by (by rewrite <-app_assoc).
    rewrite El in Hb, Hdet. specialize (IH _ _ Hb Hdet).
    destruct (assoc (e_key e) l2); [apply IH | destruct IH as (n' & m1 & m2 & E & -> & Hb' & Hfr)];
      try (simpl in Hf; lia); try (apply Forall_app; split; [done|]; repeat constructor; blia).
    exists n', (d :: m1), m2. rewrite <-app_assoc in Hb'. split_and!; try done.
    intros x Hx. apply Hfr. rewrite !fmap_app, !fmap_cons in *. set_solver.
  - destruct (e_key d =? e_key e) eqn:E2; [done|].
    assert (Hlt' : e_key e < e_key d) by blia.
    pose proof (sorted_suffix _ _ (br_sorted _ _ _ Hb)) as Hs. rewrite fmap_cons in Hs.
    rewrite (assoc_lt (e_key e) l2).
    2:{ apply StronglySorted_inv in Hs as [? Hfd]. constructor; [done|].
        eapply Forall_impl; [done|]. intros ? ?. lia. }
    destruct (insert_ok _ _ _ _ _ Hb Hdet Hlt) as (n' & E & Hb' & Hfr).
    { rewrite !fmap_cons. constructor; [done|]. constructor; [done|].
      apply StronglySorted_inv in Hs as [_ Hfd]. eapply Forall_impl; [done|]. intros ? ?. lia. }
    change (cursor hd (d :: l2)) with (e_addr d) in E. exists n', [], (d :: l2). rewrite E. by cres_simpl.
Qed.

(** The effect of [hash_table_remove] on the bucket. *)
Lemma remove_loop_ok fuel h hd k l1 l2 :
  bucket_rep h hd (l1 ++ l2) → (length l2 < fuel)%nat →
  match assoc k l2 with
  | None => remove_loop fuel h hd k (cursor hd l2) = Ok (NULL, h)
  | Some o => ∃ h' m1 a m2, remove_loop fuel h hd k (cursor hd l2) = Ok (o, h') ∧
      l2 = m1 ++ Ent a k o :: m2 ∧ bucket_rep h' hd (l1 ++ m1 ++ m2) ∧
      nodes h' !! a = None ∧ elems h' = delete a (elems h) ∧
      (∀ x, x ∉ hd :: (e_addr <$> l1 ++ l2) → nodes h' !! x = nodes h !! x)
  end.
Proof.
  revert l1 l2. induction fuel as [|fuel IH]; intros l1 l2 Hb Hf; [lia|].
  destruct l2 as [|d l2]; cbn [remove_loop]; [by rewrite cursor_end, Z.eqb_refl|].
  destruct (bucket_entry _ _ _ _ _ Hb) as [Hd Hne].
  change (cursor hd (d :: l2)) with (e_addr d). rewrite Hne, Hd. cres_simpl. cbn [key object assoc].
  rewrite (Z.eqb_sym k). destruct (e_key d =? k) eqn:E1.
  - apply Z.eqb_eq in E1 as <-. destruct Hb as [Hl He Hs]. rewrite fmap_app, fmap_cons in Hl.
    pose proof (dlist_nodup _ _ _ Hl) as Hnd.
    destruct (list_del_init_ok _ _ _ _ _ Hl) as (n' & -> & Hl' & _ & Hfr). cres_simpl.
    unfold with_nodes, get_elem, free_element in *. cbn [mbind cres_mbind cres_bind mret cres_mret elems] in *.
    rewrite Hd. cbn [mbind cres_mbind cres_bind mret cres_mret elems nodes object].
    destruct (elems h !! e_addr d) as [ed|] eqn:Eed; [|done]. cres_simpl.
    eexists _, [], (e_addr d), l2. split_and!; [done | by destruct d | | | done |].
    + assert (Hnin : e_addr d ∉ hd :: (e_addr <$> l1) ++ (e_addr <$> l2)).
      { rewrite app_comm_cons in Hnd |- *. apply NoDup_app in Hnd as (_ & ? & [? _]%NoDup_cons). set_solver. }
      apply (bucket_rep_ext (Heap n' (elems h))).
      * intros a Ha. cbn [nodes app] in *. rewrite lookup_delete_ne; [done|]. rewrite fmap_app in Ha. set_solver.
      * intros a Ha. cbn [elems app] in *. rewrite lookup_delete_ne; [done|]. rewrite fmap_app in Ha. set_solver.
      * split; cbn [nodes elems app]; [by rewrite fmap_app | | by eapply sorted_delete].
        apply Forall_app in He as [? [? ?]%Forall_cons]. by apply Forall_app.
    + cbn [nodes]. by rewrite lookup_delete_eq.
    + intros x Hx. cbn [nodes]. rewrite fmap_app, fmap_cons in Hx. rewrite lookup_delete_ne by set_solver.
      by apply Hfr.
  - rewrite (cursor_next _ _ _ _ _ Hb). cres_simpl.
    assert (El : l1 ++ d :: l2 = (l1 ++ [d]) ++ l2) by (by rewrite <-app_assoc).
    rewrite El in Hb. specialize (IH _ _ Hb).
    destruct (assoc k l2); [destruct IH as (h' & m1 & a & m2 & E & -> & Hb' & ? & ? & Hfr) | apply IH];
      try (simpl in Hf; lia).
    exists h', (d :: m1), a, m2. rewrite <-app_assoc in Hb', Hfr. split_and!; try done.
Qed.

(** ** The whole table *)

Definition head_of (ht : hash_table) (i : Z) : Z := buckets ht + SIZEOF_LIST_HEAD * i.
Definition cells (ht : hash_table) (bs : Z → list ent) (i : Z) : list Z := head_of ht i :: (e_addr <$> bs i).

Record table_rep (h : hheap) (ht : hash_table) (bs : Z → list ent) : Prop := TableRep {
  tr_size : 0 < bucket_size ht < 2 ^ 32;
  tr_bucket : ∀ i, 0 ≤ i < bucket_size ht → bucket_rep h (head_of ht i) (bs i);
  tr_index : ∀ i e, 0 ≤ i < bucket_size ht → e ∈ bs i → e_key e mod bucket_size ht = i;
  tr_disjoint : ∀ i j a, 0 ≤ i < bucket_size ht → 0 ≤ j < bucket_size ht → i ≠ j →
    a ∈ cells ht bs i → a ∉ cells ht bs j;
}.

(** The table at [ht] implements the finite map [t] from keys to objects. *)
Definition is_map (h : hheap) (ht : hash_table) (t : gmap Z Z) : Prop :=
  ∃ bs, table_rep h ht bs ∧ ∀ k, t !! k = assoc k (bs (k mod bucket_size ht)).

Definition update (bs : Z → list ent) (j : Z) (l : list ent) (i : Z) : list ent :=
  if i =? j then l else bs i.

Lemma update_eq bs j l : update bs j l j = l.
Proof. unfold update. by rewrite Z.eqb_refl. Qed.
Lemma update_ne bs j l i : i ≠ j → update bs j l i = bs i.
Proof. unfold update. intros. by rewrite (proj2 (Z.eqb_neq _ _)) by done. Qed.

Lemma bucket_of_ok h ht bs k :
  table_rep h ht bs → bucket_of ht k = Ok (head_of ht (k mod bucket_size ht)).
Proof.
  intros [Hs _ _ _]. unfold bucket_of. by rewrite (proj2 (Z.eqb_neq _ _)) by lia.
Qed.

Lemma index_range h ht bs k : table_rep h ht bs → 0 ≤ k mod bucket_size ht < bucket_size ht.
Proof. intros [Hs _ _ _]. apply Z.mod_pos_bound. lia. Qed.

(** One bucket of the table changes, within its own cells and the fresh ones of [extra]. *)
Lemma table_rep_update h h' ht bs j l :
  table_rep h ht bs → 0 ≤ j < bucket_size ht → bucket_rep h' (head_of ht j) l →
  (∀ e, e ∈ l → e_key e mod bucket_size ht = j) →
  (∀ a i, a ∈ e_addr <$> l → a ∉ cells ht bs j → 0 ≤ i < bucket_size ht → a ∉ cells ht bs i) →
  (∀ i a, 0 ≤ i < bucket_size ht → i ≠ j → a ∈ cells ht bs i →
    nodes h' !! a = nodes h !! a ∧ (a ≠ head_of ht i → elems h' !! a = elems h !! a)) →
  table_rep h' ht (update bs j l).
Proof.
  intros Ht Hj Hl Hidx Hfresh Hframe. pose proof Ht as [Hs Hb Hi Hd].
  assert (Hc : ∀ i a, 0 ≤ i < bucket_size ht → i ≠ j → a ∈ cells ht (update bs j l) j → a ∉ cells ht bs i).
  { intros i a Hri Hne Ha Hin. unfold cells in Ha. rewrite update_eq in Ha.
    destruct (decide (a ∈ cells ht bs j)) as [Hj'|Hnj]; [by eapply (Hd i j)|].
    apply elem_of_cons in Ha as [->|Ha]; [apply Hnj; unfold cells; set_solver|].
    by apply (Hfresh a i). }
  assert (Hcu : ∀ i, i ≠ j → cells ht (update bs j l) i = cells ht bs i).
  { intros i Hne. unfold cells. by rewrite update_ne. }
  split; [done | | |].
  - intros i Hri. destruct (decide (i = j)) as [->|Hne]; [by rewrite update_eq|].
    rewrite update_ne by done. apply (bucket_rep_ext h); [| | by apply Hb].
    + intros a Ha. by apply (Hframe i a Hri Hne).
    + intros a Ha. apply (Hframe i a Hri Hne); [unfold cells; set_solver|].
      pose proof (dlist_nodup _ _ _ (br_list _ _ _ (Hb i Hri))) as [? _]%NoDup_cons. set_solver.
  - intros i e Hri. destruct (decide (i = j)) as [->|Hne]; [rewrite update_eq; auto|].
    rewrite update_ne by done. auto.
  - intros i i' a Hri Hri' Hne. destruct (decide (i = j)) as [->|Hij].
    + intros Ha. rewrite (Hcu i') by done. by apply Hc.
    + rewrite (Hcu i) by done. intros Ha. destruct (decide (i' = j)) as [->|Hij'].
      * intros Ha'. by apply (Hc i a).
      * rewrite (Hcu i') by done. by apply (Hd i i').
Qed.

(** *** Association lists *)

Lemma assoc_app k l1 l2 : assoc k (l1 ++ l2) = match assoc k l1 with Some o => Some o | None => assoc k l2 end.
Proof. induction l1 as [|e l1 IH]; [done|]. simpl. by destruct (e_key e =? k). Qed.

Lemma assoc_insert k l1 e l2 :
  assoc (e_key e) (l1 ++ l2) = None →
  assoc k (l1 ++ e :: l2) = if e_key e =? k then Some (e_obj e) else assoc k (l1 ++ l2).
Proof.
  rewrite !assoc_app. cbn [assoc]. intros H. destruct (e_key e =? k) eqn:E; [|done].
  apply Z.eqb_eq in E as <-. by destruct (assoc (e_key e) l1).
Qed.

Lemma assoc_delete k l1 e l2 :
  StronglySorted Z.lt (e_key <$> l1 ++ e :: l2) →
  assoc k (l1 ++ l2) = if e_key e =? k then None else assoc k (l1 ++ e :: l2).
Proof.
  intros Hs. rewrite !assoc_app. cbn [assoc]. destruct (e_key e =? k) eqn:E; [|done].
  apply Z.eqb_eq in E as <-. pose proof (sorted_suffix _ _ Hs) as Hs2. rewrite fmap_cons in Hs2.
  rewrite (assoc_lt _ _ Hs2). cut (assoc (e_key e) l1 = None); [by intros ->|]. clear Hs2.
  induction l1 as [|d l1 IH]; [done|]. simpl in *. apply StronglySorted_inv in Hs as [Hs Hf].
  rewrite fmap_app in Hf. apply Forall_app in Hf as [_ [Hd _]%Forall_cons].
  rewrite (proj2 (Z.eqb_neq _ _)) by lia. by apply IH.
Qed.

Lemma assoc_update k bs j l ht :
  assoc k (update bs j l (k mod bucket_size ht))
  = if (k mod bucket_size ht) =? j then assoc k l else assoc k (bs (k mod bucket_size ht)).
Proof. unfold update. by case_match. Qed.

(** *** The operations *)

Lemma find_ok h ht t k : is_map h ht t → hash_table_find h ht k = Ok (default NULL (t !! k)).
Proof.
  intros (bs & Ht & Hk). unfold hash_table_find. rewrite (bucket_of_ok _ _ _ _ Ht). cres_simpl.
  pose proof (tr_bucket _ _ _ Ht _ (index_range _ _ _ k Ht)) as Hb.
  rewrite (cursor_first _ _ _ Hb). cres_simpl. rewrite (find_loop_ok _ _ _ _ [] _ Hb), Hk; [done|].
  pose proof (bucket_fuel _ _ _ Hb). unfold walk_fuel. lia.
Qed.

Lemma remove_ok h ht t k :
  is_map h ht t →
  ∃ h', hash_table_remove h ht k = Ok (default NULL (t !! k), h') ∧ is_map h' ht (delete k t).
Proof.
  intros (bs & Ht & Hk). unfold hash_table_remove. rewrite (bucket_of_ok _ _ _ _ Ht). cres_simpl.
  pose proof (index_range _ _ _ k Ht) as Hi. set (i := k mod bucket_size ht) in *.
  pose proof (tr_bucket _ _ _ Ht _ Hi) as Hb.
  rewrite (cursor_first _ _ _ Hb). cres_simpl. rewrite Hk. fold i.
  pose proof (remove_loop_ok (walk_fuel h) h (head_of ht i) k [] (bs i) Hb) as Hr.
  assert (Hf : (length (bs i) < walk_fuel h)%nat).
  { pose proof (bucket_fuel _ _ _ Hb). unfold walk_fuel. lia. }
  specialize (Hr Hf). destruct (assoc k (bs i)) as [o|] eqn:Ea.
  2:{ exists h. split; [done|]. exists bs. split; [done|]. intros k'. destruct (decide (k' = k)) as [->|Hne].
      - rewrite lookup_delete_eq. fold i. done.
      - rewrite lookup_delete_ne by done. apply Hk. }
  destruct Hr as (h' & m1 & a & m2 & E & El & Hb' & Hna & Hel & Hfr). exists h'. split; [done|].
  cbn [app] in *. exists (update bs i (m1 ++ m2)). split.
  - apply (table_rep_update h); [done | done | done | | |].
    + intros e He. apply (tr_index _ _ _ Ht); [done|]. rewrite El. set_solver.
    + intros x j Hx Hnx. exfalso. apply Hnx. unfold cells. rewrite El, fmap_app, fmap_cons.
      rewrite fmap_app in Hx. set_solver.
    + intros j x Hj Hne Hx. split.
      * apply Hfr. by apply (tr_disjoint _ _ _ Ht j i).
      * intros _. rewrite Hel, lookup_delete_ne; [done|]. intros <-.
        eapply (tr_disjoint _ _ _ Ht j i); [done.. | exact Hx |]. unfold cells. rewrite El, fmap_app. set_solver.
  - intros k'. rewrite assoc_update.
    assert (Ed : assoc k' (m1 ++ m2) = if k =? k' then None else assoc k' (bs i)).
    { rewrite El. apply (assoc_delete _ _ (Ent a k o)). rewrite <-El. apply (br_sorted _ _ _ Hb). }
    destruct (decide (k' = k)) as [->|Hne].
    + fold i. by rewrite Z.eqb_refl, Ed, Z.eqb_refl, lookup_delete_eq.
    + rewrite lookup_delete_ne, Ed, (proj2 (Z.eqb_neq k k')), Hk by done.
      destruct (_ =? i) eqn:Ei; [|done]. apply Z.eqb_eq in Ei as ->. done.
Qed.

Lemma new_element_free h p k o :
  nodes h !! p = None → elems h !! p = None → free_element (new_element h p k o) p = Ok h.
Proof.
  intros Hn He. unfold free_element, new_element. cbn [elems nodes]. rewrite lookup_insert_eq. cres_simpl.
  rewrite !delete_insert_id by done. by destruct h.
Qed.

Lemma bucket_rep_new h p k o hd l :
  nodes h !! p = None → bucket_rep h hd l → bucket_rep (new_element h p k o) hd l ∧ p ∉ hd :: (e_addr <$> l).
Proof.
  intros Hn Hb. assert (Hp : p ∉ hd :: (e_addr <$> l)).
  { intros Hp. destruct (dlist_mapped _ _ _ _ (br_list _ _ _ Hb) Hp). congruence. }
  split; [|done]. apply (bucket_rep_ext h); [..|done]; intros a Ha; cbn [nodes elems new_element];
    rewrite lookup_insert_ne; set_solver.
Qed.

(** An insertion makes at most one element more. *)
Lemma add_loop_elems fuel : ∀ h bucket k e n h', add_loop fuel h bucket k e n = Ok (0, h') → elems h' = elems h.
Proof.
  induction fuel as [|fuel IH]; intros h bucket k e n h'; cbn [add_loop]; [done|]. unfold with_nodes, free_element.
  destruct (n =? bucket); [destruct (list_add_tail _ _ _); try done; cres_simpl; by intros [= <-]|].
  destruct (get_elem h n) as [x| |]; try done. cres_simpl. destruct (key x <? k); [destruct (get_next _ _); try done; cres_simpl; apply IH|].
  destruct (key x =? k); [by destruct (elems h !! e)|]. destruct (list_add_tail _ _ _); try done; cres_simpl; by intros [= <-].
Qed.

Lemma add_elems p h ht k o h' : hash_table_add p h ht k o = Ok (0, h') → (size (elems h') ≤ S (size (elems h)))%nat.
Proof.
  unfold hash_table_add. destruct (bucket_of ht k); try done. cres_simpl. destruct (p =? NULL); [done|]. destruct (get_next _ _); try done. cres_simpl.
  intros ->%add_loop_elems. cbn [new_element elems]. destruct (elems h !! p) eqn:E; [rewrite map_size_insert_Some | rewrite map_size_insert_None]; eauto with lia.
Qed.

Lemma add_ok h ht t k o p :
  is_map h ht t → p ≠ NULL → nodes h !! p = None → elems h !! p = None →
  match t !! k with
  | Some _ => hash_table_add p h ht k o = Ok (-2, h)
  | None => ∃ h', hash_table_add p h ht k o = Ok (0, h') ∧ is_map h' ht (<[k := o]> t)
  end.
Proof.
  intros (bs & Ht & Hk) Hp Hfn Hfe. unfold hash_table_add. rewrite (bucket_of_ok _ _ _ _ Ht). cres_simpl.
  rewrite (proj2 (Z.eqb_neq _ _) Hp).
  pose proof (index_range _ _ _ k Ht) as Hi. rewrite Hk. set (i := k mod bucket_size ht) in *.
  destruct (bucket_rep_new h p k o _ _ Hfn (tr_bucket _ _ _ Ht _ Hi)) as [Hb Hnin].
  set (h1 := new_element h p k o) in *. rewrite (cursor_first _ _ _ Hb). cres_simpl.
  pose proof (add_loop_ok (walk_fuel h1) h1 (head_of ht i) [] (bs i) (Ent p k o) Hb) as Ha.
  cbn [e_key e_addr e_obj app] in Ha.
  assert (Hf : (length (bs i) < walk_fuel h1)%nat).
  { pose proof (bucket_fuel _ _ _ Hb). unfold walk_fuel. lia. }
  assert (Hdet : detached h1 (head_of ht i) (bs i) (Ent p k o)).
  { split_and!; [|cbn; by rewrite lookup_insert_eq | done]. cbn. rewrite lookup_insert_eq. eauto. }
  specialize (Ha Hdet Hf (Forall_nil_2 _)). destruct (assoc k (bs i)) as [o'|] eqn:Ea.
  { rewrite Ha. unfold h1. by rewrite new_element_free. }
  destruct Ha as (n' & m1 & m2 & E & El & Hb' & Hfr). eexists. split; [exact E|].
  exists (update bs i (m1 ++ Ent p k o :: m2)). split.
  - apply (table_rep_update h); [done | done | done | | |].
    + intros e He. apply elem_of_app in He as [He|[->|He]%elem_of_cons]; [|done|];
        apply (tr_index _ _ _ Ht); try done; rewrite El; set_solver.
    + intros x j Hx Hnx Hj. rewrite fmap_app, fmap_cons in Hx. cbn [e_addr] in Hx.
      assert (x = p) as ->.
      { unfold cells in Hnx. rewrite El, fmap_app in Hnx. set_solver. }
      by apply (bucket_rep_new h p k o _ _ Hfn (tr_bucket _ _ _ Ht _ Hj)).
    + intros j x Hj Hne Hx.
      assert (Hxp : x ≠ p).
      { intros ->. by apply (bucket_rep_new h p k o _ _ Hfn (tr_bucket _ _ _ Ht _ Hj)). }
      split; cbn [nodes elems].
      * rewrite Hfr; [cbn; by rewrite lookup_insert_ne|].
        pose proof (tr_disjoint _ _ _ Ht j i x Hj Hi Hne Hx) as Hd. unfold cells in Hd.
        rewrite fmap_cons. cbn [e_addr]. set_solver.
      * intros _. cbn. by rewrite lookup_insert_ne.
  - intros k'. rewrite assoc_update, assoc_insert by (cbn [e_key]; by rewrite <-El). cbn [e_key e_obj].
    rewrite <-El. destruct (decide (k' = k)) as [->|Hne].
    + fold i. by rewrite !Z.eqb_refl, lookup_insert_eq.
    + rewrite lookup_insert_ne, (proj2 (Z.eqb_neq k k')), Hk by done.
      destruct (_ =? i) eqn:Ei; [|done]. by apply Z.eqb_eq in Ei as ->.
Qed.

(** *** Creation *)

Lemma power_of_two n : 0 < n → (Z.land n (n - 1) = 0 ↔ n = 2 ^ Z.log2 n).
Proof.
  intros Hn. pose proof (Z.log2_nonneg n) as Hl. split.
  - intros Hz. destruct (Z.eq_dec n (2 ^ Z.log2 n)) as [|Hne]; [done|exfalso].
    pose proof (Z.log2_spec n Hn) as [Hlo Hhi].
    assert (El : Z.log2 (n - 1) = Z.log2 n) by (apply Z.log2_unique; lia).
    assert (Hpos : 0 < 2 ^ Z.log2 n) by (apply Z.pow_pos_nonneg; lia).
    apply (f_equal (λ z, Z.testbit z (Z.log2 n))) in Hz. rewrite Z.land_spec, Z.bits_0 in Hz.
    rewrite Z.bit_log2 in Hz by lia. rewrite <-El, Z.bit_log2 in Hz by lia. done.
  - intros E. rewrite E at 2. rewrite Z.sub_1_r, <-Z.ones_equiv, Z.land_ones by done.
    rewrite E at 1. by rewrite Z.mod_same by lia.
Qed.

Lemma new_nodes_in n m base i : (i < n)%nat → is_Some (new_nodes n m base !! (base + SIZEOF_LIST_HEAD * Z.of_nat i)).
Proof.
  induction n as [|n IH]; intros Hi; [lia|]. simpl. destruct (decide (i = n)) as [->|Hne].
  - rewrite lookup_insert_eq. eauto.
  - rewrite lookup_insert_ne; [apply IH; lia|]. unfold SIZEOF_LIST_HEAD. lia.
Qed.

Lemma new_nodes_out n m base x :
  (∀ i, (i < n)%nat → x ≠ base + SIZEOF_LIST_HEAD * Z.of_nat i) → new_nodes n m base !! x = m !! x.
Proof.
  induction n as [|n IH]; intros Hi; [done|]. simpl. rewrite lookup_insert_ne.
  - apply IH. intros i ?. apply Hi. lia.
  - intros E. apply (Hi n); [lia | done].
Qed.

Lemma init_buckets_ok n h ht :
  (∀ i, (i < n)%nat → is_Some (nodes h !! head_of ht (Z.of_nat i))) →
  ∃ n', init_buckets n h ht = Ok (Heap n' (elems h)) ∧
    (∀ i, (i < n)%nat → dlist n' (head_of ht (Z.of_nat i)) []) ∧
    (∀ x, (∀ i, (i < n)%nat → x ≠ head_of ht (Z.of_nat i)) → n' !! x = nodes h !! x).
Proof.
  revert h. induction n as [|n IH]; intros h Hm; simpl.
  { exists (nodes h). split_and!; [by destruct h | intros; lia | done]. }
  destruct (INIT_LIST_HEAD_ok (nodes h) (head_of ht (Z.of_nat n))) as (n1 & E1 & Hd1 & Hf1); [apply Hm; lia|].
  unfold head_of in E1 at 1. rewrite E1. cres_simpl.
  destruct (IH (Heap n1 (elems h))) as (n2 & E2 & Hd2 & Hf2).
  { intros i Hi. cbn [nodes]. rewrite Hf1; [apply Hm; lia|]. unfold head_of, SIZEOF_LIST_HEAD. lia. }
  exists n2. cbn [nodes elems] in *. split_and!; [done | |].
  - intros i Hi. destruct (decide (i = n)) as [->|Hne]; [|apply Hd2; lia].
    apply (dlist_ext n1); [|done]. intros a ->%list_elem_of_singleton. apply Hf2.
    intros i ?. unfold head_of, SIZEOF_LIST_HEAD. lia.
  - intros x Hx. rewrite Hf2, Hf1; [done | apply Hx; lia | intros; apply Hx; lia].
Qed.

Lemma hash_table_create_ok p h n :
  0 ≤ n < 2 ^ 32 →
  if decide (n = 2 ^ Z.log2 n ∧ 0 < n ∧ p ≠ NULL) then
    ∃ ht h', hash_table_create p h n = Ok (Some ht, h') ∧ bucket_size ht = n ∧ is_map h' ht ∅ ∧
      elems h' = elems h ∧ (∀ x, ¬ (p ≤ x < p + SIZEOF_HASH_TABLE + SIZEOF_LIST_HEAD * n) → nodes h' !! x = nodes h !! x)
  else hash_table_create p h n = Ok (None, h).
Proof.
  intros Hn. unfold hash_table_create.
  destruct (decide (n = 0)) as [->|Hn0]; [rewrite decide_False by lia; done|].
  rewrite (proj2 (Z.eqb_neq n 0)) by done. rewrite u32_id by lia. cbn [orb].
  pose proof (power_of_two n ltac:(lia)) as Hp2.
  destruct (Z.land n (n - 1) =? 0) eqn:El; cbn [negb].
  2:{ rewrite decide_False; [done|]. apply Z.eqb_neq in El. tauto. }
  apply Z.eqb_eq, Hp2 in El. destruct (p =? NULL) eqn:Ep.
  { rewrite decide_False; [done|]. apply Z.eqb_eq in Ep. tauto. }
  apply Z.eqb_neq in Ep. rewrite decide_True by (split_and!; [done | lia | done]).
  set (ht := Table n (p + SIZEOF_HASH_TABLE)).
  destruct (init_buckets_ok (Z.to_nat n) (Heap (new_nodes (Z.to_nat n) (nodes h) (p + SIZEOF_HASH_TABLE)) (elems h)) ht)
    as (n' & -> & Hd & Hf). { intros i Hi. cbn [nodes]. by apply new_nodes_in. }
  cres_simpl. eexists _, _. split_and!; [done | done | | done |].
  - exists (λ _, []). split; [|intros k; by rewrite lookup_empty]. split; [cbn; lia | | |].
    + intros i Hi. cbn in Hi. split; [|constructor..]. cbn [nodes fmap list_fmap].
      rewrite <-(Z2Nat.id i) by lia. apply Hd. lia.
    + intros i e _ []%elem_of_nil.
    + intros i j a Hi Hj Hne. unfold cells, head_of, SIZEOF_LIST_HEAD. cbn [fmap list_fmap].
      rewrite !list_elem_of_singleton. lia.
  - intros x Hx. cbn [nodes]. unfold SIZEOF_HASH_TABLE, SIZEOF_LIST_HEAD in Hx. rewrite Hf; cbn [nodes].
    + apply new_nodes_out. intros i Hi. unfold SIZEOF_HASH_TABLE, SIZEOF_LIST_HEAD. lia.
    + intros i Hi. unfold head_of, ht, SIZEOF_HASH_TABLE, SIZEOF_LIST_HEAD. cbn [buckets]. lia.
Qed.
