(* ===== verification/HashTableSpec.v ===== *)
(** What the hash table promises: every sequence of its operations behaves like the same
    sequence on a finite map.  The class [KeyMap] is the part of that promise the HTTP layer
    relies on; the hash table is an instance of it. *)

From stdpp Require Import base gmap list numbers.
From Stdlib Require Import ZArith Lia.
From S2P Require Import Prelude ListHead HashTable.

(** ** The interface *)

(** Tables in a heap, with the two operations clients use.  [km_fresh h p]: [p] is what an
    allocation in [h] may return. *)
Class KeyMap (heap table : Type) : Type := {
  km_rep : heap → table → gmap Z Z → Prop;
  km_fresh : heap → Z → Prop;
  km_find : heap → table → Z → cres Z;
  km_add : Z → heap → table → Z → Z → cres (Z * heap);
}.

Class KeyMapLaws (heap table : Type) `{KeyMap heap table} : Prop := {
  km_find_law : ∀ h t m k, km_rep h t m → km_find h t k = Ok (default NULL (m !! k));
  km_add_null : ∀ h t m k o, km_rep h t m → km_add NULL h t k o = Ok (-1, h);
  km_add_old : ∀ h t m k o p, km_rep h t m → km_fresh h p → is_Some (m !! k) → km_add p h t k o = Ok (-2, h);
  km_add_new : ∀ h t m k o p, km_rep h t m → km_fresh h p → m !! k = None →
    ∃ h', km_add p h t k o = Ok (0, h') ∧ km_rep h' t (<[k := o]> m);
}.

(** ** The hash table implements it *)

Definition fresh_in (h : hheap) (p : Z) : Prop := p ≠ NULL ∧ nodes h !! p = None ∧ elems h !! p = None.

#[export] Instance fresh_in_dec h p : Decision (fresh_in h p).
Proof. unfold fresh_in. apply _. Defined.

#[export] Instance hash_table_map : KeyMap hheap hash_table := {
  km_rep := is_map; km_fresh := fresh_in; km_find := hash_table_find; km_add := hash_table_add;
}.

Lemma add_null h ht t k o : is_map h ht t → hash_table_add NULL h ht k o = Ok (-1, h).
Proof. intros (bs & Ht & _). unfold hash_table_add. by rewrite (bucket_of_ok _ _ _ _ Ht). Qed.

#[export] Instance hash_table_laws : KeyMapLaws hheap hash_table.
Proof.
  split; cbn.
  - apply find_ok.
  - apply add_null.
  - intros h t m k o p Hm (Hp & Hn & He) [o' Ho]. pose proof (add_ok h t m k o p Hm Hp Hn He) as H. by rewrite Ho in H.
  - intros h t m k o p Hm (Hp & Hn & He) Ho. pose proof (add_ok h t m k o p Hm Hp Hn He) as H. by rewrite Ho in H.
Qed.

(** ** Sequences of operations *)

Inductive table_op : Type :=
| Find (k : Z)
| Add (k o : Z)
| Remove (k : Z).

(** The finite map's view of an operation: its result and the map after it.  [oom] says that
    there is no memory for an element, in which case an addition is refused. *)
Definition spec_op (oom : bool) (t : gmap Z Z) (op : table_op) : Z * gmap Z Z :=
  match op with
  | Find k => (default NULL (t !! k), t)
  | Add k o =>
    if oom then (-1, t) else
    match t !! k with
    | Some _ => (-2, t)
    | None => (0, <[k := o]> t)
    end
  | Remove k => (default NULL (t !! k), delete k t)
  end.

Fixpoint spec_ops (ooms : list bool) (t : gmap Z Z) (ops : list table_op) : list Z * gmap Z Z :=
  match ops, ooms with
  | op :: ops, oom :: ooms =>
    let '(r, t) := spec_op oom t op in
    let '(rs, t) := spec_ops ooms t ops in
    (r :: rs, t)
  | _, _ => ([], t)
  end.

(** The same operations on the hash table, with [malloc] as a function of the heap. *)
Definition run_op (malloc : hheap → Z) (h : hheap) (ht : hash_table) (op : table_op) : cres (Z * hheap) :=
  match op with
  | Find k => r ← hash_table_find h ht k; mret (r, h)
  | Add k o => hash_table_add (malloc h) h ht k o
  | Remove k => hash_table_remove h ht k
  end.

Fixpoint run_ops (malloc : hheap → Z) (h : hheap) (ht : hash_table) (ops : list table_op) : cres (list Z * hheap) :=
  match ops with
  | [] => mret ([], h)
  | op :: ops =>
    '(r, h) ← run_op malloc h ht op;
    '(rs, h) ← run_ops malloc h ht ops;
    mret (r :: rs, h)
  end.

(** Whether [malloc] fails at each of the operations. *)
Fixpoint failures (malloc : hheap → Z) (h : hheap) (ht : hash_table) (ops : list table_op) : list bool :=
  match ops with
  | [] => []
  | op :: ops => (malloc h =? NULL) :: match run_op malloc h ht op with Ok (_, h) => failures malloc h ht ops | _ => [] end
  end.

(** [malloc] returns NULL or a cell that is not in use. *)
Definition allocates (malloc : hheap → Z) : Prop := ∀ h, malloc h = NULL ∨ fresh_in h (malloc h).

Lemma run_op_ok malloc h ht t op :
  allocates malloc → is_map h ht t →
  ∃ h', run_op malloc h ht op = Ok ((spec_op (malloc h =? NULL) t op).1, h') ∧ is_map h' ht (spec_op (malloc h =? NULL) t op).2.
Proof.
  intros Hm Ht. destruct op as [k|k o|k]; cbn [run_op spec_op].
  - rewrite (find_ok _ _ _ _ Ht). by eexists.
  - destruct (Hm h) as [E|(Hp & Hn & He)].
    + rewrite E. rewrite (add_null _ _ _ _ _ Ht). by eexists.
    + rewrite (proj2 (Z.eqb_neq _ _) Hp). pose proof (add_ok h ht t k o (malloc h) Ht Hp Hn He) as H.
      destruct (t !! k) as [o'|]; [by eexists|]. destruct H as (h' & E & Hm'). by exists h'.
  - destruct (remove_ok _ _ _ k Ht) as (h' & E & Hm'). by exists h'.
Qed.

(** C6: started on a table that implements a finite map, every sequence of find, add and
    remove operations runs without undefined behaviour, returns exactly what the finite map
    returns for the same sequence (an added object is found until it is removed, a second
    addition of a key is refused with -2, a missing key is NULL), and leaves a table that
    implements the resulting map.  An addition is refused with -1 at exactly those
    operations where [malloc] fails. *)
Theorem hash_table_refines malloc h ht t ops :
  allocates malloc → is_map h ht t →
  let '(rs, t') := spec_ops (failures malloc h ht ops) t ops in
  ∃ h', run_ops malloc h ht ops = Ok (rs, h') ∧ is_map h' ht t'.
Proof.
  intros Hm. revert h t. induction ops as [|op ops IH]; intros h t Ht; cbn [run_ops failures spec_ops]; [by exists h|].
  destruct (run_op_ok malloc h ht t op Hm Ht) as (h1 & E & Ht1). rewrite E. destruct (spec_op (malloc h =? NULL) t op) as [r t1]. cbn [fst snd] in *.
  specialize (IH h1 t1 Ht1). destruct (spec_ops (failures malloc h1 ht ops) t1 ops) as [rs t2]. destruct IH as (h2 & E2 & Ht2).
  cres_simpl. rewrite E2. cres_simpl. by exists h2.
Qed.

(** ** A concrete table *)

(** An allocator with a pool of three cells. *)
Definition pool (h : hheap) : Z := default NULL (head (filter (fresh_in h) [1024; 1056; 1088])).

Lemma pool_allocates : allocates pool.
Proof.
  intros h. unfold pool. destruct (filter (fresh_in h) [1024; 1056; 1088]) as [|p l] eqn:E; [by left|]. right.
  assert (Hp : p ∈ filter (fresh_in h) [1024; 1056; 1088]) by (rewrite E; by left).
  by apply list_elem_of_filter in Hp as [? _].
Qed.

Definition no_heap : hheap := Heap ∅ ∅.
Definition small_table : hash_table := Table 2 80.
Definition small_heap : hheap := Heap {[80 := Node 80 80; 96 := Node 96 96]} ∅.

Lemma small_heap_map : is_map small_heap small_table ∅.
Proof.
  pose proof (hash_table_create_ok 64 no_heap 2 ltac:(lia)) as H. rewrite decide_True in H by (compute; split_and!; done).
  destruct H as (ht & h' & E & _ & Hm & _). vm_compute in E. injection E as <- <-. exact Hm.
Qed.

Definition small_ops : list table_op := [Add 5 70; Add 3 80; Add 5 90; Find 3; Remove 5; Find 5; Add 7 1; Add 9 2; Add 11 3].

Lemma hash_table_refines_witness :
  spec_ops (failures pool small_heap small_table small_ops) ∅ small_ops = ([0; 0; -2; 80; 70; 0; 0; 0; -1], {[3 := 80; 7 := 1; 9 := 2]}) ∧
  ∃ h', run_ops pool small_heap small_table small_ops = Ok ([0; 0; -2; 80; 70; 0; 0; 0; -1], h') ∧ is_map h' small_table {[3 := 80; 7 := 1; 9 := 2]}.
Proof.
  assert (E : spec_ops (failures pool small_heap small_table small_ops) ∅ small_ops = ([0; 0; -2; 80; 70; 0; 0; 0; -1], {[3 := 80; 7 := 1; 9 := 2]})) by (vm_compute; reflexivity).
  split; [exact E|]. pose proof (hash_table_refines pool small_heap small_table ∅ small_ops pool_allocates small_heap_map) as H. rewrite E in H. exact H.
Defined.

Example small_run : fst <$> (match run_ops pool small_heap small_table
    [Add 5 70; Add 3 80; Add 5 90; Find 3; Remove 5; Find 5; Remove 5; Add 7 1; Add 9 2; Add 11 3; Find 9] with Ok x => Some x | _ => None end)
  = Some [0; 0; -2; 80; 70; 0; 0; 0; 0; -1; 2].
Proof. vm_compute. reflexivity. Qed.

(** [hash_table_create] returns a table exactly if the bucket count is a power of two
    and [malloc] succeeds; the table has that many buckets, implements the empty map, and
    initialising it writes only inside the allocated block.  Otherwise it returns NULL and
    changes nothing. *)
Theorem hash_table_create_spec p h n :
  0 ≤ n < 2 ^ 32 →
  if decide (n = 2 ^ Z.log2 n ∧ 0 < n ∧ p ≠ NULL) then
    ∃ ht h', hash_table_create p h n = Ok (Some ht, h') ∧ bucket_size ht = n ∧ is_map h' ht ∅ ∧ elems h' = elems h ∧
      (∀ x, ¬ (p ≤ x < p + SIZEOF_HASH_TABLE + SIZEOF_LIST_HEAD * n) → nodes h' !! x = nodes h !! x)
  else hash_table_create p h n = Ok (None, h).
Proof. apply hash_table_create_ok. Qed.

Lemma hash_table_create_spec_witness :
  (∃ ht h', hash_table_create 64 no_heap 8 = Ok (Some ht, h') ∧ bucket_size ht = 8 ∧ is_map h' ht ∅ ∧ elems h' = ∅ ∧
      (∀ x, ¬ (64 ≤ x < 64 + SIZEOF_HASH_TABLE + SIZEOF_LIST_HEAD * 8) → nodes h' !! x = None)) ∧
  hash_table_create 64 no_heap 12 = Ok (None, no_heap).
Proof.
  split.
  - refine (hash_table_create_spec 64 no_heap 8 _). lia.
  - refine (hash_table_create_spec 64 no_heap 12 _). lia.
Defined.
