(* ===== verification/Net.v ===== *)
(** What the HTTP layer needs of the outside world.

    [recv] and [send] are the socket calls of the program.  A network is any type of states
    with these two operations; [NetworkLaws] is what POSIX documents about [recv]: it
    delivers at most as many bytes as were asked for.  The memory
    operations [memcpy] and the reading of a byte range complete the picture. *)

From stdpp Require Import base gmap list numbers strings.
From Stdlib Require Import ZArith Lia.
From S2P Require Import Prelude CStr.

(** The outcome of a [recv]: bytes (none when the peer has closed), or -1 with an [errno]. *)
Inductive received : Type :=
| Received (l : list Z)
| RecvError (errno : Z).

Class Network (net : Type) : Type := {
  net_recv : Z → Z → net → received * net;
  net_send : Z → list Z → net → net;
}.

Class NetworkLaws (net : Type) `{Network net} : Prop := {
  net_recv_law : ∀ fd n w l w', 0 ≤ n → net_recv fd n w = (Received l, w') → Z.of_nat (length l) ≤ n;
}.

(** A network with one client: what it has not delivered yet. *)
Definition bytes_of (r : received) : list Z := match r with Received l => l | RecvError _ => [] end.

Class Streamed (net : Type) `{Network net} : Type := {
  to_come : net → list Z;
  to_come_recv : ∀ fd n w r w', 0 ≤ n → net_recv fd n w = (r, w') → to_come w = bytes_of r ++ to_come w';
}.

(** ** Memory blocks *)

(** [memcpy] of the bytes [l] to [dst]. *)
Fixpoint memcpy (m : gmap Z Z) (dst : Z) (l : list Z) : cres (gmap Z Z) :=
  match l with
  | [] => mret m
  | c :: l => m ← store m dst c; memcpy m (dst + 1) l
  end.

(** The [n] bytes from [p] on. *)
Fixpoint read_bytes (m : gmap Z Z) (p : Z) (n : nat) : cres (list Z) :=
  match n with
  | O => mret []
  | S n => c ← load m p; l ← read_bytes m (p + 1) n; mret (c :: l)
  end.

Lemma store_ok m a v : is_Some (m !! a) → store m a v = Ok (<[a := v]> m).
Proof. intros [w Hw]. unfold store. by rewrite Hw. Qed.

Lemma memcpy_ok m dst l :
  mapped m dst (dst + Z.of_nat (length l)) →
  ∃ m', memcpy m dst l = Ok m' ∧ bytes_at m' dst l ∧
    (∀ x, ¬ (dst ≤ x < dst + Z.of_nat (length l)) → m' !! x = m !! x) ∧
    (∀ x, is_Some (m' !! x) ↔ is_Some (m !! x)).
Proof.
  revert m dst. induction l as [|c l IH]; intros m dst Hb; cbn [memcpy bytes_at length] in *.
  { exists m. split_and!; done. }
  rewrite store_ok by (apply Hb; lia). cres_simpl.
  destruct (IH (<[dst := c]> m) (dst + 1)) as (m' & -> & Hl & Hf & Hd).
  { intros x Hx. destruct (decide (x = dst)) as [->|]; [rewrite lookup_insert_eq; eauto|].
    rewrite lookup_insert_ne by done. apply Hb. lia. }
  exists m'. split_and!; [done | | done | |].
  - rewrite Hf by lia. apply lookup_insert_eq.
  - intros x Hx. rewrite Hf by lia. apply lookup_insert_ne. lia.
  - intros x. rewrite Hd. destruct (decide (x = dst)) as [->|].
    + rewrite lookup_insert_eq. split; [|eauto]. intros _. apply Hb. lia.
    + by rewrite lookup_insert_ne.
Qed.

Lemma read_bytes_ok m p l : bytes_at m p l → read_bytes m p (length l) = Ok l.
Proof.
  revert p. induction l as [|c l IH]; intros p; cbn [bytes_at length read_bytes]; [done|].
  intros [Hc Hl]. unfold load. rewrite Hc. cres_simpl. by rewrite IH.
Qed.

Lemma bytes_at_ext m m' p l :
  (∀ x, p ≤ x < p + Z.of_nat (length l) → m' !! x = m !! x) → bytes_at m p l → bytes_at m' p l.
Proof.
  revert p. induction l as [|c l IH]; intros p He; cbn [bytes_at length] in *; [done|].
  intros [Hc Hl]. split; [rewrite He; [done | lia]|]. apply IH; [|done]. intros x Hx. apply He. lia.
Qed.

(** ** A network that is a script

    What the peer will send, chunk by chunk (an empty chunk closes the connection), and
    what has been sent to it.  When the script is exhausted [recv] times out. *)

Definition ETIME : Z := 62.

Record script : Type := Script { incoming : list (list Z); sent : list (Z * list Z) }.

#[export] Instance script_network : Network script := {
  net_recv fd n w :=
    match incoming w with
    | [] => (RecvError ETIME, w)
    | l :: rest =>
      let k := Z.to_nat n in
      if Z.of_nat (length l) <=? n then (Received l, Script rest (sent w))
      else (Received (take k l), Script (drop k l :: rest) (sent w))
    end;
  net_send fd l w := Script (incoming w) (sent w ++ [(fd, l)]);
}.

#[export] Instance script_laws : NetworkLaws script.
Proof.
  split. intros fd n [inc out] l w' Hn. cbn. destruct inc as [|c rest]; [done|].
  destruct (Z.of_nat (length c) <=? n) eqn:E; intros [= <- <-]; [blia|]. rewrite length_take. lia.
Qed.

#[export] Program Instance script_streamed : Streamed script := {| to_come w := concat (incoming w) |}.
Next Obligation.
  intros fd n [inc out] r w' Hn. cbn. destruct inc as [|c rest]; [by intros [= <- <-]|].
  destruct (Z.of_nat (length c) <=? n); intros [= <- <-]; cbn; [done|]. by rewrite app_assoc, take_drop.
Qed.
