(* ===== verification/Response.v ===== *)
(** HTTP responses: [src/http/response.c] and [src/http/response.h].

    The two tables, the lookups that index them, and [http_finalize_request], which writes
    the response over the request's read buffer and sends it.  An entry of a table is
    [None] where the source has NULL_STRING.  A string literal's bytes stand for the
    [str_t] that points to it. *)

From stdpp Require Import base gmap list numbers strings.
From Stdlib Require Import ZArith Lia.
From S2P Require Import Prelude CStr RequestTypes Net.

Definition HTTP_OK : Z := 200.
Definition HTTP_MOVED_PERMANENTLY : Z := 301.
Definition HTTP_BAD_REQUEST : Z := 400.
Definition HTTP_INTERNAL_SERVER_ERROR : Z := 500.
Definition HTTP_INSUFFICIENT_STORAGE : Z := 507.

Definition http_status_lines : list (option (list Z)) := [
  Some (str "200 OK");
  Some (str "201 Created");
  Some (str "202 Accepted");
  None;
  Some (str "204 No Content");
  None;
  Some (str "206 Partial Content");
  Some (str "301 Moved Permanently");
  Some (str "302 Moved Temporarily");
  Some (str "303 See Other");
  Some (str "304 Not Modified");
  None;
  None;
  Some (str "307 Temporary Redirect");
  Some (str "400 Bad Request");
  Some (str "401 Unauthorized");
  Some (str "402 Payment Required");
  Some (str "403 Forbidden");
  Some (str "404 Not Found");
  Some (str "405 Not Allowed");
  Some (str "406 Not Acceptable");
  None;
  Some (str "408 Request Time-out");
  Some (str "409 Conflict");
  Some (str "410 Gone");
  Some (str "411 Length Required");
  Some (str "412 Precondition Failed");
  Some (str "413 Request Entity Too Large");
  Some (str "414 Request-URI Too Large");
  Some (str "415 Unsupported Media Type");
  Some (str "416 Requested Range Not Satisfiable");
  Some (str "500 Internal Server Error");
  Some (str "501 Not Implemented");
  Some (str "502 Bad Gateway");
  Some (str "503 Service Temporarily Unavailable");
  Some (str "504 Gateway Time-out");
  None;
  None;
  Some (str "507 Insufficient Storage")].

Definition HTTP_STATUS_LAST_2XX : Z := 207.
Definition HTTP_STATUS_OFFSET_3XX : Z := HTTP_STATUS_LAST_2XX - 200.
Definition HTTP_STATUS_LAST_3XX : Z := 308.
Definition HTTP_STATUS_OFFSET_4XX : Z := HTTP_STATUS_LAST_3XX - 301 + HTTP_STATUS_OFFSET_3XX.
Definition HTTP_STATUS_LAST_4XX : Z := 417.
Definition HTTP_STATUS_OFFSET_5XX : Z := HTTP_STATUS_LAST_4XX - 400 + HTTP_STATUS_OFFSET_4XX.
Definition HTTP_STATUS_OFFSET_LAST : Z := 508.

(** ** Pages *)

(** The body tag, with its quotes, that every page has. *)
Definition BODY : list Z := str "<body bgcolor=" ++ [34] ++ str "white" ++ [34] ++ str ">" ++ CRLF.
Definition center (heading : string) : list Z :=
  str "<center><h1>" ++ str heading ++ str "</h1></center>" ++ CRLF.
Definition page (title heading : string) : list Z :=
  str "<html>" ++ CRLF ++ str "<head><title>" ++ str title ++ str "</title></head>" ++ CRLF ++ BODY ++ center heading.
(** Pages that explain a 400 in a line of their own. *)
Definition page_400 (title reason : string) : list Z :=
  page title "400 Bad Request" ++ str "<center>" ++ str reason ++ str "</center>" ++ CRLF.

Definition http_error_200_page : list Z := page "cserv" "welcome to cserv".
Definition http_error_301_page : list Z := page "301 Moved Permanently" "301 Moved Permanently".
Definition http_error_302_page : list Z := page "302 Found" "302 Found".
Definition http_error_303_page : list Z := page "303 See Other" "303 See Other".
Definition http_error_307_page : list Z := page "307 Temporary Redirect" "307 Temporary Redirect".
Definition http_error_400_page : list Z := page "400 Bad Request" "400 Bad Request".
Definition http_error_401_page : list Z := page "401 Authorization Required" "401 Authorization Required".
Definition http_error_402_page : list Z := page "402 Payment Required" "402 Payment Required".
Definition http_error_403_page : list Z := page "403 Forbidden" "403 Forbidden".
Definition http_error_404_page : list Z := page "404 Not Found" "404 Not Found".
Definition http_error_405_page : list Z := page "405 Not Allowed" "405 Not Allowed".
Definition http_error_406_page : list Z := page "406 Not Acceptable" "406 Not Acceptable".
Definition http_error_408_page : list Z := page "408 Request Time-out" "408 Request Time-out".
Definition http_error_409_page : list Z := page "409 Conflict" "409 Conflict".
Definition http_error_410_page : list Z := page "410 Gone" "410 Gone".
Definition http_error_411_page : list Z := page "411 Length Required" "411 Length Required".
Definition http_error_412_page : list Z := page "412 Precondition Failed" "412 Precondition Failed".
Definition http_error_413_page : list Z := page "413 Request Entity Too Large" "413 Request Entity Too Large".
Definition http_error_414_page : list Z := page "414 Request-URI Too Large" "414 Request-URI Too Large".
Definition http_error_415_page : list Z := page "415 Unsupported Media Type" "415 Unsupported Media Type".
Definition http_error_416_page : list Z :=
  page "416 Requested Range Not Satisfiable" "416 Requested Range Not Satisfiable".
Definition http_error_494_page : list Z :=
  page_400 "400 Request Header Or Cookie Too Large" "Request Header Or Cookie Too Large".
Definition http_error_495_page : list Z := page_400 "400 The SSL certificate error" "The SSL certificate error".
Definition http_error_496_page : list Z :=
  page_400 "400 No required SSL certificate was sent" "No required SSL certificate was sent".
Definition http_error_497_page : list Z :=
  page_400 "400 The plain HTTP request was sent to HTTPS port" "The plain HTTP request was sent to HTTPS port".
Definition http_error_500_page : list Z := page "500 Internal Server Error" "500 Internal Server Error".
Definition http_error_501_page : list Z := page "501 Not Implemented" "501 Not Implemented".
Definition http_error_502_page : list Z := page "502 Bad Gateway" "502 Bad Gateway".
Definition http_error_503_page : list Z :=
  page "503 Service Temporarily Unavailable" "503 Service Temporarily Unavailable".
Definition http_error_504_page : list Z := page "504 Gateway Time-out" "504 Gateway Time-out".
Definition http_error_507_page : list Z := page "507 Insufficient Storage" "507 Insufficient Storage".

Definition http_error_pages : list (option (list Z)) := [
  Some http_error_301_page;
  Some http_error_302_page;
  Some http_error_303_page;
  None;
  None;
  None;
  Some http_error_307_page;
  Some http_error_400_page;
  Some http_error_401_page;
  Some http_error_402_page;
  Some http_error_403_page;
  Some http_error_404_page;
  Some http_error_405_page;
  Some http_error_406_page;
  None;
  Some http_error_408_page;
  Some http_error_409_page;
  Some http_error_410_page;
  Some http_error_411_page;
  Some http_error_412_page;
  Some http_error_413_page;
  Some http_error_414_page;
  Some http_error_415_page;
  Some http_error_416_page;
  Some http_error_494_page;
  Some http_error_495_page;
  Some http_error_496_page;
  Some http_error_497_page;
  Some http_error_404_page;
  None;
  Some http_error_500_page;
  Some http_error_501_page;
  Some http_error_502_page;
  Some http_error_503_page;
  Some http_error_504_page;
  None;
  None;
  Some http_error_507_page].

Definition HTTP_ERROR_LAST_3XX : Z := 308.
Definition HTTP_ERROR_OFFSET_4XX : Z := HTTP_ERROR_LAST_3XX - 301.
Definition HTTP_ERROR_LAST_4XX : Z := 417.
Definition HTTP_ERROR_OFFSET_494 : Z := HTTP_ERROR_LAST_4XX - 400 + HTTP_ERROR_OFFSET_4XX.
Definition HTTP_ERROR_OFFSET_LAST : Z := 508.

(** ** Lookups *)

(** [&table[i]]: an index outside the array is undefined behaviour. *)
Definition entry (table : list (option (list Z))) (i : Z) : cres (option (list Z)) :=
  if i <? 0 then Ub else of_option (table !! Z.to_nat i).

Definition get_http_status_line (ret_code : Z) : cres (option (list Z)) :=
  if (HTTP_OK <=? ret_code) && (ret_code <? HTTP_STATUS_LAST_2XX) then
    entry http_status_lines (ret_code - HTTP_OK)
  else if (HTTP_MOVED_PERMANENTLY <=? ret_code) && (ret_code <? HTTP_STATUS_LAST_3XX) then
    entry http_status_lines (ret_code - HTTP_MOVED_PERMANENTLY + HTTP_STATUS_OFFSET_3XX)
  else if (HTTP_BAD_REQUEST <=? ret_code) && (ret_code <? HTTP_STATUS_LAST_4XX) then
    entry http_status_lines (ret_code - HTTP_BAD_REQUEST + HTTP_STATUS_OFFSET_4XX)
  else if (HTTP_INTERNAL_SERVER_ERROR <=? ret_code) && (ret_code <? HTTP_STATUS_OFFSET_LAST) then
    entry http_status_lines (ret_code - HTTP_INTERNAL_SERVER_ERROR + HTTP_STATUS_OFFSET_5XX)
  else mret None.

(** [Some e] is a pointer to the entry [e], which may itself be NULL_STRING. *)
Definition get_http_error_page (ret_code : Z) : cres (option (option (list Z))) :=
  if (HTTP_MOVED_PERMANENTLY <=? ret_code) && (ret_code <? HTTP_ERROR_LAST_3XX) then
    e ← entry http_error_pages (ret_code - HTTP_MOVED_PERMANENTLY); mret (Some e)
  else if (HTTP_BAD_REQUEST <=? ret_code) && (ret_code <? HTTP_ERROR_LAST_4XX) then
    e ← entry http_error_pages (ret_code - HTTP_BAD_REQUEST + HTTP_ERROR_OFFSET_4XX); mret (Some e)
  else if (494 <=? ret_code) && (ret_code <? HTTP_ERROR_OFFSET_LAST) then
    e ← entry http_error_pages (ret_code - 494 + HTTP_ERROR_OFFSET_494); mret (Some e)
  else mret None.

Definition HTTP_ERROR_HEADER : list Z :=
  str "Server: cserv/dev" ++ CRLF ++ str "Content-Type: text/html" ++ CRLF ++ str "Connection: Close" ++ CRLF.

Definition HTTP_INSUFFICIENT_STORAGE_PAGE : list Z :=
  str "HTTP/1.1 507 Insufficient Storage" ++ CRLF ++ HTTP_ERROR_HEADER ++ CRLF ++
  page "507 Insufficient Storage" "507 Insufficient Storage".

(** ** Sending *)

(** [memcpy(b->pos, ...); b->pos += len;] *)
Definition append (m : gmap Z Z) (b : buffer) (l : list Z) : cres (gmap Z Z * buffer) :=
  m ← memcpy m (b_pos b) l;
  mret (m, set_pos b (b_pos b + Z.of_nat (length l))).

(** The same with a [str_t]; the source of a [memcpy] must not be NULL. *)
Definition append_str (m : gmap Z Z) (b : buffer) (s : option (list Z)) : cres (gmap Z Z * buffer) :=
  l ← of_option s; append m b l.

Section Sending.
  Context {net : Type} `{Network net}.

Definition http_fast_response (fd : Z) (content : list Z) (w : net) : net := net_send fd content w.

Definition http_finalize_request (m : gmap Z Z) (r : http_request) (ret_code : Z) (w : net)
    : cres (gmap Z Z * http_request * net) :=
  line ← get_http_status_line ret_code;
  match line with
  | None => mret (m, r, w)
  | Some line =>
    let b := header r in
    let b := set_pos (set_last b (b_start b)) (b_start b) in
    '(m, b) ← append m b (str "HTTP/1.1 ");
    '(m, b) ← append m b line;
    '(m, b) ← append m b (CRLF ++ HTTP_ERROR_HEADER);
    '(m, b) ← (if ret_code =? 200 then
                 '(m, b) ← append m b CRLF;
                 append m b http_error_200_page
               else
                 page ← get_http_error_page ret_code;
                 match page with
                 | None => mret (m, b)
                 | Some page => '(m, b) ← append m b CRLF; append_str m b page
                 end);
    l ← read_bytes m (b_start b) (Z.to_nat (b_pos b - b_start b));
    mret (m, set_header r b, net_send (fd r) l w)
  end.

End Sending.
