(* ===== verification/ResponseProps.v ===== *)
(** What [http_finalize_request] puts on the wire. *)

From stdpp Require Import base gmap list numbers strings.
From Stdlib Require Import ZArith Lia.
From S2P Require Import Prelude CStr RequestTypes Net Response.

(** ** The responses the server knows, by status code *)

Definition reasons : list (Z * string) := [
  (200, "OK"); (201, "Created"); (202, "Accepted"); (204, "No Content"); (206, "Partial Content");
  (301, "Moved Permanently"); (302, "Moved Temporarily"); (303, "See Other"); (304, "Not Modified");
  (307, "Temporary Redirect");
  (400, "Bad Request"); (401, "Unauthorized"); (402, "Payment Required"); (403, "Forbidden");
  (404, "Not Found"); (405, "Not Allowed"); (406, "Not Acceptable"); (408, "Request Time-out");
  (409, "Conflict"); (410, "Gone"); (411, "Length Required"); (412, "Precondition Failed");
  (413, "Request Entity Too Large"); (414, "Request-URI Too Large"); (415, "Unsupported Media Type");
  (416, "Requested Range Not Satisfiable");
  (500, "Internal Server Error"); (501, "Not Implemented"); (502, "Bad Gateway");
  (503, "Service Temporarily Unavailable"); (504, "Gateway Time-out"); (507, "Insufficient Storage")]%string.

(** Where the heading of a page differs from the status line. *)
Definition headings : list (Z * string) := [(302, "Found"); (401, "Authorization Required")]%string.

Fixpoint lookup_code {A} (l : list (Z * A)) (code : Z) : option A :=
  match l with
  | [] => None
  | (c, a) :: l => if c =? code then Some a else lookup_code l code
  end.

(** Three decimal digits. *)
Definition digits3 (code : Z) : list Z :=
  ["0"%c + code / 100; "0"%c + code / 10 mod 10; "0"%c + code mod 10].

Definition status_text (code : Z) : option (list Z) :=
  s ← lookup_code reasons code; Some (digits3 code ++ str " " ++ str s).

(** The message that follows the header fields: an empty line and a page, when the code has
    a page. *)
Definition message (code : Z) : list Z :=
  match lookup_code reasons code with
  | None => []
  | Some s =>
    if code =? 200 then CRLF ++ http_error_200_page
    else if code <? 300 then []
    else
      let s := digits3 code ++ str " " ++ str (default s (lookup_code headings code)) in
      CRLF ++ str "<html>" ++ CRLF ++ str "<head><title>" ++ s ++ str "</title></head>" ++ CRLF ++ BODY ++
      str "<center><h1>" ++ s ++ str "</h1></center>" ++ CRLF
  end.

(** The bytes of the response with status [code]; 304 has a status line and no page. *)
Definition wire (code : Z) : option (list Z) :=
  if code =? 304 then None
  else s ← status_text code; Some (str "HTTP/1.1 " ++ s ++ CRLF ++ HTTP_ERROR_HEADER ++ message code).

(** ** The lookups *)

(** A statement about the codes that index the tables can be checked on each of them. *)
Lemma code_cases (P : Z → bool) code :
  forallb P (seqZ 200 308) = true → (200 ≤ code < 508) → P code = true.
Proof. intros H Hc. rewrite forallb_forall in H. apply H, list_elem_of_In, elem_of_seqZ. lia. Qed.

Lemma lookup_code_out {A} (l : list (Z * A)) code :
  forallb (λ p, (200 <=? p.1) && (p.1 <? 508)) l = true → ¬ (200 ≤ code < 508) → lookup_code l code = None.
Proof.
  induction l as [|[c a] l IH]; intros Hl Hc; [done|]. simpl in *. apply andb_true_iff in Hl as [H1 H2].
  rewrite (proj2 (Z.eqb_neq c code)) by (cbn in H1; blia). by apply IH.
Qed.

(** Both lookups have no answer outside the range of the tables. *)
Lemma lookups_out code :
  ¬ (200 ≤ code < 508) → get_http_status_line code = Ok None ∧ get_http_error_page code = Ok None.
Proof.
  intros Hc. unfold get_http_status_line, get_http_error_page.
  unfold HTTP_OK, HTTP_STATUS_LAST_2XX, HTTP_MOVED_PERMANENTLY, HTTP_STATUS_LAST_3XX, HTTP_BAD_REQUEST,
    HTTP_STATUS_LAST_4XX, HTTP_INTERNAL_SERVER_ERROR, HTTP_STATUS_OFFSET_LAST, HTTP_ERROR_LAST_3XX,
    HTTP_ERROR_LAST_4XX, HTTP_ERROR_OFFSET_LAST.
  split; repeat match goal with |- context [if ?b then _ else _] =>
    replace b with false by (symmetry; apply andb_false_iff; rewrite Z.leb_gt, Z.ltb_ge; lia) end; done.
Qed.

Definition line_checked (code : Z) : bool := bool_decide (get_http_status_line code = Ok (status_text code)).

(** The part of the response after the header fields, as the code computes it. *)
Definition page_part (code : Z) : cres (list Z) :=
  if code =? 200 then mret (CRLF ++ http_error_200_page) else
  page ← get_http_error_page code;
  match page with
  | None => mret []
  | Some page => l ← of_option page; mret (CRLF ++ l)
  end.

Definition page_checked (code : Z) : bool :=
  match status_text code with
  | None => true
  | Some _ => bool_decide (page_part code = if code =? 304 then Ub else Ok (message code))
  end.

Lemma line_checked_all : forallb line_checked (seqZ 200 308) = true.
Proof. vm_compute. reflexivity. Qed.

Lemma page_checked_all : forallb page_checked (seqZ 200 308) = true.
Proof. vm_compute. reflexivity. Qed.

Lemma status_text_out code : ¬ (200 ≤ code < 508) → status_text code = None.
Proof. intros Hc. unfold status_text. by rewrite lookup_code_out. Qed.

Lemma status_line_text code : get_http_status_line code = Ok (status_text code).
Proof.
  destruct (decide (200 ≤ code < 508)) as [Hc|Hc].
  - apply (code_cases _ _ line_checked_all), bool_decide_eq_true in Hc. done.
  - rewrite status_text_out by done. by apply lookups_out.
Qed.

Lemma page_part_message code :
  is_Some (status_text code) → page_part code = if code =? 304 then Ub else Ok (message code).
Proof.
  intros Hs. destruct (decide (200 ≤ code < 508)) as [Hc|Hc].
  - apply (code_cases _ _ page_checked_all) in Hc. unfold page_checked in Hc. destruct Hs as [s Hs].
    rewrite Hs in Hc. by apply bool_decide_eq_true in Hc.
  - rewrite status_text_out in Hs by done. by destruct Hs.
Qed.

(** Every response fits the smallest read buffer: 1 KiB less the request object. *)
Lemma wire_length code l : wire code = Some l → Z.of_nat (length l) ≤ 1024 - SIZEOF_HTTP_REQUEST.
Proof.
  assert (H : forallb (λ c, match wire c with Some l => Z.of_nat (length l) <=? 1024 - SIZEOF_HTTP_REQUEST | None => true end)
      (seqZ 200 308) = true) by (vm_compute; reflexivity).
  intros Hw. destruct (decide (200 ≤ code < 508)) as [Hc|Hc].
  - apply (code_cases _ _ H) in Hc. rewrite Hw in Hc. by apply Z.leb_le.
  - unfold wire in Hw. rewrite status_text_out in Hw by done. by destruct (code =? 304).
Qed.

(** ** Writing the response *)

(** The buffer [b] in memory [m] holds the bytes [pre] up to [pos]; memory outside it is
    that of [m0]. *)
Record written (m0 m : gmap Z Z) (b : buffer) (pre : list Z) : Prop := Written {
  wr_bytes : bytes_at m (b_start b) pre;
  wr_pos : b_pos b = b_start b + Z.of_nat (length pre);
  wr_block : mapped m (b_start b) (b_end b);
  wr_frame : ∀ x, ¬ (b_start b ≤ x < b_end b) → m !! x = m0 !! x;
}.

(** A cursor that has [n] bytes behind its start. *)
Definition advanced (b : buffer) (n : nat) : buffer := set_pos b (b_start b + Z.of_nat n).

Lemma append_ok m0 m b pre l :
  written m0 m b pre → Z.of_nat (length (pre ++ l)) ≤ b_end b - b_start b →
  ∃ m', append m b l = Ok (m', advanced b (length (pre ++ l))) ∧
    written m0 m' (advanced b (length (pre ++ l))) (pre ++ l).
Proof.
  intros [Hb Hp Hbl Hf] Hlen. rewrite length_app in Hlen. unfold append.
  destruct (memcpy_ok m (b_pos b) l) as (m' & -> & Hl & Hfr & Hd).
  { intros x Hx. apply Hbl. lia. }
  cres_simpl. exists m'. assert (E : b_pos b + Z.of_nat (length l) = b_start b + Z.of_nat (length (pre ++ l))).
  { rewrite length_app. lia. }
  split; [unfold advanced; by rewrite E|]. split; cbn [b_start b_end b_pos advanced set_pos].
  - apply bytes_at_app. rewrite <-Hp. split; [|done]. eapply bytes_at_ext; [|done]. intros x Hx. apply Hfr. lia.
  - done.
  - intros x Hx. by apply Hd, Hbl.
  - intros x Hx. rewrite Hfr by lia. by apply Hf.
Qed.

Lemma advanced_advanced b n k : advanced (advanced b n) k = advanced b k.
Proof. done. Qed.

Section Finalize.
  Context {net : Type} `{Network net}.

(** The page that follows, written by the branch of [http_finalize_request]. *)
Definition append_page (m : gmap Z Z) (b : buffer) (ret_code : Z) : cres (gmap Z Z * buffer) :=
  if ret_code =? 200 then
    '(m, b) ← append m b CRLF;
    append m b http_error_200_page
  else
    page ← get_http_error_page ret_code;
    match page with
    | None => mret (m, b)
    | Some page => '(m, b) ← append m b CRLF; append_str m b page
    end.

Lemma append_page_ok m0 m b pre code msg :
  written m0 m b pre → page_part code = Ok msg → Z.of_nat (length (pre ++ msg)) ≤ b_end b - b_start b →
  ∃ m', append_page m b code = Ok (m', advanced b (length (pre ++ msg))) ∧
    written m0 m' (advanced b (length (pre ++ msg))) (pre ++ msg).
Proof.
  intros Hw Hm Hlen. unfold append_page, page_part in *.
  assert (Htwo : ∀ l, msg = CRLF ++ l → ∃ m', ('(m, b) ← append m b CRLF; append m b l) =
      Ok (m', advanced b (length (pre ++ msg))) ∧ written m0 m' (advanced b (length (pre ++ msg))) (pre ++ msg)).
  { intros l ->. rewrite app_assoc in Hlen |- *. rewrite length_app in Hlen.
    destruct (append_ok m0 m b pre CRLF Hw) as (m1 & -> & Hw1); [lia|]. cres_simpl.
    apply (append_ok m0 m1 (advanced b (length (pre ++ CRLF))) _ l Hw1). cbn. rewrite length_app. lia. }
  destruct (code =? 200); [apply Htwo; by injection Hm|].
  destruct (get_http_error_page code) as [[[l|]|]| |]; cres_simpl; try done.
  - apply Htwo. by injection Hm.
  - injection Hm as <-. exists m. rewrite app_nil_r. destruct Hw as [? Hp ? ?].
    assert (Eb : advanced b (length pre) = b) by (unfold advanced, set_pos; rewrite <-Hp; by destruct b).
    rewrite Eb. by split.
Qed.

Lemma page_ub m b code : page_part code = Ub → mapped m (b_start b) (b_end b) →
  b_start b ≤ b_pos b → b_pos b + 2 ≤ b_end b → append_page m b code = Ub.
Proof.
  intros Hp Hb Hs He. unfold append_page, page_part in *. destruct (code =? 200); [done|].
  destruct (get_http_error_page code) as [[[l|]|]| |]; cres_simpl; try done.
  unfold append. destruct (memcpy_ok m (b_pos b) CRLF) as (m' & -> & _); [intros x Hx; apply Hb; simpl in Hx; lia|].
  done.
Qed.

Lemma finalize_unfold m r code (w : net) line :
  get_http_status_line code = Ok (Some line) →
  http_finalize_request m r code w =
  (let b := header r in
   let b := set_pos (set_last b (b_start b)) (b_start b) in
   '(m, b) ← append m b (str "HTTP/1.1 ");
   '(m, b) ← append m b line;
   '(m, b) ← append m b (CRLF ++ HTTP_ERROR_HEADER);
   '(m, b) ← append_page m b code;
   l ← read_bytes m (b_start b) (Z.to_nat (b_pos b - b_start b));
   mret (m, set_header r b, net_send (fd r) l w)).
Proof. intros E. unfold http_finalize_request. rewrite E. done. Qed.

(** The read buffer after a response of [n] bytes. *)
Definition responded (b : buffer) (n : nat) : buffer :=
  Buffer (b_start b) (b_end b) (b_start b + Z.of_nat n) (b_start b).

Lemma finalize_ok m r code (w : net) l :
  wire code = Some l → mapped m (b_start (header r)) (b_end (header r)) →
  Z.of_nat (length l) ≤ b_end (header r) - b_start (header r) →
  ∃ m', http_finalize_request m r code w
      = Ok (m', set_header r (responded (header r) (length l)), net_send (fd r) l w) ∧
    bytes_at m' (b_start (header r)) l ∧
    (∀ x, ¬ (b_start (header r) ≤ x < b_end (header r)) → m' !! x = m !! x) ∧
    (∀ x, is_Some (m !! x) → is_Some (m' !! x)).
Proof.
  intros Hwire Hb Hlen. unfold wire in Hwire. destruct (code =? 304) eqn:E304; [done|].
  destruct (status_text code) as [line|] eqn:Es; [|done].
  assert (l = str "HTTP/1.1 " ++ line ++ CRLF ++ HTTP_ERROR_HEADER ++ message code) as -> by (cbn in *; congruence).
  rewrite (finalize_unfold m r code w line) by (by rewrite status_line_text, Es).
  cbn zeta. set (b0 := set_pos (set_last (header r) (b_start (header r))) (b_start (header r))).
  assert (Hw0 : written m m b0 []) by (split; [done | cbn; lia | done | done]).
  pose proof (page_part_message code ltac:(rewrite Es; eauto)) as Hpp. rewrite E304 in Hpp.
  rewrite !length_app in Hlen.
  destruct (append_ok m m b0 [] (str "HTTP/1.1 ") Hw0) as (m1 & -> & Hw1); [cbn [b0 b_start b_end set_pos set_last app]; lia|].
  cres_simpl.
  destruct (append_ok m m1 _ _ line Hw1) as (m2 & -> & Hw2); [cbn [b0 b_start b_end advanced set_pos set_last]; rewrite !length_app; cbn [length]; lia|].
  cres_simpl. rewrite advanced_advanced in Hw2 |- *.
  destruct (append_ok m m2 _ _ (CRLF ++ HTTP_ERROR_HEADER) Hw2) as (m3 & -> & Hw3);
    [cbn [b0 b_start b_end advanced set_pos set_last]; rewrite !length_app; cbn [length]; lia|].
  cres_simpl. rewrite advanced_advanced in Hw3 |- *.
  destruct (append_page_ok m m3 _ _ code (message code) Hw3 Hpp) as (m4 & -> & Hw4);
    [cbn [b0 b_start b_end advanced set_pos set_last]; rewrite !length_app; cbn [length]; lia|].
  cres_simpl. rewrite advanced_advanced in *. cbn [app] in *. rewrite <-!app_assoc in *.
  destruct Hw4 as [Hby _ Hbl Hfr]. cbn [b0 b_start b_end b_pos advanced set_pos set_last] in *.
  match goal with |- context [Z.to_nat ?z] => replace (Z.to_nat z) with
    (length (str "HTTP/1.1 " ++ line ++ CRLF ++ HTTP_ERROR_HEADER ++ message code)) by lia end.
  rewrite (read_bytes_ok _ _ _ Hby). cres_simpl. exists m4. split_and!; [done | done | done |].
  intros x Hx. destruct (decide (b_start (header r) ≤ x < b_end (header r))); [by apply Hbl | by rewrite Hfr].
Qed.

End Finalize.

(** ** Claims *)

(** For every integer, [get_http_status_line] stays inside its table and returns the
    line that starts with that very code followed by its reason phrase, and NULL exactly
    for the codes the server has no line for. *)
Theorem status_line_spec code : get_http_status_line code = Ok (status_text code).
Proof. apply status_line_text. Qed.

(** C36: with the smallest configurable read buffer (1 KiB less the request object),
    [http_finalize_request] sends, for every code it has a line for, exactly one message:
    the status line of that code, the three header fields, and the page of the code after
    an empty line; it writes only inside the read buffer.  For a code without a status line
    it does nothing.  Code 304 has a line but no page, and its page is copied from NULL. *)
Theorem finalize_request_spec {net} `{Network net} m r code (w : net) :
  mapped m (b_start (header r)) (b_end (header r)) →
  1024 - SIZEOF_HTTP_REQUEST ≤ b_end (header r) - b_start (header r) →
  match wire code with
  | Some l => ∃ m', http_finalize_request m r code w
        = Ok (m', set_header r (responded (header r) (length l)), net_send (fd r) l w) ∧
      (∀ x, ¬ (b_start (header r) ≤ x < b_end (header r)) → m' !! x = m !! x)
  | None => if code =? 304 then http_finalize_request m r code w = Ub
            else http_finalize_request m r code w = Ok (m, r, w)
  end.
Proof.
  intros Hb Hlen. destruct (wire code) as [l|] eqn:El.
  - pose proof (wire_length _ _ El). destruct (finalize_ok m r code w l El Hb) as (m' & E & _ & Hf & _); [lia|].
    by exists m'.
  - unfold wire in El. destruct (code =? 304) eqn:E304.
    + apply Z.eqb_eq in E304 as ->. rewrite (finalize_unfold m r 304 w (str "304 Not Modified")) by done. cbn zeta.
      set (b0 := set_pos (set_last (header r) (b_start (header r))) (b_start (header r))).
      assert (Hw0 : written m m b0 []) by (split; [done | cbn; lia | done | done]).
      assert (Hcap : 720 ≤ b_end (header r) - b_start (header r)) by (change (1024 - SIZEOF_HTTP_REQUEST) with 720 in *; lia).
      destruct (append_ok m m b0 [] (str "HTTP/1.1 ") Hw0) as (m1 & -> & Hw1); [cbn; lia|]. cres_simpl.
      destruct (append_ok m m1 _ _ (str "304 Not Modified") Hw1) as (m2 & -> & Hw2); [cbn; lia|]. cres_simpl.
      destruct (append_ok m m2 _ _ (CRLF ++ HTTP_ERROR_HEADER) Hw2) as (m3 & -> & Hw3); [cbn; lia|]. cres_simpl.
      rewrite page_ub; [done | done | apply (wr_block _ _ _ _ Hw3) | |]; cbn; lia.
    + unfold http_finalize_request. rewrite status_line_text. destruct (status_text code); done.
Qed.

(** A 1 KiB request object at 4096, its buffer behind the object. *)
Definition blank_request : http_request :=
  zero_request (bind_buffer (4096 + SIZEOF_HTTP_REQUEST) (1024 - SIZEOF_HTTP_REQUEST)).
Definition sample_memory : gmap Z Z := mem_of 4096 (replicate 1024 0).

Lemma sample_block : mapped sample_memory (b_start (header blank_request)) (b_end (header blank_request)).
Proof.
  assert (H : forallb (λ x, bool_decide (is_Some (sample_memory !! x))) (seqZ 4400 720) = true) by (vm_compute; reflexivity).
  intros x Hx. rewrite forallb_forall in H. apply (bool_decide_eq_true_1 (is_Some (sample_memory !! x))), H.
  apply list_elem_of_In, elem_of_seqZ. change (4400 ≤ x < 5120) in Hx. lia.
Qed.

Lemma finalize_request_spec_witness :
  (∃ m', http_finalize_request sample_memory blank_request 404 (Script [] [])
      = Ok (m', set_header blank_request (responded (header blank_request) (length (default [] (wire 404)))),
            net_send 0 (default [] (wire 404)) (Script [] [])) ∧
    (∀ x, ¬ (4400 ≤ x < 5120) → m' !! x = sample_memory !! x)) ∧
  http_finalize_request sample_memory blank_request 299 (Script [] []) = Ok (sample_memory, blank_request, Script [] []).
Proof.
  split.
  - apply (finalize_request_spec sample_memory blank_request 404 (Script [] [])); [exact sample_block | vm_compute; done].
  - apply (finalize_request_spec sample_memory blank_request 299 (Script [] [])); [exact sample_block | vm_compute; done].
Defined.

(** ** Where the header section ends *)

(** The position of the first empty line: after how many bytes CR LF CR LF occurs. *)
Fixpoint blank_line (l : list Z) : option nat :=
  match l with
  | [] => None
  | _ :: l' => if bool_decide (take 4 l = CRLF ++ CRLF) then Some O else S <$> blank_line l'
  end.

(** Does the response to [code] have an empty line, and is what follows it a page? *)
Definition framed (code : Z) : bool :=
  match wire code with
  | None => false
  | Some l =>
    match blank_line l with
    | None => false
    | Some n => bool_decide (drop (n + 4) l = drop 2 (message code)) &&
        bool_decide (take 9 l = str "HTTP/1.1 ") && bool_decide (take (n + 2) l = take (length l - length (message code)) l)
    end
  end.

(** A response is framed (status line, header fields, one empty line, and then exactly
    the page) for every code with a page; the codes 201, 202, 204 and 206 have a status
    line and no page, and the message sent for them has no empty line at all, so that its
    header section never ends. *)
Theorem response_framing code :
  framed code = match wire code with
                | Some _ => negb (bool_decide (code ∈ [201; 202; 204; 206]))
                | None => false
                end.
Proof.
  assert (H : forallb (λ c, bool_decide (framed c = match wire c with
      Some _ => negb (bool_decide (c ∈ [201; 202; 204; 206])) | None => false end)) (seqZ 200 308) = true)
    by (vm_compute; reflexivity).
  destruct (decide (200 ≤ code < 508)) as [Hc|Hc].
  - apply (code_cases _ _ H), bool_decide_eq_true in Hc. done.
  - unfold framed. assert (wire code = None) as ->; [|done].
    unfold wire. rewrite status_text_out by done. by destruct (code =? 304).
Qed.
