(* ===== verification/Memcache.v ===== *)
(** Object pools: [src/util/memcache.c].

    A pool is a stack of free objects kept in an array.  The allocator is a parameter: a
    function of the set of live blocks, whose result is NULL or a block that is not live.
    [free] of a block that is not live is undefined behaviour, so a double free cannot
    hide.  [owned] relates the pool to the objects its clients hold. *)

From stdpp Require Import base gmap list numbers sets.
From Stdlib Require Import ZArith Lia.
From S2P Require Import Prelude.

Record memcache : Type := Cache {
  self : Z (* the block that holds the structure and the array behind it *);
  elements : list Z;
  obj_size : Z;
  cache_size : Z;
  curr : Z
}.

Definition set_curr (c : memcache) (n : Z) : memcache :=
  Cache (self c) (elements c) (obj_size c) (cache_size c) n.
Definition set_elements (c : memcache) (l : list Z) : memcache :=
  Cache (self c) l (obj_size c) (cache_size c) (curr c).

(** Array accesses; an index outside the array is undefined behaviour. *)
Definition array_get (l : list Z) (i : Z) : cres Z := if i <? 0 then Ub else of_option (l !! Z.to_nat i).
Definition array_set (l : list Z) (i v : Z) : cres (list Z) :=
  if (i <? 0) || (Z.of_nat (length l) <=? i) then Ub else Ok (<[Z.to_nat i := v]> l).

Definition free (live : gset Z) (p : Z) : cres (gset Z) :=
  if bool_decide (p ∈ live) then Ok (live ∖ {[p]}) else Ub.

Definition add_element (live : gset Z) (cache : memcache) (element : Z) : cres (memcache * gset Z) :=
  if curr cache <? cache_size cache then
    l ← array_set (elements cache) (curr cache) element;
    mret (set_curr (set_elements cache l) (curr cache + 1), live)
  else
    live ← free live element;
    mret (cache, live).

Definition remove_element (cache : memcache) : cres (Z * memcache) :=
  let cache := set_curr cache (curr cache - 1) in
  e ← array_get (elements cache) (curr cache);
  mret (e, cache).

(** [while (cache->curr) ...]: at most [curr] iterations. *)
Fixpoint free_pool_loop (fuel : nat) (live : gset Z) (cache : memcache) : cres (memcache * gset Z) :=
  if curr cache =? 0 then mret (cache, live) else
  match fuel with
  | O => Fuel
  | S fuel =>
    '(element, cache) ← remove_element cache;
    live ← free live element;
    free_pool_loop fuel live cache
  end.

Definition free_pool (live : gset Z) (cache : memcache) : cres (gset Z) :=
  '(cache, live) ← free_pool_loop (Z.to_nat (curr cache)) live cache;
  free live (self cache).

Definition memcache_destroy (live : gset Z) (cache : memcache) : cres (gset Z) := free_pool live cache.

(** ** Allocation *)

Section Allocation.
  Variable malloc : gset Z → Z.

Definition malloc_block (live : gset Z) : Z * gset Z :=
  let p := malloc live in if p =? NULL then (NULL, live) else (p, {[p]} ∪ live).

(** The loop that fills the pool up to [limit] objects. *)
Fixpoint fill_loop (fuel : nat) (live : gset Z) (cache : memcache) (limit : Z) : cres (option memcache * gset Z) :=
  if curr cache <? limit then
    match fuel with
    | O => Fuel
    | S fuel =>
      let '(element, live) := malloc_block live in
      if element =? NULL then live ← free_pool live cache; mret (None, live)
      else
        '(cache, live) ← add_element live cache element;
        fill_loop fuel live cache limit
    end
  else mret (Some cache, live).

(** [assert(max_cache_size >= 2)] aborts the process. *)
Definition memcache_create (live : gset Z) (obj_size max_cache_size : Z)
    : cres (proc (option memcache * gset Z)) :=
  if negb (2 <=? max_cache_size) then mret Aborted else
  let '(p, live) := malloc_block live in
  if p =? NULL then mret (Running (None, live)) else
  let cache := Cache p (replicate (Z.to_nat max_cache_size) NULL) obj_size max_cache_size 0 in
  let limit := Z.shiftr max_cache_size 2 in
  x ← fill_loop (Z.to_nat limit) live cache limit;
  mret (Running x).

Definition memcache_alloc (live : gset Z) (cache : memcache) : cres (Z * memcache * gset Z) :=
  if negb (curr cache =? 0) then
    '(e, cache) ← remove_element cache; mret (e, cache, live)
  else
    let '(p, live) := malloc_block live in mret (p, cache, live).

Definition memcache_free (live : gset Z) (cache : memcache) (element : Z) : cres (memcache * gset Z) :=
  add_element live cache element.

End Allocation.

(** ** Ownership *)

Definition pooled (c : memcache) : list Z := take (Z.to_nat (curr c)) (elements c).

Record cache_ok (c : memcache) : Prop := CacheOk {
  ck_curr : 0 ≤ curr c ≤ cache_size c;
  ck_length : Z.of_nat (length (elements c)) = cache_size c;
}.

(** Live blocks: the pool's structure, its free objects, those in use by clients ([used]),
    and blocks of others ([rest]); no block is two of these. *)
Record owned (live : gset Z) (c : memcache) (used rest : gset Z) : Prop := Owned {
  ow_ok : cache_ok c;
  ow_nodup : NoDup (self c :: pooled c);
  ow_live : live = list_to_set (self c :: pooled c) ∪ used ∪ rest;
  ow_used : ∀ x, x ∈ self c :: pooled c → x ∉ used ∧ x ∉ rest;
  ow_rest : used ## rest;
  ow_null : NULL ∉ live;
}.

Lemma pooled_push c e :
  cache_ok c → curr c < cache_size c →
  ∃ l, array_set (elements c) (curr c) e = Ok l ∧ Z.of_nat (length l) = cache_size c ∧
    pooled (set_curr (set_elements c l) (curr c + 1)) = pooled c ++ [e].
Proof.
  intros [Hc Hl] Hlt. unfold array_set.
  rewrite (proj2 (Z.ltb_ge _ _)), (proj2 (Z.leb_gt _ _)) by lia. cbn [orb].
  eexists. split; [done|]. rewrite length_insert. split; [done|]. unfold pooled. cbn [curr elements set_curr set_elements].
  replace (Z.to_nat (curr c + 1)) with (S (Z.to_nat (curr c))) by lia.
  rewrite (take_S_r _ _ e) by (apply list_lookup_insert_eq; lia). by rewrite take_insert_ge.
Qed.

Lemma pooled_pop c :
  cache_ok c → curr c ≠ 0 →
  ∃ e l, remove_element c = Ok (e, set_curr c (curr c - 1)) ∧ pooled c = l ++ [e] ∧
    pooled (set_curr c (curr c - 1)) = l ∧ cache_ok (set_curr c (curr c - 1)).
Proof.
  intros [Hc Hl] H0. unfold remove_element. cbn [curr set_curr elements]. unfold array_get.
  rewrite (proj2 (Z.ltb_ge _ _)) by lia.
  destruct (lookup_lt_is_Some_2 (elements c) (Z.to_nat (curr c - 1))) as [e He]; [lia|].
  rewrite He. cres_simpl. exists e, (pooled (set_curr c (curr c - 1))). split_and!; [done | | done |].
  - unfold pooled. cbn [curr set_curr elements].
    replace (Z.to_nat (curr c)) with (S (Z.to_nat (curr c - 1))) at 1 by lia. by apply take_S_r.
  - split; cbn; lia.
Qed.

Lemma pooled_length c : cache_ok c → Z.of_nat (length (pooled c)) = curr c.
Proof. intros [Hc Hl]. unfold pooled. rewrite length_take. lia. Qed.

Definition fresh_malloc (malloc : gset Z → Z) : Prop := ∀ live, malloc live = NULL ∨ malloc live ∉ live.

Lemma malloc_block_ok malloc live :
  fresh_malloc malloc →
  malloc_block malloc live = (NULL, live) ∨
  ∃ p, malloc_block malloc live = (p, {[p]} ∪ live) ∧ p ≠ NULL ∧ p ∉ live.
Proof.
  intros Hm. unfold malloc_block. destruct (malloc live =? NULL) eqn:E; [by left|right].
  apply Z.eqb_neq in E. destruct (Hm live) as [|Hn]; [done|]. by exists (malloc live).
Qed.

(** An object moves from its user to the pool, or back to the system when the pool is full. *)
Lemma add_element_ok live c used rest e :
  owned live c used rest → e ∈ used →
  ∃ c' live', add_element live c e = Ok (c', live') ∧ owned live' c' (used ∖ {[e]}) rest ∧
    self c' = self c ∧ cache_size c' = cache_size c ∧ obj_size c' = obj_size c ∧
    curr c' = (if curr c <? cache_size c then curr c + 1 else curr c).
Proof.
  intros [Hok Hnd Hlive Hus Hre Hnull] He. unfold add_element.
  assert (Hne : e ∉ self c :: pooled c) by (intros H; by destruct (Hus e H)).
  destruct (curr c <? cache_size c) eqn:E.
  - destruct (pooled_push c e Hok) as (l & -> & Hl & Hp); [blia|]. cres_simpl.
    eexists _, _. split; [done|]. split; [|done]. split.
    + destruct Hok as [? ?]. split; cbn; [blia | done].
    + rewrite Hp. cbn [self set_curr set_elements]. rewrite app_comm_cons. apply NoDup_app. split_and!; [done | | apply NoDup_singleton].
      intros x Hx ->%list_elem_of_singleton. done.
    + rewrite Hp, Hlive. cbn [self set_curr set_elements]. apply set_eq. intros x.
      destruct (decide (x = e)); set_solver.
    + rewrite Hp. cbn [self set_curr set_elements]. intros x Hx.
      destruct (decide (x = e)) as [->|]; [set_solver|].
      assert (x ∈ self c :: pooled c) as Hx' by set_solver. destruct (Hus x Hx'). set_solver.
    + set_solver.
    + done.
  - unfold free. rewrite bool_decide_eq_true_2 by set_solver. cres_simpl.
    eexists _, _. split; [done|]. split; [|done]. split; [done | done | | | set_solver | set_solver].
    + rewrite Hlive. apply set_eq. intros x. destruct (decide (x = e)) as [->|]; [|set_solver].
      split; [set_solver|]. intros Hx. exfalso. set_solver.
    + intros x Hx. destruct (Hus x Hx). set_solver.
Qed.

Lemma alloc_ok malloc live c used rest :
  fresh_malloc malloc → owned live c used rest →
  ∃ p c' live', memcache_alloc malloc live c = Ok (p, c', live') ∧
    ((p = NULL ∧ curr c = 0 ∧ c' = c ∧ live' = live) ∨
     (p ≠ NULL ∧ p ∉ used ∧ p ∉ rest ∧ owned live' c' ({[p]} ∪ used) rest)).
Proof.
  intros Hm [Hok Hnd Hlive Hus Hre Hnull]. unfold memcache_alloc. destruct (curr c =? 0) eqn:E; cbn [negb].
  - destruct (malloc_block_ok malloc live Hm) as [-> | (p & -> & Hp & Hnl)].
    + eexists _, _, _. split; [done|]. left. apply Z.eqb_eq in E. done.
    + eexists _, _, _. split; [done|]. right. assert (p ∉ self c :: pooled c) by set_solver.
      split_and!; [done | set_solver | set_solver |]. split; [done | done | set_solver | | set_solver | set_solver].
      intros x Hx. destruct (Hus x Hx). split; [|done]. set_solver.
  - apply Z.eqb_neq in E. destruct (pooled_pop c Hok E) as (e & l & -> & Hpc & Hpl & Hok'). cres_simpl.
    eexists _, _, _. split; [done|]. right. rewrite Hpc in *.
    assert (Hin : e ∈ self c :: l ++ [e]) by set_solver. destruct (Hus e Hin) as [Hu Hr].
    rewrite app_comm_cons in Hnd. apply NoDup_app in Hnd as (Hnd & Hdis & _).
    split_and!; [set_solver | done | done |]. split; [done | by rewrite Hpl | | | set_solver | done].
    + rewrite Hpl, Hlive. cbn [self set_curr]. set_solver.
    + rewrite Hpl. cbn [self set_curr]. intros x Hx. assert (Hx' : x ∈ self c :: l ++ [e]) by set_solver.
      destruct (Hus x Hx'). split; [|done]. set_solver.
Qed.

(** ** Creation and destruction *)

Lemma free_pool_loop_ok n live c used rest :
  owned live c used rest → n = Z.to_nat (curr c) →
  ∃ c' live', free_pool_loop n live c = Ok (c', live') ∧ self c' = self c ∧ pooled c' = [] ∧ owned live' c' used rest.
Proof.
  revert live c. induction n as [|n IH]; intros live c Hown Hn; pose proof (ow_ok _ _ _ _ Hown) as Hok;
    pose proof Hok as [Hc Hl]; cbn [free_pool_loop].
  - rewrite (proj2 (Z.eqb_eq _ _)) by lia. eexists _, _. split; [done|]. split_and!; [done | | done].
    unfold pooled. by rewrite <-Hn.
  - rewrite (proj2 (Z.eqb_neq _ _)) by lia.
    destruct (pooled_pop c Hok) as (e & l & -> & Hpc & Hpl & Hok'); [lia|]. cres_simpl.
    destruct Hown as [_ Hnd Hlive Hus Hre Hnull]. unfold free. rewrite Hpc in *.
    assert (Hin : e ∈ self c :: l ++ [e]) by set_solver. rewrite bool_decide_eq_true_2 by set_solver. cres_simpl.
    destruct (Hus e Hin) as [Hu Hr]. rewrite app_comm_cons in Hnd. apply NoDup_app in Hnd as (Hnd & Hdis & _).
    apply (IH _ (set_curr c (curr c - 1))); [|cbn; lia]. split; [done | by rewrite Hpl | | | done | set_solver].
    + rewrite Hpl, Hlive. cbn [self set_curr]. apply set_eq. intros x. destruct (decide (x = e)) as [->|]; [|set_solver].
      split; [set_solver|]. specialize (Hdis e). set_solver.
    + rewrite Hpl. cbn [self set_curr]. intros x Hx. apply Hus. set_solver.
Qed.

Lemma free_pool_ok live c used rest : owned live c used rest → free_pool live c = Ok (used ∪ rest).
Proof.
  intros Hown. unfold free_pool.
  destruct (free_pool_loop_ok _ live c used rest Hown eq_refl) as (c' & live' & -> & Hs & Hp & [_ _ Hlive Hus _ _]).
  cres_simpl. rewrite Hp in *. unfold free. rewrite bool_decide_eq_true_2 by set_solver. f_equal.
  destruct (Hus (self c')) as [? ?]; [set_solver|]. apply set_eq. intros x.
  rewrite Hlive. destruct (decide (x = self c')) as [->|]; set_solver.
Qed.

Lemma fill_loop_ok malloc n live c rest limit :
  fresh_malloc malloc → owned live c ∅ rest → limit ≤ cache_size c → n = Z.to_nat (limit - curr c) → curr c ≤ limit →
  ∃ live', (∃ c', fill_loop malloc n live c limit = Ok (Some c', live') ∧ owned live' c' ∅ rest ∧
              curr c' = limit ∧ cache_size c' = cache_size c ∧ obj_size c' = obj_size c) ∨
            (fill_loop malloc n live c limit = Ok (None, live') ∧ live' = rest).
Proof.
  intros Hm. revert live c. induction n as [|n IH]; intros live c Hown Hlim Hn Hle; cbn [fill_loop].
  - rewrite (proj2 (Z.ltb_ge _ _)) by lia. eexists. left. eexists. split_and!; [done | done | lia | done | done].
  - rewrite (proj2 (Z.ltb_lt _ _)) by lia.
    destruct (malloc_block_ok malloc live Hm) as [-> | (p & -> & Hp & Hnl)]; cbn [fst snd].
    + rewrite (free_pool_ok _ _ _ _ Hown). cres_simpl. eexists. right. split; [done|]. set_solver.
    + rewrite (proj2 (Z.eqb_neq _ _)) by done.
      assert (Hown' : owned ({[p]} ∪ live) c {[p]} rest).
      { destruct Hown as [Hok Hnd Hlive Hus Hre Hnull]. assert (p ∉ self c :: pooled c) by set_solver.
        split; [done | done | set_solver | | set_solver | set_solver].
        intros x Hx. destruct (Hus x Hx). split; [set_solver | done]. }
      destruct (add_element_ok _ _ _ _ p Hown') as (c1 & live1 & -> & Hown1 & Hs1 & Hcs1 & Hos1 & Hc1); [set_solver|].
      cres_simpl. rewrite (proj2 (Z.ltb_lt _ _)) in Hc1 by lia.
      rewrite difference_diag_L in Hown1. destruct (IH live1 c1 Hown1) as (live' & [(c' & E & Ho & H1 & H2 & H3)|[E ->]]);
        try lia; [|eexists; right; done].
      eexists. left. eexists. split_and!; [done | done | done | congruence | congruence].
Qed.

Lemma create_ok malloc live osize n :
  fresh_malloc malloc → NULL ∉ live → 2 ≤ n →
  ∃ live', (∃ c, memcache_create malloc live osize n = Ok (Running (Some c, live')) ∧ owned live' c ∅ live ∧
              cache_size c = n ∧ obj_size c = osize ∧ curr c = n / 4) ∨
            (memcache_create malloc live osize n = Ok (Running (None, live')) ∧ live' = live).
Proof.
  intros Hm Hnull Hn. unfold memcache_create. rewrite (proj2 (Z.leb_le _ _)) by done. cbn [negb].
  destruct (malloc_block_ok malloc live Hm) as [-> | (p & -> & Hp & Hnl)]; [eexists; by right|].
  rewrite (proj2 (Z.eqb_neq _ _)) by done. rewrite Z.shiftr_div_pow2 by lia. change (2 ^ 2) with 4.
  set (c := Cache p (replicate (Z.to_nat n) NULL) osize n 0).
  assert (Hown : owned ({[p]} ∪ live) c ∅ live).
  { split; [split; cbn; rewrite ?length_replicate; lia | apply NoDup_singleton | cbn; set_solver | cbn; set_solver | set_solver | set_solver]. }
  assert (n / 4 ≤ n) by (apply Z.div_le_upper_bound; lia). assert (0 ≤ n / 4) by (apply Z.div_pos; lia).
  destruct (fill_loop_ok malloc (Z.to_nat (n / 4)) _ c live (n / 4) Hm Hown) as (live' & [(c' & -> & Ho & H1 & H2 & H3)|[-> ->]]);
    try (cbn; lia); cres_simpl; [|eexists; by right].
  eexists. left. by exists c'.
Qed.

(** ** When there is no pool *)

(** The allocator fails although at most [n] more blocks than [live] are taken. *)
Definition runs_out (malloc : gset Z → Z) (live : gset Z) (n : nat) : Prop :=
  ∃ b, live ⊆ b ∧ (size b ≤ size live + n)%nat ∧ malloc b = NULL.

Lemma malloc_block_size malloc live : (size (malloc_block malloc live).2 ≤ S (size live))%nat.
Proof.
  unfold malloc_block. destruct (malloc live =? NULL); cbn; [lia|]. rewrite (comm_L (∪)).
  destruct (decide (malloc live ∈ live)); [replace (live ∪ _) with live by set_solver; lia|]. rewrite size_union by set_solver. rewrite size_singleton. lia.
Qed.

Lemma malloc_block_null malloc live : malloc_block malloc live = (NULL, live) → malloc live = NULL.
Proof. unfold malloc_block. destruct (malloc live =? NULL) eqn:En; [blia|]. intros E. by injection E as E _. Qed.

Lemma fill_loop_failed malloc n : ∀ live c limit live',
  fresh_malloc malloc → fill_loop malloc n live c limit = Ok (None, live') → runs_out malloc live n.
Proof.
  induction n as [|n IH]; intros live c limit live' Hm; cbn [fill_loop]; (destruct (curr c <? limit); [|done]); [done|].
  pose proof (malloc_block_size malloc live) as Hsz. destruct (malloc_block_ok malloc live Hm) as [E | (p & E & Hp & Hnl)]; rewrite E in *; cbn [fst snd] in *.
  { intros _. exists live. split; [done|]. split; [lia|]. by apply malloc_block_null. }
  rewrite (proj2 (Z.eqb_neq _ _)) by done. destruct (add_element _ c p) as [[c1 live1]| |] eqn:Ea; try done. cres_simpl. intros Ef.
  destruct (IH _ _ _ _ Hm Ef) as (b & Hb & Hbs & Hn). assert (live ⊆ live1 ∧ size live1 ≤ S (size live))%nat as [Hsub Hs1].
  { unfold add_element in Ea. destruct (curr c <? cache_size c).
    - destruct (array_set _ _ _); try done. cres_simpl. injection Ea as _ <-. split; [set_solver | done].
    - unfold free in Ea. destruct (bool_decide _); [|done]. cres_simpl. injection Ea as _ <-. split; [set_solver|].
      etrans; [apply subseteq_size, (subseteq_difference_l _ _ _ (reflexivity _))|done]. }
  exists b. split; [set_solver|]. split; [lia | done].
Qed.

Lemma create_failed malloc live osize n live' :
  fresh_malloc malloc → 0 ≤ n → memcache_create malloc live osize n = Ok (Running (None, live')) → runs_out malloc live (S (Z.to_nat (n / 4))).
Proof.
  intros Hm Hn. unfold memcache_create. destruct (negb _); [done|]. pose proof (malloc_block_size malloc live) as Hsz.
  destruct (malloc_block_ok malloc live Hm) as [E | (p & E & Hp & Hnl)]; rewrite E in *; cbn [snd] in *.
  { intros _. exists live. split; [done|]. split; [lia|]. by apply malloc_block_null. }
  rewrite (proj2 (Z.eqb_neq _ _)) by done. rewrite Z.shiftr_div_pow2 by lia. change (2 ^ 2) with 4.
  destruct (fill_loop _ _ _ _ _) as [[[c|] live1]| |] eqn:Ef; try done. intros _. destruct (fill_loop_failed _ _ _ _ _ _ Hm Ef) as (b & Hb & Hbs & Hz).
  exists b. split; [set_solver|]. split; [lia | done].
Qed.

(** ** Where the blocks are *)

Section Places.
  Context (malloc : gset Z → Z) (P : Z → Prop).
  Hypothesis malloc_place : ∀ live, malloc live ≠ NULL → P (malloc live).
  Notation placed live := (∀ x, x ∈ live → P x).

Lemma malloc_block_placed (live : gset Z) : placed live → placed (malloc_block malloc live).2.
Proof using malloc_place.
  intros Hl. unfold malloc_block. destruct (malloc live =? NULL) eqn:E; [done|]. apply Z.eqb_neq in E. cbn. specialize (malloc_place live E). set_solver.
Qed.

Lemma add_element_placed live c e c' live' : add_element live c e = Ok (c', live') → placed live → placed live'.
Proof using Type.
  unfold add_element. destruct (_ <? _); cbn; [destruct (array_set _ _ _); [by intros [= _ <-] | done..]|].
  unfold free. destruct (bool_decide _); [|done]. intros [= _ <-] Hl x [Hx _]%elem_of_difference. by apply Hl.
Qed.

Lemma fill_loop_placed n : ∀ live c limit c' live', fill_loop malloc n live c limit = Ok (Some c', live') → placed live → placed live'.
Proof using malloc_place.
  induction n as [|n IH]; intros live c limit c' live'; cbn [fill_loop]; destruct (_ <? _); try done; try (by intros [= _ <-]).
  intros E Hl. pose proof (malloc_block_placed live Hl) as Hb. destruct (malloc_block malloc live) as [p live1]. cbn in Hb. destruct (p =? NULL).
  - by destruct (free_pool live1 c).
  - destruct (add_element live1 c p) as [[c1 live2]| |] eqn:Ea; try done. cres_simpl. eapply IH; [exact E|]. by eapply add_element_placed.
Qed.

Lemma create_placed live osize n c live' : memcache_create malloc live osize n = Ok (Running (Some c, live')) → placed live → placed live'.
Proof using malloc_place.
  unfold memcache_create. destruct (negb _); [done|]. intros E Hl. pose proof (malloc_block_placed live Hl) as Hb. destruct (malloc_block malloc live) as [p live1]. cbn in Hb.
  destruct (p =? NULL); [done|]. destruct (fill_loop _ _ _ _ _) as [[c1 live2]| |] eqn:Ef; try done. cres_simpl. injection E as -> ->. by eapply fill_loop_placed.
Qed.

Lemma alloc_placed live c p c' live' : memcache_alloc malloc live c = Ok (p, c', live') → placed live → placed live'.
Proof using malloc_place.
  unfold memcache_alloc. intros E Hl. pose proof (malloc_block_placed live Hl) as Hb. destruct (negb _).
  - destruct (remove_element c) as [[e c1]| |]; try done. cres_simpl. by injection E as _ _ <-.
  - destruct (malloc_block malloc live) as [q live1]. by injection E as _ _ <-.
Qed.

End Places.

(** ** The life of a pool *)

(** The live blocks, the pool, and the objects in use by its clients. *)
Record pool_state : Type := Pool { p_live : gset Z; p_cache : memcache; p_used : gset Z }.

Inductive pool_step (malloc : gset Z → Z) : pool_state → pool_state → Prop :=
| step_alloc live c used p c' live' :
    memcache_alloc malloc live c = Ok (p, c', live') → p ≠ NULL →
    pool_step malloc (Pool live c used) (Pool live' c' ({[p]} ∪ used))
| step_alloc_null live c used c' live' :
    memcache_alloc malloc live c = Ok (NULL, c', live') →
    pool_step malloc (Pool live c used) (Pool live' c' used)
| step_free live c used p c' live' :
    p ∈ used → memcache_free live c p = Ok (c', live') →
    pool_step malloc (Pool live c used) (Pool live' c' (used ∖ {[p]})).

Definition pool_inv (rest : gset Z) (s : pool_state) : Prop := owned (p_live s) (p_cache s) (p_used s) rest.

Lemma pool_step_inv malloc rest s s' :
  fresh_malloc malloc → pool_step malloc s s' → pool_inv rest s → pool_inv rest s'.
Proof.
  intros Hm Hs Hi. destruct Hs as [live c used p c' live' E Hp|live c used c' live' E|live c used p c' live' Hp E];
    unfold pool_inv in *; cbn [p_live p_cache p_used] in *.
  - destruct (alloc_ok malloc live c used rest Hm Hi) as (p1 & c1 & live1 & E1 & H). rewrite E in E1. injection E1 as <- <- <-.
    destruct H as [(-> & _)|(_ & _ & _ & ?)]; done.
  - destruct (alloc_ok malloc live c used rest Hm Hi) as (p1 & c1 & live1 & E1 & H). rewrite E in E1. injection E1 as <- <- <-.
    destruct H as [(_ & _ & -> & ->)|(? & _)]; done.
  - destruct (add_element_ok live c used rest p Hi Hp) as (c1 & live1 & E1 & H & _). unfold memcache_free in E.
    rewrite E in E1. by injection E1 as <- <-.
Qed.

Lemma pool_steps_inv malloc rest s s' :
  fresh_malloc malloc → rtc (pool_step malloc) s s' → pool_inv rest s → pool_inv rest s'.
Proof. intros Hm Hs. induction Hs; [done|]. intros Hi. apply IHHs. by eapply pool_step_inv. Qed.

(** C7: in every state a pool reaches from its creation by allocating and by freeing objects
    in use, an allocation returns NULL (only if the pool is empty and [malloc] fails) or an
    object nobody is using; freeing an object in use is defined and never overfills the
    array; and destroying the pool frees each block exactly once and leaves just the
    objects still in use. *)
Theorem memcache_lifecycle malloc live osize n c live0 s :
  fresh_malloc malloc → NULL ∉ live → 2 ≤ n →
  memcache_create malloc live osize n = Ok (Running (Some c, live0)) →
  rtc (pool_step malloc) (Pool live0 c ∅) s →
  (∃ p c' live', memcache_alloc malloc (p_live s) (p_cache s) = Ok (p, c', live') ∧
     (p = NULL ∧ curr (p_cache s) = 0 ∨ p ≠ NULL ∧ p ∉ p_used s ∪ live)) ∧
  (∀ p, p ∈ p_used s → ∃ c' live', memcache_free (p_live s) (p_cache s) p = Ok (c', live') ∧
     curr c' ≤ cache_size c') ∧
  memcache_destroy (p_live s) (p_cache s) = Ok (p_used s ∪ live).
Proof.
  intros Hm Hnull Hn Hc Hs.
  destruct (create_ok malloc live osize n Hm Hnull Hn) as (live' & [(c1 & E & Ho & _)|[E _]]); rewrite Hc in E; [|done].
  injection E as <- <-. pose proof (pool_steps_inv malloc live _ _ Hm Hs Ho) as Hi. unfold pool_inv in Hi. split_and!.
  - destruct (alloc_ok malloc _ _ _ _ Hm Hi) as (p & c' & live1 & E & H). exists p, c', live1. split; [done|].
    destruct H as [(? & ? & _)|(? & ? & ? & _)]; [by left|right; set_solver].
  - intros p Hp. destruct (add_element_ok _ _ _ _ p Hi Hp) as (c' & live1 & E & [[? _] _ _ _ _ _] & _).
    exists c', live1. split; [done | lia].
  - by apply free_pool_ok.
Qed.

(** An allocator that hands out the multiples of 64 up to a limit. *)
Definition arena (limit : nat) (live : gset Z) : Z :=
  default NULL (head (filter (λ p, p ∉ live) ((λ i, 64 * Z.of_nat i) <$> seq 1 limit))).

Lemma arena_fresh limit : fresh_malloc (arena limit).
Proof.
  intros live. unfold arena.
  destruct (filter _ _) as [|p l] eqn:E; [by left|right]. cbn.
  assert (Hp : p ∈ p :: l) by (by left). rewrite <-E in Hp. by apply list_elem_of_filter in Hp as [? _].
Qed.

Definition arena_cache : memcache * gset Z :=
  match memcache_create (arena 10) ∅ 2048 8 with
  | Ok (Running (Some c, live)) => (c, live)
  | _ => (Cache 0 [] 0 0 0, ∅)
  end.

Definition arena_used : memcache * gset Z :=
  match memcache_alloc (arena 10) arena_cache.2 arena_cache.1 with
  | Ok (_, c, live) => (c, live)
  | _ => arena_cache
  end.

(** The pool after its creation and one allocation. *)
Definition arena_state : pool_state := Pool arena_used.2 arena_used.1 ({[192]} ∪ ∅).

Lemma arena_steps : rtc (pool_step (arena 10)) (Pool arena_cache.2 arena_cache.1 ∅) arena_state.
Proof. apply rtc_once, step_alloc; [vm_compute; reflexivity | done]. Qed.

Lemma memcache_lifecycle_witness :
  (∃ p c' live', memcache_alloc (arena 10) (p_live arena_state) (p_cache arena_state) = Ok (p, c', live') ∧
     (p = NULL ∧ curr (p_cache arena_state) = 0 ∨ p ≠ NULL ∧ p ∉ p_used arena_state ∪ ∅)) ∧
  (∀ p, p ∈ p_used arena_state → ∃ c' live', memcache_free (p_live arena_state) (p_cache arena_state) p = Ok (c', live') ∧
     curr c' ≤ cache_size c') ∧
  memcache_destroy (p_live arena_state) (p_cache arena_state) = Ok (p_used arena_state ∪ ∅).
Proof.
  apply (memcache_lifecycle (arena 10) ∅ 2048 8 arena_cache.1 arena_cache.2 arena_state).
  - apply arena_fresh.
  - done.
  - lia.
  - vm_compute. reflexivity.
  - exact arena_steps.
Defined.

(** [memcache_create] aborts for fewer than two objects; otherwise it returns a pool of
    the requested capacity that is filled to a quarter, or NULL if any allocation fails, and
    then every block it had allocated has been freed again. *)
Theorem memcache_create_spec malloc live osize n :
  fresh_malloc malloc → NULL ∉ live →
  if 2 <=? n then
    ∃ r live', memcache_create malloc live osize n = Ok (Running (r, live')) ∧
      match r with
      | Some c => owned live' c ∅ live ∧ cache_size c = n ∧ obj_size c = osize ∧ curr c = n / 4
      | None => live' = live
      end
  else memcache_create malloc live osize n = Ok Aborted.
Proof.
  intros Hm Hnull. destruct (2 <=? n) eqn:E.
  - destruct (create_ok malloc live osize n Hm Hnull) as (live' & [(c & H1 & H2)|[H1 H2]]); [blia | |];
      eexists _, _; (split; [exact H1 | done]).
  - unfold memcache_create. by rewrite E.
Qed.

Lemma memcache_create_spec_witness :
  (∃ r live', memcache_create (arena 2) ∅ 2048 12 = Ok (Running (r, live')) ∧
      match r with
      | Some c => owned live' c ∅ ∅ ∧ cache_size c = 12 ∧ obj_size c = 2048 ∧ curr c = 12 / 4
      | None => live' = ∅
      end) ∧
  memcache_create (arena 2) ∅ 2048 1 = Ok Aborted.
Proof.
  split.
  - apply (memcache_create_spec (arena 2) ∅ 2048 12); [apply arena_fresh | done].
  - apply (memcache_create_spec (arena 2) ∅ 2048 1); [apply arena_fresh | done].
Defined.
