(* ===== verification/Request.v ===== *)
(** The HTTP request handler: [src/http/request.c].

    A connection's state is the memory [m] of its read buffer, the request object [r] and
    the network [w]; every function threads them through as the code does.  The hash table
    of header handlers is used through the interface [KeyMap] and the sockets through
    [Network].  Handlers an application may register are functions of the configuration.
    Logging calls have no effect on this state and are left out. *)

From stdpp Require Import base gmap list numbers strings sets.
From Stdlib Require Import ZArith Lia.
From S2P Require Import Prelude CStr RequestTypes ParseLine ParseHeader HashTableSpec Memcache Net.
From S2P Require Import Response.

(** ** Header handlers *)

Definition header_handler : Type := gmap Z Z → http_request → cres (Z * gmap Z Z * http_request).

Record request_header_handler : Type := HeaderHandler {
  hh_name : list Z (* empty for NULL_STRING *);
  hh_handler : option header_handler
}.

Definition http_process_content_length : header_handler := λ m r,
  v ← str_atoi m (header_value r);
  let r := set_content_len r v in
  if content_len r <=? 0 then mret (-1, m, r) else mret (0, m, r).

Inductive host_state : Type := sw_usual | sw_literal | sw_rest.

#[export] Instance host_state_eq_dec : EqDecision host_state.
Proof. solve_decision. Defined.

Definition is_capital (ch : Z) : bool := ("A"%c <=? ch) && (ch <=? "Z"%c).
(** [tolower] of a capital letter. *)
Definition tolower (ch : Z) : Z := if is_capital ch then ch + 32 else ch.

(** The loop over the value, with [n] characters left: [inl] is a return from inside it,
    [inr] are the values of [dot_pos] and [host_len] after it. *)
Fixpoint host_loop (n : nat) (m : gmap Z Z) (p i : Z) (st : host_state) (dot_pos host_len : Z)
    : cres (gmap Z Z * (Z + Z * Z)) :=
  match n with
  | O => mret (m, inr (dot_pos, host_len))
  | S n =>
    ch ← load m (p + i);
    if ch =? "."%c then
      if dot_pos =? size_t (i - 1) then mret (m, inl (-1))
      else host_loop n m p (i + 1) st i host_len
    else if ch =? ":"%c then
      if bool_decide (st = sw_usual) then host_loop n m p (i + 1) sw_rest dot_pos i
      else host_loop n m p (i + 1) st dot_pos host_len
    else if ch =? "["%c then
      host_loop n m p (i + 1) (if i =? 0 then sw_literal else st) dot_pos host_len
    else if ch =? "]"%c then
      if bool_decide (st = sw_literal) then host_loop n m p (i + 1) sw_rest dot_pos (i + 1)
      else host_loop n m p (i + 1) st dot_pos host_len
    else if ch =? 0 then mret (m, inl (-1))
    else if ch =? "/"%c then mret (m, inl (-2))
    else
      m ← (if is_capital ch then store m (p + i) (tolower ch) else mret m);
      host_loop n m p (i + 1) st dot_pos host_len
  end.

Definition http_process_host : header_handler := λ m r,
  let len := slen (header_value r) in
  let r := set_host r (set_sp (host r) (sp (header_value r))) in
  '(m, x) ← host_loop (Z.to_nat len) m (sp (header_value r)) 0 sw_usual len len;
  match x with
  | inl code => mret (code, m, r)
  | inr (dot_pos, host_len) =>
    let host_len := if dot_pos =? size_t (host_len - 1) then size_t (host_len - 1) else host_len in
    if host_len =? 0 then mret (-3, m, r)
    else mret (0, m, set_host r (set_slen (host r) host_len))
  end.

Definition http_headers_handler : list request_header_handler := [
  HeaderHandler (str "Host") (Some http_process_host);
  HeaderHandler (str "Connection") None;
  HeaderHandler (str "If-Modified-Since") None;
  HeaderHandler (str "If-Unmodified-Since") None;
  HeaderHandler (str "If-Match") None;
  HeaderHandler (str "If-None-Match") None;
  HeaderHandler (str "User-Agent") None;
  HeaderHandler (str "Referer") None;
  HeaderHandler (str "Content-Length") (Some http_process_content_length);
  HeaderHandler (str "Content-Type") None;
  HeaderHandler (str "Range") None;
  HeaderHandler (str "If-Range") None;
  HeaderHandler (str "Transfer-Encoding") None;
  HeaderHandler (str "Expect") None;
  HeaderHandler (str "Upgrade") None;
  HeaderHandler (str "Authorization") None;
  HeaderHandler (str "Keep-Alive") None;
  HeaderHandler (str "Cookie") None;
  HeaderHandler [] None].

(** ** Receiving and parsing *)

Section Handler.
  Context {net : Type} `{Network net} {heap table : Type} `{KeyMap heap table}.

(** [recv] stores what it delivers at the end of the received data. *)
Definition recv_http_request (m : gmap Z Z) (fd : Z) (b : buffer) (w : net) : cres (Z * gmap Z Z * buffer * net) :=
  if b_last b =? b_end b then mret (-1, m, b, w) else
  let '(res, w) := net_recv fd (b_end b - b_last b) w in
  match res with
  | RecvError errno => if errno =? ETIME then mret (-2, m, b, w) else mret (-3, m, b, w)
  | Received l =>
    m ← memcpy m (b_last b) l;
    let nread := i32 (Z.of_nat (length l)) in
    if nread <? 0 then mret (-3, m, b, w)
    else if nread =? 0 then mret (-4, m, b, w)
    else mret (0, m, set_last b (b_last b + nread), w)
  end.

(** Every iteration but the last receives at least one byte. *)
Definition room (b : buffer) : nat := Z.to_nat (b_end b - b_last b).

Fixpoint request_line_loop (fuel : nat) (m : gmap Z Z) (r : http_request) (w : net)
    : cres (Z * gmap Z Z * http_request * net) :=
  match fuel with
  | O => Fuel
  | S fuel =>
    '(ret, m, b, w) ← recv_http_request m (fd r) (header r) w;
    let r := set_header r b in
    if negb (ret =? 0) then mret (-1, m, r, w) else
    '(ret, r) ← http_parse_request_line m r;
    if ret =? 0 then mret (0, m, r, w)
    else if 0 <? ret then request_line_loop fuel m r w
    else mret (-2, m, r, w)
  end.

Definition http_process_request_line (m : gmap Z Z) (r : http_request) (w : net) :
    cres (Z * gmap Z Z * http_request * net) :=
  request_line_loop (S (room (header r))) m r w.

(** What an application configures, and the table of header handlers: [cfg_handlers] is the
    memory of the handler structures the table's objects point to. *)
Definition line_handler : Type := gmap Z Z → http_request → net → cres (Z * gmap Z Z * http_request * net).
Definition body_handler : Type := gmap Z Z → http_request → net → cres (gmap Z Z * http_request * net).

Record config : Type := Config {
  cfg_method : option line_handler;
  cfg_uri : option line_handler;
  cfg_http : option line_handler;
  cfg_body : body_handler;
  cfg_heap : heap;
  cfg_ht : table;
  cfg_handlers : gmap Z request_header_handler
}.

Definition request_body_default_handler : body_handler := λ m r w, http_finalize_request m r 200 w.

Definition handle_http_request_header (cfg : config) (m : gmap Z Z) (r : http_request)
    : cres (Z * gmap Z Z * http_request) :=
  if negb (invalid_header r =? 0) then mret (0, m, r) else
  hh ← km_find (cfg_heap cfg) (cfg_ht cfg) (header_hash r);
  if hh =? NULL then mret (0, m, r) else
  h ← of_option (cfg_handlers cfg !! hh);
  match hh_handler h with
  | Some f => f m r
  | None => mret (0, m, r)
  end.

(** Every iteration consumes a header line or receives at least one byte. *)
Definition header_fuel (b : buffer) : nat := S (Z.to_nat (b_end b - b_last b + (b_end b - b_pos b))).

Fixpoint request_header_loop (cfg : config) (fuel : nat) (m : gmap Z Z) (r : http_request) (w : net)
    : cres (Z * gmap Z Z * http_request * net) :=
  match fuel with
  | O => Fuel
  | S fuel =>
    '(ret, r) ← http_parse_request_header m r;
    if ret =? 0 then
      '(ret, m, r) ← handle_http_request_header cfg m r;
      if negb (ret =? 0) then mret (-1, m, r, w) else request_header_loop cfg fuel m r w
    else if ret =? 1 then
      '(ret, m, b, w) ← recv_http_request m (fd r) (header r) w;
      let r := set_header r b in
      if negb (ret =? 0) then mret (-2, m, r, w) else request_header_loop cfg fuel m r w
    else if ret =? 100 then mret (0, m, r, w)
    else mret (-3, m, r, w)
  end.

Definition http_process_request_header (cfg : config) (m : gmap Z Z) (r : http_request) (w : net)
    : cres (Z * gmap Z Z * http_request * net) :=
  request_header_loop cfg (header_fuel (header r)) m r w.

Fixpoint request_body_loop (fuel : nat) (m : gmap Z Z) (r : http_request) (w : net)
    : cres (Z * gmap Z Z * http_request * net) :=
  if negb (b_last (header r) - b_pos (header r) =? content_len r) then
    match fuel with
    | O => Fuel
    | S fuel =>
      '(ret, m, b, w) ← recv_http_request m (fd r) (header r) w;
      let r := set_header r b in
      if negb (ret =? 0) then mret (-1, m, r, w) else request_body_loop fuel m r w
    end
  else mret (0, m, set_content r (Str (b_pos (header r)) (content_len r)), w).

Definition http_process_request_body (m : gmap Z Z) (r : http_request) (w : net)
    : cres (Z * gmap Z Z * http_request * net) :=
  request_body_loop (S (room (header r))) m r w.

(** A line handler that is registered and does not return 0 ends the request. *)
Definition call_line_handler (h : option line_handler) (m : gmap Z Z) (r : http_request) (w : net)
    (k : gmap Z Z → http_request → net → cres (gmap Z Z * http_request * net)) : cres (gmap Z Z * http_request * net) :=
  match h with
  | None => k m r w
  | Some f =>
    '(ret, m, r, w) ← f m r w;
    if negb (ret =? 0) then mret (m, r, w) else k m r w
  end.

Definition __http_request_handler (cfg : config) (m : gmap Z Z) (r : http_request) (w : net)
    : cres (gmap Z Z * http_request * net) :=
  '(ret, m, r, w) ← http_process_request_line m r w;
  if negb (ret =? 0) then http_finalize_request m r HTTP_BAD_REQUEST w else
  call_line_handler (cfg_method cfg) m r w (λ m r w,
  call_line_handler (cfg_uri cfg) m r w (λ m r w,
  call_line_handler (cfg_http cfg) m r w (λ m r w,
    if http_version r <? HTTP_VER_10 then cfg_body cfg m r w else
    '(ret, m, r, w) ← http_process_request_header cfg m r w;
    if negb (ret =? 0) then http_finalize_request m r HTTP_BAD_REQUEST w else
    '(ret, m, r, w) ← http_process_request_body m r w;
    if negb (ret =? 0) then http_finalize_request m r HTTP_INSUFFICIENT_STORAGE w else
    cfg_body cfg m r w))).

(** ** One connection *)

(** The worker's HTTP state: the pool of request objects with the live blocks, the contents
    of request objects (what an earlier connection left in them), the memory of the read
    buffers, and the size of an object with its buffer. *)
Record server : Type := Server {
  sv_cache : memcache;
  sv_live : gset Z;
  sv_objects : gmap Z http_request;
  sv_mem : gmap Z Z;
  client_header_size : Z
}.

(** A block of memory from the allocator: its bytes exist, their values are whatever they
    were, or 0 where nothing was stored. *)
Definition map_block (m : gmap Z Z) (p n : Z) : gmap Z Z := m ∪ mem_of p (replicate (Z.to_nat n) 0).

(** The assignments of [http_request_handler] to the object at [p]. *)
Definition init_request (p fd size : Z) (r : http_request) : http_request :=
  let r := set_fd r fd in
  let r := set_state r 0 in
  let r := set_request_line r str_init in
  let r := set_args r NULL in
  let r := set_exten r str_init in
  let r := set_http_protocol r str_init in
  let r := set_content_len r 0 in
  set_header r (bind_buffer (p + SIZEOF_HTTP_REQUEST) (size - SIZEOF_HTTP_REQUEST)).

(** [malloc] is the allocator behind the pool and [garbage p] the contents of an object that
    was never used. *)
Definition http_request_handler (malloc : gset Z → Z) (garbage : Z → http_request) (cfg : config)
    (sv : server) (fd : Z) (w : net) : cres (server * net) :=
  '(p, cache, live) ← memcache_alloc malloc (sv_live sv) (sv_cache sv);
  let size := client_header_size sv in
  if p =? NULL then
    mret (Server cache live (sv_objects sv) (sv_mem sv) size, http_fast_response fd HTTP_INSUFFICIENT_STORAGE_PAGE w)
  else
    let r := init_request p fd size (default (garbage p) (sv_objects sv !! p)) in
    let m := map_block (sv_mem sv) (p + SIZEOF_HTTP_REQUEST) (size - SIZEOF_HTTP_REQUEST) in
    '(m, r, w) ← __http_request_handler cfg m r w;
    '(cache, live) ← memcache_free live cache p;
    mret (Server cache live (<[p := r]> (sv_objects sv)) m size, w).

End Handler.
