(* ===== verification/RequestFacts.v ===== *)
(** The request handler step by step: what each stage keeps, and that each stage returns. *)

From stdpp Require Import base gmap list numbers strings sets.
From Stdlib Require Import ZArith Lia.
From S2P Require Import Prelude CStr RequestTypes ParseLine ParseLineRun ParseLineSafety.
From S2P Require Import ParseLineFacts ParseHeader ParseHeaderFacts HashTableSpec Net Response.
From S2P Require Import Request.

(** ** Fields the parsers keep *)

(** The fields of the request the line parser does not touch. *)
Definition line_kept (r : http_request) : Z * Z * Z * list Z :=
  (fd r, content_len r, lowcase_index r, lowcase_header r).
Definition put_line_kept (r : http_request) (v : Z * Z * Z * list Z) : http_request :=
  let '(f, c, i, l) := v in set_lowcase_header (set_lowcase_index (set_content_len (set_fd r f) c) i) l.

#[export] Instance put_line_kept_independent v : Independent (λ r, put_line_kept r v).
Proof. destruct v as [[[f c] i] l]. solve_independent. Qed.

(** The fields the header parser does not touch. *)
Definition header_kept (r : http_request) : Z * Z := (fd r, content_len r).
Definition put_header_kept (r : http_request) (v : Z * Z) : http_request := set_content_len (set_fd r v.1) v.2.

#[export] Instance put_header_kept_hindependent v : HIndependent (λ r, put_header_kept r v).
Proof. destruct v as [f c]. solve_hindependent. Qed.

Lemma line_run_kept m st p r l x :
  line_run m st p r l = Ok x → line_kept (exit_request x) = line_kept r.
Proof.
  intros E. pose proof (line_run_independent (λ r', put_line_kept r' (line_kept r)) m st p r l) as H.
  cbv beta in H. replace (put_line_kept r (line_kept r)) with r in H by (by destruct r).
  rewrite E in H. cres_simpl. injection H as H. rewrite H. by destruct x.
Qed.

Lemma line_return_kept x : line_kept (line_return x).2 = line_kept (exit_request x).
Proof.
  destruct x as [p st r|c r|p r]; cbn [line_return exit_request snd]; [done | done |].
  destruct r. unfold line_done. req_simpl. repeat (case_match; req_simpl); done.
Qed.

Lemma header_run_kept p st hash i r l x :
  header_run p st hash i r l = Ok x → header_kept (hexit_request x) = header_kept r.
Proof.
  intros E. pose proof (header_run_independent (λ r', put_header_kept r' (header_kept r)) p st hash i r l) as H.
  cbv beta in H. replace (put_header_kept r (header_kept r)) with r in H by (by destruct r).
  rewrite E in H. cres_simpl. injection H as H. rewrite H. by destruct x.
Qed.

(** ** Receiving *)

(** The read buffer with its bounds fixed; its size fits an [int]. *)
Definition conn_ok (m : gmap Z Z) (b : buffer) : Prop := buffer_ok m b ∧ b_end b - b_start b < 2 ^ 31.

(** [w'] follows from [w] by receiving on [fd] only. *)
Definition receives {net} `{Network net} (fd : Z) : net → net → Prop :=
  rtc (λ w w', ∃ n, (net_recv fd n w).2 = w').

Section Facts.
  #[local] Set Default Proof Using "Type*".
  Context {net : Type} `{NetworkLaws net} {heap table : Type} `{KeyMapLaws heap table}.

Lemma conn_mapped m m' b : (∀ x, is_Some (m !! x) → is_Some (m' !! x)) → conn_ok m b → conn_ok m' b.
Proof. intros Hm [(? & ? & ? & ? & Hb) Hs]. split; [|done]. split_and!; try lia. intros x Hx. by apply Hm, Hb. Qed.

Lemma recv_ok m f b (w : net) :
  conn_ok m b →
  ∃ ret m' b' w', recv_http_request m f b w = Ok (ret, m', b', w') ∧ -4 ≤ ret ≤ 0 ∧ receives f w w' ∧
    conn_ok m' b' ∧ (∀ x, is_Some (m !! x) → is_Some (m' !! x)) ∧
    (∀ x, ¬ (b_last b ≤ x < b_end b) → m' !! x = m !! x) ∧
    (if ret =? 0 then b' = set_last b (b_last b') ∧ b_last b < b_last b' ≤ b_end b else b' = b).
Proof.
  intros [Hb Hs]. pose proof Hb as (H1' & H2' & H3' & H4' & Hm). unfold recv_http_request.
  destruct (b_last b =? b_end b) eqn:Ee.
  { eexists _, _, _, _. split; [done|]. split_and!; try lia; done. }
  destruct (net_recv f (b_end b - b_last b) w) as [[l|e] w'] eqn:Er.
  - pose proof (net_recv_law f (b_end b - b_last b) w l w' ltac:(lia) Er) as Hlen.
    destruct (memcpy_ok m (b_last b) l) as (m' & -> & _ & Hfr & Hd). { intros x Hx. apply Hm. lia. }
    cres_simpl. rewrite i32_id by lia. rewrite (proj2 (Z.ltb_ge _ _)) by lia.
    assert (Hrcv : receives f w w') by (apply rtc_once; exists (b_end b - b_last b); by rewrite Er).
    assert (Hc : conn_ok m' b) by (eapply conn_mapped; [intros x Hx; by apply Hd | by split]).
    assert (Hf : ∀ x, ¬ (b_last b ≤ x < b_end b) → m' !! x = m !! x) by (intros x Hx; apply Hfr; lia).
    destruct (Z.of_nat (length l) =? 0) eqn:E0; (eexists _, _, _, _; split; [done|]).
    + split_and!; try lia; try done. intros x Hx. by apply Hd.
    + split_and!; try lia; try done; try (intros x Hx; by apply Hd); cbn; try blia.
      * destruct Hc as [(? & ? & ? & ? & ?) ?]. split; [|done]. split_and!; cbn; try blia. done.
      * split; [done | blia].
  - destruct (e =? ETIME); (eexists _, _, _, _; split; [done|]);
      (split_and!; try lia; try done); apply rtc_once; exists (b_end b - b_last b); by rewrite Er.
Qed.

(** ** The request line *)

(** A property of the received data and of what is still to come, which receiving keeps. *)
Record stream_inv (J : gmap Z Z → buffer → net → Prop) : Prop := StreamInv {
  si_pos : ∀ m b w p, J m b w → J m (set_pos b p) w;
  si_recv : ∀ m f b w ret m' b' w', conn_ok m b → J m b w →
    recv_http_request m f b w = Ok (ret, m', b', w') → J m' b' w';
}.

Lemma stream_inv_true : stream_inv (λ _ _ _, True).
Proof. by split. Qed.

Lemma line_ready_recv m r m' b' :
  line_ready m r → conn_ok m' b' → b' = set_last (header r) (b_last b') → line_ready m' (set_header r b').
Proof.
  intros [_ (st & Hst & Hi)] [Hb _] E. split; [done|]. exists st. split; [done|]. req_simpl.
  rewrite E. cbn [b_start b_pos set_last]. exact Hi.
Qed.

(** What a stage keeps of the connection: the descriptor and the bounds of the buffer. *)
Definition same_conn (r r' : http_request) : Prop :=
  fd r' = fd r ∧ b_start (header r') = b_start (header r) ∧ b_end (header r') = b_end (header r).

Lemma same_conn_trans r1 r2 r3 : same_conn r1 r2 → same_conn r2 r3 → same_conn r1 r3.
Proof. unfold same_conn. intuition congruence. Qed.

Lemma parse_line_conn m r :
  line_ready m r → b_end (header r) - b_start (header r) < 2 ^ 31 →
  ∃ code r', http_parse_request_line m r = Ok (code, r') ∧ -25 ≤ code ≤ 1 ∧ same_conn r r' ∧
    conn_ok m (header r') ∧ line_kept r' = line_kept r ∧ header r' = set_pos (header r) (b_pos (header r')) ∧
    (code = 1 → line_ready m r') ∧ (code = 0 → state r' = 0).
Proof.
  intros Hr Hs. destruct (parse_line_ready m r Hr) as (code & r' & E & Hc & H1' & H0').
  destruct Hr as [Hb (st & Hst & Hi)]. destruct (buffer_bytes _ _ Hb) as (l & Hlast & Hby).
  pose proof E as E'. rewrite (parse_line_run m r l st) in E' by done.
  destruct (line_run m st (b_pos (header r)) r l) as [x| |] eqn:Ex; try done. cres_simpl. injection E' as E'.
  pose proof (line_run_kept _ _ _ _ _ _ Ex) as Hk. rewrite <-line_return_kept, E' in Hk. cbn [snd] in Hk.
  assert (Hh : ∃ p, header r' = set_pos (header r) p ∧ b_pos (header r) ≤ p ≤ b_last (header r)).
  { destruct (decide (code = 1)) as [->|]; [destruct (H1' eq_refl) as [_ ->]; exists (b_last (header r)); destruct Hb; split; [done | lia]|].
    destruct (decide (code = 0)) as [->|]; [destruct (H0' eq_refl) as (_ & _ & p & -> & ?); exists p; split; [done | lia]|].
    pose proof (line_run_keeps_header _ _ _ _ _ _ Ex) as Hk'.
    destruct x as [p st' r1|c r1|p r1]; cbn [line_return exit_request] in *.
    - congruence.
    - injection E' as -> ->. exists (b_pos (header r)). rewrite Hk'. destruct Hb. split; [by destruct (header r) | lia].
    - pose proof (line_done_request p r1) as (Hh & _). rewrite E' in Hh. cbn [snd] in Hh. rewrite Hh, Hk'.
      pose proof Hb as (? & ? & ? & ? & Hm).
      pose proof (line_run_inv m (b_start (header r)) (b_pos (header r)) st r l ltac:(lia) ltac:(lia)
        ltac:(eapply mapped_mono; [exact Hm | lia..]) Hby Hi) as Hrun. rewrite Ex in Hrun. destruct Hrun as [_ Hp].
      exists (p + 1). split; [done | lia]. }
  destruct Hh as (p & Hp & Hr). exists code, r'. rewrite Hp. cbn [b_pos set_pos].
  split_and!; try done; try lia.
  - unfold same_conn. rewrite Hp. cbn. unfold line_kept in Hk. split_and!; congruence.
  - split; [by apply buffer_ok_pos | done].
  - intros E1. first [by apply H1' | by apply H0'].
Qed.

Lemma request_line_ok J fuel m r (w : net) :
  stream_inv J → J m (header r) w → line_ready m r → b_end (header r) - b_start (header r) < 2 ^ 31 → (room (header r) < fuel)%nat →
  ∃ ret m' r' w', request_line_loop fuel m r w = Ok (ret, m', r', w') ∧ -2 ≤ ret ≤ 0 ∧ receives (fd r) w w' ∧
    same_conn r r' ∧ conn_ok m' (header r') ∧ line_kept r' = line_kept r ∧ (ret = 0 → state r' = 0) ∧
    J m' (header r') w'.
Proof.
  intros HJ. revert m r w. induction fuel as [|fuel IH]; intros m r w HJ0 Hr Hs Hf; [lia|]. cbn [request_line_loop].
  assert (Hc0 : conn_ok m (header r)) by (split; [apply Hr | done]).
  destruct (recv_ok m (fd r) (header r) w Hc0) as (ret & m1 & b1 & w1 & Erecv & Hret & Hw1 & Hc1 & _ & _ & Hb1).
  pose proof (si_recv _ HJ _ _ _ _ _ _ _ _ Hc0 HJ0 Erecv) as HJ1. rewrite Erecv. cres_simpl.
  destruct (ret =? 0) eqn:E0; cbn [negb].
  2:{ subst b1. rewrite set_header_id. eexists _, _, _, _. split; [done|]. split_and!; try done; lia. }
  destruct Hb1 as [Eb1 Hl1].
  pose proof (line_ready_recv _ _ _ _ Hr Hc1 Eb1) as Hr1.
  assert (Hsc : same_conn r (set_header r b1)) by (rewrite Eb1; done).
  destruct (parse_line_conn m1 (set_header r b1) Hr1) as (code & r2 & -> & Hcode & Hsc2 & Hc2 & Hk2 & Hl2 & H1' & H0').
  { destruct Hsc as (_ & -> & ->). done. }
  cres_simpl. pose proof (same_conn_trans _ _ _ Hsc Hsc2) as Hsc3.
  assert (HJ2 : J m1 (header r2) w1) by (rewrite Hl2; by apply (si_pos _ HJ)).
  destruct (code =? 0) eqn:Ec0; [|destruct (0 <? code) eqn:Ec1].
  - eexists _, _, _, _. split; [done|]. split_and!; try done; try lia.
  - destruct (IH m1 r2 w1) as (ret' & m3 & r3 & w3 & -> & Hret3 & Hw3 & Hsc4 & Hc3 & Hk3 & Hst3 & HJ3).
    + done.
    + apply H1'. blia.
    + destruct Hsc3 as (_ & -> & ->). done.
    + unfold room in *. destruct Hsc3 as (_ & _ & ->). rewrite Hl2. req_simpl. cbn [b_last set_pos]. lia.
    + destruct Hsc3 as (Hfd & ? & ?). eexists _, _, _, _. split; [done|]. split_and!; try done; try lia.
      * etrans; [exact Hw1|]. by rewrite Hfd in Hw3.
      * eapply same_conn_trans; [|done]. done.
      * by rewrite Hk3.
  - eexists _, _, _, _. split; [done|]. split_and!; try done; try lia.
Qed.

(** ** The header lines *)

Lemma parse_header_conn m r :
  header_ready m r → b_end (header r) - b_start (header r) < 2 ^ 31 →
  ∃ code r', http_parse_request_header m r = Ok (code, r') ∧ same_conn r r' ∧
    conn_ok m (header r') ∧ header r' = set_pos (header r) (b_pos (header r')) ∧ lowcase_ok (lowcase_index r') r' ∧
    (code = 1 → header_ready m r' ∧ b_pos (header r') = b_last (header r)) ∧
    (code = 0 → header_ready m r' ∧ header_slices (b_start (header r)) (b_pos (header r')) r' ∧
       b_pos (header r) < b_pos (header r')).
Proof.
  intros Hr Hs. destruct (parse_header_ready m r Hr) as (code & r' & E & Hc & H1' & H0' & Hp').
  destruct Hr as [Hb (st & Hst & Hi)]. destruct (buffer_bytes _ _ Hb) as (l & Hlast & Hby).
  pose proof E as E'. rewrite (parse_header_run m r l st) in E' by done.
  destruct (header_run _ _ _ _ r l) as [x| |] eqn:Ex; try done. cres_simpl. injection E' as E'.
  assert (Hk : header_kept r' = header_kept r).
  { rewrite <-(header_run_kept _ _ _ _ _ _ _ Ex). by destruct x; injection E' as <- <-. }
  assert (Hh : ∃ p, header r' = set_pos (header r) p ∧ b_pos (header r) ≤ p ≤ b_last (header r)).
  { destruct (decide (code = 1)) as [->|]; [destruct (H1' eq_refl) as [_ ->]; exists (b_last (header r)); destruct Hb; split; [done | lia]|].
    destruct (decide (code = 0 ∨ code = 100)) as [Hd|]; [destruct (Hp' Hd) as (p & -> & ?); exists p; split; [done | lia]|].
    pose proof (header_run_keeps_header _ _ _ _ _ _ _ Ex) as Hk'.
    destruct x; cbn [header_return hexit_request] in *; injection E' as <- <-; try lia.
    exists (b_pos (header r)). rewrite Hk'. destruct Hb. split; [by destruct (header r) | lia]. }
  assert (Hlow : lowcase_ok (lowcase_index r') r').
  { destruct (decide (code = 1)) as [->|]; [destruct (H1' eq_refl) as [[_ (? & _ & ? & _)] _]; done|].
    destruct (decide (code = 0)) as [->|]; [destruct (H0' eq_refl) as [[_ (? & _ & ? & _)] _]; done|].
    destruct (header_run_lowcase _ _ _ _ _ _ _ Ex) as [Hlen Hix]. destruct Hi as [[Hi1 Hi2] _].
    destruct x; cbn [header_return hexit_request] in *; injection E' as <- <-; try done; unfold lowcase_ok; req_simpl; rewrite Hlen, Hix; done. }
  destruct Hh as (p & Hp & Hr). exists code, r'. unfold header_kept in Hk.
  split; [done|]. split; [unfold same_conn; rewrite Hp; cbn; split_and!; congruence|].
  split; [rewrite Hp; split; [by apply buffer_ok_pos | done]|]. split; [by rewrite Hp|]. split; [done|]. split.
  - intros Hc1. destruct (H1' Hc1) as [? Hh]. split; [done|]. by rewrite Hh.
  - intros Hc0. destruct (H0' Hc0) as (? & _ & ?). destruct (Hp' (or_introl Hc0)) as (q & Hq & ?).
    split_and!; [done | done|]. rewrite Hq. cbn. lia.
Qed.

(** What the header stage expects of a registered handler: started on a complete header
    line it returns a request that parsing can go on with.  [ub] says whether undefined
    behaviour is possible in it, and [J] is kept. *)
Definition handler_ok (ub : Prop) (J : gmap Z Z → buffer → net → Prop) (f : header_handler) : Prop :=
  ∀ m r w, header_ready m r → header_slices (b_start (header r)) (b_pos (header r)) r → J m (header r) w →
  match f m r with
  | Ok (ret, m', r') => header_ready m' r' ∧ header r' = header r ∧ fd r' = fd r ∧ J m' (header r) w
  | Ub => ub
  | Fuel => False
  end.

(** The table leads to handlers of that kind. *)
Definition config_ok (ub : Prop) (J : gmap Z Z → buffer → net → Prop) (cfg : config (net:=net) (heap:=heap) (table:=table)) : Prop :=
  ∃ t, km_rep (cfg_heap cfg) (cfg_ht cfg) t ∧
    ∀ k p, t !! k = Some p → p ≠ NULL →
      ∃ h, cfg_handlers cfg !! p = Some h ∧ ∀ f, hh_handler h = Some f → handler_ok ub J f.

Lemma handle_header_ok ub J cfg m r (w : net) :
  config_ok ub J cfg → header_ready m r → header_slices (b_start (header r)) (b_pos (header r)) r → J m (header r) w →
  match handle_http_request_header cfg m r with
  | Ok (ret, m', r') => header_ready m' r' ∧ header r' = header r ∧ fd r' = fd r ∧ J m' (header r) w
  | Ub => ub
  | Fuel => False
  end.
Proof.
  intros (t & Ht & Hh) Hr Hsl HJ. unfold handle_http_request_header.
  destruct (invalid_header r =? 0); cbn [negb]; [|done].
  rewrite (km_find_law _ _ _ (header_hash r) Ht). cres_simpl.
  destruct (t !! header_hash r) as [p|] eqn:Et; cbn [default]; [|done].
  destruct (p =? NULL) eqn:Ep; cbn; rewrite ?Ep; [done|]. apply Z.eqb_neq in Ep.
  destruct (Hh _ _ Et Ep) as (h & -> & Hf). cres_simpl.
  destruct (hh_handler h) as [f|] eqn:Ef; [|done]. by apply Hf.
Qed.

Lemma header_ready_recv m r m' b' :
  header_ready m r → conn_ok m' b' → b' = set_last (header r) (b_last b') → header_ready m' (set_header r b').
Proof.
  intros [_ (st & Hst & Hi)] [Hb _] E. split; [done|]. exists st. split; [done|]. req_simpl.
  rewrite E. exact Hi.
Qed.

Lemma request_header_ok ub J cfg fuel m r (w : net) :
  stream_inv J → config_ok ub J cfg → J m (header r) w → header_ready m r → b_end (header r) - b_start (header r) < 2 ^ 31 →
  (Z.to_nat (b_end (header r) - b_last (header r) + (b_end (header r) - b_pos (header r))) < fuel)%nat →
  match request_header_loop cfg fuel m r w with
  | Ok (ret, m', r', w') => receives (fd r) w w' ∧ same_conn r r' ∧ conn_ok m' (header r') ∧ J m' (header r') w' ∧ lowcase_ok (lowcase_index r') r'
  | Ub => ub
  | Fuel => False
  end.
Proof.
  intros HJ Hcfg. revert m r w. induction fuel as [|fuel IH]; intros m r w HJ0 Hr Hs Hf; [lia|]. cbn [request_header_loop].
  destruct (parse_header_conn m r Hr Hs) as (code & r1 & -> & Hsc1 & Hc1 & Hl1 & Hlow1 & H1' & H0'). cres_simpl.
  assert (HJ1 : J m (header r1) w) by (rewrite Hl1; by apply (si_pos _ HJ)).
  assert (Hl1' : b_last (header r1) = b_last (header r)) by (by rewrite Hl1).
  pose proof Hr as [(? & ? & ? & ? & _) _]. pose proof Hsc1 as (Hfd1 & Hst1 & Hen1).
  destruct (code =? 0) eqn:E0; [|destruct (code =? 1) eqn:E1; [|destruct (code =? 100)]].
  - apply Z.eqb_eq in E0. destruct (H0' E0) as (Hr1 & Hsl1 & Hp1).
    rewrite <-Hst1 in Hsl1. pose proof (handle_header_ok ub J cfg m r1 w Hcfg Hr1 Hsl1 HJ1) as Hh.
    destruct (handle_http_request_header cfg m r1) as [[[ret m2] r2]| |]; try done. cres_simpl.
    destruct Hh as (Hr2 & Hh2 & Hfd2 & HJ2). rewrite <-Hh2 in HJ2. assert (Hsc2 : same_conn r r2) by (split_and!; congruence).
    destruct (ret =? 0); cbn [negb].
    + assert (Hs2 : b_end (header r2) - b_start (header r2) < 2 ^ 31) by (destruct Hsc2 as (_ & -> & ->); done).
      specialize (IH m2 r2 w HJ2 Hr2 Hs2). rewrite Hh2 in IH. destruct Hc1 as [(? & ? & ? & ? & ?) ?].
      destruct (request_header_loop cfg fuel m2 r2 w) as [[[[ret' m3] r3] w3]| |].
      * destruct IH as (Hw & Hsc & Hc & HJ3 & Hlow3); [lia|]. rewrite Hfd2, Hfd1 in Hw. split; [done|]. split; [by eapply same_conn_trans | done].
      * apply IH. lia.
      * apply IH. lia.
    + split; [by apply rtc_refl|]. split; [done|]. split; [|by destruct Hr2 as [_ (? & _ & ? & _)]]. split; [apply Hr2|]. destruct Hsc2 as (_ & -> & ->). done.
  - apply Z.eqb_eq in E1. destruct (H1' E1) as (Hr1 & Hp1).
    destruct (recv_ok m (fd r1) (header r1) w Hc1) as (ret & m2 & b2 & w2 & Erecv & Hret & Hw2 & Hc2 & _ & _ & Hb2).
    pose proof (si_recv _ HJ _ _ _ _ _ _ _ _ Hc1 HJ1 Erecv) as HJ2. rewrite Erecv. cres_simpl. rewrite Hfd1 in Hw2. destruct (ret =? 0); cbn [negb].
    + destruct Hb2 as [Eb2 Hl2]. pose proof (header_ready_recv _ _ _ _ Hr1 Hc2 Eb2) as Hr2.
      assert (Hsc2 : same_conn r (set_header r1 b2)) by (rewrite Eb2; exact Hsc1).
      assert (Hs2 : b_end (header (set_header r1 b2)) - b_start (header (set_header r1 b2)) < 2 ^ 31)
        by (destruct Hsc2 as (_ & -> & ->); done).
      specialize (IH m2 (set_header r1 b2) w2 HJ2 Hr2 Hs2). change (header (set_header r1 b2)) with b2 in IH.
      change (fd (set_header r1 b2)) with (fd r1) in IH. rewrite Hfd1 in IH.
      assert (Hm : (Z.to_nat (b_end b2 - b_last b2 + (b_end b2 - b_pos b2)) < fuel)%nat).
      { rewrite Eb2. cbn [b_end b_pos b_last set_last]. rewrite Hp1, Hen1. destruct Hc2 as [(? & ? & ? & ? & ?) ?].
        rewrite Eb2 in *. cbn in *. lia. }
      destruct (request_header_loop cfg fuel m2 _ w2) as [[[[ret' m3] r3] w3]| |]; try (by apply IH).
      destruct (IH Hm) as (Hw & Hsc & Hc & HJ3 & Hlow3). split; [by etrans|]. split; [by eapply same_conn_trans | done].
    + subst b2. rewrite set_header_id. done.
  - split; [by apply rtc_refl | done].
  - split; [by apply rtc_refl | done].
Qed.

(** ** The body *)

Lemma request_body_ok J fuel m r (w : net) :
  stream_inv J → J m (header r) w → conn_ok m (header r) → (room (header r) < fuel)%nat →
  ∃ ret m' r' w', request_body_loop fuel m r w = Ok (ret, m', r', w') ∧ -1 ≤ ret ≤ 0 ∧
    receives (fd r) w w' ∧ same_conn r r' ∧ conn_ok m' (header r') ∧ line_kept r' = line_kept r ∧ J m' (header r') w' ∧
    b_pos (header r') = b_pos (header r) ∧ b_last (header r) ≤ b_last (header r') ∧
    (ret = 0 → content r' = Str (b_pos (header r)) (content_len r) ∧
       b_last (header r') = b_pos (header r) + content_len r).
Proof.
  intros HJ. revert m r w. induction fuel as [|fuel IH]; intros m r w HJ0 Hc Hf; [lia|]. cbn [request_body_loop].
  destruct (_ =? content_len r) eqn:E; cbn [negb].
  { eexists _, _, _, _. split; [done|]. split_and!; try done; try lia. intros _. split; [done|]. cbn. blia. }
  destruct (recv_ok m (fd r) (header r) w Hc) as (ret & m1 & b1 & w1 & Erecv & Hret & Hw1 & Hc1 & _ & _ & Hb1).
  pose proof (si_recv _ HJ _ _ _ _ _ _ _ _ Hc HJ0 Erecv) as HJ1. rewrite Erecv. cres_simpl.
  destruct (ret =? 0) eqn:E0; cbn [negb].
  - destruct Hb1 as [Eb1 Hl1]. destruct (IH m1 (set_header r b1) w1) as (ret' & m' & r' & w' & -> & Hret' & Hw' & Hsc & Hc' & Hk & HJ' & Hp & Hle & H0').
    + done.
    + done.
    + unfold room in *. req_simpl. rewrite Eb1. cbn [b_end b_last set_last]. lia.
    + eexists _, _, _, _. split; [done|]. req_simpl. rewrite Eb1 in Hp, H0'. cbn [b_pos set_last] in *.
      split_and!; try done; try (cbn in Hle; lia); try (by etrans).
      destruct Hsc as (? & ? & ?). req_simpl. rewrite Eb1 in *. done.
  - subst b1. rewrite set_header_id. eexists _, _, _, _. split; [done|]. split_and!; try done; lia.
Qed.

End Facts.
