(* ===== verification/FirstHeader.v ===== *)
(** A request object whose [lowcase_index] was never set.

    [http_request_handler] of [src/http/request.c] leaves [lowcase_index] as it finds it, and
    [http_parse_request_header] stores at that index when a header name does not start with a
    letter, a digit or a hyphen.  A client whose first header starts with one of these sets
    the index before it is used: this file follows the byte after the request line through the
    two parsers. *)

From stdpp Require Import base gmap list numbers strings sets.
From Stdlib Require Import ZArith Lia.
From S2P Require Import Prelude CStr RequestTypes ParseLine ParseLineRun ParseLineSafety.
From S2P Require Import ParseLineFacts ParseHeader ParseHeaderFacts ParseHeaderProps.
From S2P Require Import HashTableSpec Net Response Request RequestFacts.

(** ** The byte after the request line *)

Definition is_crlf (c : Z) : bool := (c =? CR) || (c =? LF).

(** The start of a header line that sets the index, or of the empty line that ends the headers. *)
Definition name_start (c : Z) : bool := is_crlf c || negb (low c =? 0).

Fixpoint after_lf (l : list Z) : list Z :=
  match l with
  | [] => []
  | c :: l => if c =? LF then l else after_lf l
  end.

(** What follows the first line that is not empty. *)
Fixpoint after_first_line (l : list Z) : list Z :=
  match l with
  | [] => []
  | c :: l => if is_crlf c then after_first_line l else after_lf l
  end.

(** The first header line, as far as there is one, starts well. *)
Definition plain_start (l : list Z) : bool :=
  match after_first_line l with c :: _ => name_start c | [] => true end.

(** What will follow the request line when the parser is in state [st] and [l] is to be parsed. *)
Definition rest_in (st : line_state) (l : list Z) : list Z :=
  if decide (st = S_start) then after_first_line l else after_lf l.

(** A line feed ends the line in every state but the first, and nothing else does. *)
Lemma line_switch_lf m st p r :
  st ≠ S_start → match line_switch m st p LF r with Next _ _ | Again _ _ => False | _ => True end.
Proof. intros Hs. by destruct st; try done; line_cases. Qed.

Lemma line_switch_done m st p ch r r' : line_switch m st p ch r = Done r' → st ≠ S_start ∧ ch = LF.
Proof. destruct st; line_cases; intros; simplify_eq; split; try done; by apply Z.eqb_eq. Qed.

Lemma line_switch_inside m st p ch r st' r' :
  line_switch m st p ch r = Next st' r' ∨ line_switch m st p ch r = Again st' r' → st' = S_start → st = S_start ∧ is_crlf ch = true.
Proof. destruct st; line_cases; intros [? | ?] ?; simplify_eq; done. Qed.

Lemma rest_in_inside st l : st ≠ S_start → rest_in st l = after_lf l.
Proof. unfold rest_in. by destruct (decide _). Qed.

Lemma consume_done m st p ch r r' l : consume m st p ch r = Done r' → rest_in st (ch :: l) = l.
Proof.
  intros E. assert (st ≠ S_start ∧ ch = LF) as [Hs ->]; [|by rewrite rest_in_inside].
  unfold consume in E. destruct (line_switch m st p ch r) as [|st1 r1| | |] eqn:E1; try done.
  - apply line_switch_done in E as [_ ->]. split; [|done]. intros ->. by apply line_switch_again in E1 as [[? _] | [? _]].
  - by eapply line_switch_done.
Qed.

Lemma consume_next m st p ch r st' r' l : consume m st p ch r = Next st' r' → rest_in st (ch :: l) = rest_in st' l.
Proof.
  intros E. destruct (decide (st = S_start)) as [->|Hs].
  - unfold consume in E. cbn [line_switch] in E. unfold line_start in E. unfold rest_in. rewrite decide_True by done. cbn [after_first_line].
    unfold is_crlf. destruct ((ch =? CR) || (ch =? LF)) eqn:Ec; [injection E as <- _; by rewrite decide_True|].
    destruct (negb (is_upper_ ch)); [done|]. injection E as <- _. by rewrite decide_False.
  - assert ((ch =? LF) = false ∧ st' ≠ S_start) as [Hlf Hs'].
    { unfold consume in E. pose proof (line_switch_lf m st p r Hs) as Hx. split.
      - destruct (Z.eqb_spec ch LF) as [->|]; [|done]. by destruct (line_switch m st p LF r).
      - intros ->. destruct (line_switch m st p ch r) as [|st1 r1| | |] eqn:E1; simplify_eq.
        + by destruct (line_switch_inside m st p ch r S_start r') as [? _]; [left| |].
        + destruct (line_switch_inside m st1 p ch r1 S_start r') as [-> _]; [by left | done|].
          by destruct (line_switch_inside m st p ch r S_start r1) as [? _]; [right| |]. }
    rewrite !rest_in_inside by done. cbn [after_lf]. by rewrite Hlf.
Qed.

(** Over the bytes of one call. *)
Lemma line_run_rest m l : ∀ st p r x,
  line_run m st p r l = Ok x →
  match x with
  | More _ st' _ => ∀ l', rest_in st (l ++ l') = rest_in st' l'
  | Finished p' _ => ∀ l', rest_in st (l ++ l') = drop (Z.to_nat (p' + 1 - p)) (l ++ l')
  | Failed _ _ => True
  end.
Proof.
  induction l as [|ch l IH]; intros st p r x; cbn [line_run]; [by intros [= <-]|].
  destruct (consume m st p ch r) as [st1 r1| | |r1|] eqn:E; try done.
  - intros Ex. pose proof (IH _ _ _ _ Ex) as Hx. destruct x as [p' st' r'| |p' r']; [|done|]; intros l'; cbn [app].
    + by rewrite (consume_next _ _ _ _ _ _ _ _ E).
    + rewrite (consume_next _ _ _ _ _ _ _ _ E), Hx. apply line_run_finished in Ex as (l1 & ? & ? & ? & ? & _ & -> & _).
      replace (Z.to_nat (p + 1 + Z.of_nat (length l1) + 1 - p)) with (S (Z.to_nat (p + 1 + Z.of_nat (length l1) + 1 - (p + 1)))) by lia. done.
  - by intros [= <-].
  - intros [= <-] l'. cbn [app]. rewrite (consume_done _ _ _ _ _ _ _ E). by replace (Z.to_nat (p + 1 - p)) with 1%nat by lia.
Qed.

(** ** The stream of a client *)

Section Streams.
  Context {net : Type} `{NetworkLaws net} `{!Streamed net}.
  #[local] Set Default Proof Using "Type*".

(** The [j]-th byte of the stream: received already, or still to come. *)
Definition stream_byte (m : gmap Z Z) (b : buffer) (w : net) (j : nat) : option Z :=
  if Z.of_nat j <? b_last b - b_start b then m !! (b_start b + Z.of_nat j)
  else to_come w !! (j - Z.to_nat (b_last b - b_start b))%nat.

(** Receiving moves bytes from the network to the buffer; the stream is the same. *)
Lemma stream_byte_recv m f b (w : net) ret m' b' w' :
  conn_ok m b → recv_http_request m f b w = Ok (ret, m', b', w') →
  ∀ j, stream_byte m' b' w' j = stream_byte m b w j.
Proof.
  intros [(Hb1 & Hb2 & Hb3 & Hb4 & Hm) Hs] E j. unfold recv_http_request in E.
  destruct (b_last b =? b_end b) eqn:Ee; [by injection E as <- <- <- <-|]. apply Z.eqb_neq in Ee.
  destruct (net_recv f (b_end b - b_last b) w) as [r w1] eqn:Er.
  pose proof (to_come_recv f (b_end b - b_last b) w r w1 ltac:(lia) Er) as Hcat. destruct r as [l|e]; cbn [bytes_of app] in Hcat.
  2: { destruct (e =? ETIME); injection E as <- <- <- <-; unfold stream_byte; by rewrite Hcat. }
  pose proof (net_recv_law f (b_end b - b_last b) w l w1 ltac:(lia) Er) as Hlen.
  destruct (memcpy_ok m (b_last b) l) as (m1 & Em & Hby & Hfr & _). { intros x Hx. apply Hm. lia. }
  rewrite Em in E. cres_simpl. rewrite i32_id in E by lia. rewrite (proj2 (Z.ltb_ge _ _)) in E by lia.
  unfold stream_byte. rewrite Hcat.
  destruct (Z.of_nat (length l) =? 0) eqn:E0; injection E as <- <- <- <-; cbn [b_last b_start set_last].
  - destruct l; [|done]. destruct (Z.of_nat j <? b_last b - b_start b) eqn:Ej; [|done].
    apply Hfr. cbn [length]. blia.
  - destruct (Z.of_nat j <? b_last b - b_start b) eqn:Ej.
    + rewrite (proj2 (Z.ltb_lt _ _)) by blia. apply Hfr. blia.
    + destruct (Z.of_nat j <? b_last b + Z.of_nat (length l) - b_start b) eqn:Ej'.
      * assert (Hj : (j - Z.to_nat (b_last b - b_start b) < length l)%nat) by blia.
        rewrite lookup_app_l by done. destruct (lookup_lt_is_Some_2 _ _ Hj) as [x Hx]. rewrite Hx.
        rewrite <-(bytes_at_lookup _ _ _ _ _ Hby Hx). f_equal. blia.
      * rewrite lookup_app_r by blia. f_equal. blia.
Qed.

(** The stream is the list [s]. *)
Definition stream_is (s : list Z) (m : gmap Z Z) (b : buffer) (w : net) : Prop := ∀ j, stream_byte m b w j = s !! j.

Definition parsed (b : buffer) : nat := Z.to_nat (b_pos b - b_start b).

Lemma stream_is_empty m b (w : net) : b_last b = b_start b → stream_is (to_come w) m b w.
Proof. intros E j. unfold stream_byte. rewrite E, Z.sub_diag. rewrite (proj2 (Z.ltb_ge _ _)) by lia. by rewrite Nat.sub_0_r. Qed.

Lemma stream_is_pos s m b p (w : net) : stream_is s m b w → stream_is s m (set_pos b p) w.
Proof. done. Qed.

(** What is left of it: the received bytes that are not parsed, and the rest. *)
Lemma stream_left s m b (w : net) l :
  buffer_ok m b → b_last b = b_pos b + Z.of_nat (length l) → bytes_at m (b_pos b) l → stream_is s m b w →
  drop (parsed b) s = l ++ to_come w.
Proof.
  intros (Hb1 & Hb2 & Hb3 & Hb4 & _) Hl Hby Hs. unfold parsed. apply list_eq. intros i. rewrite lookup_drop, <-(Hs _). unfold stream_byte.
  destruct (Z.ltb_spec (Z.of_nat (Z.to_nat (b_pos b - b_start b) + i)) (b_last b - b_start b)) as [Hlt|Hge].
  - rewrite lookup_app_l by lia. destruct (lookup_lt_is_Some_2 l i) as [x Hx]; [lia|]. rewrite Hx.
    rewrite <-(bytes_at_lookup _ _ _ _ _ Hby Hx). f_equal. lia.
  - rewrite lookup_app_r by lia. f_equal. lia.
Qed.

(** ** The request line *)

Definition line_at (s : list Z) (r : http_request) : Prop :=
  ∃ st, line_state_of (state r) = Some st ∧ after_first_line s = rest_in st (drop (parsed (header r)) s).

Lemma parse_line_rest s m r (w : net) code r' :
  buffer_ok m (header r) → stream_is s m (header r) w → line_at s r → http_parse_request_line m r = Ok (code, r') →
  (code = 1 → line_at s r') ∧ (code = 0 → after_first_line s = drop (parsed (header r')) s).
Proof.
  intros Hb Hs (st & Hst & Ha) E. destruct (buffer_bytes _ _ Hb) as (l & Hlast & Hby).
  rewrite (parse_line_run m r l st) in E by done.
  destruct (line_run m st (b_pos (header r)) r l) as [x| |] eqn:Ex; try done. cres_simpl. injection E as E.
  pose proof (stream_left s m (header r) w l Hb Hlast Hby Hs) as Hleft. rewrite Hleft in Ha.
  pose proof (line_run_rest _ _ _ _ _ _ Ex) as Hx. pose proof (line_run_keeps_header _ _ _ _ _ _ Ex) as Hh.
  assert (Hd : ∀ p', b_pos (header r) ≤ p' → drop (parsed (set_pos (header r) p')) s = drop (Z.to_nat (p' - b_pos (header r))) (l ++ to_come w)).
  { intros p' Hp'. rewrite <-Hleft, drop_drop. f_equal. unfold parsed. cbn [b_pos b_start set_pos]. destruct Hb. lia. }
  destruct x as [p' st' r1|c r1|p' r1]; cbn [line_return exit_request] in *.
  - injection E as <- <-. split; [|done]. intros _. exists st'. split; [apply line_state_of_code|]. req_simpl.
    apply line_run_more in Ex as ->. rewrite Hh, Hd by lia. replace (Z.to_nat _) with (length l) by lia. by rewrite drop_app_length, Ha.
  - injection E as <- <-. pose proof (line_run_fail_neg _ _ _ _ _ _ _ Ex). lia.
  - pose proof (line_done_request p' r1) as (Hh' & _). pose proof (line_done_code p' r1) as Hc. rewrite E in Hh', Hc. cbn [fst snd] in *.
    split; [lia|]. intros _. rewrite Hh', Hh. apply line_run_finished in Ex as (l1 & ? & ? & ? & ? & _ & -> & _). rewrite Hd by lia. by rewrite Ha, Hx.
Qed.

Lemma request_line_rest s fuel : ∀ m r (w : net) m' r' w',
  line_ready m r → b_end (header r) - b_start (header r) < 2 ^ 31 → stream_is s m (header r) w → line_at s r →
  request_line_loop fuel m r w = Ok (0, m', r', w') →
  stream_is s m' (header r') w' ∧ after_first_line s = drop (parsed (header r')) s.
Proof.
  induction fuel as [|fuel IH]; intros m r w m' r' w' Hr Hsz Hs Ha; cbn [request_line_loop]; [done|].
  assert (Hc0 : conn_ok m (header r)) by (split; [apply Hr | done]).
  destruct (recv_ok m (fd r) (header r) w Hc0) as (ret & m1 & b1 & w1 & Erecv & _ & _ & Hc1 & _ & _ & Hb1). rewrite Erecv. cres_simpl.
  destruct (ret =? 0); cbn [negb]; [|done]. destruct Hb1 as [Eb1 _].
  pose proof (line_ready_recv _ _ _ _ Hr Hc1 Eb1) as Hr1.
  assert (Hs1 : stream_is s m1 b1 w1) by (intros j; rewrite <-(Hs j); by eapply stream_byte_recv).
  assert (Ha1 : line_at s (set_header r b1)). { destruct Ha as (st & ? & ?). exists st. split; [done|]. req_simpl. by rewrite Eb1. }
  assert (Hz1 : b_end b1 - b_start b1 < 2 ^ 31) by apply Hc1.
  destruct (parse_line_conn m1 (set_header r b1) Hr1 Hz1) as (code & r2 & Ep & _ & _ & Hc2 & _ & Hl2 & H1' & _).
  destruct (parse_line_rest s m1 (set_header r b1) w1 code r2 (proj1 Hc1) Hs1 Ha1 Ep) as [Hmore Hdone]. rewrite Ep. cres_simpl.
  assert (Hs2 : stream_is s m1 (header r2) w1) by (rewrite Hl2; by apply stream_is_pos).
  destruct (code =? 0) eqn:E0; [|destruct (0 <? code) eqn:E1; [|done]].
  - intros [= <- <- <-]. split; [done|]. apply Hdone. blia.
  - destruct (decide (code = 1)) as [->|]; [|destruct (parse_line_ready m1 (set_header r b1) Hr1) as (c & ? & E & Hc & _); rewrite Ep in E; injection E as <- _; blia].
    apply IH; [by apply H1' | apply Hc2 | done | by apply Hmore].
Qed.

End Streams.

(** ** The header parser before the index is set *)

#[export] Instance set_lowcase_index_hindependent j : HIndependent (λ r, set_lowcase_index r j).
Proof. solve_hindependent. Qed.

(** The two states in which the index is neither read nor replaced by a byte that starts well. *)
Definition waiting_state (st : header_state) (l : list Z) : Prop :=
  (st = H_start ∧ ∀ c, head l = Some c → name_start c = true) ∨ st = H_header_almost_done.

(** The index makes no difference, unless the call ends in such a state again. *)
Lemma header_run_index p st hash i j r l :
  waiting_state st l →
  header_run p st hash i r l = header_run p st hash j r l ∨
  ∃ p' st' r', header_run p st hash j r l = Ok (HMore p' st' hash j r') ∧ header_run p st hash i r l = Ok (HMore p' st' hash i r') ∧
    (st' = H_header_almost_done ∨ st' = H_start ∧ l = []).
Proof.
  assert (Had : ∀ p r l, header_run p H_header_almost_done hash i r l = header_run p H_header_almost_done hash j r l ∨
    ∃ p' st' r', header_run p H_header_almost_done hash j r l = Ok (HMore p' st' hash j r') ∧
      header_run p H_header_almost_done hash i r l = Ok (HMore p' st' hash i r') ∧ st' = H_header_almost_done).
  { intros p0 r0 [|c l0]; cbn [header_run header_switch]; [right; by eexists _, _, _|left]. unfold header_header_almost_done. by destruct (c =? LF). }
  intros [[-> Hc] | ->].
  2: { destruct (Had p r l) as [?|(p' & st' & r' & ? & ? & ?)]; [by left | right; exists p', st', r'; auto]. }
  destruct l as [|c l]; cbn [header_run header_switch]; [right; eexists _, _, _; by auto|]. specialize (Hc c eq_refl).
  unfold name_start, is_crlf in Hc. unfold header_start. destruct (c =? CR); [|destruct (c =? LF); [by left|]].
  - destruct (Had (p + 1) (set_header_name (set_invalid_header (set_header_name r (set_sp (header_name r) p)) 0)
      (until (header_name (set_invalid_header (set_header_name r (set_sp (header_name r) p)) 0)) p)) l) as [?|(p' & st' & r' & ? & ? & ?)];
      [by left | right; exists p', st', r'; auto].
  - cbn [orb] in Hc. rewrite Hc. by left.
Qed.

Section Header.
  Context {net : Type} `{NetworkLaws net} `{!Streamed net} {heap table : Type} `{KeyMapLaws heap table}.
  #[local] Set Default Proof Using "Type*".

(** A request that is ready but for the index, in one of the two states. *)
Definition unset_ready (m : gmap Z Z) (r : http_request) (w : net) : Prop :=
  header_ready m (set_lowcase_index r 0) ∧
  (state r = header_code H_start ∧ (∀ c, stream_byte m (header r) w (parsed (header r)) = Some c → name_start c = true) ∨
   state r = header_code H_header_almost_done).

Lemma unset_waiting m r (w : net) l :
  unset_ready m r w → b_last (header r) = b_pos (header r) + Z.of_nat (length l) → bytes_at m (b_pos (header r)) l →
  ∃ st, header_state_of (state r) = Some st ∧ waiting_state st l.
Proof.
  intros [[Hb _] Hst] Hl Hby. destruct Hst as [[E Hc]|E]; rewrite E, header_state_of_code; eexists; (split; [done|]); [left | by right].
  split; [done|]. intros c Hh. destruct l as [|c' l]; [done|]. injection Hh as ->. apply Hc. unfold stream_byte, parsed.
  req_simpl. destruct Hb as (? & ? & ? & ? & _). req_simpl. rewrite (proj2 (Z.ltb_lt _ _)) by (cbn [length] in Hl; lia).
  rewrite Z2Nat.id by lia. replace (_ + (_ - _)) with (b_pos (header r)) by lia. apply Hby.
Qed.

(** One call: the result of a call with a valid index, but for the index while that is not set. *)
Lemma parse_header_index m r (w : net) code r1 :
  unset_ready m r w → http_parse_request_header m (set_lowcase_index r 0) = Ok (code, r1) →
  ∃ r', http_parse_request_header m r = Ok (code, r') ∧
    (r' = r1 ∨ set_lowcase_index r' 0 = r1 ∧ code ≠ 0 ∧
       (code = 1 → state r' = header_code H_header_almost_done ∨ state r' = header_code H_start ∧ header r' = header r ∧ state r = header_code H_start)).
Proof.
  intros Hu E. pose proof Hu as [[Hb _] _]. change (header (set_lowcase_index r 0)) with (header r) in Hb.
  destruct (buffer_bytes _ _ Hb) as (l & Hlast & Hby). destruct (unset_waiting m r w l Hu Hlast Hby) as (st & Hst & Hwait).
  rewrite (parse_header_run m (set_lowcase_index r 0) l st) in E by done. rewrite (parse_header_run m r l st) by done. req_simpl.
  rewrite (header_run_independent (λ r, set_lowcase_index r 0)) in E.
  destruct (header_run_index (b_pos (header r)) st (header_hash r) (lowcase_index r) 0 r l Hwait) as [->|(p' & st' & r' & Ej & Ei & Hst')].
  - destruct (header_run _ st _ 0 r l) as [x| |] eqn:Ex; try done. cres_simpl. injection E as E. destruct x as [p' st' h' i' r'|c r'|p' h' i' r'|p' r'];
      cbn [map_hexit header_return] in *; injection E as <- <-; eexists; (split; [done|]).
    1,3: left; by destruct r'.
    + right. split; [done|]. apply header_run_fail in Ex. lia.
    + right. split; [by destruct r' | lia].
  - rewrite Ei. rewrite Ej in E. cres_simpl. cbn [map_hexit header_return] in E. injection E as <- <-. eexists. split; [done|]. right.
    split; [by destruct r'|]. split; [done|]. intros _. destruct Hst' as [-> | [-> ->]]; [by left|right].
    cbn [header_run] in Ei. injection Ei as <- -> <-. unfold save_locals. req_simpl. split; [done|]. split; [by destruct (header r)|].
    destruct Hu as [_ [[? _]|Hs]]; [done|]. rewrite Hs in Hst. done.
Qed.

Lemma parse_header_unset m r (w : net) :
  unset_ready m r w → b_end (header r) - b_start (header r) < 2 ^ 31 →
  ∃ code r', http_parse_request_header m r = Ok (code, r') ∧ same_conn r r' ∧
    conn_ok m (header r') ∧ header r' = set_pos (header r) (b_pos (header r')) ∧ length (lowcase_header r') = Z.to_nat HTTP_LC_HEADER_LEN ∧
    (code = 1 → (header_ready m r' ∨ unset_ready m r' w) ∧ b_pos (header r') = b_last (header r)) ∧
    (code = 0 → header_ready m r' ∧ header_slices (b_start (header r)) (b_pos (header r')) r' ∧ b_pos (header r) < b_pos (header r')).
Proof.
  intros Hu Hs. destruct (parse_header_conn m (set_lowcase_index r 0) (proj1 Hu) Hs) as (code & r1 & E & Hsc & Hc & Hl & [_ Hlow] & H1' & H0').
  destruct (parse_header_index m r w code r1 Hu E) as (r' & E' & [-> | (E1 & Hn0 & Hst)]).
  - exists code, r1. split_and!; try done. intros Hc1. destruct (H1' Hc1). auto.
  - subst r1. exists code, r'. split_and!; try done. intros Hc1. destruct (H1' Hc1) as [Hr' Hp]. split; [right|done]. split; [done|].
    destruct (Hst Hc1) as [?|(Hs1 & Hh & Hs0)]; [by right | left]. split; [done|]. rewrite Hh. destruct Hu as [_ [[_ ?]|Hs6]]; [done|]. rewrite Hs0 in Hs6. done.
Qed.

Lemma unset_ready_recv m r (w : net) ret m' b' w' :
  unset_ready m r w → conn_ok m (header r) → conn_ok m' b' → b' = set_last (header r) (b_last b') →
  recv_http_request m (fd r) (header r) w = Ok (ret, m', b', w') → unset_ready m' (set_header r b') w'.
Proof.
  intros [Hr Hst] Hc Hc' Eb Er. split; [exact (header_ready_recv m (set_lowcase_index r 0) m' b' Hr Hc' Eb)|]. req_simpl.
  destruct Hst as [[? Hb]|?]; [left|by right]. split; [done|]. intros c. rewrite (stream_byte_recv _ _ _ _ _ _ _ _ Hc Er).
  replace (parsed b') with (parsed (header r)) by (by rewrite Eb). apply Hb.
Qed.

(** The header lines, from the state after the request line. *)
Lemma request_header_unset ub J cfg fuel m r (w : net) :
  stream_inv J → config_ok ub J cfg → J m (header r) w → unset_ready m r w → b_end (header r) - b_start (header r) < 2 ^ 31 →
  (Z.to_nat (b_end (header r) - b_last (header r) + (b_end (header r) - b_pos (header r))) < fuel)%nat →
  match request_header_loop cfg fuel m r w with
  | Ok (ret, m', r', w') => receives (fd r) w w' ∧ same_conn r r' ∧ conn_ok m' (header r') ∧ J m' (header r') w' ∧
      length (lowcase_header r') = Z.to_nat HTTP_LC_HEADER_LEN
  | Ub => ub
  | Fuel => False
  end.
Proof.
  intros HJ Hcfg. revert m r w. induction fuel as [|fuel IH]; intros m r w HJ0 Hu Hs Hf; [lia|]. cbn [request_header_loop].
  destruct (parse_header_unset m r w Hu Hs) as (code & r1 & -> & Hsc1 & Hc1 & Hl1 & Hlow1 & H1' & H0'). cres_simpl.
  assert (HJ1 : J m (header r1) w) by (rewrite Hl1; by apply (si_pos _ HJ)).
  assert (Hl1' : b_last (header r1) = b_last (header r)) by (by rewrite Hl1).
  pose proof (proj1 Hu) as [(? & ? & ? & ? & _) _]. req_simpl. pose proof Hsc1 as (Hfd1 & Hst1 & Hen1).
  assert (Hgo : ∀ m2 r2 w2, same_conn r r2 → receives (fd r) w w2 → J m2 (header r2) w2 → header_ready m2 r2 ∨ unset_ready m2 r2 w2 →
    (Z.to_nat (b_end (header r2) - b_last (header r2) + (b_end (header r2) - b_pos (header r2))) < fuel)%nat →
    match request_header_loop cfg fuel m2 r2 w2 with
    | Ok (ret, m', r', w') => receives (fd r) w w' ∧ same_conn r r' ∧ conn_ok m' (header r') ∧ J m' (header r') w' ∧
        length (lowcase_header r') = Z.to_nat HTTP_LC_HEADER_LEN
    | Ub => ub | Fuel => False end).
  { intros m2 r2 w2 Hsc2 Hw2 HJ2 Hr2 Hf2. pose proof Hsc2 as (Hfd2 & Hst2 & Hen2).
    assert (Hz2 : b_end (header r2) - b_start (header r2) < 2 ^ 31) by (by rewrite Hst2, Hen2).
    assert (Hk : match request_header_loop cfg fuel m2 r2 w2 with
      | Ok (ret, m', r', w') => receives (fd r2) w2 w' ∧ same_conn r2 r' ∧ conn_ok m' (header r') ∧ J m' (header r') w' ∧
          length (lowcase_header r') = Z.to_nat HTTP_LC_HEADER_LEN
      | Ub => ub | Fuel => False end).
    { destruct Hr2 as [Hr2|Hr2]; [|by apply IH]. pose proof (request_header_ok ub J cfg fuel m2 r2 w2 HJ Hcfg HJ2 Hr2 Hz2 Hf2) as Hk.
      destruct (request_header_loop cfg fuel m2 r2 w2) as [[[[? ?] ?] ?]| |]; try done. destruct Hk as (? & ? & ? & ? & [_ ?]). by split_and!. }
    destruct (request_header_loop cfg fuel m2 r2 w2) as [[[[? ?] ?] ?]| |]; try done. destruct Hk as (Hw & Hsc & ? & ? & ?). rewrite Hfd2 in Hw.
    split; [by etrans|]. split; [by eapply same_conn_trans | done]. }
  destruct (code =? 0) eqn:E0; [|destruct (code =? 1) eqn:E1; [|destruct (code =? 100)]].
  - apply Z.eqb_eq in E0. destruct (H0' E0) as (Hr1 & Hsl1 & Hp1).
    rewrite <-Hst1 in Hsl1. pose proof (handle_header_ok ub J cfg m r1 w Hcfg Hr1 Hsl1 HJ1) as Hh.
    destruct (handle_http_request_header cfg m r1) as [[[ret m2] r2]| |]; try done. cres_simpl.
    destruct Hh as (Hr2 & Hh2 & Hfd2 & HJ2). rewrite <-Hh2 in HJ2. assert (Hsc2 : same_conn r r2) by (split_and!; congruence).
    destruct (ret =? 0); cbn [negb].
    + apply Hgo; [done | by apply rtc_refl | done | by left |]. rewrite Hh2. destruct Hc1 as [(? & ? & ? & ? & ?) ?]. lia.
    + split; [by apply rtc_refl|]. split; [done|]. split; [|split; [done | by destruct Hr2 as [_ (? & _ & [_ ?] & _)]]].
      split; [apply Hr2|]. destruct Hsc2 as (_ & -> & ->). done.
  - apply Z.eqb_eq in E1. destruct (H1' E1) as (Hr1 & Hp1).
    destruct (recv_ok m (fd r1) (header r1) w Hc1) as (ret & m2 & b2 & w2 & Erecv & Hret & Hw2 & Hc2 & _ & _ & Hb2).
    pose proof (si_recv _ HJ _ _ _ _ _ _ _ _ Hc1 HJ1 Erecv) as HJ2. rewrite Erecv. cres_simpl. rewrite Hfd1 in Hw2. destruct (ret =? 0); cbn [negb].
    + destruct Hb2 as [Eb2 Hl2]. apply Hgo; [rewrite Eb2; exact Hsc1 | done | done | |].
      * destruct Hr1 as [Hr1|Hr1]; [left; by eapply header_ready_recv | right; by eapply unset_ready_recv].
      * req_simpl. rewrite Eb2. cbn [b_end b_pos b_last set_last]. rewrite Hp1, Hen1. destruct Hc2 as [(? & ? & ? & ? & ?) ?].
        rewrite Eb2 in *. cbn in *. lia.
    + subst b2. rewrite set_header_id. done.
  - split; [by apply rtc_refl | done].
  - split; [by apply rtc_refl | done].
Qed.

(** The stage from a valid index or a first header that starts well; a valid index stays valid. *)
Definition index_kept (r r' : http_request) : Prop :=
  length (lowcase_header r') = length (lowcase_header r) ∧ (lowcase_ok (lowcase_index r) r → lowcase_ok (lowcase_index r') r').

Lemma header_stage ub J cfg m r (w : net) :
  stream_inv J → config_ok ub J cfg → J m (header r) w → conn_ok m (header r) → state r = 0 →
  length (lowcase_header r) = Z.to_nat HTTP_LC_HEADER_LEN →
  0 ≤ lowcase_index r < HTTP_LC_HEADER_LEN ∨ (∀ c, stream_byte m (header r) w (parsed (header r)) = Some c → name_start c = true) →
  match http_process_request_header cfg m r w with
  | Ok (ret, m', r', w') => receives (fd r) w w' ∧ same_conn r r' ∧ conn_ok m' (header r') ∧ J m' (header r') w' ∧ index_kept r r'
  | Ub => ub
  | Fuel => False
  end.
Proof.
  intros HJ Hcfg HJ0 [Hb Hs] Hst Hlen Hor. unfold http_process_request_header.
  destruct (decide (0 ≤ lowcase_index r < HTTP_LC_HEADER_LEN)) as [Hi|Hi].
  - pose proof (request_header_ok ub J cfg (header_fuel (header r)) m r w HJ Hcfg HJ0 ltac:(by apply fresh_header_ready) Hs ltac:(unfold header_fuel; lia)) as Hh.
    destruct (request_header_loop cfg _ m r w) as [[[[? ?] r'] ?]| |]; try done. destruct Hh as (? & ? & ? & ? & Hl). split_and!; try done.
    split; [|done]. destruct Hl as [_ ->]. done.
  - destruct Hor as [?|Hc]; [done|].
    assert (Hu : unset_ready m r w) by (split; [apply fresh_header_ready; [done | done | by split] | by left]).
    pose proof (request_header_unset ub J cfg (header_fuel (header r)) m r w HJ Hcfg HJ0 Hu Hs ltac:(unfold header_fuel; lia)) as Hh.
    destruct (request_header_loop cfg _ m r w) as [[[[? ?] r'] ?]| |]; try done. destruct Hh as (? & ? & ? & ? & Hl). split_and!; try done.
    split; [by rewrite Hl|]. by intros [? _].
Qed.

End Header.
