(* ===== verification/HostHeader.v ===== *)
(** The Host and Content-Length handlers of [src/http/request.c], on the bytes of the value. *)

From stdpp Require Import base gmap list numbers strings sets.
From Stdlib Require Import ZArith Lia.
From S2P Require Import Prelude CStr RequestTypes ParseLineSafety ParseLineFacts ParseHeader.
From S2P Require Import ParseHeaderFacts HashTableSpec Net Request RequestFacts.

(** ** What the Host value means *)

Fixpoint index_of (c : Z) (l : list Z) : option Z :=
  match l with
  | [] => None
  | d :: l => if d =? c then Some 0 else Z.succ <$> index_of c l
  end.

Definition len (l : list Z) : Z := Z.of_nat (length l).

(** The position of the last dot. *)
Fixpoint last_dot (l : list Z) : option Z :=
  match l with
  | [] => None
  | d :: l =>
    match last_dot l with
    | Some i => Some (i + 1)
    | None => if d =? "."%c then Some 0 else None
    end
  end.

(** The first character that makes the value invalid decides: a NUL or a second dot in a
    row (-1), a slash (-2).  [prev] is the character before [l]. *)
Fixpoint verdict (prev : Z) (l : list Z) : Z :=
  match l with
  | [] => 0
  | c :: l =>
    if c =? 0 then -1
    else if c =? "/"%c then -2
    else if (c =? "."%c) && (prev =? "."%c) then -1
    else verdict c l
  end.

(** The part before the port: an IP literal up to its bracket, or everything up to the
    colon. *)
Definition host_part (l : list Z) : Z :=
  match l with
  | c :: _ =>
    if c =? "["%c then match index_of "]"%c l with Some j => j + 1 | None => len l end
    else default (len l) (index_of ":"%c l)
  | [] => 0
  end.

(** A final dot of the host is not part of its name. *)
Definition host_length (l : list Z) : Z :=
  if bool_decide (last_dot l = Some (host_part l - 1)) then host_part l - 1 else host_part l.

(** ** The loop as a fold *)

Fixpoint host_scan (l : list Z) (i : Z) (st : host_state) (dot_pos host_len : Z) : Z + Z * Z :=
  match l with
  | [] => inr (dot_pos, host_len)
  | ch :: l =>
    if ch =? "."%c then
      if dot_pos =? size_t (i - 1) then inl (-1) else host_scan l (i + 1) st i host_len
    else if ch =? ":"%c then
      if bool_decide (st = sw_usual) then host_scan l (i + 1) sw_rest dot_pos i
      else host_scan l (i + 1) st dot_pos host_len
    else if ch =? "["%c then host_scan l (i + 1) (if i =? 0 then sw_literal else st) dot_pos host_len
    else if ch =? "]"%c then
      if bool_decide (st = sw_literal) then host_scan l (i + 1) sw_rest dot_pos (i + 1)
      else host_scan l (i + 1) st dot_pos host_len
    else if ch =? 0 then inl (-1)
    else if ch =? "/"%c then inl (-2)
    else host_scan l (i + 1) st dot_pos host_len
  end.

Lemma tolower_other c : is_capital c = false → tolower c = c.
Proof. unfold tolower. by intros ->. Qed.

(** Some bytes have become lower case. *)
Definition lowered (m m' : gmap Z Z) : Prop := ∀ x, m' !! x = m !! x ∨ m' !! x = tolower <$> m !! x.

(** The loop computes the fold, and lowers the letters it passes. *)
Lemma host_loop_scan m p i st d h l :
  bytes_at m (p + i) l →
  ∃ m', host_loop (length l) m p i st d h = Ok (m', host_scan l i st d h) ∧
    lowered m m' ∧
    (∀ x, ¬ (p + i ≤ x < p + i + len l) → m' !! x = m !! x) ∧
    match host_scan l i st d h with
    | inr _ => bytes_at m' (p + i) (tolower <$> l)
    | inl _ => True
    end.
Proof.
  revert m i st d h. induction l as [|c l IH]; intros m i st d h Hb; cbn [host_loop host_scan length].
  { exists m. split_and!; try done. by left. }
  destruct Hb as [Hc Hb]. unfold load. rewrite Hc. cres_simpl. rewrite <-Z.add_assoc in Hb.
  assert (Hnext : ∀ m0 st' d' h', (∀ x, x ≠ p + i → m0 !! x = m !! x) →
      m0 !! (p + i) = Some (tolower c) →
      ∃ m', host_loop (length l) m0 p (i + 1) st' d' h' = Ok (m', host_scan l (i + 1) st' d' h') ∧
        lowered m m' ∧ (∀ x, ¬ (p + i ≤ x < p + i + len (c :: l)) → m' !! x = m !! x) ∧
        match host_scan l (i + 1) st' d' h' with inr _ => bytes_at m' (p + i) (tolower <$> c :: l) | inl _ => True end).
  { intros m0 st' d' h' Hf Hv. destruct (IH m0 (i + 1) st' d' h') as (m' & E & Hd' & Hf' & Hby).
    { eapply bytes_at_ext; [|exact Hb]. intros x Hx. apply Hf. lia. }
    exists m'. split_and!; [done | | |].
    - intros x. destruct (decide (x = p + i)) as [->|Hx]; [right; rewrite Hf', Hv, Hc by lia; done|].
      rewrite <-(Hf x Hx). apply Hd'.
    - intros x Hx. rewrite Hf', Hf; [done | |]; unfold len in *; cbn [length] in *; lia.
    - destruct (host_scan l (i + 1) st' d' h'); [done|]. cbn [fmap list_fmap bytes_at].
      rewrite Hf' by lia. rewrite <-Z.add_assoc. done. }
  assert (Hsame : is_capital c = false → ∀ st' d' h',
      ∃ m', host_loop (length l) m p (i + 1) st' d' h' = Ok (m', host_scan l (i + 1) st' d' h') ∧
        lowered m m' ∧ (∀ x, ¬ (p + i ≤ x < p + i + len (c :: l)) → m' !! x = m !! x) ∧
        match host_scan l (i + 1) st' d' h' with inr _ => bytes_at m' (p + i) (tolower <$> c :: l) | inl _ => True end).
  { intros Hcap st' d' h'. apply Hnext; [done |]. by rewrite tolower_other. }
  assert (Hret : ∀ k : Z, ∃ m', Ok (m, inl k) = Ok (m', inl k : Z + Z * Z) ∧
      lowered m m' ∧ (∀ x, ¬ (p + i ≤ x < p + i + len (c :: l)) → m' !! x = m !! x) ∧ True).
  { intros k. exists m. split_and!; try done. by left. }
  destruct (c =? "."%c) eqn:E1.
  { destruct (d =? size_t (i - 1)); [apply Hret | apply Hsame]. unfold is_capital. blia. }
  destruct (c =? ":"%c) eqn:E2.
  { destruct (bool_decide (st = sw_usual)); apply Hsame; unfold is_capital; blia. }
  destruct (c =? "["%c) eqn:E3; [apply Hsame; unfold is_capital; blia|].
  destruct (c =? "]"%c) eqn:E4.
  { destruct (bool_decide (st = sw_literal)); apply Hsame; unfold is_capital; blia. }
  destruct (c =? 0) eqn:E5; [apply Hret|]. destruct (c =? "/"%c) eqn:E6; [apply Hret|].
  destruct (is_capital c) eqn:E7; [|cres_simpl; by apply Hsame].
  rewrite store_ok by eauto. cres_simpl. apply Hnext.
  - intros x Hx. by rewrite lookup_insert_ne.
  - apply lookup_insert_eq.
Qed.

Lemma lowered_mapped m m' x : lowered m m' → is_Some (m' !! x) ↔ is_Some (m !! x).
Proof. intros Hl. destruct (Hl x) as [->| ->]; [done|]. apply fmap_is_Some. Qed.

(** ** What the fold knows after a prefix *)

Lemma len_snoc l c : len (l ++ [c]) = len l + 1.
Proof. unfold len. rewrite length_app. simpl. lia. Qed.

Lemma index_of_snoc c l d :
  index_of c (l ++ [d]) = match index_of c l with Some j => Some j | None => if d =? c then Some (len l) else None end.
Proof.
  induction l as [|e l IH]; [done|]. cbn [app index_of]. destruct (e =? c); [done|]. rewrite IH.
  destruct (index_of c l); [done|]. destruct (d =? c); [|done]. cbn. f_equal. unfold len. cbn [length]. lia.
Qed.

Lemma last_dot_snoc l c : last_dot (l ++ [c]) = if c =? "."%c then Some (len l) else last_dot l.
Proof.
  induction l as [|e l IH]; [done|]. cbn [app last_dot]. rewrite IH. destruct (c =? "."%c); [|done].
  f_equal. unfold len. cbn [length]. lia.
Qed.

Lemma last_dot_bound l i : last_dot l = Some i → 0 ≤ i < len l.
Proof.
  revert i. induction l as [|e l IH]; intros i; cbn [last_dot]; [done|]. unfold len in *. cbn [length].
  destruct (last_dot l) as [j|]; [intros [= <-]; specialize (IH j eq_refl); lia|].
  destruct (e =? "."%c); [intros [= <-]; lia | done].
Qed.

(** The character before the position the fold is at. *)
Definition prev_char (l : list Z) : Z := default 0 (last l).

Lemma last_dot_end l : last_dot l = Some (len l - 1) ↔ prev_char l = "."%c.
Proof.
  destruct l as [|c l _] using rev_ind; [done|]. unfold prev_char. rewrite last_dot_snoc, last_snoc, len_snoc. cbn [default].
  destruct (c =? "."%c) eqn:E.
  - apply Z.eqb_eq in E as ->. split; [done|]. intros _. f_equal. lia.
  - apply Z.eqb_neq in E. split; [|done]. intros Hl%last_dot_bound. lia.
Qed.

(** The state and the length of the host after the prefix [l]; [n] is the length of the
    value. *)
Definition phase (l : list Z) (n : Z) : host_state * Z :=
  match l with
  | [] => (sw_usual, n)
  | c :: _ =>
    if c =? "["%c then match index_of "]"%c l with Some j => (sw_rest, j + 1) | None => (sw_literal, n) end
    else match index_of ":"%c l with Some j => (sw_rest, j) | None => (sw_usual, n) end
  end.

Lemma phase_part l : (phase l (len l)).2 = host_part l.
Proof. destruct l as [|c l]; [done|]. unfold phase, host_part. by destruct (c =? "["%c); case_match. Qed.

Lemma phase_snoc l c n :
  phase (l ++ [c]) n =
  if c =? ":"%c then (if bool_decide ((phase l n).1 = sw_usual) then (sw_rest, len l) else phase l n)
  else if c =? "["%c then ((if len l =? 0 then sw_literal else (phase l n).1), (phase l n).2)
  else if c =? "]"%c then (if bool_decide ((phase l n).1 = sw_literal) then (sw_rest, len l + 1) else phase l n)
  else phase l n.
Proof.
  destruct l as [|e l].
  - cbn [app phase index_of]. destruct (c =? "["%c) eqn:E1; cbn.
    + apply Z.eqb_eq in E1 as ->. done.
    + destruct (c =? ":"%c) eqn:E2; [done|]. by destruct (c =? "]"%c).
  - assert (El : (len (e :: l) =? 0) = false) by (unfold len; cbn [length]; blia). rewrite El.
    cbn [app]. unfold phase. change (e :: l ++ [c]) with ((e :: l) ++ [c]). rewrite !index_of_snoc.
    destruct (e =? "["%c).
    + destruct (index_of "]"%c (e :: l)) as [j|]; cbn [fst snd bool_decide decide_rel].
      * by destruct (c =? ":"%c), (c =? "["%c), (c =? "]"%c).
      * destruct (c =? "]"%c) eqn:E1; [apply Z.eqb_eq in E1 as ->; done|].
        by destruct (c =? ":"%c), (c =? "["%c).
    + destruct (index_of ":"%c (e :: l)) as [j|]; cbn [fst snd].
      * by destruct (c =? ":"%c), (c =? "["%c), (c =? "]"%c).
      * destruct (c =? ":"%c) eqn:E1; [done|]. by destruct (c =? "["%c), (c =? "]"%c).
Qed.

Lemma host_scan_verdict l2 l1 n :
  n = len (l1 ++ l2) → n < 2 ^ 64 - 1 →
  host_scan l2 (len l1) (phase l1 n).1 (default n (last_dot l1)) (phase l1 n).2 =
  if verdict (prev_char l1) l2 =? 0 then inr (default n (last_dot (l1 ++ l2)), (phase (l1 ++ l2) n).2)
  else inl (verdict (prev_char l1) l2).
Proof.
  intros Hn Hb. revert l1 Hn. induction l2 as [|c l2 IH]; intros l1 Hn; cbn [host_scan verdict].
  { by rewrite app_nil_r. }
  assert (Hl : l1 ++ c :: l2 = (l1 ++ [c]) ++ l2) by (by rewrite <-app_assoc). rewrite Hl in Hn |- *.
  assert (Hlen : 0 ≤ len l1 < n) by (rewrite Hn; unfold len; rewrite !length_app; cbn [length]; lia).
  specialize (IH (l1 ++ [c]) Hn). rewrite len_snoc in IH. unfold prev_char in IH at 1 2. rewrite last_snoc in IH. cbn [default] in IH.
  rewrite last_dot_snoc, phase_snoc in IH.
  assert (Hdot : (default n (last_dot l1) =? size_t (len l1 - 1)) = (prev_char l1 =? "."%c)).
  { apply Bool.eq_iff_eq_true. rewrite !Z.eqb_eq, <-last_dot_end.
    destruct (last_dot l1) as [j|] eqn:Ej; cbn.
    - pose proof (last_dot_bound _ _ Ej). rewrite size_t_id by lia. split; [by intros -> | by intros [= ->]].
    - split; [|done]. intros E. exfalso. unfold size_t, u64 in E.
      destruct (decide (len l1 = 0)) as [E0|]; [rewrite E0 in E; vm_compute in E; lia|].
      rewrite Z.mod_small in E; lia. }
  destruct (c =? "."%c) eqn:E1.
  { apply Z.eqb_eq in E1 as ->. cbn [Z.eqb Pos.eqb andb fst snd default] in *. rewrite Hdot.
    destruct (prev_char l1 =? "."%c); [done|]. exact IH. }
  cbn [andb].
  destruct (c =? ":"%c) eqn:E2.
  { apply Z.eqb_eq in E2 as ->. cbn [Z.eqb Pos.eqb]. destruct (bool_decide _); exact IH. }
  destruct (c =? "["%c) eqn:E3; [apply Z.eqb_eq in E3 as ->; exact IH|].
  destruct (c =? "]"%c) eqn:E4.
  { apply Z.eqb_eq in E4 as ->. cbn [Z.eqb Pos.eqb]. destruct (bool_decide _); exact IH. }
  destruct (c =? 0); [done|]. destruct (c =? "/"%c); [done|]. exact IH.
Qed.

Lemma host_scan_spec l :
  len l < 2 ^ 64 - 1 →
  host_scan l 0 sw_usual (len l) (len l) =
  if verdict 0 l =? 0 then inr (default (len l) (last_dot l), host_part l) else inl (verdict 0 l).
Proof. intros Hl. rewrite <-phase_part. by apply (host_scan_verdict l [] (len l)). Qed.

(** ** The handlers *)

(** The code [http_process_host] returns for the value [l]. *)
Definition host_code (l : list Z) : Z :=
  if verdict 0 l =? 0 then (if host_length l =? 0 then -3 else 0) else verdict 0 l.

Lemma index_of_bound c l j : index_of c l = Some j → 0 ≤ j < len l.
Proof.
  revert j. induction l as [|e l IH]; intros j; cbn [index_of]; [done|]. unfold len in *. cbn [length].
  destruct (e =? c); [intros [= <-]; lia|]. intros (i & Hi & ->)%fmap_Some. specialize (IH i Hi). lia.
Qed.

Lemma host_part_bound l : 0 ≤ host_part l ≤ len l.
Proof.
  destruct l as [|c l]; [done|]. unfold host_part. destruct (c =? "["%c).
  - destruct (index_of "]"%c (c :: l)) as [j|] eqn:E; [apply index_of_bound in E; lia | unfold len; lia].
  - destruct (index_of ":"%c (c :: l)) as [j|] eqn:E; cbn; [apply index_of_bound in E; lia | unfold len; cbn [length]; lia].
Qed.

Lemma host_length_bound l : 0 ≤ host_length l ≤ len l.
Proof.
  pose proof (host_part_bound l). unfold host_length. case_bool_decide as Hd; [|done].
  apply last_dot_bound in Hd. lia.
Qed.

Lemma host_length_size_t l :
  len l < 2 ^ 64 - 1 →
  (if default (len l) (last_dot l) =? size_t (host_part l - 1) then size_t (host_part l - 1) else host_part l) = host_length l.
Proof.
  intros Hl. pose proof (host_part_bound l) as Hh. unfold host_length.
  destruct (decide (host_part l = 0)) as [E0|E0].
  - rewrite E0. rewrite bool_decide_eq_false_2 by (intros H%last_dot_bound; lia).
    destruct (last_dot l) as [j|] eqn:Ej; cbn [default from_option id].
    + apply last_dot_bound in Ej. rewrite (proj2 (Z.eqb_neq _ _)); [done|]. vm_compute (size_t _). lia.
    + rewrite (proj2 (Z.eqb_neq _ _)); [done|]. vm_compute (size_t _). unfold len in *. lia.
  - rewrite size_t_id by lia. destruct (last_dot l) as [j|] eqn:Ej; cbn [default from_option id].
    + destruct (j =? host_part l - 1) eqn:E; [apply Z.eqb_eq in E as ->; by rewrite bool_decide_eq_true_2|].
      rewrite bool_decide_eq_false_2; [done|]. intros [= ->]. apply Z.eqb_neq in E. lia.
    + rewrite (proj2 (Z.eqb_neq _ _)) by lia. by rewrite bool_decide_eq_false_2.
Qed.

Lemma process_host_ok m r l :
  holds m (header_value r) l → len l < 2 ^ 64 - 1 →
  ∃ m' r', http_process_host m r = Ok (host_code l, m', r') ∧
    lowered m m' ∧
    (∀ x, ¬ (sp (header_value r) ≤ x < sp (header_value r) + len l) → m' !! x = m !! x) ∧
    (∃ h, r' = set_host r h) ∧
    (host_code l = 0 → holds m' (header_value r) (tolower <$> l) ∧
       host r' = Str (sp (header_value r)) (host_length l)).
Proof.
  intros [Hlen Hb] Hl. unfold http_process_host. req_simpl.
  destruct (host_loop_scan m (sp (header_value r)) 0 sw_usual (len l) (len l) l) as (m' & E & Hd & Hf & Hby).
  { by rewrite Z.add_0_r. }
  rewrite Z.add_0_r in *. replace (Z.to_nat (slen (header_value r))) with (length l) by lia. rewrite Hlen. fold (len l).
  rewrite E. cres_simpl. rewrite host_scan_spec in * by done. unfold host_code.
  destruct (verdict 0 l =? 0) eqn:Ev.
  - rewrite host_length_size_t by done. destruct (host_length l =? 0).
    + eexists _, _. split; [done|]. split_and!; [done | done | by eexists | done].
    + eexists _, _. split; [done|]. split_and!; [done | done | by eexists |].
      intros _. split; [|done]. split; [by rewrite length_fmap | done].
  - eexists _, _. split; [done|]. split_and!; [done | done | by eexists |]. intros E0. apply Z.eqb_neq in Ev. done.
Qed.

(** The value of a complete header line is a string in memory. *)
Lemma header_value_holds m r :
  header_ready m r → header_slices (b_start (header r)) (b_pos (header r)) r →
  ∃ l, holds m (header_value r) l ∧ len l < 2 ^ 64 - 1.
Proof.
  intros [(H1 & H2 & H3 & H4 & Hm) _] [_ [[Hn Hz]|(Hlo & Hz & Hhi)]].
  - exists []. split; [by split | done].
  - destruct (mapped_bytes m (sp (header_value r)) (Z.to_nat (slen (header_value r)))) as (l & Hl & Hb).
    { intros a Ha. apply Hm. lia. }
    exists l. unfold holds, len. split; [split; [lia | done] | lia].
Qed.

Lemma buffer_ok_mapped m m' b : (∀ x, is_Some (m' !! x) ↔ is_Some (m !! x)) → buffer_ok m b → buffer_ok m' b.
Proof. intros Hd (? & ? & ? & ? & Hm). split_and!; try lia. intros x Hx. by apply Hd, Hm. Qed.

Lemma host_handler_ok {net} `{Network net} ub (J : gmap Z Z → buffer → net → Prop) :
  (∀ m m' b w, lowered m m' → (∀ x, ¬ (b_start b ≤ x < b_end b) → m' !! x = m !! x) → J m b w → J m' b w) → handler_ok ub J http_process_host.
Proof.
  intros HJ m r w Hr Hs H0. destruct (header_value_holds _ _ Hr Hs) as (l & Hl & Hlen).
  destruct (process_host_ok _ _ _ Hl Hlen) as (m' & r' & -> & Hd & Hf & (h & ->) & _).
  destruct Hr as [Hb (st & Hst & Hi)]. split_and!; try done.
  - split; [|by exists st]. eapply buffer_ok_mapped; [|done]. intros x. by apply lowered_mapped.
  - eapply HJ; [done | | done]. intros x Hx. apply Hf. intros Hin. apply Hx. destruct Hl as [Hlen' _]. unfold len in Hin.
    destruct Hb as (_ & Hb1 & Hb2 & _). destruct Hs as [_ [[Hn Hz]|(Hlo & _ & Hhi)]]; lia.
Qed.

Lemma process_content_length_ok m r l :
  holds m (header_value r) l →
  http_process_content_length m r =
  let v := decimal (digits_prefix l) in
  if v <? 2 ^ 31 then Ok ((if v <=? 0 then -1 else 0), m, set_content_len r v) else Ub.
Proof.
  intros Hl. unfold http_process_content_length. rewrite (str_atoi_spec _ _ _ Hl). cbn zeta.
  destruct (decimal (digits_prefix l) <? 2 ^ 31); [|done]. cres_simpl. req_simpl.
  by destruct (decimal (digits_prefix l) <=? 0).
Qed.

Lemma content_length_handler_ok {net} `{Network net} (ub : Prop) (J : gmap Z Z → buffer → net → Prop) :
  (∀ m r w l, header_ready m r → header_slices (b_start (header r)) (b_pos (header r)) r → J m (header r) w →
     holds m (header_value r) l → decimal (digits_prefix l) < 2 ^ 31 ∨ ub) →
  handler_ok ub J http_process_content_length.
Proof.
  intros HJ m r w Hr Hs H0. destruct (header_value_holds _ _ Hr Hs) as (l & Hl & _).
  rewrite (process_content_length_ok _ _ _ Hl). cbn zeta.
  destruct (_ <? _) eqn:E; [by split|]. destruct (HJ m r w l Hr Hs H0 Hl) as [?|?]; [blia | done].
Qed.

(** ** Claims *)

(** C37: [http_process_host] decides by the first offending character (a NUL or two dots in
    a row give -1, a slash -2), an empty host gives -3, and otherwise it records the host:
    the bracketed literal or the part before the colon, less a final dot.  The value is
    lower-cased in place and nothing outside it is written. *)
Theorem process_host_spec m r l :
  holds m (header_value r) l → len l < 2 ^ 64 - 1 →
  ∃ m' r', http_process_host m r = Ok (host_code l, m', r') ∧
    (∀ x, ¬ (sp (header_value r) ≤ x < sp (header_value r) + len l) → m' !! x = m !! x) ∧
    (host_code l = 0 → holds m' (header_value r) (tolower <$> l) ∧
       host r' = Str (sp (header_value r)) (host_length l) ∧ 0 < host_length l ≤ len l).
Proof.
  intros Hl Hlen. destruct (process_host_ok _ _ _ Hl Hlen) as (m' & r' & E & _ & Hf & _ & H0).
  exists m', r'. split_and!; [done | done |]. intros Hc. destruct (H0 Hc) as [? ?]. split_and!; [done | done | |];
    pose proof (host_length_bound l); unfold host_code in Hc; destruct (verdict 0 l =? 0) eqn:Ev, (host_length l =? 0) eqn:E0; blia.
Qed.

Definition host_value : list Z := str "WWW.Example.org.:8080".
Definition host_request : http_request :=
  set_header_value (loaded host_value) (Str 4096 21).

Lemma process_host_spec_witness :
  ∃ m' r', http_process_host (mem_of 4096 host_value) host_request = Ok (host_code host_value, m', r') ∧
    (∀ x, ¬ (4096 ≤ x < 4096 + len host_value) → m' !! x = mem_of 4096 host_value !! x) ∧
    (host_code host_value = 0 → holds m' (Str 4096 21) (tolower <$> host_value) ∧
       host r' = Str 4096 (host_length host_value) ∧ 0 < host_length host_value ≤ len host_value).
Proof.
  apply (process_host_spec (mem_of 4096 host_value) host_request host_value).
  - split; [reflexivity|]. vm_compute. repeat split.
  - vm_compute. reflexivity.
Defined.

Example host_values :
  (host_code host_value, host_length host_value) = (0, 15) ∧
  (host_code (str "[::1]:80"), host_length (str "[::1]:80")) = (0, 5) ∧
  (host_code (str "a..b"), host_code (str "a/b"), host_code (str ":80"), host_code (str ".")) = (-1, -2, -3, -3).
Proof. vm_compute. split_and!; reflexivity. Qed.

(** [http_process_content_length] accepts exactly the values whose leading digits form
    a number from 1 to 2^31 - 1, stores that number, and refuses 0 (also a body that is
    legitimately empty) and values that start with no digit; a larger number overflows the
    [int] of [str_atoi]. *)
Theorem content_length_spec m r l :
  holds m (header_value r) l →
  http_process_content_length m r =
  let v := decimal (digits_prefix l) in
  if v <? 2 ^ 31 then Ok ((if v <=? 0 then -1 else 0), m, set_content_len r v) else Ub.
Proof. apply process_content_length_ok. Qed.

Lemma content_length_spec_witness :
  http_process_content_length (mem_of 4096 (str "42 ")) (set_header_value (loaded (str "42 ")) (Str 4096 3))
  = Ok (0, mem_of 4096 (str "42 "), set_content_len (set_header_value (loaded (str "42 ")) (Str 4096 3)) 42) ∧
  http_process_content_length (mem_of 4096 (str "2147483648")) (set_header_value (loaded (str "2147483648")) (Str 4096 10)) = Ub.
Proof.
  split.
  - rewrite (content_length_spec _ _ (str "42 ")); [reflexivity|]. split; [reflexivity|]. vm_compute. repeat split.
  - rewrite (content_length_spec _ _ (str "2147483648")); [reflexivity|]. split; [reflexivity|]. vm_compute. repeat split.
Defined.
