(* ===== verification/RequestInit.v ===== *)
(** Start-up of the HTTP module: the second half of [src/http/request.c] and
    [src/http/http.c].

    [http_request_init] creates the pool of request objects and the table of header
    handlers.  The two allocators of the model, of pool blocks and of hash elements, stand
    for [malloc].  A handler structure is known by its address; the array
    [http_headers_handler] lies at [HANDLERS]. *)

From stdpp Require Import base gmap list numbers strings sets.
From Stdlib Require Import ZArith Lia.
From S2P Require Import Prelude CStr RequestTypes ParseHeader HashTable HashTableSpec Memcache Net.
From S2P Require Import Response Request.

(** [proc] in sequence. *)
Definition proc_bind {A B} (x : cres (proc A)) (f : A → cres (proc B)) : cres (proc B) :=
  y ← x;
  match y with
  | Running a => f a
  | Exit code => mret (Exit code)
  | Aborted => mret Aborted
  end.

Definition hash_key_lc (data : list Z) : Z := fold_left (λ key c, HASH key (tolower c)) data 0.

Definition SIZEOF_HEADER_HANDLER : Z := 24.
Definition HANDLERS : Z := 8192.

(** The loop of [add_client_header_handler] over the array at [p]; running past the array
    is undefined behaviour. *)
Fixpoint add_handlers (malloc : hheap → Z) (h : hheap) (ht : hash_table) (p : Z) (handlers : list request_header_handler)
    : cres (proc hheap) :=
  match handlers with
  | [] => Ub
  | handler :: rest =>
    if Z.of_nat (length (hh_name handler)) =? 0 then mret (Running h) else
    match hh_handler handler with
    | None => add_handlers malloc h ht (p + SIZEOF_HEADER_HANDLER) rest
    | Some _ =>
      let key := hash_key_lc (hh_name handler) in
      '(ret, h) ← hash_table_add (malloc h) h ht key p;
      if negb (ret =? 0) then mret (Exit (-1))
      else add_handlers malloc h ht (p + SIZEOF_HEADER_HANDLER) rest
    end
  end.

(** A NULL array is [None]. *)
Definition add_client_header_handler (malloc : hheap → Z) (h : hheap) (ht : hash_table)
    (handler : option (Z * list request_header_handler)) : cres (proc hheap) :=
  match handler with
  | None => mret (Running h)
  | Some (p, handlers) => add_handlers malloc h ht p handlers
  end.

(** The memory of an array of handler structures. *)
Fixpoint handlers_at (p : Z) (handlers : list request_header_handler) : gmap Z request_header_handler :=
  match handlers with
  | [] => ∅
  | h :: rest => <[p := h]> (handlers_at (p + SIZEOF_HEADER_HANDLER) rest)
  end.

Definition handlers_of (handler : option (Z * list request_header_handler)) : gmap Z request_header_handler :=
  match handler with
  | None => ∅
  | Some (p, handlers) => handlers_at p handlers
  end.

(** [atoi]: white space, an optional sign, digits; a value outside [int] is undefined. *)
Definition is_space (c : Z) : bool := (c =? 32) || ((9 <=? c) && (c <=? 13)).
Fixpoint skip_space (s : list Z) : list Z :=
  match s with
  | c :: l => if is_space c then skip_space l else s
  | [] => []
  end.
Definition atoi (s : list Z) : cres Z :=
  match skip_space s with
  | [] => mret 0
  | c :: l =>
    if c =? "-"%c then int_arith (- decimal (digits_prefix l))
    else if c =? "+"%c then int_arith (decimal (digits_prefix l))
    else int_arith (decimal (digits_prefix (c :: l)))
  end.

Section Init.
  Context {net : Type} `{Network net}.

Definition request_line_handler : Type :=
  option (line_handler (net:=net)) * option (line_handler (net:=net)) * option (line_handler (net:=net)).

(** The worker's HTTP state after initialisation. *)
Definition http_request_init (pool_malloc : gset Z → Z) (malloc : hheap → Z) (live : gset Z) (h : hheap)
    (g_worker_connections : Z) (client_header_buffer_kbytes : Z) (lines : option request_line_handler)
    (header_handler : option (Z * list request_header_handler)) (body : option body_handler)
    : cres (proc (config (net:=net) (heap:=hheap) (table:=hash_table) * server)) :=
  let size := size_t (Z.shiftl client_header_buffer_kbytes 10) in
  let '(on_method, on_uri, on_http) := default (None, None, None) lines in
  proc_bind (memcache_create pool_malloc live size g_worker_connections) (λ x,
  match x with
  | (None, _) => mret (Exit (-1))
  | (Some cache, live) =>
    '(ht, h) ← hash_table_create (malloc h) h 128;
    match ht with
    | None => mret (Exit (-2))
    | Some ht =>
      proc_bind (add_client_header_handler malloc h ht (Some (HANDLERS, http_headers_handler))) (λ h,
      proc_bind (add_client_header_handler malloc h ht header_handler) (λ h,
        let handlers := handlers_of (Some (HANDLERS, http_headers_handler)) ∪ handlers_of header_handler in
        mret (Running
          (Config on_method on_uri on_http (default request_body_default_handler body) h ht handlers,
           Server cache live ∅ ∅ size))))
    end
  end).

(** [entry] is the configuration value of client_header_buffer_kbytes; the result is the
    return value and, when it is 0, the HTTP state. *)
Definition worker_process_init (pool_malloc : gset Z → Z) (malloc : hheap → Z) (live : gset Z) (h : hheap)
    (g_worker_connections : Z) (entry : list Z)
    : cres (proc (Z * option (config (net:=net) (heap:=hheap) (table:=hash_table) * server))) :=
  size ← (if negb (str_equal entry (str "default")) then v ← atoi entry; mret (size_t v) else mret 2);
  if negb (str_equal entry (str "default")) && ((size =? 0) || (4 <? size)) then mret (Running (-1, None))
  else
    proc_bind (http_request_init pool_malloc malloc live h g_worker_connections size None None None)
      (λ x, mret (Running (0, Some x))).

End Init.
