(* ===== verification/RequestInitFacts.v ===== *)
(** Start-up establishes what the request handler relies on. *)

From stdpp Require Import base gmap list numbers strings sets.
From Stdlib Require Import ZArith Lia.
From S2P Require Import Prelude CStr RequestTypes ParseHeader ParseHeaderFacts HashTable.
From S2P Require Import HashTableSpec Memcache Net Response Request RequestFacts HostHeader.
From S2P Require Import ParseHeaderRoundTrip RequestInit.

(** ** The table of header handlers *)

(** The map an array of handlers adds to: the key of every name that has a function. *)
Fixpoint add_spec (t : gmap Z Z) (p : Z) (handlers : list request_header_handler) : gmap Z Z :=
  match handlers with
  | [] => t
  | h :: rest =>
    if Z.of_nat (length (hh_name h)) =? 0 then t else
    match hh_handler h with
    | None => add_spec t (p + SIZEOF_HEADER_HANDLER) rest
    | Some _ => add_spec (<[hash_key_lc (hh_name h) := p]> t) (p + SIZEOF_HEADER_HANDLER) rest
    end
  end.

Definition terminated (handlers : list request_header_handler) : Prop := ∃ h, h ∈ handlers ∧ hh_name h = [].

(** The names with a function; whether two of them, or one of [t], have the same key. *)
Definition functions (handlers : list request_header_handler) : nat := length (filter (λ h, is_Some (hh_handler h)) handlers).

Fixpoint conflict (t : gmap Z Z) (p : Z) (handlers : list request_header_handler) : bool :=
  match handlers with
  | [] => false
  | h :: rest =>
    if Z.of_nat (length (hh_name h)) =? 0 then false else
    match hh_handler h with
    | None => conflict t (p + SIZEOF_HEADER_HANDLER) rest
    | Some _ => bool_decide (is_Some (t !! hash_key_lc (hh_name h))) ||
        conflict (<[hash_key_lc (hh_name h) := p]> t) (p + SIZEOF_HEADER_HANDLER) rest
    end
  end.

(** [malloc] fails although at most [n] elements have been added to those of [h]. *)
Definition table_out (malloc : hheap → Z) (h : hheap) (n : nat) : Prop :=
  ∃ h', (size (elems h') ≤ size (elems h) + n)%nat ∧ malloc h' = NULL.

Lemma add_handlers_ok malloc h ht t p handlers :
  allocates malloc → is_map h ht t → terminated handlers →
  (add_handlers malloc h ht p handlers = Ok (Exit (-1)) ∧ (conflict t p handlers = true ∨ table_out malloc h (functions handlers))) ∨
  ∃ h', add_handlers malloc h ht p handlers = Ok (Running h') ∧ is_map h' ht (add_spec t p handlers).
Proof.
  intros Hm. revert h t p. induction handlers as [|hh rest IH]; intros h t p Ht Hterm; cbn [add_handlers add_spec conflict].
  { destruct Hterm as (? & []%elem_of_nil & _). }
  destruct (Z.of_nat (length (hh_name hh)) =? 0) eqn:E0; [right; by eexists|].
  assert (Hrest : terminated rest).
  { destruct Hterm as (x & [->|Hx]%elem_of_cons & Hn); [rewrite Hn in E0; done | by exists x]. }
  unfold functions. rewrite filter_cons. destruct (hh_handler hh); cycle 1.
  { rewrite decide_False by (by intros [??]). by apply IH. }
  rewrite decide_True by done. cbn zeta. destruct (Hm h) as [Hz|Hf].
  { rewrite Hz, (add_null _ _ _ _ _ Ht). cres_simpl. left. split; [done|]. right. exists h. split; [lia | done]. }
  destruct Hf as (Hp & Hn & He). pose proof (add_ok h ht t (hash_key_lc (hh_name hh)) p (malloc h) Ht Hp Hn He) as Ha.
  destruct (t !! hash_key_lc (hh_name hh)) as [o|].
  - rewrite Ha. cres_simpl. left. split; [done|]. left. done.
  - destruct Ha as (h1 & E1 & Ht1). rewrite E1. cres_simpl. apply add_elems in E1. rewrite bool_decide_eq_false_2 by (by intros [??]). cbn [orb].
    destruct (IH h1 _ (p + SIZEOF_HEADER_HANDLER) Ht1 Hrest) as [(-> & Hw)|?]; [left | by right].
    split; [done|]. destruct Hw as [?|(h' & Hs & Hz)]; [by left | right]. exists h'. split; [|done]. unfold functions in Hs. cbn [length]. lia.
Qed.

(** The keys under which the two names with a function are registered. *)
Definition HOST_KEY : Z := hash_key_lc (str "Host").
Definition CONTENT_LENGTH_KEY : Z := hash_key_lc (str "Content-Length").

Example header_keys : HOST_KEY = 3208616 ∧ CONTENT_LENGTH_KEY = 3162187450.
Proof. by vm_compute. Qed.

Lemma keys_differ : HOST_KEY ≠ CONTENT_LENGTH_KEY.
Proof. by vm_compute. Qed.

(** The map the built-in array gives. *)
Definition header_map : gmap Z Z :=
  <[CONTENT_LENGTH_KEY := HANDLERS + 8 * SIZEOF_HEADER_HANDLER]> (<[HOST_KEY := HANDLERS]> ∅).

Lemma built_in_map : add_spec ∅ HANDLERS http_headers_handler = header_map.
Proof. vm_compute. reflexivity. Qed.

Lemma handlers_at_below p handlers x : x < p → handlers_at p handlers !! x = None.
Proof.
  revert p. induction handlers as [|h rest IH]; intros p Hx; cbn [handlers_at]; [done|].
  rewrite lookup_insert_ne by lia. apply IH. unfold SIZEOF_HEADER_HANDLER. lia.
Qed.

Lemma handlers_at_lookup p handlers i h :
  handlers !! i = Some h → handlers_at p handlers !! (p + Z.of_nat i * SIZEOF_HEADER_HANDLER) = Some h.
Proof.
  revert p i. induction handlers as [|h0 rest IH]; intros p i Hi; cbn [handlers_at]; [done|].
  destruct i as [|i]; simplify_eq/=.
  - rewrite Z.add_0_r. apply lookup_insert_eq.
  - rewrite lookup_insert_ne by (unfold SIZEOF_HEADER_HANDLER; lia).
    replace (p + Z.of_nat (S i) * SIZEOF_HEADER_HANDLER) with ((p + SIZEOF_HEADER_HANDLER) + Z.of_nat i * SIZEOF_HEADER_HANDLER) by lia.
    by apply IH.
Qed.

Lemma header_map_cases k p :
  header_map !! k = Some p →
  (k = CONTENT_LENGTH_KEY ∧ p = HANDLERS + 8 * SIZEOF_HEADER_HANDLER) ∨ (k = HOST_KEY ∧ p = HANDLERS).
Proof.
  unfold header_map. intros [[<- <-]|[_ [[<- <-]|[_ H]]%lookup_insert_Some]]%lookup_insert_Some; [by left | by right | done].
Qed.

Lemma built_in_handlers :
  handlers_of (Some (HANDLERS, http_headers_handler)) !! HANDLERS = Some (HeaderHandler (str "Host") (Some http_process_host)) ∧
  handlers_of (Some (HANDLERS, http_headers_handler)) !! (HANDLERS + 8 * SIZEOF_HEADER_HANDLER)
    = Some (HeaderHandler (str "Content-Length") (Some http_process_content_length)).
Proof.
  split.
  - apply (handlers_at_lookup HANDLERS http_headers_handler 0). reflexivity.
  - apply (handlers_at_lookup HANDLERS http_headers_handler 8). reflexivity.
Qed.

(** ** The state after start-up *)

Section Start.
  Context {net : Type} `{Network net}.

(** The configuration of a server that registered nothing of its own. *)
Record default_config (cfg : config (net:=net) (heap:=hheap) (table:=hash_table)) : Prop := DefaultConfig {
  dc_method : cfg_method cfg = None;
  dc_uri : cfg_uri cfg = None;
  dc_http : cfg_http cfg = None;
  dc_body : cfg_body cfg = request_body_default_handler;
  dc_table : is_map (cfg_heap cfg) (cfg_ht cfg) header_map;
  dc_handlers : cfg_handlers cfg = handlers_of (Some (HANDLERS, http_headers_handler));
}.

Lemma default_config_ok ub J cfg :
  default_config cfg → handler_ok ub J http_process_host → handler_ok ub J http_process_content_length → config_ok ub J cfg.
Proof.
  intros [_ _ _ _ Ht Hh] Hhost Hcl. exists header_map. split; [exact Ht|]. rewrite Hh. destruct built_in_handlers as [H1 H2].
  by intros k p [[_ ->]|[_ ->]]%header_map_cases _; eexists; (split; [done|]); intros f [= <-].
Qed.

(** Not enough memory for the module: for the pool, a quarter of which is filled, or for the
    table and its two elements. *)
Definition no_memory (pool_malloc : gset Z → Z) (malloc : hheap → Z) (live : gset Z) (h : hheap) (conns : Z) : Prop :=
  runs_out pool_malloc live (S (Z.to_nat (conns / 4))) ∨ table_out malloc h 2.

Lemma http_request_init_ok pool_malloc malloc live h conns kb :
  fresh_malloc pool_malloc → allocates malloc → NULL ∉ live → 2 ≤ conns → 0 ≤ kb ≤ 4 →
  (∃ code, http_request_init (net:=net) pool_malloc malloc live h conns kb None None None = Ok (Exit code) ∧
     (code = -1 ∨ code = -2) ∧ no_memory pool_malloc malloc live h conns) ∨
  ∃ cfg sv, http_request_init pool_malloc malloc live h conns kb None None None = Ok (Running (cfg, sv)) ∧
    default_config cfg ∧ owned (sv_live sv) (sv_cache sv) ∅ live ∧ client_header_size sv = kb * 1024 ∧
    obj_size (sv_cache sv) = kb * 1024 ∧ sv_objects sv = ∅ ∧ sv_mem sv = ∅ ∧
    (∀ P : Z → Prop, (∀ live, pool_malloc live ≠ NULL → P (pool_malloc live)) → (∀ x, x ∈ live → P x) → ∀ x, x ∈ sv_live sv → P x).
Proof.
  intros Hp Hm Hnull Hc Hk. unfold http_request_init. cbn [default from_option].
  assert (Hsize : size_t (Z.shiftl kb 10) = kb * 1024).
  { rewrite Z.shiftl_mul_pow2 by lia. apply size_t_id. lia. }
  rewrite Hsize. destruct (create_ok pool_malloc live (kb * 1024) conns Hp Hnull Hc) as (live' & [(c & Ecr & Ho & _ & Hos & _)|[Ecr _]]);
    rewrite Ecr; cbn [proc_bind]; cres_simpl;
    [|left; eexists; split; [done|]; split; [by left|]; left; by apply (create_failed pool_malloc live (kb * 1024) conns live' Hp ltac:(lia))].
  pose proof (hash_table_create_ok (malloc h) h 128 ltac:(lia)) as Hht. destruct (decide _) as [Hd|Hd].
  2:{ rewrite Hht. cres_simpl. left. eexists. split; [done|]. split; [by right|]. right. exists h. split; [lia|].
      destruct (decide (malloc h = NULL)); [done|]. destruct Hd. split; [done|]. split; [lia | done]. }
  destruct Hht as (ht & h1 & -> & _ & Hmap & He1 & _). cres_simpl. unfold add_client_header_handler.
  destruct (add_handlers_ok malloc h1 ht ∅ HANDLERS http_headers_handler Hm Hmap) as [(-> & Hw)|(h2 & -> & Ht2)].
  { exists (HeaderHandler [] None). split; [|done]. unfold http_headers_handler. rewrite !elem_of_cons. tauto. }
  { cbn [proc_bind]. cres_simpl. left. eexists. split; [done|]. split; [by left|]. right. unfold table_out in *. rewrite He1 in Hw.
    destruct Hw as [Hw|Hw]; [vm_compute in Hw; discriminate Hw | exact Hw]. }
  cbn [proc_bind]. cres_simpl. right. rewrite built_in_map in Ht2. eexists _, _. split; [done|]. split; [by split|]. split_and!; try done.
  intros P HP Hl. by eapply create_placed.
Qed.

End Start.

(** ** Claims *)

(** The function for a header line for whose name the parser has computed the hash [key]. *)
Definition dispatch (key : Z) : option header_handler :=
  if key =? hash_lc 0 (str "host") then Some http_process_host
  else if key =? hash_lc 0 (str "content-length") then Some http_process_content_length
  else None.

(** Registering a name and parsing it, in whatever case, give the same hash. *)
Lemma keys_parsed : hash_lc 0 (str "host") = HOST_KEY ∧ hash_lc 0 (str "content-length") = CONTENT_LENGTH_KEY.
Proof. by vm_compute. Qed.

Lemma default_dispatch {net} `{Network net} (cfg : config (net:=net) (heap:=hheap) (table:=hash_table)) m r :
  default_config cfg →
  handle_http_request_header cfg m r =
  if negb (invalid_header r =? 0) then Ok (0, m, r)
  else match dispatch (header_hash r) with
       | Some f => f m r
       | None => Ok (0, m, r)
       end.
Proof.
  intros [_ _ _ _ Ht Hh]. unfold handle_http_request_header. destruct (negb (invalid_header r =? 0)); [done|].
  cbn [km_find hash_table_map]. rewrite (find_ok _ _ _ (header_hash r) Ht). cres_simpl.
  destruct built_in_handlers as [H1 H2]. rewrite Hh. unfold dispatch, header_map. destruct keys_parsed as [-> ->]. pose proof keys_differ as Hne.
  destruct (header_hash r =? HOST_KEY) eqn:E1.
  { apply Z.eqb_eq in E1 as ->. rewrite lookup_insert_ne, lookup_insert_eq by done. cbn [default from_option id].
    change (HANDLERS =? NULL) with false. cbv iota. by rewrite H1. }
  destruct (header_hash r =? CONTENT_LENGTH_KEY) eqn:E2.
  { apply Z.eqb_eq in E2 as ->. rewrite lookup_insert_eq. cbn [default from_option id].
    change (HANDLERS + 8 * SIZEOF_HEADER_HANDLER =? NULL) with false. cbv iota. by rewrite H2. }
  apply Z.eqb_neq in E1, E2. rewrite !lookup_insert_ne, lookup_empty by done. done.
Qed.

(** C38: after a successful [http_request_init] without handlers of an application, a valid
    header line is dispatched by the hash that the header parser leaves, and by nothing else:
    to the Host handler for the hash of the name [host], to the Content-Length handler for the
    hash of [content-length], and otherwise to none; invalid lines are skipped. *)
Theorem header_dispatch {net} `{Network net} pool_malloc malloc live h conns kb (cfg : config (net:=net) (heap:=hheap) (table:=hash_table)) sv m r :
  fresh_malloc pool_malloc → allocates malloc → NULL ∉ live → 2 ≤ conns → 0 ≤ kb ≤ 4 →
  http_request_init pool_malloc malloc live h conns kb None None None = Ok (Running (cfg, sv)) →
  handle_http_request_header cfg m r =
  if negb (invalid_header r =? 0) then Ok (0, m, r)
  else match dispatch (header_hash r) with
       | Some f => f m r
       | None => Ok (0, m, r)
       end.
Proof.
  intros Hp Hm Hnull Hc Hk E. apply default_dispatch.
  destruct (http_request_init_ok (net:=net) pool_malloc malloc live h conns kb Hp Hm Hnull Hc Hk) as [(code & E' & _)|(cfg' & sv' & E' & Hd & _)];
    rewrite E in E'; [done|]. by injection E' as <- <-.
Qed.

Lemma worker_init_cases {net} `{Network net} pool_malloc malloc live h conns entry v :
  fresh_malloc pool_malloc → allocates malloc → NULL ∉ live → 2 ≤ conns →
  (if decide (entry = str "default") then v = 2 else atoi entry = Ok v) →
  if decide (1 ≤ v ≤ 4) then
    (∃ code, worker_process_init (net:=net) pool_malloc malloc live h conns entry = Ok (Exit code) ∧ (code = -1 ∨ code = -2) ∧ no_memory pool_malloc malloc live h conns) ∨
    ∃ cfg sv, worker_process_init pool_malloc malloc live h conns entry = Ok (Running (0, Some (cfg, sv))) ∧
      default_config (net:=net) cfg ∧ owned (sv_live sv) (sv_cache sv) ∅ live ∧ client_header_size sv = v * 1024
  else worker_process_init (net:=net) pool_malloc malloc live h conns entry = Ok (Running (-1, None)).
Proof.
  intros Hp Hm Hnull Hc Hv. unfold worker_process_init, str_equal.
  assert (Hinit : 1 ≤ v ≤ 4 → ∀ P : cres (proc (Z * option (config (net:=net) (heap:=hheap) (table:=hash_table) * server))),
    P = proc_bind (http_request_init pool_malloc malloc live h conns v None None None) (λ x, mret (Running (0, Some x))) →
    (∃ code, P = Ok (Exit code) ∧ (code = -1 ∨ code = -2) ∧ no_memory pool_malloc malloc live h conns) ∨
    ∃ cfg sv, P = Ok (Running (0, Some (cfg, sv))) ∧ default_config (net:=net) cfg ∧
      owned (sv_live sv) (sv_cache sv) ∅ live ∧ client_header_size sv = v * 1024).
  { intros Hv' P ->. destruct (http_request_init_ok pool_malloc malloc live h conns v Hp Hm Hnull Hc)
      as [(code & -> & Hcode)|(cfg & sv & -> & Hd & Ho & Hs & _)]; [lia | |]; cbn [proc_bind]; cres_simpl.
    - left. by exists code.
    - right. by exists cfg, sv. }
  destruct (decide (entry = str "default")) as [->|He].
  { rewrite bool_decide_eq_true_2 by done. cbn [negb andb]. cres_simpl. subst v.
    rewrite decide_True by lia. by apply Hinit. }
  rewrite bool_decide_eq_false_2 by done. cbn [negb andb]. rewrite Hv. cres_simpl.
  assert (Hr : - 2 ^ 31 ≤ v < 2 ^ 31).
  { unfold atoi in Hv. repeat case_match; try (apply int_arith_inv in Hv as [-> ?]; done). by injection Hv as <-. }
  destruct (decide (1 ≤ v ≤ 4)) as [Hv4|Hv4].
  - rewrite size_t_id by lia. rewrite (proj2 (Z.eqb_neq v 0)), (proj2 (Z.ltb_ge 4 v)) by lia. cbn [orb]. by apply Hinit.
  - assert ((size_t v =? 0) || (4 <? size_t v) = true) as ->; [|done].
    unfold size_t, u64. destruct (decide (0 ≤ v)).
    + rewrite Z.mod_small by lia. blia.
    + rewrite <-(Z_mod_plus_full v 1), Z.mod_small by lia. blia.
Qed.

(** [worker_process_init] refuses a buffer size that is not between 1 and 4 KiB with -1;
    otherwise the module starts with 2 KiB by default or the configured size, the table of
    built-in handlers and a pool of request objects of that size, or the process exits, and
    then there was not enough memory for the pool or the table. *)
Theorem worker_process_init_spec {net} `{Network net} pool_malloc malloc live h conns entry v :
  fresh_malloc pool_malloc → allocates malloc → NULL ∉ live → 2 ≤ conns →
  (if decide (entry = str "default") then v = 2 else atoi entry = Ok v) →
  if decide (1 ≤ v ≤ 4) then
    (∃ code, worker_process_init (net:=net) pool_malloc malloc live h conns entry = Ok (Exit code) ∧ (code = -1 ∨ code = -2) ∧ no_memory pool_malloc malloc live h conns) ∨
    ∃ cfg sv, worker_process_init pool_malloc malloc live h conns entry = Ok (Running (0, Some (cfg, sv))) ∧
      default_config (net:=net) cfg ∧ owned (sv_live sv) (sv_cache sv) ∅ live ∧ client_header_size sv = v * 1024
  else worker_process_init (net:=net) pool_malloc malloc live h conns entry = Ok (Running (-1, None)).
Proof. apply worker_init_cases. Qed.

(** ** A started module *)

(** An allocator with one block for the table and two for elements. *)
Definition table_malloc (h : hheap) : Z :=
  let candidates := if bool_decide (nodes h = ∅) then [65536] else [131072; 131104] in
  default NULL (head (filter (fresh_in h) candidates)).

Lemma table_malloc_allocates : allocates table_malloc.
Proof.
  intros h. unfold table_malloc. cbn zeta. generalize (if bool_decide (nodes h = ∅) then [65536] else [131072; 131104]). intros l.
  destruct (filter (fresh_in h) l) as [|p l'] eqn:E; [by left|]. right.
  assert (Hp : p ∈ filter (fresh_in h) l) by (rewrite E; by left). by apply list_elem_of_filter in Hp as [? _].
Qed.

Section Started.
  Context (net : Type) `{Network net}.
  #[local] Set Default Proof Using "Type*".

Definition started : option (config (net:=net) (heap:=hheap) (table:=hash_table) * server) :=
  match http_request_init (arena 10) table_malloc ∅ no_heap 8 2 None None None with
  | Ok (Running x) => Some x
  | _ => None
  end.

Definition started_config : config (net:=net) (heap:=hheap) (table:=hash_table) :=
  match started with
  | Some (cfg, _) => cfg
  | None => Config None None None request_body_default_handler no_heap (Table 0 0) ∅
  end.

Definition started_server : server :=
  match started with
  | Some (_, sv) => sv
  | None => Server (Cache 0 [] 0 0 0) ∅ ∅ ∅ 0
  end.

Lemma started_default :
  default_config started_config ∧ owned (sv_live started_server) (sv_cache started_server) ∅ ∅ ∧
  client_header_size started_server = 2048.
Proof.
  assert (Hs : match started with Some _ => true | None => false end = true) by (vm_compute; reflexivity).
  assert (Hnull : NULL ∉ (∅ : gset Z)) by (apply not_elem_of_empty).
  pose proof (http_request_init_ok (net:=net) (arena 10) table_malloc ∅ no_heap 8 2 (arena_fresh 10)
    table_malloc_allocates Hnull ltac:(lia) ltac:(lia)) as Hinit.
  unfold started_config, started_server. revert Hs. unfold started.
  destruct Hinit as [(code & E & _)|(cfg & sv & E & Hd & Ho & Hc & _)]; rewrite E; [discriminate|].
  intros _. split; [exact Hd|]. split; [exact Ho | exact Hc].
Qed.

End Started.

Definition host_line_request : http_request := set_header_hash host_request HOST_KEY.

Lemma header_dispatch_witness :
  ∃ cfg sv, http_request_init (net:=script) (arena 10) table_malloc ∅ no_heap 8 2 None None None = Ok (Running (cfg, sv)) ∧
    handle_http_request_header cfg (mem_of 4096 host_value) host_line_request = http_process_host (mem_of 4096 host_value) host_line_request.
Proof.
  assert (Hs : match started script with Some _ => true | None => false end = true) by (vm_compute; reflexivity). unfold started in Hs.
  destruct (http_request_init (net:=script) (arena 10) table_malloc ∅ no_heap 8 2 None None None) as [[[cfg sv]| |]| |] eqn:E; try discriminate Hs.
  exists cfg, sv. split; [reflexivity|].
  rewrite (header_dispatch (arena 10) table_malloc ∅ no_heap 8 2 cfg sv (mem_of 4096 host_value) host_line_request);
    [reflexivity | apply arena_fresh | apply table_malloc_allocates | exact (not_elem_of_empty NULL) | lia | lia | exact E].
Defined.

Lemma worker_process_init_spec_witness :
  ((∃ code, worker_process_init (net:=script) (arena 10) table_malloc ∅ no_heap 8 (str "4") = Ok (Exit code) ∧ (code = -1 ∨ code = -2) ∧ no_memory (arena 10) table_malloc ∅ no_heap 8) ∨
   ∃ cfg sv, worker_process_init (arena 10) table_malloc ∅ no_heap 8 (str "4") = Ok (Running (0, Some (cfg, sv))) ∧
     default_config (net:=script) cfg ∧ owned (sv_live sv) (sv_cache sv) ∅ ∅ ∧ client_header_size sv = 4 * 1024) ∧
  worker_process_init (net:=script) (arena 10) table_malloc ∅ no_heap 8 (str "-3") = Ok (Running (-1, None)).
Proof.
  split.
  - refine (worker_process_init_spec (net:=script) (arena 10) table_malloc ∅ no_heap 8 (str "4") 4 _ _ _ _ _);
      [apply arena_fresh | apply table_malloc_allocates | done | lia | vm_compute; reflexivity].
  - refine (worker_process_init_spec (net:=script) (arena 10) table_malloc ∅ no_heap 8 (str "-3") (-3) _ _ _ _ _);
      [apply arena_fresh | apply table_malloc_allocates | done | lia | vm_compute; reflexivity].
Defined.
