(* ===== verification/RequestProps.v ===== *)
(** A connection from the first byte to the response. *)

From stdpp Require Import base gmap list numbers strings sets.
From Stdlib Require Import ZArith Lia.
From S2P Require Import Prelude CStr RequestTypes ParseLine ParseLineRun ParseLineSafety.
From S2P Require Import ParseLineFacts ParseHeader ParseHeaderFacts ParseHeaderProps HashTable.
From S2P Require Import HashTableSpec Memcache Net Response ResponseProps Request RequestFacts.
From S2P Require Import FirstHeader HostHeader RequestInit RequestInitFacts.

(** ** One message per request *)

Section Answer.
  Context {net : Type} `{NetworkLaws net}.
  #[local] Set Default Proof Using "Type*".

(** What happens on the connection: only receiving, and then one [send] of the complete response
    with status [code]. *)
Definition answered (fd : Z) (w w' : net) (code : Z) : Prop :=
  ∃ w1 l, wire code = Some l ∧ receives fd w w1 ∧ w' = net_send fd l w1.

(** The buffer of a connection is large enough for every response. *)
Definition roomy (b : buffer) : Prop := 1024 - SIZEOF_HTTP_REQUEST ≤ b_end b - b_start b < 2 ^ 31.

(** Outside the bytes of the buffer nothing changes. *)
Definition same_outside (b : buffer) (m m' : gmap Z Z) : Prop := ∀ x, ¬ (b_start b ≤ x < b_end b) → m' !! x = m !! x.

Lemma finalize_answers m r code w f :
  conn_ok m (header r) → roomy (header r) → is_Some (wire code) → fd r = f →
  ∃ m' r', http_finalize_request m r code w = Ok (m', r', net_send f (default [] (wire code)) w) ∧
    line_kept r' = line_kept r ∧ same_outside (header r) m m'.
Proof.
  intros [Hb _] [Hlo _] [l Hl] <-. destruct (finalize_ok m r code w l Hl) as (m' & E & _ & Hf & _); [apply Hb | |].
  - pose proof (wire_length _ _ Hl). lia.
  - rewrite Hl. eexists _, _. split; [exact E|]. by split.
Qed.

Lemma roomy_conn r r' : same_conn r r' → roomy (header r) → roomy (header r').
Proof. unfold roomy. by intros (_ & -> & ->). Qed.

Lemma lowcase_kept r r' : line_kept r' = line_kept r → index_kept r r'.
Proof. unfold index_kept, lowcase_ok, line_kept. by intros [= _ _ -> ->]. Qed.

Lemma index_kept_trans r1 r2 r3 : index_kept r1 r2 → index_kept r2 r3 → index_kept r1 r3.
Proof. intros [H1 H2] [H3 H4]. split; [congruence | auto]. Qed.

(** The codes a server without handlers of its own answers with. *)
Definition default_code (code : Z) : Prop := code = 200 ∨ code = 400 ∨ code = 507.

Lemma default_code_wire code : default_code code → is_Some (wire code).
Proof. intros [->|[->| ->]]; vm_compute; eauto. Qed.

(** A connection that has been served: answered once, its object fit for the next one, and
    nothing but its buffer written since a state with [J]. *)
Definition served (J : gmap Z Z → buffer → net → Prop) (r : http_request) (w : net) (m' : gmap Z Z) (r' : http_request) (w' : net) : Prop :=
  (∃ code, default_code code ∧ answered (fd r) w w' code) ∧ index_kept r r' ∧
  ∃ m1 b1 w1, J m1 b1 w1 ∧ same_outside (header r) m1 m'.

Lemma answer_served J m r code r0 (w0 w : net) :
  conn_ok m (header r) → roomy (header r) → default_code code → same_conn r0 r → receives (fd r0) w0 w →
  index_kept r0 r → J m (header r) w →
  match http_finalize_request m r code w with
  | Ok (m', r', w') => served J r0 w0 m' r' w'
  | Ub | Fuel => False
  end.
Proof.
  intros Hc Hr Hd (Hf & Hst & Hen) Hw Hl HJ. pose proof (default_code_wire _ Hd) as Hs.
  destruct (finalize_answers m r code w (fd r0) Hc Hr Hs Hf) as (m' & r' & -> & Hk & Hout). destruct Hs as [l El]. split_and!.
  - exists code. split; [done|]. exists w, l. by rewrite El.
  - by eapply index_kept_trans, lowcase_kept.
  - exists m, (header r), w. split; [done|]. unfold same_outside in *. by rewrite <-Hst, <-Hen.
Qed.

End Answer.

(** ** Clients that do not send large numbers *)

Section Streams.
  Context {net : Type} `{NetworkLaws net} `{!Streamed net}.
  #[local] Set Default Proof Using "Type*".

(** The request comes with a valid [lowcase_index], or its first header starts well. *)
Definition index_safe (m : gmap Z Z) (r : http_request) (w : net) : Prop :=
  0 ≤ lowcase_index r < HTTP_LC_HEADER_LEN ∨ ∃ s, stream_is s m (header r) w ∧ line_at s r ∧ plain_start s = true.

(** After the request line: the index, or the next byte. *)
Lemma index_safe_line fuel m r (w : net) m' r' w' :
  line_ready m r → b_end (header r) - b_start (header r) < 2 ^ 31 → index_safe m r w → line_kept r' = line_kept r →
  request_line_loop fuel m r w = Ok (0, m', r', w') →
  0 ≤ lowcase_index r' < HTTP_LC_HEADER_LEN ∨ ∀ c, stream_byte m' (header r') w' (parsed (header r')) = Some c → name_start c = true.
Proof.
  intros Hr Hs [Hi|(s & Hst & Hat & Hp)] Hk E; [left; injection Hk as _ _ -> _; done | right].
  destruct (request_line_rest s fuel m r w m' r' w' Hr Hs Hst Hat E) as [Hs' Ha]. intros c. rewrite (Hs' _).
  unfold plain_start in Hp. rewrite Ha in Hp. intros Hc. rewrite <-(Nat.add_0_r (parsed _)), <-lookup_drop in Hc.
  destruct (drop _ s); [done|]. by injection Hc as ->.
Qed.

Lemma request_handler_ok ub J cfg m r (w : net) :
  default_config cfg → config_ok ub J cfg → stream_inv J → J m (header r) w →
  line_ready m r → length (lowcase_header r) = Z.to_nat HTTP_LC_HEADER_LEN → index_safe m r w → roomy (header r) →
  match __http_request_handler cfg m r w with
  | Ok (m', r', w') => served J r w m' r' w'
  | Ub => ub
  | Fuel => False
  end.
Proof.
  intros [D1 D2 D3 D4 _ _] Hcfg HJ HJ0 Hr Hlen Hsafe Hroom. unfold __http_request_handler, http_process_request_line.
  destruct (request_line_ok J (S (room (header r))) m r w HJ HJ0 Hr) as
    (ret & m1 & r1 & w1 & E1 & Hret & Hw1 & Hsc1 & Hc1 & Hk1 & Hst1 & HJ1); [apply Hroom | lia |].
  pose proof (index_safe_line (S (room (header r))) m r w m1 r1 w1 Hr ltac:(apply Hroom) Hsafe Hk1) as Hsafe1.
  rewrite E1 in Hsafe1. rewrite E1. cres_simpl.
  pose proof (roomy_conn _ _ Hsc1 Hroom) as Hroom1. pose proof (lowcase_kept _ _ Hk1) as Hlow1.
  assert (Hans : ∀ m' r' w' code, conn_ok m' (header r') → same_conn r r' → receives (fd r) w w' → default_code code →
      index_kept r r' → J m' (header r') w' →
      match http_finalize_request m' r' code w' with
      | Ok (m'', r'', w'') => served J r w m'' r'' w''
      | Ub => ub | Fuel => False end).
  { intros m' r' w' code Hc' Hsc' Hw' Hd Hl' HJ'. pose proof (answer_served J m' r' code r w w' Hc' (roomy_conn _ _ Hsc' Hroom) Hd Hsc' Hw' Hl' HJ') as Ha.
    by destruct (http_finalize_request m' r' code w') as [[[? ?] ?]| |]. }
  destruct (ret =? 0) eqn:E0; cbn [negb]; [|apply Hans; try done; unfold default_code; auto]. apply Z.eqb_eq in E0 as ->.
  rewrite D1, D2, D3, D4. cbn [call_line_handler]. unfold request_body_default_handler.
  destruct (http_version r1 <? HTTP_VER_10); [apply Hans; try done; unfold default_code; auto|].
  pose proof (header_stage ub J cfg m1 r1 w1 HJ Hcfg HJ1 Hc1 (Hst1 eq_refl) ltac:(by rewrite (proj1 Hlow1)) (Hsafe1 eq_refl)) as Hh.
  destruct (http_process_request_header cfg m1 r1 w1) as [[[[ret2 m2] r2] w2]| |]; try done. cres_simpl.
  destruct Hh as (Hw2 & Hsc2 & Hc2 & HJ2 & Hlow2). rewrite (proj1 Hsc1) in Hw2.
  assert (Hw2' : receives (fd r) w w2) by (by etrans). pose proof (same_conn_trans _ _ _ Hsc1 Hsc2) as Hsc2'.
  pose proof (index_kept_trans _ _ _ Hlow1 Hlow2) as Hlow2'.
  destruct (ret2 =? 0); cbn [negb]; [|apply Hans; try done; unfold default_code; auto].
  unfold http_process_request_body.
  destruct (request_body_ok J (S (room (header r2))) m2 r2 w2 HJ HJ2 Hc2) as
    (ret3 & m3 & r3 & w3 & -> & _ & Hw3 & Hsc3 & Hc3 & Hk3 & HJ3 & _); [lia|]. cres_simpl. rewrite (proj1 Hsc2') in Hw3.
  pose proof (index_kept_trans _ _ _ Hlow2' (lowcase_kept _ _ Hk3)) as Hlow3.
  assert (Hw3' : receives (fd r) w w3) by (by etrans). pose proof (same_conn_trans _ _ _ Hsc2' Hsc3) as Hsc3'.
  destruct (ret3 =? 0); cbn [negb]; apply Hans; try done; unfold default_code; auto.
Qed.

Definition digit_at (m : gmap Z Z) (b : buffer) (w : net) (j : nat) : bool :=
  match stream_byte m b w j with Some c => is_digit c | None => false end.

(** No ten digits in a row. *)
Definition short_numbers (m : gmap Z Z) (b : buffer) (w : net) : Prop :=
  ∀ i, ∃ k, (k < 10)%nat ∧ digit_at m b w (i + k) = false.

Lemma short_numbers_stream : stream_inv short_numbers.
Proof.
  split.
  - intros m b w p Hs i. exact (Hs i).
  - intros m f b w ret m' b' w' Hc Hs E i. destruct (Hs i) as (k & Hk & Hd). exists k. split; [done|].
    unfold digit_at in *. by rewrite (stream_byte_recv _ _ _ _ _ _ _ _ Hc E).
Qed.

Lemma is_digit_tolower c : is_digit (tolower c) = is_digit c.
Proof.
  unfold tolower. destruct (is_capital c) eqn:E; [|done]. unfold is_capital in E.
  transitivity false; [|symmetry]; unfold is_digit; blia.
Qed.

Lemma short_numbers_lowered m m' b w : lowered m m' → short_numbers m b w → short_numbers m' b w.
Proof.
  intros Hl Hs i. destruct (Hs i) as (k & Hk & Hd). exists k. split; [done|]. rewrite <-Hd.
  unfold digit_at, stream_byte. destruct (_ <? _); [|done].
  destruct (Hl (b_start b + Z.of_nat (i + k))) as [->| ->]; [done|].
  destruct (m !! _); cbn; [apply is_digit_tolower | done].
Qed.

Lemma decimal_bound l : forallb is_digit l = true → 0 ≤ decimal l < 10 ^ Z.of_nat (length l).
Proof.
  unfold decimal. induction l as [|c l IH] using rev_ind; [done|]. rewrite forallb_app. intros [Hl Hc]%andb_true_iff.
  specialize (IH Hl). cbn [forallb] in Hc. rewrite andb_true_r in Hc. apply is_digit_range in Hc.
  rewrite fold_left_app, length_app. cbn [fold_left length]. unfold dec_step at 1 3.
  rewrite Nat2Z.inj_add, Z.pow_add_r by lia. change (10 ^ Z.of_nat 1) with 10. change "0"%c with 48. lia.
Qed.

Lemma digits_prefix_length l : (length (digits_prefix l) ≤ length l)%nat.
Proof. induction l as [|c l IH]; cbn; [lia|]. destruct (is_digit c); cbn; lia. Qed.

Lemma digits_prefix_lookup l i : (i < length (digits_prefix l))%nat → ∃ c, l !! i = Some c ∧ is_digit c = true.
Proof.
  revert i. induction l as [|c l IH]; intros i; cbn; [lia|]. destruct (is_digit c) eqn:E; cbn; [|lia].
  intros Hi. destruct i as [|i]; [by exists c|]. apply IH. lia.
Qed.

(** In such a stream a Content-Length fits an [int]. *)
Lemma short_content_length m r w l :
  header_ready m r → header_slices (b_start (header r)) (b_pos (header r)) r → short_numbers m (header r) w →
  holds m (header_value r) l → decimal (digits_prefix l) < 2 ^ 31 ∨ False.
Proof.
  intros [(Hb1 & Hb2 & Hb3 & Hb4 & Hm) _] [_ Hv] Hs [Hlen Hby]. left.
  pose proof (decimal_bound _ (digits_prefix_digits l)) as Hd.
  destruct (decide (length (digits_prefix l) < 10)%nat) as [Hlt|Hge].
  { eapply Z.lt_le_trans; [apply Hd|]. etrans; [apply (Z.pow_le_mono_r 10 _ 9); lia|]. done. }
  exfalso. pose proof (digits_prefix_length l) as Hpl.
  destruct Hv as [[_ Hz]|(Hlo & Hz & Hhi)]; [lia|].
  destruct (Hs (Z.to_nat (sp (header_value r) - b_start (header r)))) as (k & Hk & Hdig).
  destruct (digits_prefix_lookup l k) as (c & Hc & Hdc); [lia|].
  unfold digit_at, stream_byte in Hdig. rewrite (proj2 (Z.ltb_lt _ _)) in Hdig by lia.
  replace (b_start (header r) + _) with (sp (header_value r) + Z.of_nat k) in Hdig by lia.
  rewrite (bytes_at_lookup _ _ _ _ _ Hby Hc) in Hdig. congruence.
Qed.

(** The stream, and all writes inside the buffer that there was. *)
Definition short_inside (m0 : gmap Z Z) (b0 : buffer) (m : gmap Z Z) (b : buffer) (w : net) : Prop :=
  short_numbers m b w ∧ b_start b = b_start b0 ∧ b_end b = b_end b0 ∧ same_outside b0 m0 m.

Lemma short_inside_stream m0 b0 : stream_inv (short_inside m0 b0).
Proof.
  split.
  - intros m b w p (Hs & Hb). split; [by apply (si_pos _ short_numbers_stream) | done].
  - intros m f b w ret m' b' w' Hc (Hs & Hst & Hen & Hout) E. split; [by eapply (si_recv _ short_numbers_stream)|].
    destruct (recv_ok m f b w Hc) as (ret1 & m1 & b1 & w1 & E1 & _ & _ & _ & _ & Hf & Hb). rewrite E in E1. injection E1 as <- <- <- <-.
    assert (b_start b' = b_start b ∧ b_end b' = b_end b) as [-> ->] by (destruct (ret =? 0); [by destruct Hb as [-> _] | by subst]).
    split_and!; [done | done|]. intros x Hx. rewrite Hf; [by apply Hout|]. destruct Hc as [(? & ? & ? & ? & _) _]. lia.
Qed.

Lemma default_config_short m0 b0 cfg : default_config cfg → config_ok False (short_inside m0 b0) cfg.
Proof.
  intros Hd. apply default_config_ok; [done | |].
  - apply host_handler_ok. intros m m' b w Hl Hf (Hs & Hst & Hen & Hout). split_and!; [by eapply short_numbers_lowered | done | done|].
    intros x Hx. rewrite Hf; [by apply Hout|]. by rewrite Hst, Hen.
  - apply content_length_handler_ok. intros m r w l Hr Hsl [Hs _]. by eapply short_content_length.
Qed.

Lemma request_served cfg m r (w : net) :
  default_config cfg → line_ready m r → length (lowcase_header r) = Z.to_nat HTTP_LC_HEADER_LEN → index_safe m r w → roomy (header r) →
  short_numbers m (header r) w →
  ∃ m' r' w' code, __http_request_handler cfg m r w = Ok (m', r', w') ∧ default_code code ∧ answered (fd r) w w' code ∧
    same_outside (header r) m m' ∧ index_kept r r'.
Proof.
  intros Hd Hr Hl Hix Hroom Hs.
  pose proof (request_handler_ok False (short_inside m (header r)) cfg m r w Hd (default_config_short _ _ _ Hd) (short_inside_stream _ _)) as Hok.
  destruct (__http_request_handler cfg m r w) as [[[m' r'] w']| |]; try (exfalso; by apply Hok).
  destruct Hok as ((code & Hc & Ha) & Hl' & m1 & b1 & w1 & (_ & _ & _ & H1) & H2); try done.
  exists m', r', w', code. split_and!; try done. intros x Hx. by rewrite H2, H1.
Qed.

End Streams.

(** Checking the condition, from an empty buffer. *)
Definition digit_in (l : list Z) (j : nat) : bool := match l !! j with Some c => is_digit c | None => false end.
Definition no_ten_digits (l : list Z) : bool :=
  forallb (λ i, existsb (λ k, negb (digit_in l (i + k))) (seq 0 10)) (seq 0 (length l)).

Lemma no_ten_digits_short {net} `{Streamed net} m b (w : net) :
  b_last b = b_start b → no_ten_digits (to_come w) = true → short_numbers m b w.
Proof.
  intros Hb Hc i. unfold digit_at, stream_byte.
  assert (Hs : ∀ j, (Z.of_nat j <? b_last b - b_start b) = false) by (intros j; blia).
  destruct (decide (i < length (to_come w))%nat) as [Hi|Hi].
  - unfold no_ten_digits in Hc. rewrite forallb_forall in Hc. specialize (Hc i). rewrite in_seq in Hc. specialize (Hc ltac:(lia)).
    apply existsb_exists in Hc as (k & Hk%in_seq & Hd%negb_true_iff). exists k. split; [lia|].
    rewrite Hs, Hb, Z.sub_diag. change (Z.to_nat 0) with O. by rewrite Nat.sub_0_r.
  - exists O. split; [lia|]. rewrite Hs, Hb, Z.sub_diag. change (Z.to_nat 0) with O.
    rewrite lookup_ge_None_2 by lia. done.
Qed.

(** An object at [p] with the buffer behind it. *)
Definition address_ok (size p : Z) : Prop := 0 < p ∧ p + size < 2 ^ 64.

(** The array of the object; what is in it does not matter. *)
Definition array_ok (r : http_request) : Prop := length (lowcase_header r) = Z.to_nat HTTP_LC_HEADER_LEN.

(** The index that an object was left with is valid, or the client does not let it be used. *)
Definition index_or_plain (r : http_request) (l : list Z) : Prop :=
  0 ≤ lowcase_index r < HTTP_LC_HEADER_LEN ∨ plain_start l = true.

(** The object a connection gets is ready, whatever was left in it. *)
Lemma init_request_ready {net} `{NetworkLaws net} `{!Streamed net} m p fd size r (w : net) :
  address_ok size p → 1024 ≤ size < 2 ^ 31 → mapped m (p + SIZEOF_HTTP_REQUEST) (p + size) →
  array_ok r → index_or_plain r (to_come w) → no_ten_digits (to_come w) = true →
  let r := init_request p fd size r in
  line_ready m r ∧ index_safe m r w ∧ roomy (header r) ∧ short_numbers m (header r) w.
Proof.
  intros [Hp Hlt] Hsz Hm Hl Hi Hn. cbv zeta. assert (Hst : SIZEOF_HTTP_REQUEST = 304) by reflexivity. unfold init_request. split_and!.
  - apply fresh_line_ready; [|by split_and!]. req_simpl. unfold bind_buffer, buffer_ok. cbn [b_start b_pos b_last b_end]. split_and!; try lia.
    intros x Hx. apply Hm. lia.
  - destruct Hi as [?|Hpl]; [by left | right]. exists (to_come w). split; [by apply stream_is_empty|]. split; [|done].
    exists S_start. split; [done|]. unfold parsed, bind_buffer. req_simpl. cbn [b_start b_pos]. by rewrite Z.sub_diag, drop_0.
  - unfold roomy, bind_buffer. req_simpl. cbn [b_start b_end]. lia.
  - by apply no_ten_digits_short.
Qed.

(** C1: a server that registered no handlers of its own answers a request.  Take any object
    with its buffer behind it, initialised as [http_request_handler] does, and any network
    that delivers the bytes of a client in any pieces.  If the client sends no ten digits in
    a row, and if the [lowcase_index] that the object was left with, which nothing initialises,
    is valid or is not used (the first header line starts with a letter, a digit or a hyphen,
    or there is none), the handler runs to its end without undefined behaviour, only receives
    from that client, and then hands one complete response to [send], with status 200, 400 or 507; it
    writes no byte outside the buffer of this connection. *)
Theorem request_answered {net} `{NetworkLaws net} `{!Streamed net} cfg m p fd size r (w : net) :
  default_config cfg → address_ok size p → 1024 ≤ size < 2 ^ 31 → mapped m (p + SIZEOF_HTTP_REQUEST) (p + size) →
  array_ok r → index_or_plain r (to_come w) → no_ten_digits (to_come w) = true →
  ∃ m' r' w' code, __http_request_handler cfg m (init_request p fd size r) w = Ok (m', r', w') ∧
    default_code code ∧ answered fd w w' code ∧
    ∀ x, ¬ (p + SIZEOF_HTTP_REQUEST ≤ x < p + size) → m' !! x = m !! x.
Proof.
  intros Hd Hp Hs Hm Hl Hi Hn. destruct (init_request_ready m p fd size r w Hp Hs Hm Hl Hi Hn) as (Hr & Hx & Hroom & Hsh).
  destruct (request_served cfg m _ w Hd Hr Hl Hx Hroom Hsh) as (m' & r' & w' & code & ? & ? & ? & Ho & _). exists m', r', w', code.
  split_and!; try done. intros x Hx'. apply Ho. unfold init_request, bind_buffer. req_simpl. cbn [b_start b_end]. lia.
Qed.

(** A POST in three pieces. *)
Definition sample_client : script :=
  Script [str "POST /a HT"; str "TP/1.1" ++ CRLF ++ str "Host: Ex.org" ++ CRLF ++ str "Content-Le";
          str "ngth: 3" ++ CRLF ++ CRLF ++ str "abc"] [].

Lemma blank_ready : line_ready sample_memory blank_request.
Proof.
  apply fresh_line_ready; [|by repeat split].
  split_and!; try (vm_compute; done). intros x Hx. by apply sample_block.
Qed.

(** In an object whose index is the largest [unsigned]. *)
Definition stale_request : http_request := set_lowcase_index blank_request 4294967295.

Lemma request_answered_witness :
  ∃ m' r' w' code, __http_request_handler (started_config script) sample_memory (init_request 4096 7 1024 stale_request) sample_client = Ok (m', r', w') ∧
    default_code code ∧ answered 7 sample_client w' code ∧
    ∀ x, ¬ (4096 + SIZEOF_HTTP_REQUEST ≤ x < 4096 + 1024) → m' !! x = sample_memory !! x.
Proof.
  apply (request_answered (started_config script) sample_memory 4096 7 1024 stale_request sample_client).
  - apply started_default.
  - split; reflexivity.
  - split; [discriminate | reflexivity].
  - intros x Hx. apply sample_block. vm_compute in Hx |- *. exact Hx.
  - reflexivity.
  - right. vm_compute. reflexivity.
  - vm_compute. reflexivity.
Defined.

(** The statuses of three clients: a complete request, a malformed one, and one that sends
    more than its Content-Length. *)
Definition status_sent (w : script) : option (list Z) :=
  match __http_request_handler (started_config script) sample_memory blank_request w with
  | Ok (_, _, w') => (λ x, take 3 (drop 9 x.2)) <$> last (sent w')
  | _ => None
  end.

Example statuses :
  status_sent sample_client = Some (str "200") ∧
  status_sent (Script [str "GET" ++ CRLF] []) = Some (str "400") ∧
  status_sent (Script [str "POST /a HTTP/1.1" ++ CRLF ++ str "Content-Length: 3" ++ CRLF ++ CRLF ++ str "abcGET"] []) = Some (str "507").
Proof. vm_compute. split_and!; reflexivity. Qed.

(** ** The request line and the body *)

(** Reading the request line ends for every network: the loop receives at most as often
    as the buffer has room, with result 0, -1 (receiving failed or the buffer is full) or -2
    (syntax error); it stays in the buffer and leaves the connection fit for the headers. *)
Theorem process_line_total {net} `{NetworkLaws net} m r (w : net) :
  line_ready m r → roomy (header r) →
  ∃ ret m' r' w', http_process_request_line m r w = Ok (ret, m', r', w') ∧ (ret = 0 ∨ ret = -1 ∨ ret = -2) ∧
    receives (fd r) w w' ∧ same_conn r r' ∧ conn_ok m' (header r') ∧
    (ret = 0 → lowcase_ok (lowcase_index r) r → header_ready m' r').
Proof.
  intros Hr Hroom. unfold http_process_request_line.
  destruct (request_line_ok (λ _ _ _, True) (S (room (header r))) m r w stream_inv_true I Hr) as
    (ret & m1 & r1 & w1 & E & Hret & Hw1 & Hsc1 & Hc1 & Hk1 & Hst1 & _); [apply Hroom | lia |].
  exists ret, m1, r1, w1. split_and!; try done; try lia. intros H0' Hl.
  apply fresh_header_ready; [apply Hc1 | by apply Hst1 | by eapply lowcase_kept].
Qed.

Lemma process_line_total_witness :
  ∃ ret m' r' w', http_process_request_line sample_memory blank_request sample_client = Ok (ret, m', r', w') ∧
    (ret = 0 ∨ ret = -1 ∨ ret = -2) ∧ receives 0 sample_client w' ∧ same_conn blank_request r' ∧ conn_ok m' (header r') ∧
    (ret = 0 → lowcase_ok (lowcase_index blank_request) blank_request → header_ready m' r').
Proof. apply (process_line_total sample_memory blank_request sample_client); [exact blank_ready | split; [discriminate | reflexivity]]. Defined.

(** The body stage ends for every network; when it succeeds the buffer holds exactly
    [content_len] bytes after the headers and [content] is that slice. *)
Theorem process_body_total {net} `{NetworkLaws net} m r (w : net) :
  conn_ok m (header r) →
  ∃ ret m' r' w', http_process_request_body m r w = Ok (ret, m', r', w') ∧ (ret = 0 ∨ ret = -1) ∧
    receives (fd r) w w' ∧ conn_ok m' (header r') ∧
    (ret = 0 → content r' = Str (b_pos (header r)) (content_len r) ∧
       b_last (header r') = b_pos (header r) + content_len r ∧ b_last (header r') ≤ b_end (header r)).
Proof.
  intros Hc. unfold http_process_request_body.
  destruct (request_body_ok (λ _ _ _, True) (S (room (header r))) m r w stream_inv_true I Hc) as
    (ret & m1 & r1 & w1 & E & Hret & Hw1 & (_ & _ & Hend) & Hc1 & _ & _ & _ & _ & H0'); [lia|].
  exists ret, m1, r1, w1. split_and!; try done; try lia. intros Hz. destruct (H0' Hz) as [? Hl].
  destruct Hc1 as [(? & ? & ? & ? & ?) ?]. split_and!; try done; lia.
Qed.

Lemma blank_conn : conn_ok sample_memory (header blank_request).
Proof. split; [apply blank_ready | vm_compute; reflexivity]. Qed.

Lemma process_body_total_witness :
  ∃ ret m' r' w', http_process_request_body sample_memory blank_request (Script [str "abc"] []) = Ok (ret, m', r', w') ∧
    (ret = 0 ∨ ret = -1) ∧ receives 0 (Script [str "abc"] []) w' ∧ conn_ok m' (header r') ∧
    (ret = 0 → content r' = Str 4400 0 ∧ b_last (header r') = 4400 + 0 ∧ b_last (header r') ≤ 5120).
Proof. apply (process_body_total sample_memory blank_request (Script [str "abc"] [])). exact blank_conn. Defined.

(** A client that has sent more than its Content-Length by the time the headers are
    parsed (a pipelined request, or a GET with trailing bytes) is never served: the body
    stage fails whatever the network does next. *)
Theorem process_body_excess {net} `{NetworkLaws net} m r (w : net) :
  conn_ok m (header r) → content_len r < b_last (header r) - b_pos (header r) →
  ∃ m' r' w', http_process_request_body m r w = Ok (-1, m', r', w').
Proof.
  intros Hc Hex. unfold http_process_request_body.
  destruct (request_body_ok (λ _ _ _, True) (S (room (header r))) m r w stream_inv_true I Hc) as
    (ret & m1 & r1 & w1 & E & Hret & _ & _ & _ & _ & _ & _ & Hle & H0'); [lia|].
  assert (ret = -1) as ->; [|by eexists _, _, _].
  destruct (decide (ret = 0)) as [Hz|]; [|lia]. destruct (H0' Hz) as [_ ?]. lia.
Qed.

Definition excess_request : http_request := set_header blank_request (Buffer 4400 5120 4400 4403).

Lemma process_body_excess_witness :
  ∃ m' r' w', http_process_request_body sample_memory excess_request (Script [str "abc"] []) = Ok (-1, m', r', w').
Proof.
  apply (process_body_excess sample_memory excess_request (Script [str "abc"] [])); [|vm_compute; reflexivity].
  destruct blank_conn as [(_ & _ & _ & _ & Hm) _].
  split; [|vm_compute; reflexivity]. split_and!; first [exact Hm | vm_compute; done].
Defined.
