(* ===== verification/Connections.v ===== *)
(** Connections one after the other: [http_request_handler] of [src/http/request.c] with the
    pool it takes its objects from, from the start of the module on. *)

From stdpp Require Import base gmap list numbers strings sets.
From Stdlib Require Import ZArith Lia.
From S2P Require Import Prelude CStr RequestTypes ParseLine ParseLineRun ParseLineSafety.
From S2P Require Import ParseLineFacts ParseHeader ParseHeaderFacts ParseHeaderProps HashTable.
From S2P Require Import HashTableSpec Memcache Net Response ResponseProps Request RequestFacts.
From S2P Require Import FirstHeader HostHeader RequestInit RequestInitFacts RequestProps.

(** A block of memory keeps what was there and is mapped. *)
Lemma map_block_lookup m p n x :
  map_block m p n !! x = match m !! x with Some v => Some v | None => if decide (p ≤ x < p + n) then Some 0 else None end.
Proof.
  unfold map_block. rewrite lookup_union, mem_of_lookup, length_replicate. destruct (m !! x) as [v|].
  - by destruct (decide _); [destruct (_ !! _)|].
  - rewrite left_id_L by apply _. destruct (decide (p ≤ x < p + n)) as [Hx|Hx].
    + rewrite decide_True by lia. apply lookup_replicate_2. lia.
    + by rewrite decide_False by lia.
Qed.

Section Connections.
  Context {net : Type} `{NetworkLaws net} `{!Streamed net}.
  Context (malloc : gset Z → Z) (garbage : Z → http_request) (size : Z).
  Notation config := (config (net:=net) (heap:=hheap) (table:=hash_table)).
  #[local] Set Default Proof Using "Type*".

(** The state of the module between connections; [used] are the objects of other connections. *)
Record server_inv (used rest : gset Z) (sv : server) : Prop := ServerInv {
  sv_pool : owned (sv_live sv) (sv_cache sv) used rest;
  sv_array : ∀ p r, sv_objects sv !! p = Some r → array_ok r;
  sv_place : ∀ p, p ∈ sv_live sv → address_ok size p;
  sv_size : client_header_size sv = size;
}.

(** What is in the object at [p]: what an earlier connection left there, or [malloc]. *)
Definition object_at (sv : server) (p : Z) : http_request := default (garbage p) (sv_objects sv !! p).

(** Every object has a valid index. *)
Definition indexes_ok (sv : server) : Prop := ∀ p, 0 ≤ lowcase_index (object_at sv p) < HTTP_LC_HEADER_LEN.

(** What the client on [fd] has got, and which memory was written for it: a complete response
    from an object of its own, or, when there is no memory for one, the page that says so. *)
Inductive outcome (used rest : gset Z) (fd : Z) (w w' : net) (m m' : gmap Z Z) : Prop :=
| Served p code :
    p ≠ NULL → p ∉ used → p ∉ rest → default_code code → answered fd w w' code →
    (∀ x, ¬ (p + SIZEOF_HTTP_REQUEST ≤ x < p + size) → m' !! x = m !! x) → outcome used rest fd w w' m m'
| Refused : w' = net_send fd HTTP_INSUFFICIENT_STORAGE_PAGE w → m' = m → outcome used rest fd w w' m m'.

Context (cfg : config).
Hypothesis size_ok : 1024 ≤ size < 2 ^ 31.
Hypothesis malloc_fresh : fresh_malloc malloc.
Hypothesis malloc_address : ∀ live, malloc live ≠ NULL → address_ok size (malloc live).
Hypothesis garbage_array : ∀ p, array_ok (garbage p).
Hypothesis cfg_default : default_config cfg.

Lemma http_request_handler_ok used rest sv fd (w : net) :
  server_inv used rest sv → no_ten_digits (to_come w) = true → indexes_ok sv ∨ plain_start (to_come w) = true →
  ∃ sv' w', http_request_handler malloc garbage cfg sv fd w = Ok (sv', w') ∧ server_inv used rest sv' ∧
    outcome used rest fd w w' (sv_mem sv) (sv_mem sv') ∧ (indexes_ok sv → indexes_ok sv').
Proof.
  intros [Hown Har Hpl Hsz] Hnum Hix. unfold http_request_handler.
  destruct (alloc_ok malloc _ _ _ _ malloc_fresh Hown) as (p & c1 & live1 & Ea & Hcase). pose proof (alloc_placed malloc (address_ok size) malloc_address _ _ _ _ _ Ea Hpl) as Hpl1.
  rewrite Ea. cres_simpl. destruct Hcase as [(-> & _ & -> & ->)|(Hp & Hu & Hr & Hown1)].
  { cbn [Z.eqb NULL]. eexists _, _. split; [reflexivity|]. split; [by split|]. split; [by apply Refused | done]. }
  rewrite (proj2 (Z.eqb_neq _ _) Hp), Hsz. change (default (garbage p) (sv_objects sv !! p)) with (object_at sv p). set (r0 := object_at sv p).
  assert (Hl0 : array_ok r0) by (unfold r0, object_at; destruct (sv_objects sv !! p) as [r|] eqn:Er; [by eapply Har | apply garbage_array]).
  assert (Hi0 : index_or_plain r0 (to_come w)) by (destruct Hix as [Hix|?]; [left; apply Hix | by right]).
  assert (Hin : p ∈ live1) by (destruct Hown1 as [_ _ -> _ _ _]; set_solver).
  set (m1 := map_block _ _ _). assert (Hm1 : mapped m1 (p + SIZEOF_HTTP_REQUEST) (p + size)).
  { intros x Hx. unfold m1. rewrite map_block_lookup. destruct (sv_mem sv !! x); [by eexists|]. rewrite decide_True by lia. by eexists. }
  destruct (init_request_ready m1 p fd size r0 w (Hpl1 p Hin) size_ok Hm1 Hl0 Hi0 Hnum) as (Hready & Hsafe & Hroom & Hshort).
  set (r1 := init_request p fd size r0) in *.
  destruct (request_served cfg m1 r1 w cfg_default Hready Hl0 Hsafe Hroom Hshort) as (m2 & r2 & w2 & code & -> & Hc & Hans & Hout & Hl2 & Hi2).
  cres_simpl. unfold memcache_free.
  destruct (add_element_ok live1 c1 _ rest p Hown1) as (c2 & live2 & E2 & Hown2 & _); [set_solver|]. rewrite E2. cres_simpl.
  eexists _, _. split; [reflexivity|]. split; [|split].
  - split; cbn; [| |by eapply add_element_placed | done].
    + replace (({[p]} ∪ used) ∖ {[p]}) with used in Hown2 by set_solver. done.
    + intros q r. destruct (decide (q = p)) as [->|Hne]; [rewrite lookup_insert_eq; intros [= <-]; unfold array_ok; by rewrite Hl2 | rewrite lookup_insert_ne by done; apply Har].
  - eapply (Served _ _ _ _ _ _ _ p code); try done. cbn. intros x Hx. rewrite Hout.
    + unfold m1. rewrite map_block_lookup. destruct (sv_mem sv !! x); [done|]. rewrite decide_False; [done|]. lia.
    + unfold r1, init_request, bind_buffer. req_simpl. cbn [b_start b_end]. lia.
  - intros Hok q. unfold object_at. cbn [sv_objects]. destruct (decide (q = p)) as [->|Hne]; [|rewrite lookup_insert_ne by done; apply Hok].
    rewrite lookup_insert_eq. cbn [default from_option id]. apply Hi2. split; [apply Hok | exact Hl0].
Qed.

(** Clients one after the other, each with what it sends. *)
Fixpoint serve (sv : server) (clients : list (Z * net)) : cres (server * list net) :=
  match clients with
  | [] => mret (sv, [])
  | (fd, w) :: clients =>
    '(sv, w) ← http_request_handler malloc garbage cfg sv fd w;
    '(sv, ws) ← serve sv clients;
    mret (sv, w :: ws)
  end.

Definition got_answer (client : Z * net) (w' : net) : Prop :=
  w' = net_send client.1 HTTP_INSUFFICIENT_STORAGE_PAGE client.2 ∨ ∃ code, default_code code ∧ answered client.1 client.2 w' code.

Lemma serve_ok used rest clients : ∀ sv,
  server_inv used rest sv → Forall (λ c, no_ten_digits (to_come c.2) = true) clients →
  indexes_ok sv ∨ Forall (λ c, plain_start (to_come c.2) = true) clients →
  ∃ sv' ws, serve sv clients = Ok (sv', ws) ∧ server_inv used rest sv' ∧ Forall2 got_answer clients ws.
Proof.
  induction clients as [|[fd w] clients IH]; intros sv Hsv Hc Hix; cbn [serve]; [eexists _, _; split; [done|]; by split|].
  apply Forall_cons in Hc as [Hw Hc]. destruct (http_request_handler_ok used rest sv fd w Hsv Hw) as (sv1 & w1 & -> & Hsv1 & Ho & Hi).
  { destruct Hix as [?|[? _]%Forall_cons]; [by left | by right]. }
  cres_simpl. destruct (IH sv1 Hsv1 Hc ltac:(destruct Hix as [?|[_ ?]%Forall_cons]; [left; auto | by right])) as (sv2 & ws & -> & Hsv2 & Hws). cres_simpl. eexists _, _. split; [done|]. split; [done|]. constructor; [|done].
  destruct Ho as [p code ? ? ? Hd Ha _| -> _]; [right; by exists code | by left].
Qed.

End Connections.

(** C4: connections do not disturb each other.  While other connections hold the objects
    [used], a connection whose client sends no ten digits in a row runs to its end without
    undefined behaviour; it gets an object that no other connection has, writes no byte of
    memory outside the buffer of that object, hands one complete response for its client to [send]
    and gives the object back; or there is no memory for an object, and the page that says
    so is all that is sent.  In both cases the invariant of the module holds again, with the same
    objects in use.  The object may hold anything that earlier connections or [malloc] have
    left in it, with one condition: the [lowcase_index] of the objects, which nothing
    initialises, is valid, or the first header line of the client starts with a letter, a digit
    or a hyphen, so that it is not used.  Indexes that are valid stay valid. *)
Theorem connection_isolated {net} `{NetworkLaws net} `{!Streamed net} malloc garbage size (cfg : config (net:=net) (heap:=hheap) (table:=hash_table)) used rest sv fd (w : net) :
  1024 ≤ size < 2 ^ 31 → fresh_malloc malloc → (∀ live, malloc live ≠ NULL → address_ok size (malloc live)) →
  (∀ p, array_ok (garbage p)) → default_config cfg → server_inv size used rest sv → no_ten_digits (to_come w) = true →
  indexes_ok garbage sv ∨ plain_start (to_come w) = true →
  ∃ sv' w', http_request_handler malloc garbage cfg sv fd w = Ok (sv', w') ∧ server_inv size used rest sv' ∧
    outcome size used rest fd w w' (sv_mem sv) (sv_mem sv') ∧ (indexes_ok garbage sv → indexes_ok garbage sv').
Proof. intros Hs Hf Ha Hg Hd. by apply http_request_handler_ok. Qed.

(** The module that [worker_process_init] has started. *)
Lemma worker_init_running {net} `{Network net} pool_malloc malloc live h conns entry cfg sv :
  worker_process_init (net:=net) pool_malloc malloc live h conns entry = Ok (Running (0, Some (cfg, sv))) →
  ∃ kb, 1 ≤ kb ≤ 4 ∧ http_request_init pool_malloc malloc live h conns kb None None None = Ok (Running (cfg, sv)).
Proof.
  unfold worker_process_init. intros E. assert (∃ kb, 1 ≤ kb ≤ 4 ∧ proc_bind (http_request_init (net:=net) pool_malloc malloc live h conns kb None None None)
      (λ x, mret (Running (0, Some x))) = Ok (Running (0, Some (cfg, sv)))) as (kb & Hkb & E').
  { destruct (negb (str_equal entry (str "default"))); cres_simpl; [|by exists 2].
    destruct (atoi entry) as [v| |]; try done. cres_simpl. destruct ((size_t v =? 0) || (4 <? size_t v)) eqn:Ez; [done|]. exists (size_t v). split; [|done].
    apply orb_false_iff in Ez as [E1%Z.eqb_neq E2%Z.ltb_ge]. assert (0 ≤ size_t v) by (unfold size_t, u64; apply Z.mod_pos_bound; lia). lia. }
  exists kb. split; [done|]. destruct (http_request_init _ _ _ _ _ _ _ _ _) as [[x| |]| |]; try done. cbn in E'. by injection E' as ->.
Qed.

(** From the start of the HTTP module on, every client in any sequence gets an answer:
    whatever the clients send, without ten digits in a row, and whatever an earlier client has
    left in the object of a later one, as long as fresh objects happen to have a valid
    [lowcase_index] or the first headers of the clients start well, [http_request_handler]
    returns for each of them without undefined behaviour, having sent it one complete response with status 200,
    400 or 507, or the page for a server without memory; and afterwards the pool owns
    its objects again. *)
Theorem clients_served {net} `{NetworkLaws net} `{!Streamed net} pool_malloc malloc live h conns entry (cfg : config (net:=net) (heap:=hheap) (table:=hash_table)) sv garbage clients :
  fresh_malloc pool_malloc → allocates malloc → NULL ∉ live → 2 ≤ conns →
  (∀ l, pool_malloc l ≠ NULL → 0 < pool_malloc l < 2 ^ 63) → (∀ x, x ∈ live → 0 < x < 2 ^ 63) →
  (∀ p, array_ok (garbage p)) →
  worker_process_init pool_malloc malloc live h conns entry = Ok (Running (0, Some (cfg, sv))) →
  Forall (λ c, no_ten_digits (to_come c.2) = true) clients →
  (∀ p, 0 ≤ lowcase_index (garbage p) < HTTP_LC_HEADER_LEN) ∨ Forall (λ c, plain_start (to_come c.2) = true) clients →
  ∃ sv' ws, serve pool_malloc garbage cfg sv clients = Ok (sv', ws) ∧ Forall2 got_answer clients ws ∧
    owned (sv_live sv') (sv_cache sv') ∅ live.
Proof.
  intros Hp Hm Hnull Hc Hpa Hla Hg E Hcl Hix. destruct (worker_init_running _ _ _ _ _ _ _ _ E) as (kb & Hkb & Ei).
  destruct (http_request_init_ok (net:=net) pool_malloc malloc live h conns kb Hp Hm Hnull Hc ltac:(lia)) as [(code & E' & _)|(cfg' & sv0 & E' & Hd & Ho & Hs & _ & Hob & _ & Hpl)];
    rewrite Ei in E'; [done|]. injection E' as <- <-.
  assert (Haddr : ∀ x, 0 < x < 2 ^ 63 → address_ok (kb * 1024) x) by (unfold address_ok; lia).
  destruct (serve_ok pool_malloc garbage (kb * 1024) cfg ltac:(lia) Hp ltac:(intros l Hl; by apply Haddr, Hpa) Hg Hd ∅ live clients sv) as (sv' & ws & Es & [Ho' _ _ _] & Hws).
  - split; [done | by rewrite Hob | | done]. intros x Hx. apply Haddr. by apply (Hpl (λ x, 0 < x < 2 ^ 63) Hpa Hla).
  - done.
  - destruct Hix as [Hix|?]; [left|by right]. intros p. unfold object_at. rewrite Hob, lookup_empty. apply Hix.
  - by exists sv', ws.
Qed.

(** ** Witness *)

(** An allocator of blocks of 4 KiB *)
Definition pages (limit : nat) (live : gset Z) : Z := default NULL (head (filter (λ p, p ∉ live) ((λ i, 4096 * Z.of_nat i) <$> seq 1 limit))).

Lemma pages_cases limit live : pages limit live = NULL ∨ (pages limit live ∉ live ∧ ∃ i, 0 < i ≤ Z.of_nat limit ∧ pages limit live = 4096 * i).
Proof.
  unfold pages. destruct (filter _ _) as [|p l] eqn:E; [by left|right]. cbn. assert (Hp : p ∈ p :: l) by (by left). rewrite <-E in Hp.
  apply list_elem_of_filter in Hp as [Hn (i & -> & Hi%elem_of_seq)%list_elem_of_fmap]. split; [done|]. exists (Z.of_nat i). lia.
Qed.

Lemma pages_fresh limit : fresh_malloc (pages limit).
Proof. intros live. destruct (pages_cases limit live) as [?|[? _]]; [by left | by right]. Qed.

Lemma pages_address limit live : Z.of_nat limit < 2 ^ 32 → pages limit live ≠ NULL → 0 < pages limit live < 2 ^ 63.
Proof. intros Hl Hn. destruct (pages_cases limit live) as [?|[_ (i & Hi & ->)]]; [done | lia]. Qed.

(** Three clients: one is served, the next sends nonsense, the last has the object of both. *)
Definition three_clients : list (Z * script) :=
  [(9, sample_client); (10, Script [str "BREW /"; CRLF] []); (9, Script [str "GET / HTTP/1.1" ++ CRLF; CRLF] [])].

Definition paged_module : option (config (net:=script) (heap:=hheap) (table:=hash_table) * server) :=
  match worker_process_init (pages 20) table_malloc ∅ no_heap 8 (str "default") with Ok (Running (0, x)) => x | _ => None end.

Lemma clients_served_witness :
  ∃ cfg sv sv' ws, worker_process_init (pages 20) table_malloc ∅ no_heap 8 (str "default") = Ok (Running (0, Some (cfg, sv))) ∧
    serve (pages 20) (λ _, stale_request) cfg sv three_clients = Ok (sv', ws) ∧ Forall2 got_answer three_clients ws ∧ owned (sv_live sv') (sv_cache sv') ∅ ∅.
Proof.
  assert (Hm : match paged_module with Some _ => true | None => false end = true) by (vm_compute; reflexivity). unfold paged_module in Hm.
  destruct (worker_process_init (pages 20) table_malloc ∅ no_heap 8 (str "default")) as [[[[|z|z] [[cfg sv]|]]| |]| |] eqn:E; try discriminate Hm.
  clear Hm. exists cfg, sv. destruct (clients_served (pages 20) table_malloc ∅ no_heap 8 (str "default") cfg sv (λ _, stale_request) three_clients) as (sv' & ws & Es & Hws & Ho);
    [apply pages_fresh | apply table_malloc_allocates | exact (not_elem_of_empty NULL) | clear; lia | intros l; apply pages_address; reflexivity | intros x Hx; destruct (not_elem_of_empty x Hx)
    | reflexivity | exact E | repeat constructor; vm_compute; reflexivity | right; repeat constructor; vm_compute; reflexivity |].
  exists sv', ws. split; [reflexivity|]. split; [exact Es|]. split; [exact Hws | exact Ho].
Defined.

Lemma paged_started : ∃ cfg sv, paged_module = Some (cfg, sv) ∧ default_config cfg ∧ server_inv 2048 ∅ ∅ sv ∧ curr (sv_cache sv) = 2.
Proof.
  assert (Hm : (λ x, curr (sv_cache x.2)) <$> paged_module = Some 2) by (vm_compute; reflexivity). unfold paged_module in *.
  change (worker_process_init (net:=script) (pages 20) table_malloc ∅ no_heap 8 (str "default")) with
    (proc_bind (http_request_init (net:=script) (pages 20) table_malloc ∅ no_heap 8 2 None None None) (λ x, mret (Running (0, Some x)))) in *.
  destruct (http_request_init_ok (net:=script) (pages 20) table_malloc ∅ no_heap 8 2 (pages_fresh 20) table_malloc_allocates (not_elem_of_empty NULL) ltac:(lia) ltac:(lia))
    as [(code & E & _)|(cfg & sv & E & Hd & Ho & Hs & _ & Hob & _ & Hpl)]; rewrite E in *; cbn in *; [discriminate Hm|].
  exists cfg, sv. split; [done|]. split; [done|]. split; [|by injection Hm]. split; [done | by rewrite Hob | | done].
  intros x Hx. assert (0 < x < 2 ^ 63); [|unfold address_ok; lia]. apply (Hpl (λ x, 0 < x < 2 ^ 63)); [|intros y Hy; destruct (not_elem_of_empty y Hy) | done].
  intros l. by apply pages_address.
Qed.

(** While another connection has the object [q], in an object whose index was never set *)
Lemma connection_isolated_witness :
  ∃ q cfg sv sv' w', server_inv 2048 {[q]} ∅ sv ∧ http_request_handler (pages 20) (λ _, stale_request) cfg sv 9 sample_client = Ok (sv', w') ∧
    server_inv 2048 {[q]} ∅ sv' ∧ outcome 2048 {[q]} ∅ 9 sample_client w' (sv_mem sv) (sv_mem sv').
Proof.
  destruct paged_started as (cfg & sv & _ & Hd & [Ho Hix Hpl Hsz] & Hcurr).
  assert (Hpa : ∀ live, pages 20 live ≠ NULL → address_ok 2048 (pages 20 live)) by (intros l Hl; pose proof (pages_address 20 l eq_refl Hl); unfold address_ok; lia).
  destruct (alloc_ok (pages 20) _ _ _ _ (pages_fresh 20) Ho) as (q & c & live & Ea & [(_ & H0 & _)|(_ & _ & _ & Ho')]); [rewrite Hcurr in H0; discriminate H0|].
  set (sv1 := Server c live (sv_objects sv) (sv_mem sv) (client_header_size sv)).
  assert (Hi : server_inv 2048 {[q]} ∅ sv1).
  { split; [cbn; by rewrite right_id_L in Ho' by apply _ | exact Hix | exact (alloc_placed _ _ Hpa _ _ _ _ _ Ea Hpl) | exact Hsz]. }
  exists q, cfg, sv1.
  destruct (connection_isolated (pages 20) (λ _, stale_request) 2048 cfg {[q]} ∅ sv1 9 sample_client) as (sv' & w' & E & Hi' & Hout & _);
    [lia | apply pages_fresh | exact Hpa | reflexivity | exact Hd | exact Hi | vm_compute; reflexivity | right; vm_compute; reflexivity |].
  exists sv', w'. split; [exact Hi|]. split; [exact E|]. split; [exact Hi' | exact Hout].
Defined.
