(* ===== verification/RbTree.v ===== *)
(** The red-black tree of [src/util/rbtree.c] and [src/util/rbtree.h].

    Nodes are heap cells; the parent pointer and the colour share the word
    [rb_parent_color], as in the source: bit 0 is the colour and the node addresses are
    multiples of four.  Every function is the sequence of loads and stores of the code. *)

From stdpp Require Import base gmap list numbers.
From Stdlib Require Import ZArith Lia.
From S2P Require Import Prelude.

Definition RB_RED : Z := 0.
Definition RB_BLACK : Z := 1.

Record rb_node : Type := RbNode { rb_parent_color : Z; rb_left : Z; rb_right : Z }.

(** The heap of nodes and the word of [struct rb_root]. *)
Record rb_state : Type := RbState { rb_heap : gmap Z rb_node; rb_root : Z }.

Definition rb_get (s : rb_state) (x : Z) : cres rb_node := of_option (rb_heap s !! x).
Definition rb_put (s : rb_state) (x : Z) (n : rb_node) : rb_state := RbState (<[x := n]> (rb_heap s)) (rb_root s).
Definition rb_set_root (s : rb_state) (x : Z) : rb_state := RbState (rb_heap s) x.

Definition rb_parent (n : rb_node) : Z := Z.land (rb_parent_color n) (Z.lnot 3).
Definition rb_color (n : rb_node) : Z := Z.land (rb_parent_color n) 1.
Definition rb_is_red (n : rb_node) : bool := rb_color n =? 0.
Definition rb_is_black (n : rb_node) : bool := negb (rb_color n =? 0).

Definition rb_set_left (s : rb_state) (x v : Z) : cres rb_state :=
  n ← rb_get s x; mret (rb_put s x (RbNode (rb_parent_color n) v (rb_right n))).
Definition rb_set_right (s : rb_state) (x v : Z) : cres rb_state :=
  n ← rb_get s x; mret (rb_put s x (RbNode (rb_parent_color n) (rb_left n) v)).
Definition rb_set_pc (s : rb_state) (x v : Z) : cres rb_state :=
  n ← rb_get s x; mret (rb_put s x (RbNode v (rb_left n) (rb_right n))).

Definition rb_set_red (s : rb_state) (x : Z) : cres rb_state :=
  n ← rb_get s x; rb_set_pc s x (Z.land (rb_parent_color n) (Z.lnot 1)).
Definition rb_set_black (s : rb_state) (x : Z) : cres rb_state :=
  n ← rb_get s x; rb_set_pc s x (Z.lor (rb_parent_color n) 1).
Definition rb_set_parent (s : rb_state) (x p : Z) : cres rb_state :=
  n ← rb_get s x; rb_set_pc s x (Z.lor (Z.land (rb_parent_color n) 3) p).
Definition rb_set_color (s : rb_state) (x color : Z) : cres rb_state :=
  n ← rb_get s x; rb_set_pc s x (Z.lor (Z.land (rb_parent_color n) (Z.lnot 1)) color).

Definition RB_EMPTY_ROOT (root : Z) : bool := root =? NULL.
Definition RB_CLEAR_NODE (s : rb_state) (x : Z) : cres rb_state := rb_set_parent s x x.

(** Where [rb_link] of [rb_link_node] points: the root word or a child of a node. *)
Inductive rb_link : Type :=
| LinkRoot
| LinkLeft (x : Z)
| LinkRight (x : Z).

Definition read_link (s : rb_state) (k : rb_link) : cres Z :=
  match k with
  | LinkRoot => mret (rb_root s)
  | LinkLeft x => n ← rb_get s x; mret (rb_left n)
  | LinkRight x => n ← rb_get s x; mret (rb_right n)
  end.

Definition write_link (s : rb_state) (k : rb_link) (v : Z) : cres rb_state :=
  match k with
  | LinkRoot => mret (rb_set_root s v)
  | LinkLeft x => rb_set_left s x v
  | LinkRight x => rb_set_right s x v
  end.

Definition rb_link_node (s : rb_state) (node parent : Z) (k : rb_link) : cres rb_state :=
  s ← rb_set_pc s node parent;
  s ← rb_set_right s node NULL;
  s ← rb_set_left s node NULL;
  write_link s k node.

(** ** Rotations *)

Definition __rb_rotate_left (s : rb_state) (node : Z) : cres rb_state :=
  n ← rb_get s node;
  let right := rb_right n in
  let parent := rb_parent n in
  r ← rb_get s right;
  s ← rb_set_right s node (rb_left r);
  s ← (if negb (rb_left r =? NULL) then rb_set_parent s (rb_left r) node else mret s);
  s ← rb_set_left s right node;
  s ← rb_set_parent s right parent;
  s ← (if negb (parent =? NULL) then
         p ← rb_get s parent;
         if node =? rb_left p then rb_set_left s parent right else rb_set_right s parent right
       else mret (rb_set_root s right));
  rb_set_parent s node right.

Definition __rb_rotate_right (s : rb_state) (node : Z) : cres rb_state :=
  n ← rb_get s node;
  let left := rb_left n in
  let parent := rb_parent n in
  l ← rb_get s left;
  s ← rb_set_left s node (rb_right l);
  s ← (if negb (rb_right l =? NULL) then rb_set_parent s (rb_right l) node else mret s);
  s ← rb_set_right s left node;
  s ← rb_set_parent s left parent;
  s ← (if negb (parent =? NULL) then
         p ← rb_get s parent;
         if node =? rb_right p then rb_set_right s parent left else rb_set_left s parent left
       else mret (rb_set_root s left));
  rb_set_parent s node left.

(** ** Insertion *)

(** The loop climbs at most to the root: a node per iteration. *)
Definition climb_fuel (s : rb_state) : nat := S (size (rb_heap s)).

Fixpoint insert_color_loop (fuel : nat) (s : rb_state) (node : Z) : cres rb_state :=
  match fuel with
  | O => Fuel
  | S fuel =>
    n ← rb_get s node;
    let parent := rb_parent n in
    if parent =? NULL then mret s else
    p ← rb_get s parent;
    if negb (rb_is_red p) then mret s else
    let gparent := rb_parent p in
    g ← rb_get s gparent;
    if parent =? rb_left g then
      let uncle := rb_right g in
      uncle_red ← (if uncle =? NULL then mret false else u ← rb_get s uncle; mret (rb_is_red u));
      if uncle_red : bool then
        s ← rb_set_black s uncle;
        s ← rb_set_black s parent;
        s ← rb_set_red s gparent;
        insert_color_loop fuel s gparent
      else
        '(s, node, parent) ← (if rb_right p =? node
                              then s ← __rb_rotate_left s parent; mret (s, parent, node)
                              else mret (s, node, parent));
        s ← rb_set_black s parent;
        s ← rb_set_red s gparent;
        s ← __rb_rotate_right s gparent;
        insert_color_loop fuel s node
    else
      let uncle := rb_left g in
      uncle_red ← (if uncle =? NULL then mret false else u ← rb_get s uncle; mret (rb_is_red u));
      if uncle_red : bool then
        s ← rb_set_black s uncle;
        s ← rb_set_black s parent;
        s ← rb_set_red s gparent;
        insert_color_loop fuel s gparent
      else
        '(s, node, parent) ← (if rb_left p =? node
                              then s ← __rb_rotate_right s parent; mret (s, parent, node)
                              else mret (s, node, parent));
        s ← rb_set_black s parent;
        s ← rb_set_red s gparent;
        s ← __rb_rotate_left s gparent;
        insert_color_loop fuel s node
  end.

Definition rb_insert_color (s : rb_state) (node : Z) : cres rb_state :=
  s ← insert_color_loop (climb_fuel s) s node;
  rb_set_black s (rb_root s).

(** ** Removal *)

(** [!x || rb_is_black(x)] *)
Definition null_or_black (s : rb_state) (x : Z) : cres bool :=
  if x =? NULL then mret true else n ← rb_get s x; mret (rb_is_black n).

(** The loop of [__rb_erase_color]; the result is the node it ends with. *)
Fixpoint erase_color_loop (fuel : nat) (s : rb_state) (node parent : Z) : cres (rb_state * Z) :=
  match fuel with
  | O => Fuel
  | S fuel =>
    black ← null_or_black s node;
    if negb (black && negb (node =? rb_root s)) then mret (s, node) else
    p ← rb_get s parent;
    if rb_left p =? node then
      let other := rb_right p in
      o ← rb_get s other;
      '(s, other) ← (if rb_is_red o then
                       s ← rb_set_black s other;
                       s ← rb_set_red s parent;
                       s ← __rb_rotate_left s parent;
                       p ← rb_get s parent;
                       mret (s, rb_right p)
                     else mret (s, other));
      o ← rb_get s other;
      left_black ← null_or_black s (rb_left o);
      right_black ← null_or_black s (rb_right o);
      if left_black && right_black then
        s ← rb_set_red s other;
        p ← rb_get s parent;
        erase_color_loop fuel s parent (rb_parent p)
      else
        '(s, other) ← (if right_black : bool then
                         s ← rb_set_black s (rb_left o);
                         s ← rb_set_red s other;
                         s ← __rb_rotate_right s other;
                         p ← rb_get s parent;
                         mret (s, rb_right p)
                       else mret (s, other));
        p ← rb_get s parent;
        s ← rb_set_color s other (rb_color p);
        s ← rb_set_black s parent;
        o ← rb_get s other;
        s ← rb_set_black s (rb_right o);
        s ← __rb_rotate_left s parent;
        mret (s, rb_root s)
    else
      let other := rb_left p in
      o ← rb_get s other;
      '(s, other) ← (if rb_is_red o then
                       s ← rb_set_black s other;
                       s ← rb_set_red s parent;
                       s ← __rb_rotate_right s parent;
                       p ← rb_get s parent;
                       mret (s, rb_left p)
                     else mret (s, other));
      o ← rb_get s other;
      left_black ← null_or_black s (rb_left o);
      right_black ← null_or_black s (rb_right o);
      if left_black && right_black then
        s ← rb_set_red s other;
        p ← rb_get s parent;
        erase_color_loop fuel s parent (rb_parent p)
      else
        '(s, other) ← (if left_black : bool then
                         s ← rb_set_black s (rb_right o);
                         s ← rb_set_red s other;
                         s ← __rb_rotate_left s other;
                         p ← rb_get s parent;
                         mret (s, rb_left p)
                       else mret (s, other));
        p ← rb_get s parent;
        s ← rb_set_color s other (rb_color p);
        s ← rb_set_black s parent;
        o ← rb_get s other;
        s ← rb_set_black s (rb_left o);
        s ← __rb_rotate_right s parent;
        mret (s, rb_root s)
  end.

Definition __rb_erase_color (s : rb_state) (node parent : Z) : cres rb_state :=
  '(s, node) ← erase_color_loop (climb_fuel s) s node parent;
  if negb (node =? NULL) then rb_set_black s node else mret s.

(** [while ((left = node->rb_left)) node = left;] *)
Fixpoint leftmost (fuel : nat) (s : rb_state) (node : Z) : cres Z :=
  match fuel with
  | O => Fuel
  | S fuel =>
    n ← rb_get s node;
    if rb_left n =? NULL then mret node else leftmost fuel s (rb_left n)
  end.

(** The child of [parent] that is [old] becomes [new]; without a parent the root does. *)
Definition replace_child (s : rb_state) (parent old new : Z) : cres rb_state :=
  if negb (parent =? NULL) then
    p ← rb_get s parent;
    if rb_left p =? old then rb_set_left s parent new else rb_set_right s parent new
  else mret (rb_set_root s new).

(** The case of two children: the successor takes the place of [old]. *)
Definition erase_two (s : rb_state) (old : Z) : cres (rb_state * Z * Z * Z) :=
  o ← rb_get s old;
  node ← leftmost (climb_fuel s) s (rb_right o);
  s ← replace_child s (rb_parent o) old node;
  n ← rb_get s node;
  let child := rb_right n in
  let parent := rb_parent n in
  let color := rb_color n in
  '(s, parent) ← (if parent =? old then mret (s, node)
                  else
                    s ← (if negb (child =? NULL) then rb_set_parent s child parent else mret s);
                    s ← rb_set_left s parent child;
                    o ← rb_get s old;
                    s ← rb_set_right s node (rb_right o);
                    s ← rb_set_parent s (rb_right o) node;
                    mret (s, parent));
  o ← rb_get s old;
  s ← rb_set_pc s node (rb_parent_color o);
  s ← rb_set_left s node (rb_left o);
  s ← rb_set_parent s (rb_left o) node;
  mret (s, child, parent, color).

Definition erase_one (s : rb_state) (node child : Z) : cres (rb_state * Z * Z * Z) :=
  n ← rb_get s node;
  let parent := rb_parent n in
  let color := rb_color n in
  s ← (if negb (child =? NULL) then rb_set_parent s child parent else mret s);
  s ← replace_child s parent node child;
  mret (s, child, parent, color).

Definition rb_erase (s : rb_state) (node : Z) : cres rb_state :=
  n ← rb_get s node;
  '(s, child, parent, color) ← (if rb_left n =? NULL then erase_one s node (rb_right n)
                                else if rb_right n =? NULL then erase_one s node (rb_left n)
                                else erase_two s node);
  if color =? RB_BLACK then __rb_erase_color s child parent else mret s.

Definition rb_first (s : rb_state) : cres Z :=
  if rb_root s =? NULL then mret NULL else leftmost (climb_fuel s) s (rb_root s).
