(* ===== verification/RbRep.v ===== *)
(** Heaps that hold a tree, and the primitive operations on them.

    [tree] is the shape with its colours and node addresses; [tree_at h p t] says that the
    heap [h] holds [t] below the parent [p].  A position in a tree is a list of frames from
    the node up to the root ([fill]).  Every store of the program changes a tree at one
    position, so each primitive (recolouring, rotating, linking, unlinking) has one lemma
    that says what it does to [fill ps t]; the algorithms are then followed at the level of
    shapes. *)

From stdpp Require Import base gmap list numbers strings sets.
From Stdlib Require Import ZArith Lia.
From S2P Require Import Prelude RbTree.

Inductive color : Type := Red | Black.

#[export] Instance color_eq_dec : EqDecision color.
Proof. solve_decision. Defined.

Definition bit (c : color) : Z := match c with Red => RB_RED | Black => RB_BLACK end.

Inductive tree : Type :=
| E
| T (c : color) (l : tree) (x : Z) (r : tree).

#[export] Instance tree_eq_dec : EqDecision tree.
Proof. solve_decision. Defined.

Definition top (t : tree) : Z := match t with E => NULL | T _ _ x _ => x end.
Definition hue (t : tree) : color := match t with E => Black | T c _ _ _ => c end.

(** The nodes in their order. *)
Fixpoint addrs (t : tree) : list Z :=
  match t with
  | E => []
  | T _ l x r => addrs l ++ x :: addrs r
  end.

(** ** Words *)

Definition aligned (x : Z) : Prop := 0 < x ∧ x mod 4 = 0.
(** A parent is NULL or a node. *)
Definition parent_ok (p : Z) : Prop := p = NULL ∨ aligned p.

Lemma parent_ok_div p : parent_ok p → 0 ≤ p ∧ p = 4 * (p / 4).
Proof.
  intros [->|[Hp Hm]]; [done|]. split; [lia|]. pose proof (Z.div_mod p 4 ltac:(lia)). lia.
Qed.

Lemma bit_range c : bit c = 0 ∨ bit c = 1.
Proof. destruct c; [by left | by right]. Qed.

Lemma lor_one a : Z.lor a 1 = 2 * (a / 2) + 1.
Proof.
  apply Z.bits_inj'. intros n Hn. rewrite Z.lor_spec.
  destruct (Z.eq_dec n 0) as [->|Hn0].
  - by rewrite Z.testbit_odd_0, orb_true_r.
  - replace n with (Z.succ (n - 1)) by lia. rewrite Z.testbit_odd_succ by lia.
    rewrite <-Z.div2_div, Z.div2_spec, Z.shiftr_spec by lia.
    replace (n - 1 + 1) with (Z.succ (n - 1)) by lia.
    rewrite (Z.bits_above_log2 1 (Z.succ (n - 1))) by (cbn; lia). by rewrite orb_false_r.
Qed.

(** Arithmetic with quotients. *)
Ltac zdiv := Z.to_euclidean_division_equations; lia.

Section Words.
  Context (p : Z) (c : color) (Hp : parent_ok p).

Lemma pc_parent l r : rb_parent (RbNode (p + bit c) l r) = p.
Proof using Hp.
  destruct (parent_ok_div p Hp) as [H0 H4]. unfold rb_parent. cbn [rb_parent_color].
  rewrite <-Z.ldiff_land. change 3 with (Z.ones 2). rewrite Z.ldiff_ones_r, Z.shiftl_mul_pow2, Z.shiftr_div_pow2 by lia.
  change (2 ^ 2) with 4. destruct (bit_range c) as [-> | ->]; zdiv.
Qed.

Lemma pc_color l r : rb_color (RbNode (p + bit c) l r) = bit c.
Proof using Hp.
  destruct (parent_ok_div p Hp) as [H0 H4]. unfold rb_color. cbn [rb_parent_color].
  change 1 with (Z.ones 1). rewrite Z.land_ones by lia. change (2 ^ 1) with 2.
  destruct (bit_range c) as [-> | ->]; zdiv.
Qed.

Lemma pc_red : Z.land (p + bit c) (Z.lnot 1) = p + bit Red.
Proof using Hp.
  destruct (parent_ok_div p Hp) as [H0 H4]. rewrite <-Z.ldiff_land. change 1 with (Z.ones 1).
  rewrite Z.ldiff_ones_r, Z.shiftl_mul_pow2, Z.shiftr_div_pow2 by lia. change (2 ^ 1) with 2.
  cbn [bit]. unfold RB_RED. destruct (bit_range c) as [-> | ->]; zdiv.
Qed.

Lemma pc_black : Z.lor (p + bit c) 1 = p + bit Black.
Proof using Hp.
  destruct (parent_ok_div p Hp) as [H0 H4]. rewrite lor_one. cbn [bit]. unfold RB_BLACK.
  destruct (bit_range c) as [-> | ->]; zdiv.
Qed.

Lemma pc_set_parent q : parent_ok q → Z.lor (Z.land (p + bit c) 3) q = q + bit c.
Proof using Hp.
  intros Hq. destruct (parent_ok_div p Hp) as [H0 H4]. destruct (parent_ok_div q Hq) as [Q0 Q4].
  change 3 with (Z.ones 2). rewrite Z.land_ones by lia. change (2 ^ 2) with 4.
  replace ((p + bit c) mod 4) with (bit c) by (destruct (bit_range c) as [-> | ->]; zdiv).
  destruct c; cbn [bit]; unfold RB_RED, RB_BLACK; [by rewrite Z.lor_0_l, Z.add_0_r|].
  rewrite Z.lor_comm, lor_one. zdiv.
Qed.

Lemma pc_set_color d : Z.lor (Z.land (p + bit c) (Z.lnot 1)) (bit d) = p + bit d.
Proof using Hp.
  rewrite pc_red. destruct (parent_ok_div p Hp) as [H0 H4]. cbn [bit]. unfold RB_RED. rewrite Z.add_0_r.
  destruct d; cbn [bit]; unfold RB_RED, RB_BLACK; [by rewrite Z.lor_0_r, Z.add_0_r|]. rewrite lor_one. zdiv.
Qed.

Lemma pc_is_red l r : rb_is_red (RbNode (p + bit c) l r) = bool_decide (c = Red).
Proof using Hp. unfold rb_is_red. rewrite pc_color. by destruct c. Qed.

Lemma pc_is_black l r : rb_is_black (RbNode (p + bit c) l r) = bool_decide (c = Black).
Proof using Hp. unfold rb_is_black. rewrite pc_color. by destruct c. Qed.

End Words.

(** ** Trees in the heap *)

Fixpoint tree_at (h : gmap Z rb_node) (p : Z) (t : tree) : Prop :=
  match t with
  | E => True
  | T c l x r =>
    aligned x ∧ h !! x = Some (RbNode (p + bit c) (top l) (top r)) ∧ tree_at h x l ∧ tree_at h x r
  end.

Lemma tree_at_ext h h' p t : (∀ x, x ∈ addrs t → h' !! x = h !! x) → tree_at h p t → tree_at h' p t.
Proof.
  revert p. induction t as [|c l IHl x r IHr]; intros p He; [done|]. cbn [tree_at addrs] in *.
  intros (Hx & Hh & Hl & Hr). split_and!; [done | | |].
  - rewrite He; [done|]. set_solver.
  - apply IHl; [|done]. intros y Hy. apply He. set_solver.
  - apply IHr; [|done]. intros y Hy. apply He. set_solver.
Qed.

Lemma tree_at_aligned h p t x : tree_at h p t → x ∈ addrs t → aligned x.
Proof.
  revert p. induction t as [|c l IHl y r IHr]; intros p; cbn [tree_at addrs]; [set_solver|].
  intros (Hy & _ & Hl & Hr) [Hx|[->|Hx]%elem_of_cons]%elem_of_app; eauto.
Qed.

Lemma tree_at_mapped h p t x : tree_at h p t → x ∈ addrs t → is_Some (h !! x).
Proof.
  revert p. induction t as [|c l IHl y r IHr]; intros p; cbn [tree_at addrs]; [set_solver|].
  intros (_ & Hy & Hl & Hr) [Hx|[->|Hx]%elem_of_cons]%elem_of_app; eauto.
Qed.

Lemma top_elem t : t ≠ E → top t ∈ addrs t.
Proof. destruct t as [|c l x r]; [done|]. intros _. cbn [addrs top]. set_solver. Qed.

(** A frame: the focus is the left ([FL]) or the right ([FR]) child of [x]. *)
Inductive frame : Type :=
| FL (c : color) (x : Z) (r : tree)
| FR (c : color) (x : Z) (l : tree).

Definition plug (f : frame) (t : tree) : tree :=
  match f with
  | FL c x r => T c t x r
  | FR c x l => T c l x t
  end.

Fixpoint fill (ps : list frame) (t : tree) : tree :=
  match ps with
  | [] => t
  | f :: ps => fill ps (plug f t)
  end.

Definition at_frame (f : frame) : Z := match f with FL _ x _ | FR _ x _ => x end.
Definition hue_frame (f : frame) : color := match f with FL c _ _ | FR c _ _ => c end.
Definition sibling (f : frame) : tree := match f with FL _ _ r => r | FR _ _ l => l end.

(** The parent of the focus. *)
Definition above (ps : list frame) : Z := match ps with [] => NULL | f :: _ => at_frame f end.

(** The nodes outside the focus, before and after it. *)
Fixpoint before (ps : list frame) : list Z :=
  match ps with
  | [] => []
  | FL _ _ _ :: ps => before ps
  | FR _ x l :: ps => before ps ++ addrs l ++ [x]
  end.
Fixpoint after (ps : list frame) : list Z :=
  match ps with
  | [] => []
  | FL _ x r :: ps => x :: addrs r ++ after ps
  | FR _ _ _ :: ps => after ps
  end.

Lemma addrs_fill ps t : addrs (fill ps t) = before ps ++ addrs t ++ after ps.
Proof.
  revert t. induction ps as [|[c x r|c x l] ps IH]; intros t; cbn [fill before after].
  - by rewrite app_nil_r.
  - rewrite IH. cbn [plug addrs]. by rewrite <-!app_assoc.
  - rewrite IH. cbn [plug addrs]. by rewrite <-!app_assoc.
Qed.

(** The heap around a focus whose top is [a]. *)
Fixpoint path_at (h : gmap Z rb_node) (ps : list frame) (a : Z) : Prop :=
  match ps with
  | [] => True
  | f :: ps' =>
    aligned (at_frame f) ∧
    h !! at_frame f = Some (RbNode (above ps' + bit (hue_frame f))
      (match f with FL _ _ _ => a | FR _ _ l => top l end) (match f with FL _ _ r => top r | FR _ _ _ => a end)) ∧
    tree_at h (at_frame f) (sibling f) ∧ path_at h ps' (at_frame f)
  end.

Lemma tree_at_fill h ps t : tree_at h NULL (fill ps t) ↔ tree_at h (above ps) t ∧ path_at h ps (top t).
Proof.
  revert t. induction ps as [|f ps IH]; intros t; cbn [fill path_at above]; [tauto|].
  rewrite IH. destruct f as [c x r|c x l]; cbn [plug tree_at at_frame hue_frame sibling top]; tauto.
Qed.

Lemma top_fill ps t t' : top t = top t' → top (fill ps t) = top (fill ps t').
Proof. revert t t'. induction ps as [|[c x r|c x l] ps IH]; intros t t' H; cbn [fill]; [done | by apply IH..]. Qed.

Lemma top_fill_cons f ps t t' : top (fill (f :: ps) t) = top (fill (f :: ps) t').
Proof. cbn [fill]. apply top_fill. by destruct f. Qed.

(** ** States that hold a tree *)

Definition rep (s : rb_state) (t : tree) : Prop :=
  tree_at (rb_heap s) NULL t ∧ rb_root s = top t ∧ NoDup (addrs t).

(** Nothing outside the nodes of [t] has changed. *)
Definition only (t : tree) (s s' : rb_state) : Prop := ∀ z, z ∉ addrs t → rb_heap s' !! z = rb_heap s !! z.

Lemma only_refl t s : only t s s.
Proof. done. Qed.
Lemma only_trans t s1 s2 s3 : only t s1 s2 → only t s2 s3 → only t s1 s3.
Proof. intros H1 H2 z Hz. by rewrite H2, H1. Qed.
Lemma only_addrs t t' s s' : addrs t = addrs t' → only t s s' → only t' s s'.
Proof. unfold only. by intros ->. Qed.

Lemma path_at_ext h h' ps a :
  (∀ z, z ∈ before ps ++ after ps → h' !! z = h !! z) → path_at h ps a → path_at h' ps a.
Proof.
  revert a. induction ps as [|f ps IH]; intros a He; [done|]. cbn [path_at]. intros (Ha & Hf & Hs & Hp).
  destruct f as [c x r|c x l]; cbn [before after at_frame hue_frame sibling] in *.
  - rewrite He by set_solver. split_and!; [done | done | |].
    + eapply tree_at_ext; [|done]. intros z Hz. apply He. set_solver.
    + apply IH; [|done]. intros z Hz. apply He. set_solver.
  - rewrite He by set_solver. split_and!; [done | done | |].
    + eapply tree_at_ext; [|done]. intros z Hz. apply He. set_solver.
    + apply IH; [|done]. intros z Hz. apply He. set_solver.
Qed.

Lemma above_ok h ps a : path_at h ps a → parent_ok (above ps).
Proof. destruct ps as [|f ps]; [by left|]. intros (Ha & _). by right. Qed.

(** The node at the focus. *)
Lemma rep_focus s ps c l x r :
  rep s (fill ps (T c l x r)) →
  rb_get s x = Ok (RbNode (above ps + bit c) (top l) (top r)) ∧ parent_ok (above ps) ∧ aligned x.
Proof.
  intros (Ht & _ & _). apply tree_at_fill in Ht as [(Hx & Hh & _) Hp].
  unfold rb_get. rewrite Hh. split_and!; [done | by eapply above_ok | done].
Qed.

(** The word that refers to the focus: a child of the node above, or the root. *)
Definition linked_to (s : rb_state) (ps : list frame) (a root : Z) : Prop :=
  match ps with
  | [] => rb_root s = a
  | f :: ps' =>
    rb_root s = root ∧
    rb_heap s !! at_frame f = Some (RbNode (above ps' + bit (hue_frame f))
      (match f with FL _ _ _ => a | FR _ _ l => top l end) (match f with FL _ _ r => top r | FR _ _ _ => a end))
  end.

Lemma rep_linked s ps t : rep s (fill ps t) → linked_to s ps (top t) (rb_root s).
Proof.
  intros (Ht & Hr & _). apply tree_at_fill in Ht as [_ Hp]. destruct ps as [|f ps]; [done|]. by destruct Hp as (_ & ? & _).
Qed.

(** What is true around the focus once the focus has been rebuilt. *)
Lemma rep_update s s' ps t t' :
  rep s (fill ps t) → tree_at (rb_heap s') (above ps) t' →
  (∀ z, z ∈ before ps ++ after ps → z ≠ above ps → rb_heap s' !! z = rb_heap s !! z) →
  linked_to s' ps (top t') (rb_root s) → NoDup (addrs (fill ps t')) →
  rep s' (fill ps t').
Proof.
  intros (Ht & Hr & Hn) Ht' He Hl Hn'. apply tree_at_fill in Ht as [_ Hp].
  assert (Hroot : rb_root s' = top (fill ps t')).
  { destruct ps as [|f ps]; [done|]. destruct Hl as [-> _]. rewrite Hr. apply top_fill_cons. }
  split; [|done]. apply tree_at_fill. split; [done|]. destruct ps as [|f ps]; [done|].
  destruct Hp as (Ha & Hf & Hs & Hp). destruct Hl as [_ Hl]. rewrite addrs_fill in Hn.
  split_and!; [done | done | |].
  - eapply tree_at_ext; [|done]. intros z Hz. apply He.
    + destruct f; cbn [before after sibling] in *; set_solver.
    + intros ->. cbn [above] in Hz. destruct f as [c x r|c x l]; cbn [before after sibling at_frame] in *.
      * rewrite app_assoc in Hn. apply NoDup_app in Hn as (_ & _ & [Hn _]%NoDup_cons). set_solver.
      * rewrite <-app_assoc in Hn. apply NoDup_app in Hn as (_ & _ & Hn). rewrite <-!app_assoc in Hn.
        apply NoDup_app in Hn as (_ & Hd & _). specialize (Hd x Hz). set_solver.
  - eapply path_at_ext; [|done]. intros z Hz. apply He.
    + destruct f; cbn [before after] in *; set_solver.
    + intros ->. cbn [above] in Hz. destruct f as [c x r|c x l]; cbn [before after at_frame] in *.
      * apply elem_of_app in Hz as [Hz|Hz].
        -- apply NoDup_app in Hn as (_ & Hd & _). specialize (Hd x Hz). set_solver.
        -- rewrite app_assoc in Hn. apply NoDup_app in Hn as (_ & _ & [Hn _]%NoDup_cons). set_solver.
      * apply elem_of_app in Hz as [Hz|Hz].
        -- rewrite <-!app_assoc in Hn. apply NoDup_app in Hn as (_ & Hd & _). specialize (Hd x Hz). set_solver.
        -- rewrite app_assoc in Hn. apply NoDup_app in Hn as (Hn & Hd & _). specialize (Hd x). set_solver.
Qed.

(** ** Stores, one after the other *)

Lemma rb_get_put_eq s x n : rb_get (rb_put s x n) x = Ok n.
Proof. unfold rb_get, rb_put. cbn [rb_heap]. by rewrite lookup_insert_eq. Qed.
Lemma rb_get_put_ne s x n y : x ≠ y → rb_get (rb_put s x n) y = rb_get s y.
Proof. intros H. unfold rb_get, rb_put. cbn [rb_heap]. by rewrite lookup_insert_ne. Qed.
Lemma rb_get_set_root s a x : rb_get (rb_set_root s a) x = rb_get s x.
Proof. done. Qed.

Lemma rb_set_left_eq s x v n : rb_get s x = Ok n → rb_set_left s x v = Ok (rb_put s x (RbNode (rb_parent_color n) v (rb_right n))).
Proof. unfold rb_set_left. by intros ->. Qed.
Lemma rb_set_right_eq s x v n : rb_get s x = Ok n → rb_set_right s x v = Ok (rb_put s x (RbNode (rb_parent_color n) (rb_left n) v)).
Proof. unfold rb_set_right. by intros ->. Qed.
Lemma rb_set_pc_eq s x v n : rb_get s x = Ok n → rb_set_pc s x v = Ok (rb_put s x (RbNode v (rb_left n) (rb_right n))).
Proof. unfold rb_set_pc. by intros ->. Qed.

Lemma rb_set_parent_eq s x p q c l r :
  parent_ok p → parent_ok q → rb_get s x = Ok (RbNode (p + bit c) l r) →
  rb_set_parent s x q = Ok (rb_put s x (RbNode (q + bit c) l r)).
Proof.
  intros Hp Hq Hx. unfold rb_set_parent. rewrite Hx. cres_simpl. rewrite (rb_set_pc_eq _ _ _ _ Hx).
  cbn [rb_parent_color rb_left rb_right]. by rewrite pc_set_parent.
Qed.

Lemma rb_set_red_eq s x p c l r :
  parent_ok p → rb_get s x = Ok (RbNode (p + bit c) l r) → rb_set_red s x = Ok (rb_put s x (RbNode (p + bit Red) l r)).
Proof.
  intros Hp Hx. unfold rb_set_red. rewrite Hx. cres_simpl. rewrite (rb_set_pc_eq _ _ _ _ Hx).
  cbn [rb_parent_color rb_left rb_right]. by rewrite pc_red.
Qed.

Lemma rb_set_black_eq s x p c l r :
  parent_ok p → rb_get s x = Ok (RbNode (p + bit c) l r) → rb_set_black s x = Ok (rb_put s x (RbNode (p + bit Black) l r)).
Proof.
  intros Hp Hx. unfold rb_set_black. rewrite Hx. cres_simpl. rewrite (rb_set_pc_eq _ _ _ _ Hx).
  cbn [rb_parent_color rb_left rb_right]. by rewrite pc_black.
Qed.

Lemma rb_set_color_eq s x p c d l r :
  parent_ok p → rb_get s x = Ok (RbNode (p + bit c) l r) →
  rb_set_color s x (bit d) = Ok (rb_put s x (RbNode (p + bit d) l r)).
Proof.
  intros Hp Hx. unfold rb_set_color. rewrite Hx. cres_simpl. rewrite (rb_set_pc_eq _ _ _ _ Hx).
  cbn [rb_parent_color rb_left rb_right]. by rewrite pc_set_color.
Qed.

(** *** Recolouring the focus *)

Lemma recolor_rep s ps c d l x r :
  rep s (fill ps (T c l x r)) →
  rep (rb_put s x (RbNode (above ps + bit d) (top l) (top r))) (fill ps (T d l x r)) ∧
  only (fill ps (T d l x r)) s (rb_put s x (RbNode (above ps + bit d) (top l) (top r))).
Proof.
  intros Hrep. pose proof Hrep as (Ht & Hroot & Hn). rewrite addrs_fill in Hn. cbn [addrs] in Hn.
  apply tree_at_fill in Ht as [(Hx & Hh & Hl & Hr) Hp].
  assert (Hxl : x ∉ addrs l ∧ x ∉ addrs r ∧ x ∉ before ps ∧ x ∉ after ps).
  { rewrite <-app_assoc in Hn. apply NoDup_app in Hn as (_ & Hd1 & Hn). rewrite <-app_comm_cons in Hn.
    apply NoDup_app in Hn as (_ & Hd2 & Hn). apply NoDup_cons in Hn as [Hn _]. specialize (Hd1 x). specialize (Hd2 x). set_solver. }
  destruct Hxl as (H1 & H2 & H3 & H4). split.
  - apply (rep_update s _ ps (T c l x r)); [done | | | |].
    + cbn [tree_at rb_put rb_heap]. rewrite lookup_insert_eq. split_and!; [done | done | |];
        (eapply tree_at_ext; [|done]; intros z Hz; rewrite lookup_insert_ne; [done | by intros ->]).
    + intros z Hz _. cbn [rb_put rb_heap]. rewrite lookup_insert_ne; [done|]. intros ->. set_solver.
    + pose proof (rep_linked _ _ _ Hrep) as Hlk. destruct ps as [|f ps]; [done|]. destruct Hlk as [_ Hlk].
      split; [done|]. cbn [rb_put rb_heap]. rewrite lookup_insert_ne; [done|].
      intros ->. destruct f; cbn [before after at_frame] in *; set_solver.
    + rewrite addrs_fill. cbn [addrs]. done.
  - intros z Hz. rewrite addrs_fill in Hz. cbn [addrs] in Hz. cbn [rb_put rb_heap]. rewrite lookup_insert_ne; [done|].
    intros ->. set_solver.
Qed.

Lemma set_red_rep s ps c l x r :
  rep s (fill ps (T c l x r)) →
  ∃ s', rb_set_red s x = Ok s' ∧ rep s' (fill ps (T Red l x r)) ∧ only (fill ps (T Red l x r)) s s'.
Proof.
  intros Hrep. destruct (rep_focus _ _ _ _ _ _ Hrep) as (Hg & Hp & _). rewrite (rb_set_red_eq _ _ _ _ _ _ Hp Hg).
  eexists. split; [done|]. by apply (recolor_rep _ _ c).
Qed.

Lemma set_black_rep s ps c l x r :
  rep s (fill ps (T c l x r)) →
  ∃ s', rb_set_black s x = Ok s' ∧ rep s' (fill ps (T Black l x r)) ∧ only (fill ps (T Black l x r)) s s'.
Proof.
  intros Hrep. destruct (rep_focus _ _ _ _ _ _ Hrep) as (Hg & Hp & _). rewrite (rb_set_black_eq _ _ _ _ _ _ Hp Hg).
  eexists. split; [done|]. by apply (recolor_rep _ _ c).
Qed.

Lemma set_color_rep s ps c d l x r :
  rep s (fill ps (T c l x r)) →
  ∃ s', rb_set_color s x (bit d) = Ok s' ∧ rep s' (fill ps (T d l x r)) ∧ only (fill ps (T d l x r)) s s'.
Proof.
  intros Hrep. destruct (rep_focus _ _ _ _ _ _ Hrep) as (Hg & Hp & _). rewrite (rb_set_color_eq _ _ _ _ _ _ _ Hp Hg).
  eexists. split; [done|]. by apply (recolor_rep _ _ c).
Qed.

(** ** Parts of the larger primitives *)

Lemma aligned_ne x : aligned x → (x =? NULL) = false.
Proof. intros [Hx _]. unfold NULL. blia. Qed.

Lemma aligned_parent x : aligned x → parent_ok x.
Proof. by right. Qed.

#[export] Hint Resolve aligned_parent top_elem : cserv.

(** [if (child) rb_set_parent(child, q)] moves the subtree [b] below [q]. *)
Lemma reparent_ok s p q b :
  tree_at (rb_heap s) p b → parent_ok p → parent_ok q → NoDup (addrs b) →
  ∃ s', (if negb (top b =? NULL) then rb_set_parent s (top b) q else mret s) = Ok s' ∧
    tree_at (rb_heap s') q b ∧ rb_root s' = rb_root s ∧
    (∀ z, z ∉ addrs b → rb_heap s' !! z = rb_heap s !! z).
Proof.
  intros Ht Hp Hq Hn. destruct b as [|c l x r].
  { exists s. by split_and!. }
  cbn [top]. destruct Ht as (Hx & Hh & Hl & Hr). rewrite (aligned_ne _ Hx). cbn [negb].
  rewrite (rb_set_parent_eq s x p q c (top l) (top r)); [|done|done|unfold rb_get; by rewrite Hh].
  eexists. split; [done|]. cbn [tree_at addrs rb_put rb_heap rb_root] in *. rewrite lookup_insert_eq. nodup_split.
  split_and!; try done.
  - eapply tree_at_ext; [|done]. intros z Hz. rewrite lookup_insert_ne; [done|]. intros ->. set_solver.
  - eapply tree_at_ext; [|done]. intros z Hz. rewrite lookup_insert_ne; [done|]. by intros ->.
  - intros z Hz. rewrite lookup_insert_ne; [done|]. intros ->. set_solver.
Qed.

(** The three forms of the code that makes the reference to [old] one to [new]. *)
Definition relink_left (s : rb_state) (parent old new : Z) : cres rb_state :=
  if negb (parent =? NULL) then
    p ← rb_get s parent;
    if old =? rb_left p then rb_set_left s parent new else rb_set_right s parent new
  else mret (rb_set_root s new).
Definition relink_right (s : rb_state) (parent old new : Z) : cres rb_state :=
  if negb (parent =? NULL) then
    p ← rb_get s parent;
    if old =? rb_right p then rb_set_right s parent new else rb_set_left s parent new
  else mret (rb_set_root s new).

(** The focus is not its own sibling. *)
Definition apart (ps : list frame) (a : Z) : Prop :=
  match ps with [] => True | f :: _ => a ≠ top (sibling f) end.

Lemma relink_ok s ps old new root :
  linked_to s ps old root → parent_ok (above ps) → (ps ≠ [] → above ps ≠ NULL) → apart ps old →
  ∃ s', relink_left s (above ps) old new = Ok s' ∧ relink_right s (above ps) old new = Ok s' ∧
    replace_child s (above ps) old new = Ok s' ∧
    linked_to s' ps new root ∧ (∀ z, (ps ≠ [] → z ≠ above ps) → rb_heap s' !! z = rb_heap s !! z).
Proof.
  intros Hl Hp Hnn Hap. unfold relink_left, relink_right, replace_child. destruct ps as [|f ps].
  { exists (rb_set_root s new). split_and!; done. }
  cbn [above] in *. rewrite (proj2 (Z.eqb_neq _ _) (Hnn ltac:(done))). cbn [negb].
  destruct Hl as [Hr Hf]. assert (Hg := Hf). apply (f_equal of_option) in Hg. fold (rb_get s (at_frame f)) in Hg. cbn [of_option] in Hg.
  rewrite Hg. cres_simpl. cbn [apart] in Hap.
  destruct f as [c x r|c x l]; cbn [at_frame sibling hue_frame rb_left rb_right] in *.
  - rewrite Z.eqb_refl. rewrite (proj2 (Z.eqb_neq _ _) Hap). rewrite (rb_set_left_eq _ _ _ _ Hg).
    eexists. split_and!; [done | done | done | |].
    + split; [done|]. cbn. by rewrite lookup_insert_eq.
    + intros z Hz. cbn. rewrite lookup_insert_ne; [done|]. intros ->. by apply Hz.
  - rewrite Z.eqb_refl. rewrite (proj2 (Z.eqb_neq old (top l)) Hap), (proj2 (Z.eqb_neq (top l) old)) by done.
    rewrite (rb_set_right_eq _ _ _ _ Hg). eexists. split_and!; [done | done | done | |].
    + split; [done|]. cbn. by rewrite lookup_insert_eq.
    + intros z Hz. cbn. rewrite lookup_insert_ne; [done|]. intros ->. by apply Hz.
Qed.

Lemma nodup_middle (l1 l2 l3 : list Z) x : NoDup (l1 ++ l2 ++ l3) → x ∈ l2 → x ∉ l1 ∧ x ∉ l3.
Proof.
  intros (_ & H1 & (_ & H2 & _)%NoDup_app)%NoDup_app Hx. split; [|by apply H2].
  intros Hx1. apply (H1 x Hx1). rewrite elem_of_app. by left.
Qed.

(** Facts every position provides. *)
Lemma rep_apart s ps c l x r : rep s (fill ps (T c l x r)) → apart ps x ∧ (ps ≠ [] → above ps ≠ NULL).
Proof.
  intros (Ht & _ & Hn). rewrite addrs_fill in Hn. apply tree_at_fill in Ht as [(Hx & _) Hp].
  destruct ps as [|f ps]; [done|]. destruct Hp as (Ha & _ & Hs & _). split; [|intros _; cbn; destruct Ha; unfold NULL; lia].
  cbn [apart]. destruct (decide (sibling f = E)) as [->|Hne]; [cbn; destruct Hx; unfold NULL; lia|].
  pose proof (top_elem _ Hne) as Hin. intros Heq. rewrite <-Heq in Hin.
  assert (Hout : x ∈ before (f :: ps) ∨ x ∈ after (f :: ps)).
  { destruct f as [c0 y r0|c0 y l0]; cbn [before after sibling] in *; [right | left]; rewrite !elem_of_cons || idtac;
      rewrite !elem_of_app; tauto. }
  apply (nodup_middle _ _ _ x) in Hn; [tauto|]. cbn [addrs]. rewrite elem_of_app, elem_of_cons. tauto.
Qed.

Lemma above_elem ps : ps ≠ [] → above ps ∈ before ps ++ after ps.
Proof. destruct ps as [|[c x r|c x l] ps]; [done|..]; intros _; cbn; set_solver. Qed.

#[export] Hint Resolve above_elem : cserv.

Lemma linked_to_ext s s' ps a root :
  (ps ≠ [] → rb_heap s' !! above ps = rb_heap s !! above ps) → rb_root s' = rb_root s →
  linked_to s ps a root → linked_to s' ps a root.
Proof.
  intros He Hr. destruct ps as [|f ps]; cbn [linked_to above] in *; [congruence|]. intros [? ?]. by rewrite He, Hr.
Qed.

(** ** Rotations *)

Lemma rotate_addrs c a x c' b y d : addrs (T c a x (T c' b y d)) = addrs (T c' (T c a x b) y d).
Proof. cbn [addrs]. by rewrite <-app_assoc. Qed.

Lemma rotate_left_rep s ps c a x c' b y d :
  rep s (fill ps (T c a x (T c' b y d))) →
  ∃ s', __rb_rotate_left s x = Ok s' ∧ rep s' (fill ps (T c' (T c a x b) y d)) ∧
    only (fill ps (T c' (T c a x b) y d)) s s'.
Proof.
  intros Hrep. destruct (rep_focus _ _ _ _ _ _ Hrep) as (Gx & Hpp & Hx). destruct (rep_apart _ _ _ _ _ _ Hrep) as [Hap Hnn].
  pose proof (rep_linked _ _ _ Hrep) as Hlk. pose proof Hrep as (Ht & Hroot & Hn).
  apply tree_at_fill in Ht as [(_ & Hhx & Ha & Hy & Hhy & Hb & Hd) _]. rewrite addrs_fill in Hn. cbn [addrs] in Hn.
  assert (Gy : rb_get s y = Ok (RbNode (x + bit c') (top b) (top d))) by (unfold rb_get; by rewrite Hhy).
  assert (Hn2 : NoDup (addrs (fill ps (T c' (T c a x b) y d)))).
  { by rewrite addrs_fill, <-rotate_addrs. }
  assert (Hctx : ∀ z, z ∈ before ps ++ after ps → z ≠ x ∧ z ≠ y ∧ z ∉ addrs b).
  { intros z Hz. clear -Hn Hz. nodup_split. apply elem_of_app in Hz as [Hz|Hz]; split_and!; try intros ->; set_solver. }
  assert (Hdis : x ≠ y ∧ x ∉ addrs a ∧ x ∉ addrs b ∧ x ∉ addrs d ∧ y ∉ addrs a ∧ y ∉ addrs b ∧ y ∉ addrs d ∧
    NoDup (addrs b) ∧ (∀ z, z ∈ addrs b → z ∉ addrs a ∧ z ∉ addrs d)).
  { clear -Hn. nodup_split. split_and!; try done; try (intros z Hz; split); set_solver. }
  destruct Hdis as (Hxy & Hxa & Hxb & Hxd & Hya & Hyb & Hyd & Hnb & Hbs).
  assert (Habv : ps ≠ [] → above ps ≠ x ∧ above ps ≠ y ∧ above ps ∉ addrs b) by (intros Hps; by apply Hctx, above_elem).
  unfold __rb_rotate_left. rewrite Gx. cres_simpl. cbn [rb_right]. rewrite pc_parent by done. cbn [top]. rewrite Gy. cres_simpl.
  cbn [rb_left]. rewrite (rb_set_right_eq _ _ _ _ Gx). cres_simpl. cbn [rb_parent_color rb_left].
  set (s1 := rb_put s x _).
  destruct (reparent_ok s1 y x b) as (s2 & -> & Hb2 & Hr2 & Hf2); [|by auto with cserv|by auto with cserv|done|].
  { eapply tree_at_ext; [|done]. intros z Hz. cbn. rewrite lookup_insert_ne; [done|]. by intros ->. }
  cres_simpl.
  assert (Gy2 : rb_get s2 y = Ok (RbNode (x + bit c') (top b) (top d))).
  { unfold rb_get. rewrite Hf2 by done. cbn. rewrite lookup_insert_ne by done. by rewrite Hhy. }
  rewrite (rb_set_left_eq _ _ _ _ Gy2). cres_simpl. cbn [rb_parent_color rb_right].
  set (s3 := rb_put s2 y _).
  rewrite (rb_set_parent_eq s3 y x (above ps) c' x (top d)); [|by auto with cserv|done|apply rb_get_put_eq]. cres_simpl.
  set (s4 := rb_put s3 y _).
  assert (H4 : ∀ z, z ≠ x → z ≠ y → z ∉ addrs b → rb_heap s4 !! z = rb_heap s !! z).
  { intros z H1 H2 H3. cbn. rewrite !lookup_insert_ne by done. rewrite Hf2 by done. cbn. by rewrite lookup_insert_ne. }
  assert (Hlk4 : linked_to s4 ps x (rb_root s)).
  { apply (linked_to_ext s); [|cbn; by rewrite Hr2|exact Hlk]. intros Hps. destruct (Habv Hps) as (? & ? & ?). by apply H4. }
  destruct (relink_ok s4 ps x y (rb_root s) Hlk4 Hpp Hnn Hap) as (s5 & E5 & _ & _ & Hlk5 & Hf5).
  unfold relink_left in E5. rewrite E5. cres_simpl.
  assert (Gx5 : rb_get s5 x = Ok (RbNode (above ps + bit c) (top a) (top b))).
  { unfold rb_get. rewrite Hf5 by (intros Hps; destruct (Habv Hps); congruence). cbn.
    rewrite !lookup_insert_ne by done. rewrite Hf2 by done. cbn. by rewrite lookup_insert_eq. }
  rewrite (rb_set_parent_eq _ _ _ _ _ _ _ Hpp (aligned_parent _ Hy) Gx5).
  eexists. split; [done|]. set (s6 := rb_put s5 x _).
  assert (H5 : ∀ z, z ≠ x → (ps ≠ [] → z ≠ above ps) → rb_heap s6 !! z = rb_heap s4 !! z).
  { intros z H1 H2. cbn. rewrite lookup_insert_ne by done. by apply Hf5. }
  assert (Hin : ∀ z, z ∈ addrs a ∨ z ∈ addrs b ∨ z ∈ addrs d ∨ z = y → ps ≠ [] → z ≠ above ps).
  { intros z Hz Hps ->. pose proof (above_elem ps Hps) as Hab. clear -Hn Hz Hab. nodup_split.
    apply elem_of_app in Hab as [Hab|Hab]; destruct Hz as [Hz|[Hz|[Hz|Hz]]]; set_solver. }
  split.
  - apply (rep_update s _ ps (T c a x (T c' b y d))); [done | | | |done].
    + cbn [tree_at top]. rewrite (H5 y) by (auto || done). unfold s4 at 1. cbn [rb_put rb_heap]. rewrite lookup_insert_eq.
      unfold s6 at 1. cbn [rb_put rb_heap]. rewrite lookup_insert_eq. split_and!; try done.
      * eapply tree_at_ext; [|exact Ha]. intros z Hz. rewrite H5; [|by intros ->|auto]. apply H4; [by intros -> | by intros -> |].
        intros Hzb. by destruct (Hbs z Hzb).
      * eapply tree_at_ext; [|exact Hb2]. intros z Hz. rewrite H5; [|by intros ->|auto]. cbn. rewrite !lookup_insert_ne; [done|..]; by intros ->.
      * eapply tree_at_ext; [|exact Hd]. intros z Hz. rewrite H5; [|by intros ->|auto]. apply H4; [by intros -> | by intros -> |].
        intros Hzb. by destruct (Hbs z Hzb).
    + intros z Hz Hza. destruct (Hctx z Hz) as (? & ? & ?). rewrite H5 by done. by apply H4.
    + apply (linked_to_ext s5); [|reflexivity|exact Hlk5]. intros Hps. cbn. rewrite lookup_insert_ne; [done|].
      destruct (Habv Hps). congruence.
  - intros z Hz. rewrite addrs_fill in Hz. cbn [addrs] in Hz.
    assert (Hz' : z ≠ x ∧ z ≠ y ∧ z ∉ addrs b ∧ z ∉ before ps ++ after ps) by (clear -Hz; set_solver).
    destruct Hz' as (Hz1 & Hz2 & Hz3 & Hz4). rewrite H5; [by apply H4 | done |].
    intros Hps ->. by apply Hz4, above_elem.
Qed.

Lemma rotate_right_rep s ps c a y c' b x d :
  rep s (fill ps (T c (T c' a y b) x d)) →
  ∃ s', __rb_rotate_right s x = Ok s' ∧ rep s' (fill ps (T c' a y (T c b x d))) ∧
    only (fill ps (T c' a y (T c b x d))) s s'.
Proof.
  intros Hrep. destruct (rep_focus _ _ _ _ _ _ Hrep) as (Gx & Hpp & Hx). destruct (rep_apart _ _ _ _ _ _ Hrep) as [Hap Hnn].
  pose proof (rep_linked _ _ _ Hrep) as Hlk. pose proof Hrep as (Ht & Hroot & Hn).
  apply tree_at_fill in Ht as [(_ & Hhx & (Hy & Hhy & Ha & Hb) & Hd) _]. rewrite addrs_fill, <-rotate_addrs in Hn. cbn [addrs] in Hn.
  assert (Gy : rb_get s y = Ok (RbNode (x + bit c') (top a) (top b))) by (unfold rb_get; by rewrite Hhy).
  assert (Hn2 : NoDup (addrs (fill ps (T c' a y (T c b x d))))).
  { by rewrite addrs_fill. }
  assert (Hctx : ∀ z, z ∈ before ps ++ after ps → z ≠ x ∧ z ≠ y ∧ z ∉ addrs b).
  { intros z Hz. clear -Hn Hz. nodup_split. apply elem_of_app in Hz as [Hz|Hz]; split_and!; try intros ->; set_solver. }
  assert (Hdis : x ≠ y ∧ x ∉ addrs a ∧ x ∉ addrs b ∧ x ∉ addrs d ∧ y ∉ addrs a ∧ y ∉ addrs b ∧ y ∉ addrs d ∧
    NoDup (addrs b) ∧ (∀ z, z ∈ addrs b → z ∉ addrs a ∧ z ∉ addrs d)).
  { clear -Hn. nodup_split. split_and!; try done; try (intros z Hz; split); set_solver. }
  destruct Hdis as (Hxy & Hxa & Hxb & Hxd & Hya & Hyb & Hyd & Hnb & Hbs).
  assert (Habv : ps ≠ [] → above ps ≠ x ∧ above ps ≠ y ∧ above ps ∉ addrs b) by (intros Hps; by apply Hctx, above_elem).
  unfold __rb_rotate_right. rewrite Gx. cres_simpl. cbn [rb_left]. rewrite pc_parent by done. cbn [top]. rewrite Gy. cres_simpl.
  cbn [rb_right]. rewrite (rb_set_left_eq _ _ _ _ Gx). cres_simpl. cbn [rb_parent_color rb_right].
  set (s1 := rb_put s x _).
  destruct (reparent_ok s1 y x b) as (s2 & -> & Hb2 & Hr2 & Hf2); [|by auto with cserv|by auto with cserv|done|].
  { eapply tree_at_ext; [|done]. intros z Hz. cbn. rewrite lookup_insert_ne; [done|]. by intros ->. }
  cres_simpl.
  assert (Gy2 : rb_get s2 y = Ok (RbNode (x + bit c') (top a) (top b))).
  { unfold rb_get. rewrite Hf2 by done. cbn. rewrite lookup_insert_ne by done. by rewrite Hhy. }
  rewrite (rb_set_right_eq _ _ _ _ Gy2). cres_simpl. cbn [rb_parent_color rb_left].
  set (s3 := rb_put s2 y _).
  rewrite (rb_set_parent_eq s3 y x (above ps) c' (top a) x); [|by auto with cserv|done|apply rb_get_put_eq]. cres_simpl.
  set (s4 := rb_put s3 y _).
  assert (H4 : ∀ z, z ≠ x → z ≠ y → z ∉ addrs b → rb_heap s4 !! z = rb_heap s !! z).
  { intros z H1 H2 H3. cbn. rewrite !lookup_insert_ne by done. rewrite Hf2 by done. cbn. by rewrite lookup_insert_ne. }
  assert (Hlk4 : linked_to s4 ps x (rb_root s)).
  { apply (linked_to_ext s); [|cbn; by rewrite Hr2|exact Hlk]. intros Hps. destruct (Habv Hps) as (? & ? & ?). by apply H4. }
  destruct (relink_ok s4 ps x y (rb_root s) Hlk4 Hpp Hnn Hap) as (s5 & _ & E5 & _ & Hlk5 & Hf5).
  unfold relink_right in E5. rewrite E5. cres_simpl.
  assert (Gx5 : rb_get s5 x = Ok (RbNode (above ps + bit c) (top b) (top d))).
  { unfold rb_get. rewrite Hf5 by (intros Hps; destruct (Habv Hps); congruence). cbn.
    rewrite !lookup_insert_ne by done. rewrite Hf2 by done. cbn. by rewrite lookup_insert_eq. }
  rewrite (rb_set_parent_eq _ _ _ _ _ _ _ Hpp (aligned_parent _ Hy) Gx5).
  eexists. split; [done|]. set (s6 := rb_put s5 x _).
  assert (H5 : ∀ z, z ≠ x → (ps ≠ [] → z ≠ above ps) → rb_heap s6 !! z = rb_heap s4 !! z).
  { intros z H1 H2. cbn. rewrite lookup_insert_ne by done. by apply Hf5. }
  assert (Hin : ∀ z, z ∈ addrs a ∨ z ∈ addrs b ∨ z ∈ addrs d ∨ z = y → ps ≠ [] → z ≠ above ps).
  { intros z Hz Hps ->. pose proof (above_elem ps Hps) as Hab. clear -Hn Hz Hab. nodup_split.
    apply elem_of_app in Hab as [Hab|Hab]; destruct Hz as [Hz|[Hz|[Hz|Hz]]]; set_solver. }
  split.
  - apply (rep_update s _ ps (T c (T c' a y b) x d)); [done | | | |done].
    + cbn [tree_at top]. rewrite (H5 y) by (auto || done). unfold s4 at 1. cbn [rb_put rb_heap]. rewrite lookup_insert_eq.
      unfold s6 at 2. cbn [rb_put rb_heap]. rewrite lookup_insert_eq. split_and!; try done.
      * eapply tree_at_ext; [|exact Ha]. intros z Hz. rewrite H5; [|by intros ->|auto]. apply H4; [by intros -> | by intros -> |].
        intros Hzb. by destruct (Hbs z Hzb).
      * eapply tree_at_ext; [|exact Hb2]. intros z Hz. rewrite H5; [|by intros ->|auto]. cbn. rewrite !lookup_insert_ne; [done|..]; by intros ->.
      * eapply tree_at_ext; [|exact Hd]. intros z Hz. rewrite H5; [|by intros ->|auto]. apply H4; [by intros -> | by intros -> |].
        intros Hzb. by destruct (Hbs z Hzb).
    + intros z Hz Hza. destruct (Hctx z Hz) as (? & ? & ?). rewrite H5 by done. by apply H4.
    + apply (linked_to_ext s5); [|reflexivity|exact Hlk5]. intros Hps. cbn. rewrite lookup_insert_ne; [done|].
      destruct (Habv Hps). congruence.
  - intros z Hz. rewrite addrs_fill in Hz. cbn [addrs] in Hz.
    assert (Hz' : z ≠ x ∧ z ≠ y ∧ z ∉ addrs b ∧ z ∉ before ps ++ after ps) by (clear -Hz; set_solver).
    destruct Hz' as (Hz1 & Hz2 & Hz3 & Hz4). rewrite H5; [by apply H4 | done |].
    intros Hps ->. by apply Hz4, above_elem.
Qed.
