(* ===== verification/RbInsert.v ===== *)
(** Insertion: [rb_link_node] and [rb_insert_color] keep the order and restore the balance. *)

From stdpp Require Import base gmap list numbers strings sets.
From Stdlib Require Import ZArith Lia.
From S2P Require Import Prelude RbTree RbRep.

(** ** Balance *)

(** [t] has black height [n] and no red node has a red child. *)
Fixpoint balanced (t : tree) (n : nat) : Prop :=
  match t with
  | E => n = O
  | T Red l _ r => hue l = Black ∧ hue r = Black ∧ balanced l n ∧ balanced r n
  | T Black l _ r => match n with O => False | S n => balanced l n ∧ balanced r n end
  end.

(** The surroundings accept a subtree of black height [n] whose top has colour [c]. *)
Fixpoint accepts (ps : list frame) (n : nat) (c : color) : Prop :=
  match ps with
  | [] => True
  | f :: ps =>
    balanced (sibling f) n ∧
    match hue_frame f with
    | Red => c = Black ∧ hue (sibling f) = Black ∧ accepts ps n Red
    | Black => accepts ps (S n) Black
    end
  end.

Lemma balanced_fill ps t n : balanced t n → accepts ps n (hue t) → ∃ k, balanced (fill ps t) k.
Proof.
  revert t n. induction ps as [|f ps IH]; intros t n Ht Ha; [by exists n|]. cbn [fill].
  destruct f as [[] x r|[] x l]; cbn [accepts sibling hue_frame plug] in *.
  - destruct Ha as (Hr & Hc & Hs & Ha). apply (IH _ n); [|done]. by cbn.
  - destruct Ha as (Hr & Ha). apply (IH _ (S n)); [|done]. by cbn.
  - destruct Ha as (Hl & Hc & Hs & Ha). apply (IH _ n); [|done]. by cbn.
  - destruct Ha as (Hl & Ha). apply (IH _ (S n)); [|done]. by cbn.
Qed.

Lemma balanced_fill_inv ps t k : balanced (fill ps t) k → ∃ n, balanced t n ∧ accepts ps n (hue t).
Proof.
  revert t k. induction ps as [|f ps IH]; intros t k Hb; [by exists k|]. cbn [fill] in Hb.
  destruct (IH _ _ Hb) as (n & Hp & Ha). destruct f as [[] x r|[] x l]; cbn [plug balanced hue] in *.
  - destruct Hp as (? & ? & ? & ?). exists n. by cbn.
  - destruct n as [|n]; [done|]. destruct Hp as [? ?]. exists n. by cbn.
  - destruct Hp as (? & ? & ? & ?). exists n. by cbn.
  - destruct n as [|n]; [done|]. destruct Hp as [? ?]. exists n. by cbn.
Qed.

(** What the tree keeps between operations: a black root and balance. *)
Definition red_black (t : tree) : Prop := hue t = Black ∧ ∃ n, balanced t n.

(** The root is black: the outermost frame is. *)
Definition root_black (ps : list frame) : Prop := match last ps with Some f => hue_frame f = Black | None => True end.

Lemma root_black_fill ps t : hue (fill ps t) = match last ps with Some f => hue_frame f | None => hue t end.
Proof.
  revert t. induction ps as [|f ps IH]; intros t; [done|]. cbn [fill]. rewrite IH.
  destruct ps as [|g ps]; [by destruct f|].
  change (last (f :: g :: ps)) with (last (g :: ps)). destruct (last (g :: ps)) eqn:El; [done|]. by apply last_None in El.
Qed.

Lemma root_black_cons f g ps : root_black (f :: g :: ps) → root_black (g :: ps).
Proof. done. Qed.

(** ** Addresses *)

Ltac addr_eq :=
  rewrite ?addrs_fill; cbn [addrs plug fill before after];
  repeat first [rewrite <-app_assoc | progress cbn [app]]; reflexivity.

(** ** The loop *)

(** The result of a stage: the same nodes in the same order. *)
Definition stage (A : list Z) (s s' : rb_state) (t' : tree) : Prop :=
  rep s' t' ∧ addrs t' = A ∧ ∀ z, z ∉ A → rb_heap s' !! z = rb_heap s !! z.

Lemma stage_refl s t : rep s t → stage (addrs t) s s t.
Proof. done. Qed.

Lemma stage_only s s' t A : rep s' t → only t s s' → addrs t = A → stage A s s' t.
Proof. intros Hr Ho <-. done. Qed.

Lemma stage_trans A s1 s2 s3 t2 t3 : stage A s1 s2 t2 → stage (addrs t2) s2 s3 t3 → stage A s1 s3 t3.
Proof.
  intros (H1 & H2 & H3) (H4 & H5 & H6). rewrite H2 in *. split_and!; [done | done |]. intros z Hz. by rewrite H6, H3.
Qed.

(** A black parent ends the loop. *)
Lemma insert_loop_exit fuel s f ps c l x r :
  rep s (fill (f :: ps) (T c l x r)) → hue_frame f = Black → insert_color_loop (S fuel) s x = Ok s.
Proof.
  intros Hrep Hf. destruct (rep_focus _ _ _ _ _ _ Hrep) as (Gx & Hp & Hx).
  destruct (rep_apart _ _ _ _ _ _ Hrep) as [_ Hnn]. cbn [insert_color_loop]. rewrite Gx. cres_simpl.
  rewrite pc_parent by done. rewrite (proj2 (Z.eqb_neq _ _) (Hnn ltac:(done))). cbn [fill] in Hrep.
  destruct f as [c' p pr|c' p pl]; cbn [plug above at_frame hue_frame] in *; subst c';
    destruct (rep_focus _ _ _ _ _ _ Hrep) as (Gp & Hpp & _); rewrite Gp; cres_simpl; by rewrite pc_is_red by done.
Qed.

(** The test of the uncle's colour. *)
Lemma uncle_test s ps u :
  rep s (fill ps u) →
  (if top u =? NULL then mret false else n ← rb_get s (top u); mret (rb_is_red n)) = Ok (bool_decide (hue u = Red)).
Proof.
  intros Hrep. destruct u as [|c l x r]; [done|]. destruct (rep_focus _ _ _ _ _ _ Hrep) as (Gu & Hp & Hx).
  cbn [top hue]. rewrite (aligned_ne _ Hx), Gu. cres_simpl. by rewrite pc_is_red.
Qed.

(** What a stage of the loop is to achieve. *)
Definition climbs (s : rb_state) (t : tree) (r : cres rb_state) : Prop :=
  ∃ s' t', r = Ok s' ∧ stage (addrs t) s s' t' ∧ ∃ k, balanced t' k.

Lemma climbs_stage s s1 t t1 r : stage (addrs t) s s1 t1 → climbs s1 t1 r → climbs s t r.
Proof. intros Hs (s' & t' & E & Hs' & Hb). exists s', t'. split_and!; [done | by eapply stage_trans | done]. Qed.

(** One primitive: its lemma [lem] takes the state on to [s'] with [H' : rep s' _]. *)
Ltac rb_do lem H s' H' O' :=
  destruct (lem H) as (s' & -> & H' & O'); cres_simpl.

(** Recolouring below the grandparent, which then is the red node to look at. *)
Lemma insert_recolor s ps a px b gx c ux d fuel :
  rep s (fill ps (T Black (T Red a px b) gx (T Red c ux d))) →
  (∀ s', rep s' (fill ps (T Red (T Black a px b) gx (T Black c ux d))) →
     climbs s' (fill ps (T Red (T Black a px b) gx (T Black c ux d))) (insert_color_loop fuel s' gx)) →
  climbs s (fill ps (T Black (T Red a px b) gx (T Red c ux d)))
    (s ← rb_set_black s ux; s ← rb_set_black s px; s ← rb_set_red s gx; insert_color_loop fuel s gx) ∧
  climbs s (fill ps (T Black (T Red a px b) gx (T Red c ux d)))
    (s ← rb_set_black s px; s ← rb_set_black s ux; s ← rb_set_red s gx; insert_color_loop fuel s gx).
Proof.
  intros H0 Hk. split.
  - rb_do (set_black_rep s (FR Black gx (T Red a px b) :: ps) Red c ux d) H0 s1 H1 O1.
    rb_do (set_black_rep s1 (FL Black gx (T Black c ux d) :: ps) Red a px b) H1 s2 H2 O2.
    rb_do (set_red_rep s2 ps Black (T Black a px b) gx (T Black c ux d)) H2 s3 H3 O3.
    eapply climbs_stage; [|by apply Hk].
    eapply stage_trans; [apply (stage_only _ _ _ _ H1 O1); addr_eq|].
    eapply stage_trans; [apply (stage_only _ _ _ _ H2 O2); addr_eq|]. apply (stage_only _ _ _ _ H3 O3). addr_eq.
  - rb_do (set_black_rep s (FL Black gx (T Red c ux d) :: ps) Red a px b) H0 s1 H1 O1.
    rb_do (set_black_rep s1 (FR Black gx (T Black a px b) :: ps) Red c ux d) H1 s2 H2 O2.
    rb_do (set_red_rep s2 ps Black (T Black a px b) gx (T Black c ux d)) H2 s3 H3 O3.
    eapply climbs_stage; [|by apply Hk].
    eapply stage_trans; [apply (stage_only _ _ _ _ H1 O1); addr_eq|].
    eapply stage_trans; [apply (stage_only _ _ _ _ H2 O2); addr_eq|]. apply (stage_only _ _ _ _ H3 O3). addr_eq.
Qed.

(** The final rotation to the right, with the red nodes in line, ends the loop. *)
Lemma insert_rotate_right s ps a x b px d gx u n fuel :
  rep s (fill ps (T Black (T Red (T Red a x b) px d) gx u)) → accepts ps (S n) Black →
  hue a = Black → hue b = Black → hue d = Black → hue u = Black →
  balanced a n → balanced b n → balanced d n → balanced u n →
  climbs s (fill ps (T Black (T Red (T Red a x b) px d) gx u))
    (s ← rb_set_black s px; s ← rb_set_red s gx; s ← __rb_rotate_right s gx; insert_color_loop (S fuel) s x).
Proof.
  intros H0 Hacc Ca Cb Cd Cu Ba Bb Bd Bu.
  rb_do (set_black_rep s (FL Black gx u :: ps) Red (T Red a x b) px d) H0 s1 H1 O1.
  rb_do (set_red_rep s1 ps Black (T Black (T Red a x b) px d) gx u) H1 s2 H2 O2.
  rb_do (rotate_right_rep s2 ps Red (T Red a x b) px Black d gx u) H2 s3 H3 O3.
  rewrite (insert_loop_exit fuel s3 (FL Black px (T Red d gx u)) ps Red a x b H3) by done.
  eexists _, _. split; [done|]. split.
  - eapply stage_trans; [apply (stage_only _ _ _ _ H1 O1); addr_eq|].
    eapply stage_trans; [apply (stage_only _ _ _ _ H2 O2); addr_eq|]. apply (stage_only _ _ _ _ H3 O3). addr_eq.
  - apply (balanced_fill _ _ (S n)); [|done]. by cbn.
Qed.

Lemma insert_rotate_left s ps a x b px d gx u n fuel :
  rep s (fill ps (T Black u gx (T Red d px (T Red a x b)))) → accepts ps (S n) Black →
  hue a = Black → hue b = Black → hue d = Black → hue u = Black →
  balanced a n → balanced b n → balanced d n → balanced u n →
  climbs s (fill ps (T Black u gx (T Red d px (T Red a x b))))
    (s ← rb_set_black s px; s ← rb_set_red s gx; s ← __rb_rotate_left s gx; insert_color_loop (S fuel) s x).
Proof.
  intros H0 Hacc Ca Cb Cd Cu Ba Bb Bd Bu.
  rb_do (set_black_rep s (FR Black gx u :: ps) Red d px (T Red a x b)) H0 s1 H1 O1.
  rb_do (set_red_rep s1 ps Black u gx (T Black d px (T Red a x b))) H1 s2 H2 O2.
  rb_do (rotate_left_rep s2 ps Red u gx Black d px (T Red a x b)) H2 s3 H3 O3.
  rewrite (insert_loop_exit fuel s3 (FR Black px (T Red u gx d)) ps Red a x b H3) by done.
  eexists _, _. split; [done|]. split.
  - eapply stage_trans; [apply (stage_only _ _ _ _ H1 O1); addr_eq|].
    eapply stage_trans; [apply (stage_only _ _ _ _ H2 O2); addr_eq|]. apply (stage_only _ _ _ _ H3 O3). addr_eq.
  - apply (balanced_fill _ _ (S n)); [|done]. by cbn.
Qed.

(** An iteration with a red parent that is the left child of [gx]. *)
Lemma insert_step_left s ps f l x r gx u fuel :
  rep s (fill ps (T Black (plug f (T Red l x r)) gx u)) → hue_frame f = Red →
  insert_color_loop (S fuel) s x =
    if bool_decide (hue u = Red) then
      s ← rb_set_black s (top u); s ← rb_set_black s (at_frame f); s ← rb_set_red s gx; insert_color_loop fuel s gx
    else match f with
    | FL _ px _ =>
      s ← rb_set_black s px; s ← rb_set_red s gx; s ← __rb_rotate_right s gx; insert_color_loop fuel s x
    | FR _ px _ =>
      s ← __rb_rotate_left s px;
      s ← rb_set_black s x; s ← rb_set_red s gx; s ← __rb_rotate_right s gx; insert_color_loop fuel s px
    end.
Proof.
  intros H0 Ef. pose proof (uncle_test s (FR Black gx (plug f (T Red l x r)) :: ps) u H0) as Hut.
  destruct (rep_focus s (f :: FL Black gx u :: ps) _ _ _ _ H0) as (Gx & Hp & Hx).
  destruct (rep_apart s (f :: FL Black gx u :: ps) _ _ _ _ H0) as [Hap Hnn]. specialize (Hnn ltac:(done)).
  destruct (rep_focus s ps _ _ _ _ H0) as (Gg & Hgg & Hgx). cbn [apart above] in *.
  cbn [insert_color_loop]. rewrite Gx. cres_simpl. rewrite pc_parent by done. rewrite (proj2 (Z.eqb_neq _ _) Hnn).
  destruct f as [cf px d|cf px d]; cbn [plug hue_frame at_frame sibling top] in *; subst cf;
    destruct (rep_focus s (FL Black gx u :: ps) _ _ _ _ H0) as (Gp & Hpp & Hpx); rewrite Gp; cres_simpl;
    rewrite pc_is_red by done; rewrite bool_decide_eq_true_2 by done; cbn [negb];
    rewrite pc_parent by done; cbn [above at_frame]; rewrite Gg; cres_simpl; cbn [rb_left rb_right top];
    rewrite Z.eqb_refl, Hut; cres_simpl; (destruct (bool_decide (hue u = Red)); [done|]).
  - by rewrite (proj2 (Z.eqb_neq (top d) x)) by done.
  - rewrite Z.eqb_refl. by destruct (__rb_rotate_left s px).
Qed.

(** The mirrored iteration. *)
Lemma insert_step_right s ps f l x r gx u fuel :
  rep s (fill ps (T Black u gx (plug f (T Red l x r)))) → hue_frame f = Red →
  insert_color_loop (S fuel) s x =
    if bool_decide (hue u = Red) then
      s ← rb_set_black s (top u); s ← rb_set_black s (at_frame f); s ← rb_set_red s gx; insert_color_loop fuel s gx
    else match f with
    | FR _ px _ =>
      s ← rb_set_black s px; s ← rb_set_red s gx; s ← __rb_rotate_left s gx; insert_color_loop fuel s x
    | FL _ px _ =>
      s ← __rb_rotate_right s px;
      s ← rb_set_black s x; s ← rb_set_red s gx; s ← __rb_rotate_left s gx; insert_color_loop fuel s px
    end.
Proof.
  intros H0 Ef. pose proof (uncle_test s (FL Black gx (plug f (T Red l x r)) :: ps) u H0) as Hut.
  destruct (rep_focus s (f :: FR Black gx u :: ps) _ _ _ _ H0) as (Gx & Hp & Hx).
  destruct (rep_apart s (f :: FR Black gx u :: ps) _ _ _ _ H0) as [Hap Hnn]. specialize (Hnn ltac:(done)).
  destruct (rep_focus s ps _ _ _ _ H0) as (Gg & Hgg & Hgx). cbn [apart above] in *.
  cbn [insert_color_loop]. rewrite Gx. cres_simpl. rewrite pc_parent by done. rewrite (proj2 (Z.eqb_neq _ _) Hnn).
  destruct f as [cf px d|cf px d]; cbn [plug hue_frame at_frame sibling top] in *; subst cf;
    destruct (rep_focus s (FR Black gx u :: ps) _ _ _ _ H0) as (Gp & Hpp & Hpx); rewrite Gp; cres_simpl;
    destruct (rep_apart s (FR Black gx u :: ps) _ _ _ _ H0) as [Hap2 _]; cbn [apart sibling] in Hap2;
    rewrite pc_is_red by done; rewrite bool_decide_eq_true_2 by done; cbn [negb];
    rewrite pc_parent by done; cbn [above at_frame]; rewrite Gg; cres_simpl; cbn [rb_left rb_right top];
    rewrite (proj2 (Z.eqb_neq _ _) Hap2), Hut; cres_simpl; (destruct (bool_decide (hue u = Red)); [done|]).
  - rewrite Z.eqb_refl. by destruct (__rb_rotate_right s px).
  - by rewrite (proj2 (Z.eqb_neq (top d) x)) by done.
Qed.

(** An iteration below the grandparent [gx], given what the loop does from there on. *)
Section Iteration.
  Context (ps : list frame) (f : frame) (l : tree) (x : Z) (r : tree) (n : nat) (gx : Z) (u : tree) (fuel : nat).
  Hypothesis Ef : hue_frame f = Red.
  Hypothesis Cl : hue l = Black.
  Hypothesis Cr : hue r = Black.
  Hypothesis Cd : hue (sibling f) = Black.
  Hypothesis Bl : balanced l n.
  Hypothesis Br : balanced r n.
  Hypothesis Bd : balanced (sibling f) n.
  Hypothesis Bu : balanced u n.
  Hypothesis Hacc : accepts ps (S n) Black.
  Hypothesis Hnext : ∀ s a b, hue a = Black → hue b = Black → balanced a (S n) → balanced b (S n) →
    rep s (fill ps (T Red a gx b)) → climbs s (fill ps (T Red a gx b)) (insert_color_loop (S fuel) s gx).

Lemma insert_iter_left s :
  rep s (fill ps (T Black (plug f (T Red l x r)) gx u)) →
  climbs s (fill ps (T Black (plug f (T Red l x r)) gx u)) (insert_color_loop (S (S fuel)) s x).
Proof using Type*.
  intros H0. rewrite (insert_step_left _ _ _ _ _ _ _ _ _ H0 Ef). case_bool_decide as Eu.
  - destruct u as [|[] c ux d]; [done| |done]. cbn [top balanced] in *. destruct Bu as (? & ? & ? & ?).
    destruct f as [cf px e|cf px e]; cbn [hue_frame at_frame plug sibling] in *; subst cf;
      apply insert_recolor; try done; intros s' Hs'; apply Hnext; by cbn.
  - assert (Cu : hue u = Black) by (destruct (hue u); done).
    destruct f as [cf px d|cf px d]; cbn [hue_frame at_frame plug sibling] in *; subst cf.
    + by apply (insert_rotate_right s ps l x r px d gx u n fuel).
    + rb_do (rotate_left_rep s (FL Black gx u :: ps) Red d px Red l x r) H0 s1 H1 O1.
      eapply climbs_stage; [apply (stage_only _ _ _ _ H1 O1); addr_eq|].
      by apply (insert_rotate_right s1 ps d px l x r gx u n fuel).
Qed.

Lemma insert_iter_right s :
  rep s (fill ps (T Black u gx (plug f (T Red l x r)))) →
  climbs s (fill ps (T Black u gx (plug f (T Red l x r)))) (insert_color_loop (S (S fuel)) s x).
Proof using Type*.
  intros H0. rewrite (insert_step_right _ _ _ _ _ _ _ _ _ H0 Ef). case_bool_decide as Eu.
  - destruct u as [|[] c ux d]; [done| |done]. cbn [top balanced] in *. destruct Bu as (? & ? & ? & ?).
    destruct f as [cf px e|cf px e]; cbn [hue_frame at_frame plug sibling] in *; subst cf;
      apply insert_recolor; try done; intros s' Hs'; apply Hnext; by cbn.
  - assert (Cu : hue u = Black) by (destruct (hue u); done).
    destruct f as [cf px d|cf px d]; cbn [hue_frame at_frame plug sibling] in *; subst cf.
    + rb_do (rotate_right_rep s (FR Black gx u :: ps) Red l x Red r px d) H0 s1 H1 O1.
      eapply climbs_stage; [apply (stage_only _ _ _ _ H1 O1); addr_eq|].
      by apply (insert_rotate_left s1 ps r px d x l gx u n fuel).
    + by apply (insert_rotate_left s ps l x r px d gx u n fuel).
Qed.

End Iteration.

(** The loop, started on a red node whose parent may be red. *)
Lemma insert_loop_ok fuel s ps l x r n :
  rep s (fill ps (T Red l x r)) → hue l = Black → hue r = Black → balanced l n → balanced r n →
  accepts ps n Black → root_black ps → (length ps < fuel)%nat →
  climbs s (fill ps (T Red l x r)) (insert_color_loop fuel s x).
Proof.
  revert s ps l x r n. induction fuel as [|fuel IH]; intros s ps l x r n H0 Cl Cr Bl Br Hacc Hroot Hf; [lia|].
  destruct ps as [|f ps].
  { destruct (rep_focus s [] _ _ _ _ H0) as (Gx & Hp & Hx). cbn [insert_color_loop]. rewrite Gx. cres_simpl.
    rewrite pc_parent by done. cbn [above]. exists s, (T Red l x r). split_and!; [done | by apply stage_refl |]. by exists n. }
  cbn [accepts] in Hacc. destruct (hue_frame f) eqn:Ef.
  2:{ rewrite (insert_loop_exit fuel s f ps Red l x r H0 Ef). exists s. eexists. split_and!; [done | by apply stage_refl |].
      apply (balanced_fill (f :: ps) _ n); [by cbn|]. cbn [accepts hue]. by rewrite Ef. }
  destruct Hacc as (Bs & _ & Cs & Hacc).
  destruct ps as [|g ps]; [by unfold root_black in Hroot; cbn in Hroot; congruence|].
  cbn [accepts] in Hacc. destruct (hue_frame g) eqn:Eg; [by destruct Hacc as (_ & ? & _)|]. destruct Hacc as (Bu & Hacc).
  assert (Hrb : root_black ps) by (destruct ps; [done | exact Hroot]). cbn [length] in Hf.
  destruct fuel as [|fuel]; [lia|].
  assert (Hnext : ∀ s a b, hue a = Black → hue b = Black → balanced a (S n) → balanced b (S n) →
    rep s (fill ps (T Red a (at_frame g) b)) → climbs s (fill ps (T Red a (at_frame g) b)) (insert_color_loop (S fuel) s (at_frame g))).
  { intros s' a b Ca Cb Ba Bb Hs'. apply (IH _ _ _ _ _ (S n)); try done. lia. }
  destruct g as [cg gx u|cg gx u]; cbn [hue_frame sibling at_frame] in *; subst cg; cbn [fill plug] in H0 |- *.
  - by apply (insert_iter_left ps f l x r n gx u fuel).
  - by apply (insert_iter_right ps f l x r n gx u fuel).
Qed.

(** ** The whole insertion *)

Lemma fill_length ps t : (length ps + length (addrs t) ≤ length (addrs (fill ps t)))%nat.
Proof.
  rewrite addrs_fill, !length_app. induction ps as [|[c y r|c y l] ps IH]; cbn [length before after]; [lia|..];
    rewrite ?length_cons, ?length_app; cbn [length]; lia.
Qed.

Lemma rep_size s t : rep s t → (length (addrs t) ≤ size (rb_heap s))%nat.
Proof.
  intros (Ht & _ & Hn). rewrite <-(size_dom (D := gset Z)), <-(size_list_to_set (C := gset Z) (addrs t)) by done.
  apply subseteq_size. intros z Hz. apply elem_of_list_to_set in Hz. apply elem_of_dom. by eapply tree_at_mapped.
Qed.

Lemma rep_depth s ps c l x r : rep s (fill ps (T c l x r)) → (length ps < climb_fuel s)%nat.
Proof.
  intros H. pose proof (rep_size _ _ H). pose proof (fill_length ps (T c l x r)). unfold climb_fuel. lia.
Qed.

Lemma balanced_blacken c l x r k : balanced (T c l x r) k → ∃ n, balanced (T Black l x r) n.
Proof. destruct c; [|by exists k]. intros (_ & _ & ? & ?). by exists (S k). Qed.

Lemma rb_insert_color_ok s ps x :
  rep s (fill ps (T Red E x E)) → red_black (fill ps E) →
  ∃ s' t', rb_insert_color s x = Ok s' ∧ stage (addrs (fill ps (T Red E x E))) s s' t' ∧ red_black t'.
Proof.
  intros H0 [Hb [k Hk]]. destruct (balanced_fill_inv _ _ _ Hk) as (n & Hn & Hacc). cbn in Hn. subst n.
  assert (Hroot : root_black ps).
  { rewrite root_black_fill in Hb. unfold root_black. by destruct (last ps). }
  destruct (insert_loop_ok (climb_fuel s) s ps E x E 0) as (s1 & t1 & E1 & Hs1 & k1 & Hk1); try done; [by eapply rep_depth|].
  unfold rb_insert_color. rewrite E1. cres_simpl. pose proof Hs1 as (H1 & A1 & _).
  destruct t1 as [|c l y r].
  { exfalso. apply (f_equal length) in A1. pose proof (fill_length ps (T Red E x E)). cbn in A1, H. lia. }
  destruct (set_black_rep s1 [] c l y r H1) as (s2 & E2 & H2 & O2). pose proof H1 as (_ & Hr1 & _). cbn [top] in Hr1.
  rewrite Hr1, E2. exists s2, (T Black l y r). split; [done|]. split; [|split; [done | by eapply balanced_blacken]].
  eapply stage_trans; [exact Hs1|]. by apply (stage_only _ _ _ _ H2 O2).
Qed.

(** *** Linking a new leaf *)

Definition link_of (ps : list frame) : rb_link :=
  match ps with
  | [] => LinkRoot
  | FL _ y _ :: _ => LinkLeft y
  | FR _ y _ :: _ => LinkRight y
  end.

Lemma write_link_ok s ps old new root :
  linked_to s ps old root → ∃ s', write_link s (link_of ps) new = Ok s' ∧ linked_to s' ps new root ∧
    (∀ z, (ps ≠ [] → z ≠ above ps) → rb_heap s' !! z = rb_heap s !! z).
Proof.
  intros Hl. destruct ps as [|f ps].
  { exists (rb_set_root s new). by split_and!. }
  destruct Hl as [Hr Hf]. assert (Hg : rb_get s (at_frame f) = of_option (Some _)) by (unfold rb_get; by rewrite Hf).
  destruct f as [c y u|c y u]; cbn [link_of write_link at_frame above] in *;
    [rewrite (rb_set_left_eq _ _ _ _ Hg) | rewrite (rb_set_right_eq _ _ _ _ Hg)];
    (eexists; split; [done|]; split; [split; [done|]; cbn; by rewrite lookup_insert_eq|];
     intros z Hz; cbn; rewrite lookup_insert_ne; [done | intros ->; by apply Hz]).
Qed.

Lemma nodup_middle_insert (l1 l2 : list Z) x : NoDup (l1 ++ l2) → x ∉ l1 ++ l2 → NoDup (l1 ++ x :: l2).
Proof.
  intros Hn Hx. rewrite elem_of_app in Hx. apply NoDup_app in Hn as (H1 & H2 & H3). apply NoDup_app. split_and!; [done | |].
  - intros z Hz. rewrite elem_of_cons. specialize (H2 z Hz). intros [->|?]; tauto.
  - apply NoDup_cons. tauto.
Qed.

Lemma rb_link_node_ok s ps x :
  rep s (fill ps E) → aligned x → x ∉ addrs (fill ps E) → is_Some (rb_heap s !! x) →
  ∃ s', rb_link_node s x (above ps) (link_of ps) = Ok s' ∧ rep s' (fill ps (T Red E x E)) ∧
    only (fill ps (T Red E x E)) s s'.
Proof.
  intros H0 Hx Hfresh [n0 Hn0]. pose proof H0 as (Ht & Hr & Hn). rewrite addrs_fill in Hfresh, Hn. cbn [addrs app] in *.
  assert (Habv : ps ≠ [] → above ps ≠ x) by (intros Hps <-; by apply Hfresh, above_elem).
  unfold rb_link_node. assert (G0 : rb_get s x = Ok n0) by (unfold rb_get; by rewrite Hn0).
  rewrite (rb_set_pc_eq _ _ _ _ G0). cres_simpl.
  rewrite (rb_set_right_eq _ _ _ _ (rb_get_put_eq _ _ _)). cres_simpl. cbn [rb_parent_color rb_left].
  rewrite (rb_set_left_eq _ _ _ _ (rb_get_put_eq _ _ _)). cres_simpl. cbn [rb_parent_color rb_right].
  set (s1 := rb_put _ x (RbNode (above ps) NULL NULL)).
  assert (Hs1 : ∀ z, z ≠ x → rb_heap s1 !! z = rb_heap s !! z) by (intros z Hz; cbn; by rewrite !lookup_insert_ne).
  destruct (write_link_ok s1 ps NULL x (rb_root s)) as (s2 & E2 & Hlk2 & Hf2).
  { apply (linked_to_ext s); [|done|exact (rep_linked _ _ _ H0)]. intros Hps. by apply Hs1, Habv. }
  rewrite E2. exists s2. split; [done|].
  assert (Hx2 : rb_heap s2 !! x = Some (RbNode (above ps + bit Red) NULL NULL)).
  { rewrite Hf2 by (intros Hps; by apply not_eq_sym, Habv). cbn. by rewrite lookup_insert_eq, Z.add_0_r. }
  split.
  - apply (rep_update s _ ps E); [done | by cbn | | done |].
    + intros z Hz Hza. rewrite Hf2 by done. apply Hs1. by intros ->.
    + rewrite addrs_fill. cbn [addrs app]. by apply nodup_middle_insert.
  - intros z Hz. rewrite addrs_fill in Hz. cbn [addrs app] in Hz. rewrite Hf2, Hs1; [done | set_solver |].
    intros Hps ->. pose proof (above_elem ps Hps). set_solver.
Qed.
