(* ===== verification/RbErase.v ===== *)
(** Removal: unlinking a node ([erase_one], [erase_two]) and the loop of [__rb_erase_color]. *)

From stdpp Require Import base gmap list numbers strings sets.
From Stdlib Require Import ZArith Lia.
From S2P Require Import Prelude RbTree RbRep RbInsert.

(** ** The least node of a subtree *)

Lemma fill_app qs ps t : fill (qs ++ ps) t = fill ps (fill qs t).
Proof. revert t. induction qs as [|f qs IH]; intros t; [done|]. cbn. apply IH. Qed.

(** A path that goes left only. *)
Definition left_path (qs : list frame) : Prop := Forall (λ f, match f with FL _ _ _ => True | FR _ _ _ => False end) qs.

Lemma min_split t : t ≠ E → ∃ qs c y d, left_path qs ∧ t = fill qs (T c E y d).
Proof.
  induction t as [|c l IHl x r IHr]; [done|]. intros _. destruct (decide (l = E)) as [->|Hl].
  - exists [], c, x, r. split; [by apply Forall_nil | done].
  - destruct (IHl Hl) as (qs & c' & y & d & Hq & ->). exists (qs ++ [FL c x r]), c', y, d.
    rewrite fill_app. split; [|done]. apply Forall_app. split; [done | by apply Forall_singleton].
Qed.

Lemma left_path_snoc qs f : left_path (qs ++ [f]) → left_path qs ∧ ∃ c x r, f = FL c x r.
Proof. intros [Hq Hl]%Forall_app. split; [done|]. apply Forall_cons in Hl as [Hl _]. destruct f; [by eauto | done]. Qed.

Lemma left_path_before qs : left_path qs → before qs = [].
Proof. induction 1 as [|[c x r|c x l] qs Hf _ IH]; done. Qed.

Lemma top_fill_left qs t c x r : top (fill (qs ++ [FL c x r]) t) = x.
Proof. by rewrite fill_app. Qed.

Lemma leftmost_ok fuel s p qs c y d :
  tree_at (rb_heap s) p (fill qs (T c E y d)) → left_path qs → (length qs < fuel)%nat →
  leftmost fuel s (top (fill qs (T c E y d))) = Ok y.
Proof.
  revert fuel p. induction qs as [|f qs IH] using rev_ind; intros fuel p Ht Hq Hf; (destruct fuel as [|fuel]; [lia|]).
  - destruct Ht as (_ & Hy & _). cbn [fill top leftmost]. unfold rb_get. rewrite Hy. by cres_simpl.
  - apply left_path_snoc in Hq as (Hq & c0 & x & r & ->). rewrite length_app in Hf. cbn [length] in Hf.
    rewrite top_fill_left. rewrite fill_app in Ht. destruct Ht as (_ & Hx & Ht & _). cbn [leftmost]. unfold rb_get. rewrite Hx. cres_simpl.
    cbn [rb_left]. rewrite (proj2 (Z.eqb_neq _ _)); [by apply (IH fuel x); [|done|lia]|].
    assert (Hin : top (fill qs (T c E y d)) ∈ addrs (fill qs (T c E y d))).
    { apply top_elem. intros He. pose proof (fill_length qs (T c E y d)) as Hl'. rewrite He in Hl'. cbn in Hl'. lia. }
    destruct (tree_at_aligned _ _ _ _ Ht Hin) as [Hpos _]. unfold NULL. lia.
Qed.

(** [if (child) rb_set_parent(child, parent); parent->rb_left = child;] takes the least node out. *)
Lemma unlink_min_ok s p qs c y d :
  left_path qs → qs ≠ [] → tree_at (rb_heap s) p (fill qs (T c E y d)) → NoDup (addrs (fill qs (T c E y d))) →
  ∃ s', (s ← (if negb (top d =? NULL) then rb_set_parent s (top d) (above qs) else mret s);
         rb_set_left s (above qs) (top d)) = Ok s' ∧
    tree_at (rb_heap s') p (fill qs d) ∧ rb_root s' = rb_root s ∧
    (∀ z, z ∉ addrs (fill qs d) → rb_heap s' !! z = rb_heap s !! z).
Proof.
  revert p. induction qs as [|f qs IH] using rev_ind; intros p Hq Hne Ht Hn; [done|].
  apply left_path_snoc in Hq as (Hq & cx & x & r & ->).
  rewrite fill_app in Ht, Hn |- *. cbn [fill plug tree_at addrs] in Ht, Hn. destruct Ht as (Hx & Hhx & Ht & Hr).
  destruct (decide (qs = [])) as [->|Hqs].
  - cbn [fill addrs app] in *. destruct Ht as (Hy & Hhy & _ & Hd). cbn [above at_frame app].
    assert (Hdis : x ∉ addrs d ∧ x ∉ addrs r ∧ NoDup (addrs d) ∧ x ≠ y ∧ (∀ z, z ∈ addrs r → z ∉ addrs d)).
    { clear -Hn. nodup_split. split_and!; try done; set_solver. }
    destruct Hdis as (Hxd & Hxr & Hnd & Hxy & Hrd).
    destruct (reparent_ok s y x d) as (s1 & -> & Hd1 & Hr1 & Hf1); [done | by auto with cserv | by auto with cserv | done |].
    cres_simpl. assert (Gx : rb_get s1 x = Ok (RbNode (p + bit cx) y (top r))) by (unfold rb_get; rewrite Hf1 by done; by rewrite Hhx).
    rewrite (rb_set_left_eq _ _ _ _ Gx). eexists. split; [done|]. cbn [tree_at rb_put rb_heap rb_root rb_parent_color rb_right addrs fill plug].
    rewrite lookup_insert_eq. split_and!; try done.
    + eapply tree_at_ext; [|exact Hd1]. intros z Hz. rewrite lookup_insert_ne; [done|]. by intros ->.
    + eapply tree_at_ext; [|exact Hr]. intros z Hz. rewrite lookup_insert_ne by (by intros ->). by apply Hf1, Hrd.
    + intros z Hz. rewrite lookup_insert_ne by (clear -Hz; set_solver). apply Hf1. clear -Hz; set_solver.
  - assert (Habove : above (qs ++ [FL cx x r]) = above qs) by (by destruct qs). rewrite Habove.
    assert (Hnn : NoDup (addrs (fill qs (T c E y d)))) by (by apply NoDup_app in Hn as (? & _)).
    destruct (IH x Hq Hqs Ht Hnn) as (s' & -> & Ht' & Hr' & Hf'). exists s'. split; [done|].
    assert (Hsub : ∀ z, z ∈ addrs (fill qs d) → z ∈ addrs (fill qs (T c E y d))).
    { intros z. rewrite !addrs_fill. cbn [addrs app]. set_solver. }
    assert (Htop : top (fill qs d) = top (fill qs (T c E y d))) by (destruct qs; [done|]; apply top_fill_cons).
    assert (Hxin : x ∉ addrs (fill qs d) ∧ ∀ z, z ∈ addrs r → z ∉ addrs (fill qs d)).
    { apply NoDup_app in Hn as (_ & Hd & _). split; [intros Hz%Hsub | intros z Hz Hz2%Hsub]; eapply Hd; [done | set_solver | done | set_solver]. }
    destruct Hxin as [Hxin Hrin].
    cbn [fill plug tree_at addrs]. rewrite Hf', Hhx, Htop by done. split_and!; try done.
    + eapply tree_at_ext; [|exact Hr]. intros z Hz. by apply Hf', Hrin.
    + intros z Hz. apply Hf'. clear -Hz; set_solver.
Qed.

(** ** Unlinking *)

(** A node with at most one child: the child [t] takes its place. *)
Lemma erase_one_ok s ps c l x r t :
  rep s (fill ps (T c l x r)) → (l = E ∧ t = r ∨ r = E ∧ t = l) →
  ∃ s', erase_one s x (top t) = Ok (s', top t, above ps, bit c) ∧ rep s' (fill ps t) ∧ only (fill ps t) s s'.
Proof.
  intros H0 Ht. destruct (rep_focus _ _ _ _ _ _ H0) as (Gx & Hpp & Hx). destruct (rep_apart _ _ _ _ _ _ H0) as [Hap Hnn].
  pose proof (rep_linked _ _ _ H0) as Hlk. pose proof H0 as (Hta & Hroot & Hn).
  apply tree_at_fill in Hta as [(_ & Hhx & Hl & Hr) _]. rewrite addrs_fill in Hn. cbn [addrs] in Hn.
  assert (Hat : tree_at (rb_heap s) x t) by (destruct Ht as [[_ ->]|[_ ->]]; done).
  assert (Hdis : NoDup (addrs t) ∧ NoDup (before ps ++ addrs t ++ after ps) ∧
    (∀ z, z ∈ before ps ++ after ps → z ∉ addrs t) ∧ (ps ≠ [] → above ps ∉ addrs t)).
  { assert (Hn2 : NoDup (before ps ++ addrs t ++ after ps)).
    { clear -Hn Ht. destruct Ht as [[-> ->]|[-> ->]]; cbn [addrs app] in Hn; rewrite <-?app_assoc in Hn; cbn [app] in Hn.
      - by apply NoDup_app in Hn as (? & ? & [? ?]%NoDup_cons); apply NoDup_app; split_and!; [|set_solver|].
      - apply NoDup_app in Hn as (? & ? & Hn). apply NoDup_app in Hn as (? & ? & [? ?]%NoDup_cons).
        apply NoDup_app. split_and!; [done | set_solver |]. apply NoDup_app. split_and!; [done | set_solver | done]. }
    assert (Hout : ∀ z, z ∈ before ps ++ after ps → z ∉ addrs t).
    { intros z Hz1 Hz2. apply (nodup_middle _ _ _ z) in Hn2; [|done]. clear -Hn2 Hz1. set_solver. }
    split_and!; [|done|done|intros Hps; by apply Hout, above_elem]. clear -Hn2. nodup_split. done. }
  destruct Hdis as (Hnt & Hn2 & Hout & Hab).
  unfold erase_one. rewrite Gx. cres_simpl. rewrite pc_parent, pc_color by done.
  destruct (reparent_ok s x (above ps) t) as (s1 & -> & Ht1 & Hr1 & Hf1); [done | by auto with cserv | done | done |]. cres_simpl.
  destruct (relink_ok s1 ps x (top t) (rb_root s)) as (s2 & _ & _ & E2 & Hlk2 & Hf2); [|done|done|done|].
  { apply (linked_to_ext s); [|done|exact Hlk]. intros Hps. by apply Hf1, Hab. }
  rewrite E2. cres_simpl. exists s2. split; [done|]. split.
  - apply (rep_update s _ ps (T c l x r)); [done | | | done |].
    + eapply tree_at_ext; [|exact Ht1]. intros z Hz. apply Hf2. intros Hps ->. by apply (Hab Hps).
    + intros z Hz Hza. rewrite Hf2 by done. by apply Hf1, Hout.
    + by rewrite addrs_fill.
  - intros z Hz. rewrite addrs_fill in Hz. rewrite Hf2, Hf1; [done | clear -Hz; set_solver |].
    intros Hps ->. apply Hz. pose proof (above_elem ps Hps) as Ha. clear -Ha. set_solver.
Qed.

(** The successor is taken out of the right subtree: what the code does when it is not the right child. *)
Definition detach_succ (s : rb_state) (old node child parent : Z) : cres (rb_state * Z) :=
  if parent =? old then mret (s, node)
  else
    s ← (if negb (child =? NULL) then rb_set_parent s child parent else mret s);
    s ← rb_set_left s parent child;
    o ← rb_get s old;
    s ← rb_set_right s node (rb_right o);
    s ← rb_set_parent s (rb_right o) node;
    mret (s, parent).

(** The parent of the least node of a subtree that hangs below [x]. *)
Definition parent_in (qs : list frame) (x : Z) : Z := match qs with [] => x | f :: _ => at_frame f end.

Lemma above_parent_in qs f ps : above (qs ++ f :: ps) = parent_in qs (at_frame f).
Proof. by destruct qs. Qed.

Section DetachSucc.
  Context (qs : list frame) (cy : color) (y : Z) (d : tree) (x : Z).
  Notation r := (fill qs (T cy E y d)).
  Hypothesis Hq : left_path qs.
  Hypothesis Hn : NoDup (addrs r).
  Hypothesis Hxr : x ∉ addrs r.

Lemma succ_nodup : NoDup (y :: addrs (fill qs d)).
Proof using Hq Hn.
  rewrite addrs_fill in Hn |- *. rewrite left_path_before in Hn |- * by done. done.
Qed.

Lemma succ_elem z : z ∈ addrs r ↔ z = y ∨ z ∈ addrs (fill qs d).
Proof using Type. clear Hxr Hq Hn x. rewrite !addrs_fill. cbn [addrs app]. set_solver. Qed.

(** After it the right subtree, without the successor [y], hangs below [y]. *)
Lemma detach_succ_ok s p c l pcy :
  aligned x → rb_heap s !! x = Some (RbNode (p + bit c) l (top r)) → tree_at (rb_heap s) x r →
  rb_heap s !! y = Some (RbNode pcy NULL (top d)) →
  ∃ s', detach_succ s x y (top d) (parent_in qs x) = Ok (s', parent_in qs y) ∧
    rb_heap s' !! y = Some (RbNode pcy NULL (top (fill qs d))) ∧
    tree_at (rb_heap s') y (fill qs d) ∧ rb_root s' = rb_root s ∧
    (∀ z, z ∉ addrs r → rb_heap s' !! z = rb_heap s !! z).
Proof using Hq Hn Hxr.
  intros Hx Hhx Hr Hhy. pose proof succ_nodup as [Hyr Hnd]%NoDup_cons.
  assert (Hya : aligned y) by (eapply tree_at_aligned; [done|]; rewrite succ_elem; by left).
  unfold detach_succ. destruct (decide (qs = [])) as [->|Hqs].
  { cbn [parent_in fill] in *. rewrite Z.eqb_refl. destruct Hr as (_ & _ & _ & Hd). exists s. by split_and!. }
  assert (Ha : ∀ z, parent_in qs z = above qs) by (intros z; by destruct qs). rewrite !Ha.
  assert (Hin : above qs ∈ addrs r).
  { rewrite addrs_fill. pose proof (above_elem qs Hqs) as He. clear -He. set_solver. }
  rewrite (proj2 (Z.eqb_neq (above qs) x)) by (intros Heq; by rewrite Heq in Hin).
  destruct (unlink_min_ok s x qs cy y d Hq Hqs Hr Hn) as (s1 & E1 & Ht1 & Hr1 & Hf1).
  assert (Htop : top (fill qs d) = top r) by (destruct qs; [done|]; apply top_fill_cons).
  destruct (if negb (top d =? NULL) then _ else _) as [s0| |] eqn:E0; cres_simpl; try done. rewrite E1. cres_simpl.
  assert (Gx : rb_get s1 x = Ok (RbNode (p + bit c) l (top r))).
  { unfold rb_get. rewrite Hf1, Hhx; [done|]. rewrite succ_elem in Hxr. tauto. }
  rewrite Gx. cres_simpl. cbn [rb_right].
  assert (Gy : rb_get s1 y = Ok (RbNode pcy NULL (top d))) by (unfold rb_get; rewrite Hf1 by done; by rewrite Hhy).
  rewrite (rb_set_right_eq _ _ _ _ Gy). cres_simpl. rewrite <-Htop. cbn [rb_parent_color rb_left].
  destruct (reparent_ok (rb_put s1 y (RbNode pcy NULL (top (fill qs d)))) x y (fill qs d))
    as (s2 & E2 & Ht2 & Hr2 & Hf2); [|by auto with cserv|by auto with cserv|done|].
  { eapply tree_at_ext; [|exact Ht1]. intros z Hz. cbn. rewrite lookup_insert_ne; [done|]. by intros ->. }
  assert (Hrn : top (fill qs d) ≠ NULL).
  { rewrite Htop. assert (Hne : r ≠ E) by (intros He; rewrite He in Hin; clear -Hin; set_solver).
    destruct (tree_at_aligned _ _ _ _ Hr (top_elem _ Hne)) as [? _]. unfold NULL. lia. }
  rewrite (proj2 (Z.eqb_neq _ _) Hrn) in E2. cbn [negb] in E2. rewrite E2. cres_simpl.
  exists s2. split; [done|]. split_and!; [|done | by rewrite Hr2 |].
  - rewrite Hf2 by done. cbn. by rewrite lookup_insert_eq.
  - intros z Hz. rewrite succ_elem in Hz. rewrite Hf2 by tauto. cbn. rewrite lookup_insert_ne by naive_solver. apply Hf1. tauto.
Qed.

End DetachSucc.

(** [node] takes the colour, the parent and the left subtree of [old]. *)
Lemma take_place_ok s p c l x y r pcy rx :
  rb_heap s !! x = Some (RbNode (p + bit c) (top l) rx) → rb_heap s !! y = Some (RbNode pcy NULL (top r)) →
  tree_at (rb_heap s) x l → tree_at (rb_heap s) y r → aligned x → aligned y → l ≠ E → NoDup (y :: addrs l) →
  y ∉ addrs r → (∀ z, z ∈ addrs r → z ∉ addrs l) →
  ∃ s', (∀ (B : Type) (k : rb_state → cres B),
      (o ← rb_get s x; s ← rb_set_pc s y (rb_parent_color o); s ← rb_set_left s y (rb_left o);
       s ← rb_set_parent s (rb_left o) y; k s) = k s') ∧
    tree_at (rb_heap s') p (T c l y r) ∧ rb_root s' = rb_root s ∧
    (∀ z, z ≠ y → z ∉ addrs l → rb_heap s' !! z = rb_heap s !! z).
Proof.
  intros Hhx Hhy Hl Hr Hx Hy Hl0 [Hyl Hnl]%NoDup_cons Hyr Hrl.
  assert (Gx : rb_get s x = Ok (RbNode (p + bit c) (top l) rx)) by (unfold rb_get; by rewrite Hhx).
  assert (Gy : rb_get s y = Ok (RbNode pcy NULL (top r))) by (unfold rb_get; by rewrite Hhy).
  rewrite Gx. cres_simpl. rewrite (rb_set_pc_eq _ _ _ _ Gy). cres_simpl.
  rewrite (rb_set_left_eq _ _ _ _ (rb_get_put_eq _ _ _)). cres_simpl. cbn [rb_parent_color rb_left rb_right].
  set (s1 := rb_put _ y (RbNode _ _ _)).
  assert (Hs1 : ∀ z, z ≠ y → rb_heap s1 !! z = rb_heap s !! z) by (intros z Hz; cbn; by rewrite !lookup_insert_ne).
  destruct (reparent_ok s1 x y l) as (s2 & E2 & Hl2 & Hr2 & Hf2); [|by auto with cserv|by auto with cserv|done|].
  { eapply tree_at_ext; [|exact Hl]. intros z Hz. apply Hs1. by intros ->. }
  destruct (tree_at_aligned _ _ _ _ Hl (top_elem _ Hl0)) as [Hpos _].
  rewrite (proj2 (Z.eqb_neq _ _)) in E2 by (unfold NULL; lia). cbn [negb] in E2.
  exists s2. split; [intros B k; by rewrite E2|]. split_and!; [|by rewrite Hr2|].
  - cbn [tree_at]. rewrite Hf2 by done. split_and!; [done | cbn; by rewrite lookup_insert_eq | done |].
    eapply tree_at_ext; [|exact Hr]. intros z Hz. rewrite Hf2 by (by apply Hrl). apply Hs1. by intros ->.
  - intros z Hz Hzl. rewrite Hf2 by done. by apply Hs1.
Qed.

Lemma nodup_drop_middle (l1 l2 l3 l4 : list Z) x : NoDup (l1 ++ (l2 ++ x :: l3) ++ l4) → NoDup (l1 ++ (l2 ++ l3) ++ l4).
Proof.
  intros Hn. eapply sublist_NoDup; [exact Hn|]. apply sublist_app; [done|]. apply sublist_app; [|done].
  apply sublist_app; [done|]. by apply sublist_cons.
Qed.

(** A node with two children: its successor [y] takes its place and its colour. *)
Lemma erase_two_ok s ps c l x qs cy y d :
  rep s (fill ps (T c l x (fill qs (T cy E y d)))) → left_path qs → l ≠ E →
  ∃ s', erase_two s x = Ok (s', top d, above (qs ++ FR c y l :: ps), bit cy) ∧
    rep s' (fill ps (T c l y (fill qs d))) ∧ only (fill ps (T c l y (fill qs d))) s s'.
Proof.
  intros H0 Hq Hl0. destruct (rep_focus _ _ _ _ _ _ H0) as (Gx & Hpp & Hx). destruct (rep_apart _ _ _ _ _ _ H0) as [Hap Hnn].
  assert (Hy0 := H0). change (T c l x (fill qs (T cy E y d))) with (plug (FR c x l) (fill qs (T cy E y d))) in Hy0.
  change (rep s (fill (FR c x l :: ps) (fill qs (T cy E y d)))) in Hy0. rewrite <-fill_app in Hy0.
  pose proof (rep_depth _ _ _ _ _ _ Hy0) as Hdep. destruct (rep_focus _ _ _ _ _ _ Hy0) as (Gy & Hypp & Hy).
  pose proof (rep_linked _ _ _ H0) as Hlk. pose proof H0 as (Hta & Hroot & Hn).
  apply tree_at_fill in Hta as [(_ & Hhx & Hl & Hr) _]. rewrite addrs_fill in Hn. cbn [addrs] in Hn.
  rewrite above_parent_in in Gy, Hypp. cbn [at_frame] in Gy, Hypp. rewrite above_parent_in. cbn [at_frame].
  assert (Hnr : NoDup (addrs (fill qs (T cy E y d)))) by (clear -Hn; nodup_split; done).
  pose proof (succ_nodup qs cy y d Hq Hnr) as [Hyr Hnr2]%NoDup_cons.
  pose proof (succ_elem qs cy y d) as Hmem.
  assert (Hdis : x ∉ addrs (fill qs (T cy E y d)) ∧ x ∉ addrs l ∧ NoDup (addrs l) ∧
    (∀ z, z ∈ addrs l → z ∉ addrs (fill qs (T cy E y d))) ∧
    (∀ z, z ∈ before ps ++ after ps → z ∉ addrs l ∧ z ∉ addrs (fill qs (T cy E y d)) ∧ z ≠ x)).
  { clear -Hn. nodup_split. split_and!; try done; [set_solver..|]. intros z Hz. apply elem_of_app in Hz as [Hz|Hz]; set_solver. }
  destruct Hdis as (Hxr & Hxl & Hnl & Hlr & Hout).
  assert (Hab : ps ≠ [] → above ps ∉ addrs l ∧ above ps ∉ addrs (fill qs (T cy E y d)) ∧ above ps ≠ x).
  { intros Hps. by apply Hout, above_elem. }
  unfold erase_two. rewrite Gx. cres_simpl. cbn [rb_right]. rewrite (leftmost_ok _ s x) by (done || (rewrite length_app in Hdep; lia)).
  cres_simpl. rewrite pc_parent by done.
  destruct (relink_ok s ps x y (rb_root s) Hlk Hpp Hnn Hap) as (s1 & _ & _ & E1 & Hlk1 & Hf1). rewrite E1. cres_simpl.
  assert (Hin1 : ∀ z, z = x ∨ z ∈ addrs l ∨ z ∈ addrs (fill qs (T cy E y d)) → rb_heap s1 !! z = rb_heap s !! z).
  { intros z Hz. apply Hf1. intros Hps ->. destruct (Hab Hps) as (? & ? & ?). tauto. }
  assert (Hhy : rb_heap s !! y = Some (RbNode (parent_in qs x + bit cy) NULL (top d))).
  { unfold rb_get in Gy. destruct (rb_heap s !! y) as [ny|] eqn:Hny; [|done]. cbn in Gy. by injection Gy as ->. }
  assert (Hyin : y ∈ addrs (fill qs (T cy E y d))) by (rewrite Hmem; by left).
  assert (Gy1 : rb_get s1 y = Ok (RbNode (parent_in qs x + bit cy) NULL (top d))) by (unfold rb_get; rewrite Hin1 by tauto; by rewrite Hhy).
  rewrite Gy1. cres_simpl. cbn [rb_right]. rewrite pc_parent, pc_color by done.
  destruct (detach_succ_ok qs cy y d x Hq Hnr Hxr s1 (above ps) c (top l) (parent_in qs x + bit cy)) as (s2 & E2 & Hhy2 & Ht2 & Hr2 & Hf2); [done | | | |].
  { by rewrite Hin1 by tauto. }
  { eapply tree_at_ext; [|exact Hr]. intros z Hz. apply Hin1. tauto. }
  { by rewrite Hin1 by tauto. }
  unfold detach_succ in E2. rewrite E2. cres_simpl.
  destruct (take_place_ok s2 (above ps) c l x y (fill qs d) (parent_in qs x + bit cy) (top (fill qs (T cy E y d))))
    as (s3 & E3 & Ht3 & Hr3 & Hf3); try done.
  { rewrite Hf2, Hin1 by tauto. done. }
  { eapply tree_at_ext; [|exact Hl]. intros z Hz. rewrite Hf2 by (by apply Hlr). apply Hin1. tauto. }
  { apply NoDup_cons. split; [|done]. intros Hyl. by apply (Hlr y Hyl). }
  { intros z Hz Hzl. apply (Hlr z Hzl). rewrite Hmem. tauto. }
  rewrite E3. exists s3. split; [done|].
  assert (Hf : ∀ z, z ∉ addrs l → z ∉ addrs (fill qs (T cy E y d)) → (ps ≠ [] → z ≠ above ps) → rb_heap s3 !! z = rb_heap s !! z).
  { intros z H1 H2 H3. rewrite Hf3, Hf2, Hf1; try done. intros ->. by apply H2. }
  split.
  - apply (rep_update s _ ps (T c l x (fill qs (T cy E y d)))); [done | done | | |].
    + intros z Hz Hza. destruct (Hout z Hz) as (? & ? & ?). by apply Hf.
    + apply (linked_to_ext s1); [|by rewrite Hr3, Hr2|exact Hlk1]. intros Hps. destruct (Hab Hps) as (Ha1 & Ha2 & Ha3).
      rewrite Hf3, Hf2; [done | done | | done]. intros He. apply Ha2. by rewrite He.
    + rewrite addrs_fill. cbn [addrs]. rewrite addrs_fill in Hn |- *. cbn [addrs app] in Hn. rewrite (left_path_before qs) in Hn |- * by done.
      cbn [app] in Hn |- *. by eapply nodup_drop_middle.
  - intros z Hz. rewrite addrs_fill in Hz. cbn [addrs] in Hz.
    assert (Hz' : z ∉ before ps ++ after ps ∧ z ∉ addrs l ∧ z ≠ y ∧ z ∉ addrs (fill qs d)) by (clear -Hz; set_solver).
    destruct Hz' as (Hz1 & Hz2 & Hz3 & Hz4). apply Hf; [done | rewrite Hmem; tauto |].
    intros Hps ->. by apply Hz1, above_elem.
Qed.
