(* ===== verification/RbEraseColor.v ===== *)
(** The loop of [__rb_erase_color] restores the balance after a black node was unlinked. *)

From stdpp Require Import base gmap list numbers strings sets.
From Stdlib Require Import ZArith Lia.
From S2P Require Import Prelude RbTree RbRep RbInsert RbErase.

(** The focus is one black node short: as a subtree of black height [S n] it lacks one,
    and blackening it, if it is red, makes up for it. *)
Definition deficient (t : tree) (n : nat) : Prop :=
  match t with
  | T Red l _ r => balanced l n ∧ balanced r n
  | _ => balanced t n
  end.

Lemma balanced_deficient t n : balanced t n → deficient t n.
Proof. destruct t as [|[] l x r]; cbn; tauto. Qed.

Lemma accepts_weaken ps n c : accepts ps n c → accepts ps n Black.
Proof. destruct ps as [|f ps]; [done|]. cbn. destruct (hue_frame f); tauto. Qed.

(** What the loop and the assignment after it achieve. *)
Definition mends (s : rb_state) (t : tree) (r : cres rb_state) : Prop :=
  ∃ s' t', r = Ok s' ∧ stage (addrs t) s s' t' ∧ red_black t'.

Lemma mends_stage s s1 t t1 r : stage (addrs t) s s1 t1 → mends s1 t1 r → mends s t r.
Proof. intros Hs (s' & t' & E & Hs' & Hb). exists s', t'. split; [done|]. split; [by eapply stage_trans | done]. Qed.

(** [if (node) rb_set_black(node);] *)
Definition finish (r : rb_state * Z) : cres rb_state :=
  let '(s, node) := r in if negb (node =? NULL) then rb_set_black s node else mret s.

Lemma erase_color_finish s node parent :
  __rb_erase_color s node parent = (erase_color_loop (climb_fuel s) s node parent ≫= finish).
Proof. done. Qed.

(** The result of a position whose focus is balanced. *)
Lemma red_black_fill ps t n :
  balanced t n → accepts ps n (hue t) → root_black ps → (ps = [] → hue t = Black) → red_black (fill ps t).
Proof.
  intros Hb Ha Hr Ht. split; [|by eapply balanced_fill]. rewrite root_black_fill. unfold root_black in Hr.
  destruct (last ps) eqn:El; [done|]. by apply Ht, last_None.
Qed.

Section Mend.
  Context (ps : list frame) (n : nat).
  Hypothesis Hroot : root_black ps.

(** A red focus is painted black. *)
Lemma mend_red s l x r p fuel :
  rep s (fill ps (T Red l x r)) → balanced l n → balanced r n → accepts ps (S n) Black →
  mends s (fill ps (T Red l x r)) (erase_color_loop (S fuel) s x p ≫= finish).
Proof using Hroot.
  intros H0 Bl Br Hacc. destruct (rep_focus _ _ _ _ _ _ H0) as (Gx & Hp & Hx).
  cbn [erase_color_loop]. unfold null_or_black. rewrite (aligned_ne _ Hx), Gx. cres_simpl.
  rewrite pc_is_black by done. rewrite bool_decide_eq_false_2 by done. cbn [andb negb]. cres_simpl. cbn [finish].
  rewrite (aligned_ne _ Hx). cbn [negb]. rb_do (set_black_rep s ps Red l x r) H0 s1 H1 O1.
  eexists _, _. split; [done|]. split; [apply (stage_only _ _ _ _ H1 O1); addr_eq|]. by apply (red_black_fill ps _ (S n)).
Qed.

(** The last step: the root, already black, is painted black. *)
Lemma mend_root s t :
  rep s t → red_black t → mends s t (finish (s, rb_root s)).
Proof using Type.
  clear Hroot. intros H0 [Ht [k Hk]]. pose proof H0 as (Hta & Hr & _). rewrite Hr. destruct t as [|c l x r]; cbn [hue] in Ht.
  - exists s, E. split; [done|]. split; [by apply stage_refl|]. split; [done | by exists k].
  - subst c. destruct (rep_focus s [] _ _ _ _ H0) as (_ & _ & Hx). cbn [finish top]. rewrite (aligned_ne _ Hx). cbn [negb].
    rb_do (set_black_rep s [] Black l x r) H0 s1 H1 O1. exists s1, (T Black l x r).
    split; [done|]. split; [by apply (stage_only _ _ _ _ H1 O1)|]. split; [done | by exists k].
Qed.

(** The surroundings of a parent of colour [c] whose children are to have black height [S n]. *)
Definition outside (c : color) : Prop := match c with Red => accepts ps (S n) Red | Black => accepts ps (S (S n)) Black end.

(** The colours that the final rotation leaves. *)
Lemma mended_red_black c a x b : outside c → (ps = [] → c = Black) →
  hue a = Black → hue b = Black → balanced a (S n) → balanced b (S n) → red_black (fill ps (T c a x b)).
Proof using Hroot.
  intros Ho Hc Ca Cb Ba Bb. destruct c; cbn [outside] in Ho.
  - by apply (red_black_fill ps _ (S n)).
  - by apply (red_black_fill ps _ (S (S n))).
Qed.

(** The final rotation, with a red node on the far side of the sibling. *)
Lemma close_left s c t p a o b1 bx b2 :
  rep s (fill ps (T c t p (T Black a o (T Red b1 bx b2)))) → outside c → (ps = [] → c = Black) →
  balanced t n → balanced a n → balanced b1 n → balanced b2 n →
  mends s (fill ps (T c t p (T Black a o (T Red b1 bx b2))))
    ((p' ← rb_get s p; s ← rb_set_color s o (rb_color p'); s ← rb_set_black s p; o' ← rb_get s o;
      s ← rb_set_black s (rb_right o'); s ← __rb_rotate_left s p; mret (s, rb_root s)) ≫= finish).
Proof using Hroot.
  intros H0 Ho Hc Bt Ba B1 B2. destruct (rep_focus _ _ _ _ _ _ H0) as (Gp & Hp & _). rewrite Gp. cres_simpl. rewrite pc_color by done.
  rb_do (set_color_rep s (FR c p t :: ps) Black c a o (T Red b1 bx b2)) H0 s1 H1 O1.
  rb_do (set_black_rep s1 ps c t p (T c a o (T Red b1 bx b2))) H1 s2 H2 O2.
  destruct (rep_focus s2 (FR Black p t :: ps) _ _ _ _ H2) as (Go & _ & _). rewrite Go. cres_simpl. cbn [rb_right top].
  rb_do (set_black_rep s2 (FR c o a :: FR Black p t :: ps) Red b1 bx b2) H2 s3 H3 O3.
  rb_do (rotate_left_rep s3 ps Black t p c a o (T Black b1 bx b2)) H3 s4 H4 O4.
  eapply mends_stage; [|apply mend_root; [exact H4|]; by apply mended_red_black].
  eapply stage_trans; [apply (stage_only _ _ _ _ H1 O1); addr_eq|].
  eapply stage_trans; [apply (stage_only _ _ _ _ H2 O2); addr_eq|].
  eapply stage_trans; [apply (stage_only _ _ _ _ H3 O3); addr_eq|]. apply (stage_only _ _ _ _ H4 O4). addr_eq.
Qed.

Lemma close_right s c t p a o b1 bx b2 :
  rep s (fill ps (T c (T Black (T Red b1 bx b2) o a) p t)) → outside c → (ps = [] → c = Black) →
  balanced t n → balanced a n → balanced b1 n → balanced b2 n →
  mends s (fill ps (T c (T Black (T Red b1 bx b2) o a) p t))
    ((p' ← rb_get s p; s ← rb_set_color s o (rb_color p'); s ← rb_set_black s p; o' ← rb_get s o;
      s ← rb_set_black s (rb_left o'); s ← __rb_rotate_right s p; mret (s, rb_root s)) ≫= finish).
Proof using Hroot.
  intros H0 Ho Hc Bt Ba B1 B2. destruct (rep_focus _ _ _ _ _ _ H0) as (Gp & Hp & _). rewrite Gp. cres_simpl. rewrite pc_color by done.
  rb_do (set_color_rep s (FL c p t :: ps) Black c (T Red b1 bx b2) o a) H0 s1 H1 O1.
  rb_do (set_black_rep s1 ps c (T c (T Red b1 bx b2) o a) p t) H1 s2 H2 O2.
  destruct (rep_focus s2 (FL Black p t :: ps) _ _ _ _ H2) as (Go & _ & _). rewrite Go. cres_simpl. cbn [rb_left top].
  rb_do (set_black_rep s2 (FL c o a :: FL Black p t :: ps) Red b1 bx b2) H2 s3 H3 O3.
  rb_do (rotate_right_rep s3 ps Black (T Black b1 bx b2) o c a p t) H3 s4 H4 O4.
  eapply mends_stage; [|apply mend_root; [exact H4|]; by apply mended_red_black].
  eapply stage_trans; [apply (stage_only _ _ _ _ H1 O1); addr_eq|].
  eapply stage_trans; [apply (stage_only _ _ _ _ H2 O2); addr_eq|].
  eapply stage_trans; [apply (stage_only _ _ _ _ H3 O3); addr_eq|]. apply (stage_only _ _ _ _ H4 O4). addr_eq.
Qed.

End Mend.

(** ** An iteration *)

(** The tests of the colours. *)
Lemma null_or_black_ok s ps t : rep s (fill ps t) → null_or_black s (top t) = Ok (bool_decide (hue t = Black)).
Proof.
  intros Hrep. unfold null_or_black. destruct t as [|c l x r]; [done|]. destruct (rep_focus _ _ _ _ _ _ Hrep) as (Gu & Hp & Hx).
  cbn [top hue]. rewrite (aligned_ne _ Hx), Gu. cres_simpl. by rewrite pc_is_black.
Qed.

(** The code after the sibling is known to be black. *)
Definition mend_left (fuel : nat) (s : rb_state) (parent other : Z) : cres (rb_state * Z) :=
  o ← rb_get s other;
  left_black ← null_or_black s (rb_left o);
  right_black ← null_or_black s (rb_right o);
  if left_black && right_black then
    s ← rb_set_red s other;
    p ← rb_get s parent;
    erase_color_loop fuel s parent (rb_parent p)
  else
    '(s, other) ← (if right_black : bool then
                     s ← rb_set_black s (rb_left o);
                     s ← rb_set_red s other;
                     s ← __rb_rotate_right s other;
                     p ← rb_get s parent;
                     mret (s, rb_right p)
                   else mret (s, other));
    p ← rb_get s parent;
    s ← rb_set_color s other (rb_color p);
    s ← rb_set_black s parent;
    o ← rb_get s other;
    s ← rb_set_black s (rb_right o);
    s ← __rb_rotate_left s parent;
    mret (s, rb_root s).

Definition mend_right (fuel : nat) (s : rb_state) (parent other : Z) : cres (rb_state * Z) :=
  o ← rb_get s other;
  left_black ← null_or_black s (rb_left o);
  right_black ← null_or_black s (rb_right o);
  if left_black && right_black then
    s ← rb_set_red s other;
    p ← rb_get s parent;
    erase_color_loop fuel s parent (rb_parent p)
  else
    '(s, other) ← (if left_black : bool then
                     s ← rb_set_black s (rb_right o);
                     s ← rb_set_red s other;
                     s ← __rb_rotate_left s other;
                     p ← rb_get s parent;
                     mret (s, rb_left p)
                   else mret (s, other));
    p ← rb_get s parent;
    s ← rb_set_color s other (rb_color p);
    s ← rb_set_black s parent;
    o ← rb_get s other;
    s ← rb_set_black s (rb_left o);
    s ← __rb_rotate_right s parent;
    mret (s, rb_root s).

Section Sibling.
  Context (ps : list frame) (n : nat) (c : color) (t : tree) (p : Z) (a : tree) (o : Z) (b : tree) (fuel : nat).
  Hypothesis Hroot : root_black ps.
  Hypothesis Hc : ps = [] → c = Black.
  Hypothesis Ho : outside ps n c.
  Hypothesis Bt : balanced t n.
  Hypothesis Ba : balanced a n.
  Hypothesis Bb : balanced b n.

(** The sibling is black. *)
Lemma mend_left_ok s :
  rep s (fill ps (T c t p (T Black a o b))) →
  (hue a = Black → hue b = Black → ∀ s', rep s' (fill ps (T c t p (T Red a o b))) →
     mends s' (fill ps (T c t p (T Red a o b))) (erase_color_loop fuel s' p (above ps) ≫= finish)) →
  mends s (fill ps (T c t p (T Black a o b))) (mend_left fuel s p o ≫= finish).
Proof using Type*.
  intros H0 Hnext. unfold mend_left. destruct (rep_focus s (FR c p t :: ps) _ _ _ _ H0) as (Go & _ & _). rewrite Go. cres_simpl.
  cbn [rb_left rb_right]. rewrite (null_or_black_ok s (FL Black o b :: FR c p t :: ps) a H0). cres_simpl.
  rewrite (null_or_black_ok s (FR Black o a :: FR c p t :: ps) b H0). cres_simpl.
  destruct (decide (hue b = Black)) as [Cb|Cb].
  - rewrite (bool_decide_eq_true_2 (hue b = Black)) by done. case_bool_decide as Ca; cbn [andb].
    + rb_do (set_red_rep s (FR c p t :: ps) Black a o b) H0 s1 H1 O1.
      destruct (rep_focus s1 ps _ _ _ _ H1) as (Gp & Hp & _). rewrite Gp. cres_simpl. rewrite pc_parent by done.
      eapply mends_stage; [apply (stage_only _ _ _ _ H1 O1); addr_eq|]. by apply Hnext.
    + destruct a as [|[] a1 ax a2]; [done| |done]. cbn [top balanced] in *. destruct Ba as (Ca1 & Ca2 & Ba1 & Ba2).
      rb_do (set_black_rep s (FL Black o b :: FR c p t :: ps) Red a1 ax a2) H0 s1 H1 O1.
      rb_do (set_red_rep s1 (FR c p t :: ps) Black (T Black a1 ax a2) o b) H1 s2 H2 O2.
      rb_do (rotate_right_rep s2 (FR c p t :: ps) Red a1 ax Black a2 o b) H2 s3 H3 O3.
      destruct (rep_focus s3 ps _ _ _ _ H3) as (Gp & Hp & _). rewrite Gp. cres_simpl. cbn [rb_right top].
      eapply mends_stage; [apply (stage_only _ _ _ _ H1 O1); addr_eq|].
      eapply mends_stage; [apply (stage_only _ _ _ _ H2 O2); addr_eq|].
      eapply mends_stage; [apply (stage_only _ _ _ _ H3 O3); addr_eq|].
      by apply (close_left ps n Hroot s3 c t p a1 ax a2 o b).
  - destruct b as [|[] b1 bx b2]; [done| |done]. cbn [top balanced hue] in *. destruct Bb as (Cb1 & Cb2 & Bb1 & Bb2).
    rewrite (bool_decide_eq_false_2 (Red = Black)) by done. rewrite andb_false_r. cres_simpl.
    by apply (close_left ps n Hroot s c t p a o b1 bx b2).
Qed.

Lemma mend_right_ok s :
  rep s (fill ps (T c (T Black a o b) p t)) →
  (hue a = Black → hue b = Black → ∀ s', rep s' (fill ps (T c (T Red a o b) p t)) →
     mends s' (fill ps (T c (T Red a o b) p t)) (erase_color_loop fuel s' p (above ps) ≫= finish)) →
  mends s (fill ps (T c (T Black a o b) p t)) (mend_right fuel s p o ≫= finish).
Proof using Type*.
  intros H0 Hnext. unfold mend_right. destruct (rep_focus s (FL c p t :: ps) _ _ _ _ H0) as (Go & _ & _). rewrite Go. cres_simpl.
  cbn [rb_left rb_right]. rewrite (null_or_black_ok s (FL Black o b :: FL c p t :: ps) a H0). cres_simpl.
  rewrite (null_or_black_ok s (FR Black o a :: FL c p t :: ps) b H0). cres_simpl.
  destruct (decide (hue a = Black)) as [Ca|Ca].
  - rewrite (bool_decide_eq_true_2 (hue a = Black)) by done. case_bool_decide as Cb; cbn [andb].
    + rb_do (set_red_rep s (FL c p t :: ps) Black a o b) H0 s1 H1 O1.
      destruct (rep_focus s1 ps _ _ _ _ H1) as (Gp & Hp & _). rewrite Gp. cres_simpl. rewrite pc_parent by done.
      eapply mends_stage; [apply (stage_only _ _ _ _ H1 O1); addr_eq|]. by apply Hnext.
    + destruct b as [|[] b1 bx b2]; [done| |done]. cbn [top balanced] in *. destruct Bb as (Cb1 & Cb2 & Bb1 & Bb2).
      rb_do (set_black_rep s (FR Black o a :: FL c p t :: ps) Red b1 bx b2) H0 s1 H1 O1.
      rb_do (set_red_rep s1 (FL c p t :: ps) Black a o (T Black b1 bx b2)) H1 s2 H2 O2.
      rb_do (rotate_left_rep s2 (FL c p t :: ps) Red a o Black b1 bx b2) H2 s3 H3 O3.
      destruct (rep_focus s3 ps _ _ _ _ H3) as (Gp & Hp & _). rewrite Gp. cres_simpl. cbn [rb_left top].
      eapply mends_stage; [apply (stage_only _ _ _ _ H1 O1); addr_eq|].
      eapply mends_stage; [apply (stage_only _ _ _ _ H2 O2); addr_eq|].
      eapply mends_stage; [apply (stage_only _ _ _ _ H3 O3); addr_eq|].
      by apply (close_right ps n Hroot s3 c t p b2 bx a o b1).
  - destruct a as [|[] a1 ax a2]; [done| |done]. cbn [top balanced hue] in *. destruct Ba as (Ca1 & Ca2 & Ba1 & Ba2).
    rewrite (bool_decide_eq_false_2 (Red = Black)) by done. cbn [andb]. cres_simpl.
    by apply (close_right ps n Hroot s c t p b o a1 ax a2).
Qed.

End Sibling.

(** The root lies outside every other position. *)
Lemma top_outside f ps t : top (fill (f :: ps) t) ∈ before (f :: ps) ++ after (f :: ps).
Proof.
  revert f t. induction ps as [|g ps IH]; intros f t.
  - destruct f; cbn; set_solver.
  - change (fill (f :: g :: ps) t) with (fill (g :: ps) (plug f t)). specialize (IH g (plug f t)).
    destruct f; cbn [before after] in *; set_solver.
Qed.

Lemma rep_not_root s f ps t : rep s (fill (f :: ps) t) → (top t =? rb_root s) = false.
Proof.
  intros (Ht & Hr & Hn). apply Z.eqb_neq. rewrite Hr. intros He. pose proof (top_outside f ps t) as Ho. rewrite <-He in Ho.
  destruct (decide (t = E)) as [->|Hne].
  - assert (Hin : NULL ∈ addrs (fill (f :: ps) E)) by (rewrite addrs_fill; cbn [addrs top app] in *; done).
    destruct (tree_at_aligned _ _ _ _ Ht Hin) as [? _]. unfold NULL in *. lia.
  - rewrite addrs_fill in Hn. pose proof (nodup_middle _ _ _ (top t) Hn (top_elem t Hne)). apply elem_of_app in Ho. tauto.
Qed.

Lemma rep_sibling_ne s f ps t : rep s (fill (f :: ps) t) → sibling f ≠ E → top (sibling f) ≠ top t.
Proof.
  intros H0 Hw. destruct t as [|c l x r].
  - cbn [top]. destruct H0 as (Ht & _). apply tree_at_fill in Ht as [_ (_ & _ & Hs & _)].
    destruct (tree_at_aligned _ _ _ _ Hs (top_elem _ Hw)) as [? _]. unfold NULL. lia.
  - destruct (rep_apart _ _ _ _ _ _ H0) as [Hap _]. by apply not_eq_sym.
Qed.

Lemma sibling_red s ps c l x r :
  rep s (fill ps (T c l x r)) → (∃ n, rb_get s x = Ok n ∧ rb_is_red n = bool_decide (c = Red)).
Proof.
  intros H0. destruct (rep_focus _ _ _ _ _ _ H0) as (Go & Hp & _). eexists. split; [done|]. by apply pc_is_red.
Qed.

Lemma erase_step_left s ps c p wc a o b t fuel :
  rep s (fill ps (T c t p (T wc a o b))) → hue t = Black →
  erase_color_loop (S fuel) s (top t) p =
    ('(s, other) ← (if bool_decide (wc = Red) then
                      s ← rb_set_black s o; s ← rb_set_red s p; s ← __rb_rotate_left s p;
                      p ← rb_get s p; mret (s, rb_right p)
                    else mret (s, o));
     mend_left fuel s p other).
Proof.
  intros H0 Ct. cbn [erase_color_loop]. rewrite (null_or_black_ok s (FL c p (T wc a o b) :: ps) t H0). cres_simpl.
  rewrite bool_decide_eq_true_2 by done. rewrite (rep_not_root s (FL c p (T wc a o b)) ps t H0). cbn [andb negb].
  destruct (rep_focus _ _ _ _ _ _ H0) as (Gp & _ & _). rewrite Gp. cres_simpl. cbn [rb_left rb_right top]. rewrite Z.eqb_refl.
  destruct (sibling_red s (FR c p t :: ps) _ _ _ _ H0) as (no & Go & Hred). by rewrite Go, <-Hred.
Qed.

Lemma erase_step_right s ps c p wc a o b t fuel :
  rep s (fill ps (T c (T wc a o b) p t)) → hue t = Black →
  erase_color_loop (S fuel) s (top t) p =
    ('(s, other) ← (if bool_decide (wc = Red) then
                      s ← rb_set_black s o; s ← rb_set_red s p; s ← __rb_rotate_right s p;
                      p ← rb_get s p; mret (s, rb_left p)
                    else mret (s, o));
     mend_right fuel s p other).
Proof.
  intros H0 Ct. cbn [erase_color_loop]. rewrite (null_or_black_ok s (FR c p (T wc a o b) :: ps) t H0). cres_simpl.
  rewrite bool_decide_eq_true_2 by done. rewrite (rep_not_root s (FR c p (T wc a o b)) ps t H0). cbn [andb negb].
  destruct (rep_focus _ _ _ _ _ _ H0) as (Gp & _ & _). rewrite Gp. cres_simpl. cbn [rb_left rb_right top].
  pose proof (rep_sibling_ne s (FR c p (T wc a o b)) ps t H0 ltac:(done)) as Hne. cbn [sibling top] in Hne.
  rewrite (proj2 (Z.eqb_neq o (top t)) Hne).
  destruct (sibling_red s (FL c p t :: ps) _ _ _ _ H0) as (no & Go & Hred). by rewrite Go, <-Hred.
Qed.

(** ** The loop *)

Section Iteration.
  Context (ps : list frame) (n : nat) (c : color) (t : tree) (p : Z) (w : tree) (fuel : nat).
  Hypothesis Hroot : root_black ps.
  Hypothesis Hc : ps = [] → c = Black.
  Hypothesis Ho : outside ps n c.
  Hypothesis Ct : hue t = Black.
  Hypothesis Bt : balanced t n.
  Hypothesis Bw : balanced w (S n).
  Hypothesis Cw : c = Red → hue w = Black.
  (** The loop goes on with the parent. *)
  Hypothesis Hnext : ∀ s u k, rep s (fill ps u) → deficient u k → accepts ps (S k) Black →
    mends s (fill ps u) (erase_color_loop (S fuel) s (top u) (above ps) ≫= finish).

(** With both nephews black the sibling is painted red and the parent is the deficient node. *)
Lemma mend_up s u a o b :
  u = T c t p (T Red a o b) ∨ u = T c (T Red a o b) p t → hue a = Black → hue b = Black → balanced a n → balanced b n →
  rep s (fill ps u) → mends s (fill ps u) (erase_color_loop (S fuel) s p (above ps) ≫= finish).
Proof using Ho Bt Hnext.
  clear Hc Cw. intros Hu Ca Cb Ba Bb H0. replace p with (top u) by (by destruct Hu as [-> | ->]). destruct c; cbn [outside] in Ho.
  - apply (Hnext s u n); [done | by destruct Hu as [-> | ->]; cbn | by eapply accepts_weaken].
  - apply (Hnext s u (S n)); [done | by destruct Hu as [-> | ->]; cbn | done].
Qed.

Lemma erase_iter_left s :
  rep s (fill ps (T c t p w)) → mends s (fill ps (T c t p w)) (erase_color_loop (S (S fuel)) s (top t) p ≫= finish).
Proof using Type*.
  intros H0. destruct w as [|wc a o b]; [done|]. rewrite (erase_step_left _ _ _ _ _ _ _ _ _ _ H0 Ct).
  destruct wc; [rewrite bool_decide_eq_true_2 by done | rewrite bool_decide_eq_false_2 by done]; cres_simpl.
  - destruct c; [by specialize (Cw eq_refl)|]. cbn [balanced outside] in *. destruct Bw as (Ca & Cb & Ba & Bb).
    rb_do (set_black_rep s (FR Black p t :: ps) Red a o b) H0 s1 H1 O1.
    rb_do (set_red_rep s1 ps Black t p (T Black a o b)) H1 s2 H2 O2.
    rb_do (rotate_left_rep s2 ps Red t p Black a o b) H2 s3 H3 O3.
    destruct (rep_focus s3 (FL Black o b :: ps) _ _ _ _ H3) as (Gp & _ & _). rewrite Gp. cres_simpl. cbn [rb_right].
    eapply mends_stage; [apply (stage_only _ _ _ _ H1 O1); addr_eq|].
    eapply mends_stage; [apply (stage_only _ _ _ _ H2 O2); addr_eq|].
    eapply mends_stage; [apply (stage_only _ _ _ _ H3 O3); addr_eq|].
    destruct a as [|[] a1 ax a2]; [done|done|]. destruct Ba as [Ba1 Ba2]. cbn [top].
    apply (mend_left_ok (FL Black o b :: ps) n Red t p a1 ax a2 (S fuel)); try done.
    { unfold root_black in *. destruct ps; done. }
    intros C1 C2 s' Hs'. apply (mend_red (FL Black o b :: ps) n); try done. unfold root_black in *. by destruct ps.
  - destruct Bw as [Ba Bb]. apply (mend_left_ok ps n c t p a o b (S fuel)); try done.
    intros Ca Cb s' Hs'. apply (mend_up s' _ a o b); try done. by left.
Qed.

Lemma erase_iter_right s :
  rep s (fill ps (T c w p t)) → mends s (fill ps (T c w p t)) (erase_color_loop (S (S fuel)) s (top t) p ≫= finish).
Proof using Type*.
  intros H0. destruct w as [|wc a o b]; [done|]. rewrite (erase_step_right _ _ _ _ _ _ _ _ _ _ H0 Ct).
  destruct wc; [rewrite bool_decide_eq_true_2 by done | rewrite bool_decide_eq_false_2 by done]; cres_simpl.
  - destruct c; [by specialize (Cw eq_refl)|]. cbn [balanced outside] in *. destruct Bw as (Ca & Cb & Ba & Bb).
    rb_do (set_black_rep s (FL Black p t :: ps) Red a o b) H0 s1 H1 O1.
    rb_do (set_red_rep s1 ps Black (T Black a o b) p t) H1 s2 H2 O2.
    rb_do (rotate_right_rep s2 ps Red a o Black b p t) H2 s3 H3 O3.
    destruct (rep_focus s3 (FR Black o a :: ps) _ _ _ _ H3) as (Gp & _ & _). rewrite Gp. cres_simpl. cbn [rb_left].
    eapply mends_stage; [apply (stage_only _ _ _ _ H1 O1); addr_eq|].
    eapply mends_stage; [apply (stage_only _ _ _ _ H2 O2); addr_eq|].
    eapply mends_stage; [apply (stage_only _ _ _ _ H3 O3); addr_eq|].
    destruct b as [|[] b1 bx b2]; [done|done|]. destruct Bb as [Bb1 Bb2]. cbn [top].
    apply (mend_right_ok (FR Black o a :: ps) n Red t p b1 bx b2 (S fuel)); try done.
    { unfold root_black in *. destruct ps; done. }
    intros C1 C2 s' Hs'. apply (mend_red (FR Black o a :: ps) n); try done. unfold root_black in *. by destruct ps.
  - destruct Bw as [Ba Bb]. apply (mend_right_ok ps n c t p a o b (S fuel)); try done.
    intros Ca Cb s' Hs'. apply (mend_up s' _ a o b); try done. by right.
Qed.

End Iteration.

Lemma erase_loop_ok fuel s ps t n :
  rep s (fill ps t) → deficient t n → accepts ps (S n) Black → root_black ps → (length ps < fuel)%nat →
  mends s (fill ps t) (erase_color_loop fuel s (top t) (above ps) ≫= finish).
Proof.
  revert s ps t n. induction fuel as [|fuel IH]; intros s ps t n H0 Hd Hacc Hroot Hf; [lia|].
  destruct (decide (hue t = Red)) as [Ct|Ct].
  { destruct t as [|[] l x r]; [done| |done]. destruct Hd as [Bl Br]. by apply (mend_red ps n). }
  assert (Cb : hue t = Black) by (destruct (hue t); done). clear Ct.
  assert (Bt : balanced t n) by (destruct t as [|[] l x r]; done).
  destruct ps as [|f ps].
  { cbn [erase_color_loop]. rewrite (null_or_black_ok s [] t H0). cres_simpl. pose proof H0 as (_ & Hr & _). cbn [fill] in Hr.
    rewrite Hr, Z.eqb_refl, andb_false_r. cbn [negb]. cres_simpl. rewrite <-Hr. apply mend_root; [done|]. split; [done | by exists n]. }
  cbn [length] in Hf. destruct fuel as [|fuel]; [lia|].
  assert (Hrb : root_black ps) by (destruct ps; [done | exact Hroot]).
  assert (Hcf : ps = [] → hue_frame f = Black) by (intros ->; exact Hroot).
  assert (Ho : outside ps n (hue_frame f)).
  { cbn [accepts] in Hacc. destruct Hacc as [_ Hacc]. destruct (hue_frame f); cbn [outside]; tauto. }
  assert (Hw : balanced (sibling f) (S n) ∧ (hue_frame f = Red → hue (sibling f) = Black)).
  { cbn [accepts] in Hacc. destruct Hacc as [? Hacc]. split; [done|]. intros E'. rewrite E' in Hacc. tauto. }
  destruct Hw as [Bw Cw].
  assert (Hnext : ∀ s u k, rep s (fill ps u) → deficient u k → accepts ps (S k) Black →
    mends s (fill ps u) (erase_color_loop (S fuel) s (top u) (above ps) ≫= finish)).
  { intros s' u k Hs' Hu Ha. apply (IH s' ps u k); try done. lia. }
  destruct f as [c p w|c p w]; cbn [hue_frame sibling] in *; cbn [above at_frame fill plug].
  - by apply (erase_iter_left ps n).
  - by apply (erase_iter_right ps n).
Qed.

(** ** The whole removal *)

(** Unlinking a node of colour [c] with the one child [t], then mending. *)
Lemma unlinked_mends s ps t c y u m :
  rep s (fill ps t) → u = T c E y t ∨ u = T c t y E → balanced u m → accepts ps m c → root_black ps → (ps = [] → c = Black) →
  mends s (fill ps t) (if bit c =? RB_BLACK then __rb_erase_color s (top t) (above ps) else mret s).
Proof.
  intros H0 Hu Hb Ha Hroot Hc. destruct c.
  - cbn [bit]. assert (Ht : hue t = Black ∧ balanced t m) by (destruct Hu as [-> | ->]; cbn in Hb; tauto). destruct Ht as [Ct Bt].
    exists s, (fill ps t). split; [done|]. split; [by apply stage_refl|].
    apply (red_black_fill ps t m); try done. rewrite Ct. by eapply accepts_weaken.
  - cbn [bit]. rewrite Z.eqb_refl, erase_color_finish.
    assert (Ht : ∃ n, m = S n ∧ balanced t n) by (destruct Hu as [-> | ->], m as [|n]; cbn in Hb; try done; exists n; tauto).
    destruct Ht as (n & -> & Bt). apply (erase_loop_ok _ s ps t n); try done; [by apply balanced_deficient|].
    pose proof (rep_size _ _ H0). pose proof (fill_length ps t). unfold climb_fuel. lia.
Qed.

Lemma position t x : x ∈ addrs t → ∃ ps c l r, t = fill ps (T c l x r).
Proof.
  induction t as [|c l IHl y r IHr]; cbn [addrs]; [set_solver|].
  intros [Hx|[->|Hx]%elem_of_cons]%elem_of_app.
  - destruct (IHl Hx) as (ps & c' & l' & r' & ->). exists (ps ++ [FL c y r]), c', l', r'. by rewrite fill_app.
  - by exists [], c, l, r.
  - destruct (IHr Hx) as (ps & c' & l' & r' & ->). exists (ps ++ [FR c y l]), c', l', r'. by rewrite fill_app.
Qed.

(** The frame [FR c x l] only counts through its colour and its subtree. *)
Lemma accepts_rename qs c x y l ps n d : accepts (qs ++ FR c x l :: ps) n d → accepts (qs ++ FR c y l :: ps) n d.
Proof.
  revert n d. induction qs as [|f qs IH]; intros n d; [done|]. cbn [app accepts].
  intros [? H]. split; [done|]. destruct (hue_frame f); [|by apply IH]. destruct H as (? & ? & ?). split_and!; [done | done | by apply IH].
Qed.

Lemma root_black_of ps t : hue (fill ps t) = Black → root_black ps ∧ (ps = [] → hue t = Black).
Proof.
  intros Hb. split; [|by intros ->]. rewrite root_black_fill in Hb. unfold root_black. by destruct (last ps).
Qed.

(** What removing [x] from a tree is to achieve. *)
Lemma rb_erase_one_ok s ps c l x r u :
  rep s (fill ps (T c l x r)) → red_black (fill ps (T c l x r)) → (l = E ∧ u = r ∨ r = E ∧ u = l) →
  ∃ s' t', ('(s, child, parent, color) ← erase_one s x (top u);
            if color =? RB_BLACK then __rb_erase_color s child parent else mret s) = Ok s' ∧
    stage (before ps ++ addrs u ++ after ps) s s' t' ∧ red_black t'.
Proof.
  intros H0 [Hb [k Hk]] Hu. destruct (root_black_of _ _ Hb) as [Hroot Hc]. destruct (balanced_fill_inv _ _ _ Hk) as (m & Hm & Ha).
  destruct (erase_one_ok _ _ _ _ _ _ _ H0 Hu) as (s1 & -> & H1 & O1). cres_simpl.
  destruct (unlinked_mends s1 ps u c x (T c l x r) m) as (s' & t' & E' & Hs' & Hb'); try done.
  { destruct Hu as [[-> ->]|[-> ->]]; tauto. }
  exists s', t'. split; [done|]. split; [|done]. rewrite <-addrs_fill. eapply stage_trans; [by apply (stage_only _ _ _ _ H1 O1) | done].
Qed.

Lemma rb_erase_ok s ps c l x r :
  rep s (fill ps (T c l x r)) → red_black (fill ps (T c l x r)) →
  ∃ s' t', rb_erase s x = Ok s' ∧ stage (before ps ++ (addrs l ++ addrs r) ++ after ps) s s' t' ∧ red_black t'.
Proof.
  intros H0 Hrb. destruct (rep_focus _ _ _ _ _ _ H0) as (Gx & Hp & Hx). unfold rb_erase. rewrite Gx. cres_simpl. cbn [rb_left rb_right].
  destruct (decide (l = E)) as [->|Hl].
  { cbn [top addrs app]. rewrite Z.eqb_refl. apply (rb_erase_one_ok s ps c E x r r); tauto. }
  assert (Htl : ∀ v, v ≠ E → (v = l ∨ v = r) → (top v =? NULL) = false).
  { intros v Hv Hlr. destruct H0 as (Ht & _). apply tree_at_fill in Ht as [(_ & _ & Htl & Htr) _].
    apply aligned_ne. destruct Hlr as [-> | ->]; [apply (tree_at_aligned _ _ _ _ Htl) | apply (tree_at_aligned _ _ _ _ Htr)]; by apply top_elem. }
  rewrite (Htl l) by tauto. destruct (decide (r = E)) as [->|Hr].
  { cbn [top addrs]. rewrite Z.eqb_refl, app_nil_r. apply (rb_erase_one_ok s ps c l x E l); tauto. }
  rewrite (Htl r) by tauto. destruct (min_split r Hr) as (qs & cy & y & d & Hq & ->).
  destruct (erase_two_ok _ _ _ _ _ _ _ _ _ H0 Hq Hl) as (s1 & -> & H1 & O1). cres_simpl.
  assert (Hpos : ∀ z u, fill ps (T c l z (fill qs u)) = fill (qs ++ FR c z l :: ps) u) by (intros z u; by rewrite fill_app).
  destruct Hrb as [Hb [k Hk]]. rewrite Hpos in Hk, Hb. destruct (balanced_fill_inv _ _ _ Hk) as (m & Hm & Ha).
  destruct (root_black_of _ _ Hb) as [Hroot _]. rewrite Hpos in H1, O1.
  destruct (unlinked_mends s1 (qs ++ FR c y l :: ps) d cy y (T cy E y d) m) as (s' & t' & E' & Hs' & Hb'); try done.
  { by left. }
  { by eapply accepts_rename. }
  { unfold root_black in *. destruct ps as [|g ps]; [by rewrite last_snoc in *|].
    by rewrite !last_app_cons in *. }
  { by destruct qs. }
  exists s', t'. split; [done|]. split; [|done].
  eapply stage_trans; [apply (stage_only _ _ _ _ H1 O1)|done].
  rewrite <-Hpos, addrs_fill. cbn [addrs]. rewrite (addrs_fill qs), (addrs_fill qs). cbn [addrs app]. by rewrite (left_path_before qs) by done.
Qed.
