(* ===== verification/RbProps.v ===== *)
(** What the red-black tree promises: an ordered sequence of nodes that can be extended at
    any gap, from which any node can be removed, and whose first element is found on a path
    of logarithmic length. *)

From stdpp Require Import base gmap list numbers strings sets.
From Stdlib Require Import ZArith Lia.
From S2P Require Import Prelude RbTree RbRep RbInsert RbErase RbEraseColor.

(** The state holds the sequence [A] in a red-black tree. *)
Definition holds (s : rb_state) (A : list Z) : Prop := ∃ t, rep s t ∧ red_black t ∧ addrs t = A.

(** Only nodes of the sequence have changed. *)
Definition untouched (A : list Z) (s s' : rb_state) : Prop := ∀ z, z ∉ A → rb_heap s' !! z = rb_heap s !! z.

(** A gap of the sequence, as the search for the place of a new node finds it: the frames
    from the empty place up to the root. *)
Definition leaf_gap (s : rb_state) (ps : list frame) : Prop := rep s (fill ps E) ∧ red_black (fill ps E).

(** ** Height *)

Fixpoint height (t : tree) : nat := match t with E => O | T _ l _ r => S (Nat.max (height l) (height r)) end.

Lemma balanced_size t n : balanced t n → (2 ^ n ≤ S (length (addrs t)))%nat.
Proof.
  revert n. induction t as [|[] l IHl x r IHr]; intros n; cbn [balanced addrs].
  - intros ->. done.
  - intros (_ & _ & Hl & Hr). specialize (IHl _ Hl). rewrite length_app. lia.
  - destruct n as [|n]; [done|]. intros [Hl Hr]. specialize (IHl _ Hl). specialize (IHr _ Hr).
    rewrite length_app. cbn [length Nat.pow]. lia.
Qed.

Lemma balanced_height t n : balanced t n → (height t ≤ 2 * n + match hue t with Red => 1 | Black => 0 end)%nat.
Proof.
  revert n. induction t as [|[] l IHl x r IHr]; intros n; cbn [balanced height hue]; [lia|..].
  - intros (Cl & Cr & Hl & Hr). specialize (IHl _ Hl). specialize (IHr _ Hr). rewrite Cl in IHl. rewrite Cr in IHr. lia.
  - destruct n as [|n]; [done|]. intros [Hl Hr]. specialize (IHl _ Hl). specialize (IHr _ Hr).
    destruct (hue l), (hue r); lia.
Qed.

Lemma red_black_height t : red_black t → (height t ≤ 2 * Nat.log2 (S (length (addrs t))))%nat.
Proof.
  intros [Ct [n Hn]]. pose proof (balanced_height t n Hn) as Hh. rewrite Ct in Hh.
  assert (n ≤ Nat.log2 (S (length (addrs t))))%nat; [|lia]. apply Nat.log2_le_pow2; [lia|]. by apply balanced_size.
Qed.

Lemma fill_height ps t : (length ps + height t ≤ height (fill ps t))%nat.
Proof. revert t. induction ps as [|f ps IH]; intros t; [done|]. specialize (IH (plug f t)). destruct f; cbn in *; lia. Qed.

(** ** The operations *)

Lemma nodup_split_unique (l1 l2 l3 l4 : list Z) x :
  NoDup (l1 ++ x :: l2) → l1 ++ x :: l2 = l3 ++ x :: l4 → l1 = l3 ∧ l2 = l4.
Proof.
  revert l3. induction l1 as [|a l1 IH]; intros [|b l3]; cbn [app]; intros [Hn Hn']%NoDup_cons He; simplify_eq; [done|..].
  - exfalso. apply Hn. set_solver.
  - exfalso. apply Hn. set_solver.
  - destruct (IH l3 Hn') as [-> ->]; done.
Qed.

Lemma gap_insert s ps x :
  leaf_gap s ps → aligned x → x ∉ addrs (fill ps E) → is_Some (rb_heap s !! x) →
  ∃ s', (s ← rb_link_node s x (above ps) (link_of ps); rb_insert_color s x) = Ok s' ∧
    holds s' (before ps ++ x :: after ps) ∧ untouched (before ps ++ x :: after ps) s s'.
Proof.
  intros [Hrep Hrb] Hx Hfresh Hmap. destruct (rb_link_node_ok s ps x Hrep Hx Hfresh Hmap) as (s1 & -> & H1 & O1). cres_simpl.
  destruct (rb_insert_color_ok s1 ps x H1 Hrb) as (s' & t' & -> & Hs' & Hrb'). exists s'. split; [done|].
  pose proof (stage_trans _ _ _ _ _ _ (stage_only _ _ _ _ H1 O1 eq_refl) Hs') as (Hr & Ha & Hu).
  rewrite addrs_fill in Ha, Hu. split; [by exists t' | done].
Qed.

Lemma holds_erase s A x B :
  holds s (A ++ x :: B) →
  ∃ s', rb_erase s x = Ok s' ∧ holds s' (A ++ B) ∧ untouched (A ++ B) s s'.
Proof.
  intros (t & Hrep & Hrb & Ha). destruct (position t x) as (ps & c & l & r & ->); [rewrite Ha; set_solver|].
  pose proof Hrep as (_ & _ & Hn). rewrite addrs_fill in Ha, Hn. cbn [addrs] in Ha, Hn.
  destruct (rb_erase_ok s ps c l x r Hrep Hrb) as (s' & t' & E' & (Hr & Ht & Hu) & Hrb'). exists s'. split; [done|].
  assert (HAB : before ps ++ (addrs l ++ addrs r) ++ after ps = A ++ B).
  { rewrite <-!app_assoc in Ha, Hn |- *. cbn [app] in Ha, Hn. rewrite (app_assoc (before ps)) in Ha, Hn |- *.
    by destruct (nodup_split_unique _ _ _ _ x Hn Ha) as [-> ->]. }
  rewrite HAB in *. split; [by exists t' | done].
Qed.

(** C13: inserting a node with [rb_link_node] and [rb_insert_color] at a gap of the tree
    succeeds, puts the node exactly there in the order of the nodes, leaves a red-black tree
    and writes to no other cell of memory. *)
Theorem rb_insert_spec s ps x :
  leaf_gap s ps → aligned x → x ∉ addrs (fill ps E) → is_Some (rb_heap s !! x) →
  ∃ s', (s ← rb_link_node s x (above ps) (link_of ps); rb_insert_color s x) = Ok s' ∧
    holds s' (before ps ++ x :: after ps) ∧ untouched (before ps ++ x :: after ps) s s'.
Proof. apply gap_insert. Qed.

(** C14: [rb_erase] of any node of the tree succeeds, takes exactly that node out of the order,
    leaves a red-black tree and writes to no cell outside the remaining nodes. *)
Theorem rb_erase_spec s A x B :
  holds s (A ++ x :: B) →
  ∃ s', rb_erase s x = Ok s' ∧ holds s' (A ++ B) ∧ untouched (A ++ B) s s'.
Proof. apply holds_erase. Qed.

Lemma holds_first t A : holds t A → rb_first t = Ok (default NULL (head A)).
Proof.
  intros (u & Hrep & Hrb & <-). pose proof Hrep as (Ht & Hr & _). unfold rb_first. rewrite Hr.
  destruct (decide (u = E)) as [->|Hne]; [done|]. pose proof (tree_at_aligned _ _ _ _ Ht (top_elem u Hne)) as Hal.
  rewrite (aligned_ne _ Hal). destruct (min_split u Hne) as (qs & c & y & d & Hq & ->).
  rewrite (leftmost_ok _ t NULL) by (done || by eapply rep_depth). by rewrite addrs_fill, left_path_before by done.
Qed.

(** [rb_first] returns the first node of the order, [NULL] for the empty tree, and its
    walk down the left links is at most twice the logarithm of the number of nodes long. *)
Theorem rb_first_spec s A :
  holds s A →
  rb_first s = Ok (default NULL (head A)) ∧
  (A ≠ [] → leftmost (2 * Nat.log2 (S (length A))) s (rb_root s) = Ok (default NULL (head A))).
Proof.
  intros Hh. split; [by apply holds_first|]. destruct Hh as (t & Hrep & Hrb & <-). intros Hne. pose proof Hrep as (Ht & -> & _).
  destruct (min_split t) as (qs & c & y & d & Hq & ->); [by intros ->|].
  assert (Hy : default NULL (head (addrs (fill qs (T c E y d)))) = y) by (rewrite addrs_fill, left_path_before by done; done).
  rewrite Hy. apply (leftmost_ok _ s NULL); [done | done |].
  pose proof (red_black_height _ Hrb). pose proof (fill_height qs (T c E y d)) as Hf. cbn [height] in Hf. lia.
Qed.

(** ** A tree in memory *)

(** Nodes 16 (red), 32 (black, the root) and 48 (red), and an unlinked node 64. *)
Definition demo : rb_state :=
  RbState (list_to_map [(16, RbNode 32 0 0); (32, RbNode 1 16 48); (48, RbNode 32 0 0); (64, RbNode 64 0 0)]) 32.
Definition demo_tree : tree := T Black (T Red E 16 E) 32 (T Red E 48 E).

Lemma demo_rep : rep demo demo_tree ∧ red_black demo_tree.
Proof.
  unfold rep, demo_tree. cbn [tree_at addrs top app]. unfold aligned. split.
  - split_and!; try done; try lia. by apply (bool_decide_unpack _).
  - split; [done|]. by exists 1%nat.
Qed.

(** The insertion of 64 after 48 repaints both red nodes; the tree then holds four nodes. *)
Lemma rb_insert_spec_witness :
  ∃ s', (s ← rb_link_node demo 64 48 (LinkRight 48); rb_insert_color s 64) = Ok s' ∧ holds s' [16; 32; 48; 64].
Proof.
  destruct (rb_insert_spec demo [FR Red 48 E; FR Black 32 (T Red E 16 E)] 64) as (s' & Hs & Hh & _).
  - exact demo_rep.
  - by unfold aligned.
  - by apply (bool_decide_unpack _).
  - by eexists.
  - exists s'. split; [exact Hs | exact Hh].
Defined.

Lemma rb_erase_spec_witness : ∃ s', rb_erase demo 32 = Ok s' ∧ holds s' [16; 48].
Proof.
  destruct (rb_erase_spec demo [16] 32 [48]) as (s' & Hs & Hh & _).
  - exists demo_tree. split; [exact (proj1 demo_rep)|]. split; [exact (proj2 demo_rep) | done].
  - exists s'. split; [exact Hs | exact Hh].
Defined.

Lemma rb_first_spec_witness : rb_first demo = Ok 16.
Proof.
  refine (proj1 (rb_first_spec demo [16; 32; 48] _)).
  exists demo_tree. split; [exact (proj1 demo_rep)|]. split; [exact (proj2 demo_rep) | done].
Defined.
