(* ===== verification/Sched.v ===== *)
(** The coroutine scheduler: [src/coro/sched.c].

    The scheduler keeps idle and runnable coroutines in two lists and waiting ones in a
    red-black tree of timer nodes, each with a red-black tree of the coroutines that share
    its timeout.  Cells of each kind have a heap of their own: list nodes, tree nodes of
    timers, tree nodes of coroutines, and the plain fields of both structures.  The list
    node of a coroutine is its first member, so it has the coroutine's address; its tree
    node lies [NODE_OFFSET] bytes further.  The tree node of a timer is its first member.

    The clock is an argument of the functions that read it.  [malloc] and the allocation of
    stacks are parameters, and so is what fresh memory contains.  A freed timer is unmapped,
    so that a use after free is undefined behaviour. *)

From stdpp Require Import base gmap list numbers sets.
From Stdlib Require Import ZArith Lia.
From S2P Require Import Prelude ListHead Memcache RbTree.

(** [long long] arithmetic. *)
Definition is_i64 (z : Z) : bool := (- 2 ^ 63 <=? z) && (z <? 2 ^ 63).
Definition ll_arith (z : Z) : cres Z := if is_i64 z then Ok z else Ub.

(** [struct timer_node] without its tree node. *)
Record timer_node : Type := Timer { root : Z; timeout : Z }.

(** [struct coroutine] without its list and tree nodes and its machine context. *)
Record coroutine : Type := Coroutine {
  coro_id : Z; stack : Z * Z; func : Z; args : Z; coro_timeout : Z; active_by_timeout : bool
}.

Definition set_timeout (c : coroutine) (t : Z) : coroutine :=
  Coroutine (coro_id c) (stack c) (func c) (args c) t (active_by_timeout c).
Definition set_active_by_timeout (c : coroutine) (b : bool) : coroutine :=
  Coroutine (coro_id c) (stack c) (func c) (args c) (coro_timeout c) b.
Definition set_entry (c : coroutine) (f a : Z) : coroutine :=
  Coroutine (coro_id c) (stack c) f a (coro_timeout c) (active_by_timeout c).
Definition set_id_stack (c : coroutine) (i : Z) (st : Z * Z) : coroutine :=
  Coroutine i st (func c) (args c) (coro_timeout c) (active_by_timeout c).

(** [struct coro_schedule] and the heaps. *)
Record coro_schedule : Type := Schedule {
  max_coro_size : Z; curr_coro_size : Z; next_coro_id : Z; stack_bytes : Z; current : Z;
  inactive : Z; tm_cache : memcache;
  lists : gmap Z list_head; tm_nodes : gmap Z rb_node; timers : gmap Z timer_node;
  co_nodes : gmap Z rb_node; coros : gmap Z coroutine; live : gset Z
}.

(** Addresses inside the static object [sched]. *)
Definition MAIN_CORO : Z := 4096.
Definition IDLE : Z := 4352.
Definition ACTIVE : Z := 4368.

Definition NODE_OFFSET : Z := 16.
Definition co_node (coro : Z) : Z := coro + NODE_OFFSET.
Definition container (node : Z) : Z := node - NODE_OFFSET.

Section Updates.
  Context (s : coro_schedule).

Definition set_current (x : Z) : coro_schedule :=
  Schedule (max_coro_size s) (curr_coro_size s) (next_coro_id s) (stack_bytes s) x (inactive s) (tm_cache s)
    (lists s) (tm_nodes s) (timers s) (co_nodes s) (coros s) (live s).
Definition set_lists (h : gmap Z list_head) : coro_schedule :=
  Schedule (max_coro_size s) (curr_coro_size s) (next_coro_id s) (stack_bytes s) (current s) (inactive s) (tm_cache s)
    h (tm_nodes s) (timers s) (co_nodes s) (coros s) (live s).
Definition set_inactive (t : rb_state) : coro_schedule :=
  Schedule (max_coro_size s) (curr_coro_size s) (next_coro_id s) (stack_bytes s) (current s) (rb_root t) (tm_cache s)
    (lists s) (rb_heap t) (timers s) (co_nodes s) (coros s) (live s).
Definition set_tm_nodes (h : gmap Z rb_node) : coro_schedule :=
  Schedule (max_coro_size s) (curr_coro_size s) (next_coro_id s) (stack_bytes s) (current s) (inactive s) (tm_cache s)
    (lists s) h (timers s) (co_nodes s) (coros s) (live s).
Definition set_timers (h : gmap Z timer_node) : coro_schedule :=
  Schedule (max_coro_size s) (curr_coro_size s) (next_coro_id s) (stack_bytes s) (current s) (inactive s) (tm_cache s)
    (lists s) (tm_nodes s) h (co_nodes s) (coros s) (live s).
Definition set_co_nodes (h : gmap Z rb_node) : coro_schedule :=
  Schedule (max_coro_size s) (curr_coro_size s) (next_coro_id s) (stack_bytes s) (current s) (inactive s) (tm_cache s)
    (lists s) (tm_nodes s) (timers s) h (coros s) (live s).
Definition set_coros (h : gmap Z coroutine) : coro_schedule :=
  Schedule (max_coro_size s) (curr_coro_size s) (next_coro_id s) (stack_bytes s) (current s) (inactive s) (tm_cache s)
    (lists s) (tm_nodes s) (timers s) (co_nodes s) h (live s).
Definition set_pool (c : memcache) (l : gset Z) : coro_schedule :=
  Schedule (max_coro_size s) (curr_coro_size s) (next_coro_id s) (stack_bytes s) (current s) (inactive s) c
    (lists s) (tm_nodes s) (timers s) (co_nodes s) (coros s) l.
Definition set_counts (n i : Z) : coro_schedule :=
  Schedule (max_coro_size s) n i (stack_bytes s) (current s) (inactive s) (tm_cache s)
    (lists s) (tm_nodes s) (timers s) (co_nodes s) (coros s) (live s).

End Updates.

Definition get_timer (s : coro_schedule) (tm : Z) : cres timer_node := of_option (timers s !! tm).
Definition get_coro (s : coro_schedule) (coro : Z) : cres coroutine := of_option (coros s !! coro).
Definition put_coro (s : coro_schedule) (coro : Z) (c : coroutine) : coro_schedule := set_coros s (<[coro := c]> (coros s)).

(** The trees: the inactive tree, and the tree of a timer node. *)
Definition inactive_tree (s : coro_schedule) : rb_state := RbState (tm_nodes s) (inactive s).
Definition timer_tree (s : coro_schedule) (tm : timer_node) : rb_state := RbState (co_nodes s) (root tm).

Definition on_inactive (s : coro_schedule) (f : rb_state → cres rb_state) : cres coro_schedule :=
  t ← f (inactive_tree s); mret (set_inactive s t).
Definition on_timer (s : coro_schedule) (tm : Z) (f : rb_state → cres rb_state) : cres coro_schedule :=
  n ← get_timer s tm;
  t ← f (timer_tree s n);
  mret (set_timers (set_co_nodes s (rb_heap t)) (<[tm := Timer (rb_root t) (timeout n)]> (timers s))).

(** ** Searching *)

Inductive dir : Type := GoLeft | GoRight | Found.

(** The three-way test of a difference. *)
Definition sign_dir (d : Z) : dir := if d <? 0 then GoLeft else if d >? 0 then GoRight else Found.

(** [while (each) ...], following [each->rb_left] and [each->rb_right]. *)
Fixpoint find_node (fuel : nat) (h : gmap Z rb_node) (cmp : Z → cres dir) (each : Z) : cres Z :=
  if each =? NULL then mret NULL else
  match fuel with
  | O => Fuel
  | S fuel =>
    d ← cmp each;
    n ← of_option (h !! each);
    match d with
    | GoLeft => find_node fuel h cmp (rb_left n)
    | GoRight => find_node fuel h cmp (rb_right n)
    | Found => mret each
    end
  end.

(** The result of [while ( *newer) ...]: a node that compared equal, or the parent and the
    link where a new node belongs. *)
Inductive place : Type :=
| Hit (x : Z)
| Free (parent : Z) (newer : rb_link).

Fixpoint find_place (fuel : nat) (t : rb_state) (cmp : Z → cres dir) (parent : Z) (newer : rb_link) : cres place :=
  each ← read_link t newer;
  if each =? NULL then mret (Free parent newer) else
  match fuel with
  | O => Fuel
  | S fuel =>
    d ← cmp each;
    match d with
    | GoLeft => find_place fuel t cmp each (LinkLeft each)
    | GoRight => find_place fuel t cmp each (LinkRight each)
    | Found => mret (Hit each)
    end
  end.

Definition find_in_timer (s : coro_schedule) (tm : Z) (id : Z) : cres Z :=
  n ← get_timer s tm;
  node ← find_node (size (co_nodes s)) (co_nodes s)
    (λ each, c ← get_coro s (container each); result ← int_arith (id - coro_id c); mret (sign_dir result)) (root n);
  mret (if node =? NULL then NULL else container node).

Definition remove_from_timer_node (s : coro_schedule) (tm coro : Z) : cres coro_schedule :=
  c ← get_coro s coro;
  found ← find_in_timer s tm (coro_id c);
  if found =? NULL then mret s
  else on_timer s tm (λ t, rb_erase t (co_node coro)).

Definition find_timer_node (s : coro_schedule) (time : Z) : cres Z :=
  find_node (size (tm_nodes s)) (tm_nodes s)
    (λ each, tm ← get_timer s each; timespan ← ll_arith (time - timeout tm); mret (sign_dir timespan)) (inactive s).

(** [memcache_free(sched.cache, tm)]: the object must not be used any more. *)
Definition free_timer (s : coro_schedule) (tm : Z) : cres coro_schedule :=
  '(c, l) ← memcache_free (live s) (tm_cache s) tm;
  mret (set_pool (set_timers (set_tm_nodes s (delete tm (tm_nodes s))) (delete tm (timers s))) c l).

Definition remove_from_inactive_tree (s : coro_schedule) (coro : Z) : cres coro_schedule :=
  c ← get_coro s coro;
  tm ← find_timer_node s (coro_timeout c);
  if tm =? NULL then mret s else
  s ← remove_from_timer_node s tm coro;
  n ← get_timer s tm;
  if RB_EMPTY_ROOT (root n) then
    s ← on_inactive s (λ t, rb_erase t tm);
    free_timer s tm
  else mret s.

(** [result < 0 ? left : right]: this search never stops at a node. *)
Definition add_to_timer_node (s : coro_schedule) (tm coro : Z) : cres coro_schedule :=
  n ← get_timer s tm;
  c ← get_coro s coro;
  p ← find_place (size (co_nodes s)) (timer_tree s n)
    (λ each, e ← get_coro s (container each);
             result ← int_arith (coro_id c - coro_id e);
             mret (if result <? 0 then GoLeft else GoRight)) NULL LinkRoot;
  match p with
  | Hit _ => mret s
  | Free parent newer =>
    on_timer s tm (λ t, t ← rb_link_node t (co_node coro) parent newer; rb_insert_color t (co_node coro))
  end.

Section Allocator.
  Variable malloc : gset Z → Z.

(** The difference of two [long long] is stored in an [int]. *)
Definition move_to_inactive_tree (s : coro_schedule) (coro : Z) : cres coro_schedule :=
  c ← get_coro s coro;
  p ← find_place (size (tm_nodes s)) (inactive_tree s)
    (λ each, tm ← get_timer s each;
             d ← ll_arith (coro_timeout c - timeout tm);
             mret (sign_dir (i32 d))) NULL LinkRoot;
  match p with
  | Hit tm => add_to_timer_node s tm coro
  | Free parent newer =>
    '(tmp, cache, l) ← memcache_alloc malloc (live s) (tm_cache s);
    let s := set_pool s cache l in
    if tmp =? NULL then mret s else
    (* the parent word of the fresh node is set by rb_link_node below *)
    let s := set_tm_nodes s (<[tmp := RbNode 0 NULL NULL]> (tm_nodes s)) in
    let s := set_timers s (<[tmp := Timer NULL (coro_timeout c)]> (timers s)) in
    s ← add_to_timer_node s tmp coro;
    on_inactive s (λ t, t ← rb_link_node t tmp parent newer; rb_insert_color t tmp)
  end.

(** ** The lists *)

Definition on_lists (s : coro_schedule) (f : gmap Z list_head → cres (gmap Z list_head)) : cres coro_schedule :=
  h ← f (lists s); mret (set_lists s h).

Definition move_to_idle_list_direct (s : coro_schedule) (coro : Z) : cres coro_schedule :=
  on_lists s (λ h, list_add_tail h coro IDLE).
Definition move_to_active_list_tail_direct (s : coro_schedule) (coro : Z) : cres coro_schedule :=
  on_lists s (λ h, list_add_tail h coro ACTIVE).
Definition move_to_active_list_tail (s : coro_schedule) (coro : Z) : cres coro_schedule :=
  s ← remove_from_inactive_tree s coro;
  on_lists s (λ h, list_add_tail h coro ACTIVE).
Definition move_to_active_list_head (s : coro_schedule) (coro : Z) : cres coro_schedule :=
  s ← remove_from_inactive_tree s coro;
  on_lists s (λ h, list_add h coro ACTIVE).

Definition coroutine_init (s : coro_schedule) (coro : Z) : cres coro_schedule :=
  s ← on_lists s (λ h, INIT_LIST_HEAD h coro);
  t ← RB_CLEAR_NODE (RbState (co_nodes s) NULL) (co_node coro);
  let s := set_co_nodes s (rb_heap t) in
  c ← get_coro s coro;
  mret (put_coro s coro (set_active_by_timeout (set_timeout c 0) false)).

(** What [malloc] leaves in a fresh coroutine. *)
Variable junk : list_head * rb_node * coroutine.
(** [coro_stack_alloc] with the size it is asked for: the stack, or [None] when it fails. *)
Variable stack_alloc : Z → option (Z * Z).

(** [++sched.next_coro_id] is signed. *)
Definition create_coroutine (s : coro_schedule) : cres (Z * coro_schedule) :=
  if curr_coro_size s =? max_coro_size s then mret (NULL, s) else
  let '(coro, l) := malloc_block malloc (live s) in
  if coro =? NULL then mret (NULL, s) else
  match stack_alloc (stack_bytes s) with
  | None => l ← free l coro; mret (NULL, set_pool s (tm_cache s) l)
  | Some st =>
    let '(jl, jn, jc) := junk in
    id ← int_arith (next_coro_id s + 1);
    let s := set_pool s (tm_cache s) l in
    let s := set_lists s (<[coro := jl]> (lists s)) in
    let s := set_co_nodes s (<[co_node coro := jn]> (co_nodes s)) in
    let s := put_coro s coro (set_id_stack jc id st) in
    mret (coro, set_counts s (curr_coro_size s + 1) id)
  end.

Definition get_coroutine (s : coro_schedule) : cres (Z * coro_schedule) :=
  empty ← list_empty (lists s) IDLE;
  if negb empty then
    coro ← get_next (lists s) IDLE;
    s ← on_lists s (λ h, list_del h coro);
    s ← coroutine_init s coro;
    mret (coro, s)
  else
    '(coro, s) ← create_coroutine s;
    if coro =? NULL then mret (coro, s)
    else s ← coroutine_init s coro; mret (coro, s).

(** [coro_stack_init] prepares the machine context, which is not part of this state. *)
Definition dispatch_coro (s : coro_schedule) (f a : Z) : cres (Z * coro_schedule) :=
  '(coro, s) ← get_coroutine s;
  if coro =? NULL then mret (-1, s) else
  c ← get_coro s coro;
  let s := put_coro s coro (set_entry c f a) in
  s ← move_to_active_list_tail_direct s coro;
  mret (0, s).

(** ** Running *)

Definition get_active_coroutine (s : coro_schedule) : cres (Z * coro_schedule) :=
  empty ← list_empty (lists s) ACTIVE;
  if (empty : bool) then mret (NULL, s) else
  coro ← get_next (lists s) ACTIVE;
  s ← on_lists s (λ h, list_del_init h coro);
  mret (coro, s).

Definition get_recent_timer_node (s : coro_schedule) : cres Z := rb_first (inactive_tree s).

Fixpoint timeout_loop (fuel : nat) (s : coro_schedule) (tm : Z) : cres coro_schedule :=
  n ← get_timer s tm;
  let recent := root n in
  if recent =? NULL then mret s else
  match fuel with
  | O => Fuel
  | S fuel =>
    let coro := container recent in
    s ← on_timer s tm (λ t, rb_erase t recent);
    c ← get_coro s coro;
    let s := put_coro s coro (set_active_by_timeout c true) in
    s ← move_to_active_list_tail_direct s coro;
    timeout_loop fuel s tm
  end.

Definition timeout_coroutine_handler (s : coro_schedule) (tm : Z) : cres coro_schedule :=
  timeout_loop (size (co_nodes s)) s tm.

Fixpoint check_timeout_loop (fuel : nat) (s : coro_schedule) (now : Z) : cres coro_schedule :=
  tm ← get_recent_timer_node s;
  if tm =? NULL then mret s else
  match fuel with
  | O => Fuel
  | S fuel =>
    n ← get_timer s tm;
    if now <? timeout n then mret s else
    s ← on_inactive s (λ t, rb_erase t tm);
    s ← timeout_coroutine_handler s tm;
    s ← free_timer s tm;
    check_timeout_loop fuel s now
  end.

Definition check_timeout_coroutine (s : coro_schedule) (now : Z) : cres coro_schedule :=
  check_timeout_loop (size (tm_nodes s)) s now.

(** The difference is stored in an [int]. *)
Definition get_recent_timespan (s : coro_schedule) (now : Z) : cres Z :=
  tm ← get_recent_timer_node s;
  if tm =? NULL then mret (10 * 1000) else
  n ← get_timer s tm;
  d ← ll_arith (timeout n - now);
  let timespan := i32 d in
  mret (if timespan <? 0 then 0 else timespan).

(** [coroutine_switch]: who runs next; the switch of the machine context itself is the
    change of the running program. *)
Definition coroutine_switch (s : coro_schedule) (next : Z) : coro_schedule := set_current s next.

(** The part of [coro_routine_proxy] after the coroutine's function has returned. *)
Definition coro_routine_return (s : coro_schedule) (coro : Z) : cres coro_schedule :=
  s ← move_to_idle_list_direct s coro;
  mret (coroutine_switch s MAIN_CORO).

Definition schedule_timeout (s : coro_schedule) (now milliseconds : Z) : cres coro_schedule :=
  let coro := current s in
  c ← get_coro s coro;
  t ← ll_arith (now + milliseconds);
  let s := put_coro s coro (set_timeout c t) in
  s ← move_to_inactive_tree s coro;
  mret (coroutine_switch s MAIN_CORO).

Definition is_wakeup_by_timeout (s : coro_schedule) : cres (bool * coro_schedule) :=
  c ← get_coro s (current s);
  mret (active_by_timeout c, put_coro s (current s) (set_active_by_timeout c false)).

Definition wakeup_coro (s : coro_schedule) (coro : Z) : cres coro_schedule :=
  c ← get_coro s coro;
  move_to_active_list_tail (put_coro s coro (set_active_by_timeout c false)) coro.

Definition wakeup_coro_priority (s : coro_schedule) (coro : Z) : cres coro_schedule :=
  c ← get_coro s coro;
  move_to_active_list_head (put_coro s coro (set_active_by_timeout c false)) coro.

Definition current_coro (s : coro_schedule) : Z := current s.

(** [sizeof(struct timer_node)] *)
Definition SIZEOF_TIMER_NODE : Z := 40.

(** Both assertions, here and in [memcache_create], abort the process. *)
Definition schedule_init (l : gset Z) (h : gmap Z list_head) (stack_kbytes max_size : Z) : cres (proc coro_schedule) :=
  if negb (2 <=? max_size) then mret Aborted else
  h ← INIT_LIST_HEAD h IDLE;
  h ← INIT_LIST_HEAD h ACTIVE;
  r ← memcache_create malloc l SIZEOF_TIMER_NODE (max_size / 2);
  mret (match r with
        | Running (Some c, l) =>
          Running (Schedule max_size 0 0 (size_t (stack_kbytes * 1024)) NULL NULL c h ∅ ∅ ∅ ∅ l)
        | Running (None, _) => Exit 0
        | Exit code => Exit code
        | Aborted => Aborted
        end).

End Allocator.
