(* ===== verification/SchedSearch.v ===== *)
(** The searches of the scheduler in its trees: by position in an ordered sequence. *)

From stdpp Require Import base gmap list numbers strings sets sorting.
From Stdlib Require Import ZArith Lia.
From S2P Require Import Prelude ListHead Memcache RbTree RbRep RbInsert RbErase RbEraseColor RbProps Sched.

(** A comparison that sends the walk right before the place sought and left behind it. *)
Definition monotone (d : Z → dir) (l : list Z) : Prop :=
  ∃ l1 l2 l3, l = l1 ++ l2 ++ l3 ∧ Forall (λ z, d z = GoRight) l1 ∧ Forall (λ z, d z = Found) l2 ∧
    Forall (λ z, d z = GoLeft) l3.

Lemma monotone_cons d a l :
  monotone d (a :: l) ↔ match d a with
                        | GoRight => monotone d l
                        | Found => monotone d l ∧ Forall (λ z, d z ≠ GoRight) l
                        | GoLeft => Forall (λ z, d z = GoLeft) l
                        end.
Proof.
  assert (Hno : ∀ l, (monotone d l ∧ Forall (λ z, d z ≠ GoRight) l) ↔
    ∃ l2 l3, l = l2 ++ l3 ∧ Forall (λ z, d z = Found) l2 ∧ Forall (λ z, d z = GoLeft) l3).
  { intros k. split.
    - intros [(l1 & l2 & l3 & -> & H1 & H2 & H3) Hk]. destruct l1 as [|b l1]; [by exists l2, l3|].
      apply Forall_cons in H1 as [? _]. apply Forall_cons in Hk as [? _]. done.
    - intros (l2 & l3 & -> & H2 & H3). split; [exists [], l2, l3; by auto|].
      apply Forall_app. split; (eapply Forall_impl; [done|]; by intros ? ->). }
  split.
  - intros (l1 & l2 & l3 & El & H1 & H2 & H3). destruct l1 as [|b l1]; cbn [app] in El.
    + destruct l2 as [|b l2]; cbn [app] in El.
      * subst l3. by apply Forall_cons in H3 as [-> H3].
      * injection El as <- ->. apply Forall_cons in H2 as [-> H2]. apply Hno. by exists l2, l3.
    + injection El as <- ->. apply Forall_cons in H1 as [-> H1]. by exists l1, l2, l3.
  - destruct (d a) eqn:Ea.
    + intros Hl. exists [], [], (a :: l). split_and!; [done..|]. by apply Forall_cons.
    + intros (l1 & l2 & l3 & -> & H1 & H2 & H3). exists (a :: l1), l2, l3. split_and!; [done | by apply Forall_cons | done | done].
    + intros Hl. apply Hno in Hl as (l2 & l3 & -> & H2 & H3). exists [], (a :: l2), l3. split_and!; [done | done | by apply Forall_cons | done].
Qed.

Lemma monotone_app d l x r :
  monotone d (l ++ x :: r) →
  monotone d l ∧ monotone d r ∧ (d x = GoLeft → Forall (λ z, d z = GoLeft) r) ∧ (d x = GoRight → Forall (λ z, d z = GoRight) l).
Proof.
  intros (l1 & l2 & l3 & E & H1 & H2 & H3).
  assert (Hsub : ∀ k1 k2, l1 ++ l2 ++ l3 = k1 ++ k2 → monotone d k1 ∧ monotone d k2).
  { intros k1 k2 Ek. clear E. revert k1 Ek H1. induction l1 as [|a l1 IH]; intros k1 Ek H1.
    - cbn [app] in Ek. revert k1 Ek. induction l2 as [|a l2 IH]; intros k1 Ek.
      + cbn [app] in Ek. subst l3. apply Forall_app in H3 as [? ?]. split; [exists [], [], k1 | exists [], [], k2]; by split_and!.
      + destruct k1 as [|b k1]; cbn [app] in Ek.
        * subst k2. split; [by exists [], [], [] | by exists [], (a :: l2), l3].
        * injection Ek as <- Ek. apply Forall_cons in H2 as [Ha H2]. destruct (IH H2 k1 Ek) as [M1 M2].
          split; [|done]. apply monotone_cons. rewrite Ha. split; [done|].
          assert (Hall : Forall (λ z, d z ≠ GoRight) (l2 ++ l3)).
          { apply Forall_app. split; (eapply Forall_impl; [done|]; by intros ? ->). }
          rewrite Ek in Hall. by apply Forall_app in Hall as [? _].
    - apply Forall_cons in H1 as [Ha H1]. destruct k1 as [|b k1]; cbn [app] in Ek.
      + subst k2. split; [by exists [], [], []|]. exists (a :: l1), l2, l3. split_and!; [done | by apply Forall_cons | done | done].
      + injection Ek as <- Ek. destruct (IH k1 Ek H1) as [M1 M2]. split; [|done]. apply monotone_cons. by rewrite Ha. }
  assert (M1 : monotone d l) by (by apply (Hsub l (x :: r))).
  assert (M2 : monotone d (x :: r)) by (by apply (Hsub l (x :: r))).
  pose proof (proj1 (monotone_cons _ _ _) M2) as M2'. split_and!; [done | | |].
  - destruct (d x); [|done|tauto]. exists [], [], r. by split_and!.
  - intros Hx. by rewrite Hx in M2'.
  - intros Hx. clear Hsub M1 M2 M2'. revert l1 E H1. induction l as [|a l IH]; intros l1 E H1; [done|].
    destruct l1 as [|b l1].
    + exfalso. assert (Hin : x ∈ l2 ++ l3) by (cbn [app] in E; rewrite <-E; set_solver).
      apply elem_of_app in Hin as [Hin|Hin]; [apply (proj1 (Forall_forall _ _) H2) in Hin | apply (proj1 (Forall_forall _ _) H3) in Hin]; congruence.
    + cbn [app] in E. injection E as -> E. apply Forall_cons in H1 as [Hb H1]. apply Forall_cons. split; [done | by apply (IH l1)].
Qed.

(** Sequences sorted by a key. *)
Lemma sorted_monotone (d : Z → dir) (key : Z → Z) (l : list Z) :
  StronglySorted (λ a b, key a < key b) l →
  (∀ a b, key a < key b → d b = GoRight → d a = GoRight) →
  (∀ a b, key a < key b → d a = GoLeft → d b = GoLeft) →
  (∀ a b, key a < key b → d a = Found → d b ≠ GoRight) →
  monotone d l.
Proof.
  intros Hs Hr Hl Hf. induction Hs as [|a l Hs IH Ha]; [by exists [], [], []|]. apply monotone_cons.
  destruct (d a) eqn:Ea.
  - eapply Forall_impl; [exact Ha|]. intros b Hb. by apply (Hl a b).
  - done.
  - split; [done|]. eapply Forall_impl; [exact Ha|]. intros b Hb. by apply (Hf a b).
Qed.

Lemma height_length t : (height t ≤ length (addrs t))%nat.
Proof. induction t as [|c l IHl x r IHr]; cbn [height addrs]; [lia|]. rewrite length_app. cbn [length]. lia. Qed.

Lemma find_node_ok fuel h p t cmp d :
  tree_at h p t → (∀ z, z ∈ addrs t → cmp z = Ok (d z)) → monotone d (addrs t) → (height t ≤ fuel)%nat →
  (∃ z, z ∈ addrs t ∧ d z = Found ∧ find_node fuel h cmp (top t) = Ok z) ∨
  ((∀ z, z ∈ addrs t → d z ≠ Found) ∧ find_node fuel h cmp (top t) = Ok NULL).
Proof.
  revert fuel p. induction t as [|c l IHl x r IHr]; intros fuel p Ht Hc Hm Hf.
  { right. split; [set_solver|]. by destruct fuel. }
  cbn [tree_at addrs top height] in *. destruct Ht as (Hx & Hh & Hl & Hr). destruct fuel as [|fuel]; [lia|].
  destruct (monotone_app _ _ _ _ Hm) as (Ml & Mr & Hgl & Hgr). cbn [find_node]. rewrite (aligned_ne _ Hx).
  rewrite Hc by set_solver. cres_simpl. rewrite Hh. cres_simpl. destruct (d x) eqn:Ed; cbn [rb_left rb_right].
  - destruct (IHl fuel x Hl) as [(z & Hz & Hd & ->)|[Hno ->]]; [intros z Hz; apply Hc; set_solver | done | lia | |].
    + left. exists z. split_and!; [set_solver | done | done].
    + right. split; [|done]. intros z [Hz|[->|Hz]%elem_of_cons]%elem_of_app; [by apply Hno | by rewrite Ed |].
      rewrite (proj1 (Forall_forall _ _) (Hgl eq_refl) z Hz). done.
  - destruct (IHr fuel x Hr) as [(z & Hz & Hd & ->)|[Hno ->]]; [intros z Hz; apply Hc; set_solver | done | lia | |].
    + left. exists z. split_and!; [set_solver | done | done].
    + right. split; [|done]. intros z [Hz|[->|Hz]%elem_of_cons]%elem_of_app; [| by rewrite Ed | by apply Hno].
      rewrite (proj1 (Forall_forall _ _) (Hgr eq_refl) z Hz). done.
  - left. exists x. split_and!; [set_solver | done | done].
Qed.

Lemma read_link_ok s ps t : rep s (fill ps t) → read_link s (link_of ps) = Ok (top t).
Proof.
  intros H0. pose proof (rep_linked _ _ _ H0) as Hl. destruct ps as [|f ps]; cbn [linked_to link_of read_link] in *.
  - by cres_simpl; rewrite Hl.
  - destruct Hl as [_ Hl]. destruct f as [c x r|c x l]; cbn [read_link at_frame] in *; unfold rb_get; rewrite Hl; by cres_simpl.
Qed.

Lemma find_place_ok fuel s ps t cmp d :
  rep s (fill ps t) → (∀ z, z ∈ addrs t → cmp z = Ok (d z)) → monotone d (addrs t) →
  Forall (λ z, d z = GoRight) (before ps) → Forall (λ z, d z = GoLeft) (after ps) → (height t ≤ fuel)%nat →
  (∃ z, z ∈ addrs t ∧ d z = Found ∧ find_place fuel s cmp (above ps) (link_of ps) = Ok (Hit z)) ∨
  (∃ qs, fill ps t = fill qs E ∧ Forall (λ z, d z = GoRight) (before qs) ∧ Forall (λ z, d z = GoLeft) (after qs) ∧
     find_place fuel s cmp (above ps) (link_of ps) = Ok (Free (above qs) (link_of qs))).
Proof.
  revert fuel ps. induction t as [|c l IHl x r IHr]; intros fuel ps H0 Hc Hm Hb Ha Hf; pose proof (read_link_ok _ _ _ H0) as Hrl.
  { right. exists ps. destruct fuel; cbn [find_place]; rewrite Hrl; by cres_simpl. }
  destruct (rep_focus _ _ _ _ _ _ H0) as (_ & _ & Hx). cbn [addrs height] in *. destruct fuel as [|fuel]; [lia|].
  destruct (monotone_app _ _ _ _ Hm) as (Ml & Mr & Hgl & Hgr). cbn [find_place]. rewrite Hrl. cres_simpl. cbn [top].
  rewrite (aligned_ne _ Hx), Hc by set_solver. cres_simpl. destruct (d x) eqn:Ed.
  - destruct (IHl fuel (FL c x r :: ps) H0) as [(z & Hz & Hd & E)|(qs & Hq & Hqb & Hqa & E)]; try done.
    + intros z Hz. apply Hc. set_solver.
    + cbn [after]. apply Forall_cons. split; [done|]. apply Forall_app. split; [by apply Hgl | done].
    + lia.
    + left. exists z. split_and!; [set_solver | done | exact E].
    + right. exists qs. by split_and!.
  - destruct (IHr fuel (FR c x l :: ps) H0) as [(z & Hz & Hd & E)|(qs & Hq & Hqb & Hqa & E)]; try done.
    + intros z Hz. apply Hc. set_solver.
    + cbn [before]. apply Forall_app. split; [done|]. apply Forall_app. split; [by apply Hgr | by apply Forall_singleton].
    + lia.
    + left. exists z. split_and!; [set_solver | done | exact E].
    + right. exists qs. by split_and!.
  - left. exists x. split_and!; [set_solver | done | done].
Qed.
