(* ===== verification/SchedInv.v ===== *)
(** The waiting coroutines: groups by timeout, in trees. *)

From stdpp Require Import base gmap list numbers strings sets sorting.
From Stdlib Require Import ZArith Lia.
From S2P Require Import Prelude ListHead Memcache RbTree RbRep RbInsert RbErase RbEraseColor RbProps.
From S2P Require Import Sched SchedSearch.

(** The coroutines that wait for the same time, in the tree of one timer node. *)
Record group : Type := Group { g_tm : Z; g_time : Z; g_coros : list Z }.

Definition id_of (s : coro_schedule) (c : Z) : Z := default 0 (coro_id <$> coros s !! c).

Definition by_id (s : coro_schedule) (l : list Z) : Prop := StronglySorted (λ a b, id_of s a < id_of s b) l.
Definition by_time (gs : list group) : Prop := StronglySorted (λ g g', g_time g < g_time g') gs.

(** A waiting coroutine remembers the time of its group. *)
Definition waits_for (s : coro_schedule) (t : Z) (c : Z) : Prop :=
  ∃ x, coros s !! c = Some x ∧ coro_timeout x = t ∧ 0 ≤ coro_id x < 2 ^ 31.

Definition group_ok (s : coro_schedule) (g : group) : Prop :=
  ∃ r, timers s !! g_tm g = Some (Timer r (g_time g)) ∧
    holds (RbState (co_nodes s) r) (co_node <$> g_coros g) ∧ by_id s (g_coros g) ∧
    Forall (waits_for s (g_time g)) (g_coros g).

Definition times_ok (gs : list group) : Prop := Forall (λ g, 0 ≤ g_time g < 2 ^ 63) gs.

Definition waiting (s : coro_schedule) (gs : list group) : Prop :=
  holds (inactive_tree s) (g_tm <$> gs) ∧ by_time gs ∧ times_ok gs ∧ Forall (group_ok s) gs ∧
  Forall (λ g, g_coros g ≠ []) gs.

Definition waiters (gs : list group) : list Z := gs ≫= g_coros.

(** ** Frames *)

Lemma holds_nodup t A : holds t A → NoDup A.
Proof. by intros (u & (_ & _ & Hn) & _ & <-). Qed.

Lemma holds_aligned t A x : holds t A → x ∈ A → aligned x.
Proof. intros (u & (Ht & _) & _ & <-). by eapply tree_at_aligned. Qed.

Lemma holds_mapped t A x : holds t A → x ∈ A → is_Some (rb_heap t !! x).
Proof. intros (u & (Ht & _) & _ & <-). by eapply tree_at_mapped. Qed.

Lemma holds_ext t t' A : rb_root t' = rb_root t → (∀ x, x ∈ A → rb_heap t' !! x = rb_heap t !! x) → holds t A → holds t' A.
Proof.
  intros Hr He (u & (Ht & Hroot & Hn) & Hb & <-). exists u. split; [|done]. split_and!; [by eapply tree_at_ext | congruence | done].
Qed.

Lemma holds_root t A : holds t A → (rb_root t =? NULL) = bool_decide (A = []).
Proof.
  intros (u & (Ht & Hroot & Hn) & Hb & <-). rewrite Hroot. destruct u as [|c l x r]; [done|]. destruct Ht as (Hx & _).
  cbn [top]. rewrite (aligned_ne _ Hx), bool_decide_eq_false_2; [done|]. cbn. by destruct (addrs l).
Qed.

(** The root is one of the nodes. *)
Lemma holds_root_elem t A : holds t A → A ≠ [] → rb_root t ∈ A.
Proof. intros (u & (Ht & Hroot & Hn) & Hb & <-) HA. rewrite Hroot. apply top_elem. by intros ->. Qed.

Lemma holds_empty h : holds (RbState h NULL) [].
Proof. exists E. split; [split; [done | split; [done | apply NoDup_nil_2]]|]. split; [|done]. split; [done | by exists O]. Qed.

(** Searching for the place of a new node. *)
Lemma holds_place t A cmp d fuel :
  holds t A → (∀ z, z ∈ A → cmp z = Ok (d z)) → monotone d A → (size (rb_heap t) ≤ fuel)%nat →
  (∃ z, z ∈ A ∧ d z = Found ∧ find_place fuel t cmp NULL LinkRoot = Ok (Hit z)) ∨
  (∃ qs, leaf_gap t qs ∧ A = before qs ++ after qs ∧ Forall (λ z, d z = GoRight) (before qs) ∧
     Forall (λ z, d z = GoLeft) (after qs) ∧ find_place fuel t cmp NULL LinkRoot = Ok (Free (above qs) (link_of qs))).
Proof.
  intros (u & Hrep & Hrb & <-) Hc Hm Hf.
  destruct (find_place_ok fuel t [] u cmp d) as [(z & Hz & Hd & E)|(qs & Hq & Hb & Ha & E)]; try done.
  { pose proof (rep_size _ _ Hrep). pose proof (height_length u). lia. }
  - left. by exists z.
  - right. cbn [fill] in Hq. subst u. exists qs. by rewrite addrs_fill.
Qed.

Lemma leaf_gap_ext t t' qs :
  rb_root t' = rb_root t → (∀ x, x ∈ before qs ++ after qs → rb_heap t' !! x = rb_heap t !! x) → leaf_gap t qs → leaf_gap t' qs.
Proof.
  intros Hr He [(Ht & Hroot & Hn) Hb]. split; [|done]. split_and!; [|congruence|done].
  eapply tree_at_ext; [|done]. intros x. rewrite addrs_fill. apply He.
Qed.

Lemma holds_find t A cmp d fuel :
  holds t A → (∀ z, z ∈ A → cmp z = Ok (d z)) → monotone d A → (size (rb_heap t) ≤ fuel)%nat →
  (∃ z, z ∈ A ∧ d z = Found ∧ find_node fuel (rb_heap t) cmp (rb_root t) = Ok z) ∨
  ((∀ z, z ∈ A → d z ≠ Found) ∧ find_node fuel (rb_heap t) cmp (rb_root t) = Ok NULL).
Proof.
  intros (u & Hrep & Hrb & <-) Hc Hm Hf. pose proof Hrep as (Ht & -> & _).
  apply (find_node_ok fuel _ NULL); try done. pose proof (rep_size _ _ Hrep). pose proof (height_length u). lia.
Qed.

(** ** The coroutines of a timer node *)

Lemma container_co_node c : container (co_node c) = c.
Proof. unfold container, co_node. lia. Qed.

#[export] Instance co_node_inj : Inj (=) (=) co_node.
Proof. intros a b. unfold co_node. lia. Qed.

Lemma sorted_fmap {A B} (f : A → B) (R : B → B → Prop) l :
  StronglySorted (λ a b, R (f a) (f b)) l → StronglySorted R (f <$> l).
Proof. induction 1 as [|a l Hs IH Ha]; [constructor|]. cbn. constructor; [done|]. by apply Forall_fmap. Qed.

Lemma sorted_app {A} (R : A → A → Prop) l1 l2 :
  StronglySorted R (l1 ++ l2) → StronglySorted R l1 ∧ StronglySorted R l2.
Proof.
  induction l1 as [|a l1 IH]; cbn [app]; [by split; [constructor|]|].
  intros [Hs Ha]%StronglySorted_inv. apply Forall_app in Ha as [Ha _]. destruct (IH Hs) as [? ?]. split; [by constructor | done].
Qed.

Lemma sorted_insert_mid {A} (R : A → A → Prop) l1 x l2 :
  StronglySorted R (l1 ++ l2) → Forall (λ a, R a x) l1 → Forall (R x) l2 → StronglySorted R (l1 ++ x :: l2).
Proof.
  induction l1 as [|a l1 IH]; cbn [app]; intros Hs H1 H2; [by constructor|].
  apply StronglySorted_inv in Hs as [Hs Ha]. apply Forall_cons in H1 as [Hax H1]. apply Forall_app in Ha as [Ha1 Ha2].
  constructor; [by apply IH|]. apply Forall_app. split; [done|]. by apply Forall_cons.
Qed.

Lemma sorted_remove {A} (R : A → A → Prop) l1 x l2 : StronglySorted R (l1 ++ x :: l2) → StronglySorted R (l1 ++ l2).
Proof.
  induction l1 as [|a l1 IH]; cbn [app]; intros Hs; apply StronglySorted_inv in Hs as [Hs Ha]; [done|].
  constructor; [by apply IH|]. apply Forall_app in Ha as [? [? ?]%Forall_cons]. by apply Forall_app.
Qed.

(** What a change of one timer node leaves. *)
Definition with_timer (s : coro_schedule) (tm : Z) (t : Z) (r : rb_state) : coro_schedule :=
  set_timers (set_co_nodes s (rb_heap r)) (<[tm := Timer (rb_root r) t]> (timers s)).

Lemma on_timer_ok s tm n f r :
  timers s !! tm = Some n → f (timer_tree s n) = Ok r → on_timer s tm f = Ok (with_timer s tm (timeout n) r).
Proof. intros Hn Hf. unfold on_timer, get_timer. rewrite Hn. cres_simpl. by rewrite Hf. Qed.

Lemma get_coro_ok s c x : coros s !! c = Some x → get_coro s c = Ok x.
Proof. unfold get_coro. by intros ->. Qed.
Lemma get_timer_ok s tm n : timers s !! tm = Some n → get_timer s tm = Ok n.
Proof. unfold get_timer. by intros ->. Qed.

(** The comparisons inside a timer node. *)
Lemma co_cmp_ok s t l id (D : Z → dir) :
  Forall (waits_for s t) l → 0 ≤ id < 2 ^ 31 →
  ∀ z, z ∈ co_node <$> l →
  (c ← get_coro s (container z); result ← int_arith (id - coro_id c); mret (D result)) = Ok (D (id - id_of s (container z))).
Proof.
  intros Hw Hid z (c & -> & Hc)%list_elem_of_fmap. destruct (proj1 (Forall_forall _ _) Hw c Hc) as (x & Hx & _ & Hix).
  unfold get_coro, id_of. rewrite container_co_node, Hx. cres_simpl. rewrite int_arith_ok by lia. done.
Qed.

Lemma by_id_keys s l : by_id s l → StronglySorted (λ a b, id_of s (container a) < id_of s (container b)) (co_node <$> l).
Proof.
  intros Hs. apply sorted_fmap. induction Hs as [|a l Hs IH Ha]; constructor; [done|].
  eapply Forall_impl; [exact Ha|]. intros b. by rewrite !container_co_node.
Qed.

(** Comparisons of a key with the key sought. *)
Ltac by_keys := intros a b Hab; unfold sign_dir; repeat case_match; try done; lia.

Lemma by_id_monotone s l id : by_id s l → monotone (λ z, sign_dir (id - id_of s (container z))) (co_node <$> l).
Proof. intros Hs. apply (sorted_monotone _ (λ z, id_of s (container z))); [by apply by_id_keys | by_keys..]. Qed.

Lemma by_id_monotone2 s l id :
  by_id s l → monotone (λ z, if id - id_of s (container z) <? 0 then GoLeft else GoRight) (co_node <$> l).
Proof. intros Hs. apply (sorted_monotone _ (λ z, id_of s (container z))); [by apply by_id_keys | by_keys..]. Qed.

Lemma add_to_timer_node_ok s g c x :
  group_ok s g → coros s !! c = Some x → coro_timeout x = g_time g → 0 ≤ coro_id x < 2 ^ 31 →
  c ∉ g_coros g → (∀ e, e ∈ g_coros g → id_of s e ≠ coro_id x) →
  is_Some (co_nodes s !! co_node c) → aligned (co_node c) →
  ∃ l1 l2 r, g_coros g = l1 ++ l2 ∧ add_to_timer_node s (g_tm g) c = Ok (with_timer s (g_tm g) (g_time g) r) ∧
    group_ok (with_timer s (g_tm g) (g_time g) r) (Group (g_tm g) (g_time g) (l1 ++ c :: l2)) ∧
    untouched (co_node <$> (l1 ++ c :: l2)) (RbState (co_nodes s) NULL) r.
Proof.
  intros (r0 & Hr0 & Hh & Hs & Hw) Hx Hxt Hid Hnin Hne Hm Hal. unfold add_to_timer_node, get_timer. rewrite Hr0. cres_simpl.
  rewrite (get_coro_ok _ _ _ Hx). cres_simpl. unfold timer_tree. cbn [root].
  set (D := λ d, if d <? 0 then GoLeft else GoRight).
  destruct (holds_place (RbState (co_nodes s) r0) (co_node <$> g_coros g)
    (λ each, e ← get_coro s (container each); result ← int_arith (coro_id x - coro_id e); mret (D result))
    (λ z, D (coro_id x - id_of s (container z))) (size (co_nodes s)))
    as [(z & _ & Hz & _)|(qs & Hgap & HA & H1 & H2 & Ef)]; try done.
  - by apply (co_cmp_ok s (g_time g)).
  - by apply by_id_monotone2.
  - unfold D in Hz. case_match; done.
  - destruct (gap_insert _ qs (co_node c) Hgap) as (r & Ei & Hr & Hu); [done | | done |].
    { rewrite addrs_fill. cbn [addrs app]. rewrite <-HA. by intros (e & ->%(inj co_node) & He)%list_elem_of_fmap. }
    apply fmap_app_inv in HA as (l1 & l2 & E1 & E2 & Hl). rewrite E1, E2 in *. exists l1, l2, r. split; [done|].
    unfold D in Ef. rewrite Ef. cres_simpl. split; [by apply (on_timer_ok s (g_tm g) (Timer r0 (g_time g)))|].
    assert (Hidc : id_of s c = coro_id x) by (unfold id_of; by rewrite Hx).
    split; [|by rewrite fmap_app].
    exists (rb_root r). cbn [g_tm g_time g_coros with_timer timers co_nodes set_timers set_co_nodes coros]. rewrite lookup_insert_eq.
    rewrite Hl in *. split_and!; [done | rewrite fmap_app; by destruct r | |].
    + apply sorted_insert_mid; [done | |].
      * apply Forall_forall. intros e He. apply (Forall_fmap _ _ _) in H1. pose proof (proj1 (Forall_forall _ _) H1 e He) as Hd. cbn in Hd.
        rewrite container_co_node in Hd. unfold D in Hd. change (id_of _ e) with (id_of s e). change (id_of (with_timer _ _ _ _) c) with (id_of s c).
        assert (id_of s e ≠ coro_id x) by (apply Hne; set_solver). case_match; [done|]. lia.
      * apply Forall_forall. intros e He. apply (Forall_fmap _ _ _) in H2. pose proof (proj1 (Forall_forall _ _) H2 e He) as Hd. cbn in Hd.
        rewrite container_co_node in Hd. unfold D in Hd. change (id_of _ e) with (id_of s e). change (id_of (with_timer _ _ _ _) c) with (id_of s c).
        case_match; [|done]. lia.
    + apply Forall_app in Hw as [Hw1 Hw2]. apply Forall_app. split; [done|]. apply Forall_cons. split; [|done]. by exists x.
Qed.

Lemma sorted_elem {A} (R : A → A → Prop) l1 x l2 :
  StronglySorted R (l1 ++ x :: l2) → Forall (λ a, R a x) l1 ∧ Forall (R x) l2.
Proof.
  induction l1 as [|a l1 IH]; cbn [app]; intros [Hs Ha]%StronglySorted_inv; [done|].
  apply Forall_app in Ha as [_ [Hax _]%Forall_cons]. destruct (IH Hs) as [? ?]. split; [by apply Forall_cons | done].
Qed.

(** Coroutines of a group are told apart by their identifiers. *)
Lemma by_id_inj s l a b : by_id s l → a ∈ l → b ∈ l → id_of s a = id_of s b → a = b.
Proof.
  intros Hs Ha Hb He. apply list_elem_of_split in Ha as (l1 & l2 & ->). destruct (sorted_elem _ _ _ _ Hs) as [H1 H2].
  apply elem_of_app in Hb as [Hb|[->|Hb]%elem_of_cons]; [|done|].
  - pose proof (proj1 (Forall_forall _ _) H1 b Hb). cbn in *. lia.
  - pose proof (proj1 (Forall_forall _ _) H2 b Hb). cbn in *. lia.
Qed.

Lemma find_in_timer_ok s g id :
  group_ok s g → 0 ≤ id < 2 ^ 31 →
  (∃ e, e ∈ g_coros g ∧ id_of s e = id ∧ aligned (co_node e) ∧
     find_in_timer s (g_tm g) id = Ok (if co_node e =? NULL then NULL else e)) ∨
  ((∀ e, e ∈ g_coros g → id_of s e ≠ id) ∧ find_in_timer s (g_tm g) id = Ok NULL).
Proof.
  intros (r0 & Hr0 & Hh & Hs & Hw) Hid. unfold find_in_timer. rewrite (get_timer_ok _ _ _ Hr0). cres_simpl. cbn [root].
  destruct (holds_find (RbState (co_nodes s) r0) (co_node <$> g_coros g)
    (λ each, c ← get_coro s (container each); result ← int_arith (id - coro_id c); mret (sign_dir result))
    (λ z, sign_dir (id - id_of s (container z))) (size (co_nodes s))) as [(z & Hz & Hd & E)|[Hno E]]; try done.
  - by apply (co_cmp_ok s (g_time g)).
  - by apply by_id_monotone.
  - left. pose proof (holds_aligned _ _ _ Hh Hz) as Hal. apply list_elem_of_fmap in Hz as (e & -> & He). exists e.
    cbn [rb_heap rb_root] in E. rewrite E. cres_simpl. rewrite container_co_node in *. split_and!; try done.
    unfold sign_dir in Hd. repeat case_match; try done. lia.
  - right. cbn [rb_heap rb_root] in E. rewrite E. cres_simpl. split; [|done]. intros e He Hi.
    apply (Hno (co_node e)); [by apply list_elem_of_fmap_2|]. rewrite container_co_node, Hi, Z.sub_diag. done.
Qed.

Lemma remove_from_timer_node_ok s g c x l1 l2 :
  group_ok s g → g_coros g = l1 ++ c :: l2 → coros s !! c = Some x → c ≠ NULL →
  ∃ r, remove_from_timer_node s (g_tm g) c = Ok (with_timer s (g_tm g) (g_time g) r) ∧
    group_ok (with_timer s (g_tm g) (g_time g) r) (Group (g_tm g) (g_time g) (l1 ++ l2)) ∧
    untouched (co_node <$> (l1 ++ l2)) (RbState (co_nodes s) NULL) r.
Proof.
  intros Hg Hc Hx Hnn. unfold remove_from_timer_node. rewrite (get_coro_ok _ _ _ Hx). cres_simpl.
  assert (Hin : c ∈ g_coros g) by (rewrite Hc; set_solver).
  pose proof Hg as (r0 & Hr0 & Hh & Hs & Hw). destruct (proj1 (Forall_forall _ _) Hw c Hin) as (x' & Hx' & Hxt & Hid).
  assert (x' = x) as -> by congruence. assert (Hidc : id_of s c = coro_id x) by (unfold id_of; by rewrite Hx).
  destruct (find_in_timer_ok s g (coro_id x) Hg Hid) as [(e & He & Hie & Hal & ->)|[Hno _]]; [|by destruct (Hno c Hin)].
  assert (e = c) as -> by (eapply by_id_inj; [done.. | congruence]). cres_simpl. rewrite (aligned_ne _ Hal).
  rewrite (proj2 (Z.eqb_neq c NULL)) by done. rewrite Hc, fmap_app in Hh. cbn [fmap list_fmap] in Hh.
  destruct (holds_erase _ _ _ _ Hh) as (r & Er & Hr & Hu). exists r. rewrite <-fmap_app in Hr, Hu.
  split; [by apply (on_timer_ok s (g_tm g) (Timer r0 (g_time g)))|]. split; [|done].
  exists (rb_root r). cbn [g_tm g_time g_coros with_timer timers co_nodes set_timers set_co_nodes]. rewrite lookup_insert_eq.
  rewrite Hc in Hs, Hw. split_and!; [done | by destruct r | by eapply sorted_remove |].
  apply Forall_app in Hw as [? [_ ?]%Forall_cons]. by apply Forall_app.
Qed.

(** A coroutine that is not in the group is not found. *)
Lemma remove_from_timer_node_absent s g c x :
  group_ok s g → coros s !! c = Some x → 0 ≤ coro_id x < 2 ^ 31 → (∀ e, e ∈ g_coros g → id_of s e ≠ coro_id x) →
  remove_from_timer_node s (g_tm g) c = Ok s.
Proof.
  intros Hg Hx Hid Hne. unfold remove_from_timer_node. rewrite (get_coro_ok _ _ _ Hx). cres_simpl.
  destruct (find_in_timer_ok s g (coro_id x) Hg Hid) as [(e & He & Hie & _)|[_ ->]]; [by destruct (Hne e He)|]. done.
Qed.

(** ** The timer nodes *)

Definition time_of (s : coro_schedule) (tm : Z) : Z := default 0 (timeout <$> timers s !! tm).

Lemma time_of_group s g : group_ok s g → time_of s (g_tm g) = g_time g.
Proof. intros (r & Hr & _). unfold time_of. by rewrite Hr. Qed.

Lemma by_time_keys s gs :
  by_time gs → Forall (group_ok s) gs → StronglySorted (λ a b, time_of s a < time_of s b) (g_tm <$> gs).
Proof.
  intros Hs Hg. apply sorted_fmap. induction Hs as [|g gs Hs IH Ha]; constructor; apply Forall_cons in Hg as [Hg Hgs]; [by apply IH|].
  apply Forall_forall. intros g' Hg'. pose proof (proj1 (Forall_forall _ _) Ha g' Hg'). cbn in *.
  rewrite !time_of_group; [lia | by eapply (proj1 (Forall_forall _ _) Hgs) | done].
Qed.

Lemma ll_arith_ok z : - 2 ^ 63 ≤ z < 2 ^ 63 → ll_arith z = Ok z.
Proof. intros ?. unfold ll_arith, is_i64. by rewrite (proj2 (andb_true_iff _ _)) by lia. Qed.

(** The comparisons in the inactive tree, with the difference passed through [f]. *)
Lemma tm_cmp_ok s gs t (f : Z → Z) :
  Forall (group_ok s) gs → times_ok gs → 0 ≤ t < 2 ^ 63 →
  ∀ z, z ∈ g_tm <$> gs →
  (tm ← get_timer s z; d ← ll_arith (t - timeout tm); mret (sign_dir (f d))) = Ok (sign_dir (f (t - time_of s z))).
Proof.
  intros Hg Ht Ht0 z (g & -> & Hin)%list_elem_of_fmap. pose proof (proj1 (Forall_forall _ _) Hg g Hin) as Hgo.
  pose proof (proj1 (Forall_forall _ _) Ht g Hin) as Htg. cbn in Htg. rewrite (time_of_group _ _ Hgo).
  destruct Hgo as (r & Hr & _). rewrite (get_timer_ok _ _ _ Hr). cres_simpl. cbn [timeout]. rewrite ll_arith_ok by lia. done.
Qed.

Lemma find_timer_node_ok s gs t :
  waiting s gs → 0 ≤ t < 2 ^ 63 →
  (∃ g, g ∈ gs ∧ g_time g = t ∧ find_timer_node s t = Ok (g_tm g)) ∨
  ((∀ g, g ∈ gs → g_time g ≠ t) ∧ find_timer_node s t = Ok NULL).
Proof.
  intros (Hh & Hs & Ht & Hg & _) Ht0.
  destruct (holds_find (inactive_tree s) (g_tm <$> gs)
    (λ each, tm ← get_timer s each; timespan ← ll_arith (t - timeout tm); mret (sign_dir timespan))
    (λ z, sign_dir (t - time_of s z)) (size (tm_nodes s))) as [(z & Hz & Hd & E)|[Hno E]]; try done.
  - apply (tm_cmp_ok s gs t id Hg Ht Ht0).
  - apply (sorted_monotone _ (time_of s)); [by apply by_time_keys | by_keys..].
  - left. apply list_elem_of_fmap in Hz as (g & -> & Hin). exists g. split_and!; [done | | done].
    rewrite (time_of_group s g) in Hd by (by eapply (proj1 (Forall_forall _ _) Hg)).
    unfold sign_dir in Hd. repeat case_match; try done. lia.
  - right. split; [|done]. intros g Hin Hgt. apply (Hno (g_tm g)); [by apply list_elem_of_fmap_2|].
    rewrite (time_of_group s g), Hgt, Z.sub_diag by (by eapply (proj1 (Forall_forall _ _) Hg)). done.
Qed.
