(* ===== verification/SchedLists.v ===== *)
(** The two lists of the scheduler side by side, and the coroutines that are on neither. *)

From stdpp Require Import base gmap list numbers strings sets.
From Stdlib Require Import ZArith Lia.
From S2P Require Import Prelude ListHead Sched.

(** [others] are coroutines with a list node that is on no list. *)
Record lists_ok (h : gmap Z list_head) (idle active others : list Z) : Prop := ListsOk {
  lo_idle : dlist h IDLE idle;
  lo_active : dlist h ACTIVE active;
  lo_others : ∀ c, c ∈ others → is_Some (h !! c);
  lo_nodup : NoDup (IDLE :: ACTIVE :: idle ++ active ++ others);
}.

Lemma lists_ok_perm h idle active o o' : o ≡ₚ o' → lists_ok h idle active o → lists_ok h idle active o'.
Proof. intros Hp [H1 H2 H3 H4]. split; [done | done | |by rewrite <-Hp]. intros c Hc. apply H3. by rewrite Hp. Qed.

(** Rearranging the sequence of all coroutines. *)
Lemma nodup_perm (l l' : list Z) : l ≡ₚ l' → NoDup l → NoDup l'.
Proof. by intros ->. Qed.

Section Lists.
  Context (h : gmap Z list_head) (idle active o : list Z) (c : Z).

(** Appending to the runnable coroutines, or putting in front. *)
Lemma lists_push_active :
  lists_ok h idle active (c :: o) → ∃ h', list_add_tail h c ACTIVE = Ok h' ∧ lists_ok h' idle (active ++ [c]) o.
Proof.
  intros [Hi Ha Ho Hn]. assert (Hsep : c ∉ ACTIVE :: active ∧ (∀ x, x ∈ IDLE :: idle ++ o → x ∉ ACTIVE :: active ++ [c])).
  { clear -Hn. nodup_split. set_solver. }
  destruct Hsep as [Hc Hsep].
  destruct (list_add_tail_before h ACTIVE active [] ACTIVE c) as (h' & E & Hd & Hf); try done.
  { by rewrite app_nil_r. } { apply Ho. set_solver. } { by rewrite app_nil_r. }
  exists h'. split; [done|]. split; [|done| |].
  - eapply dlist_ext; [|exact Hi]. intros x Hx. apply Hf, Hsep. set_solver.
  - intros x Hx. rewrite Hf by (apply Hsep; set_solver). apply Ho. set_solver.
  - eapply nodup_perm; [|exact Hn]. solve_Permutation.
Qed.

Lemma lists_push_active_head :
  lists_ok h idle active (c :: o) → ∃ h', list_add h c ACTIVE = Ok h' ∧ lists_ok h' idle (c :: active) o.
Proof.
  intros [Hi Ha Ho Hn]. assert (Hsep : c ∉ ACTIVE :: active ∧ (∀ x, x ∈ IDLE :: idle ++ o → x ∉ ACTIVE :: c :: active)).
  { clear -Hn. nodup_split. set_solver. }
  destruct Hsep as [Hc Hsep].
  destruct (list_add_after h ACTIVE [] active ACTIVE c) as (h' & E & Hd & Hf); try done.
  { apply Ho. set_solver. }
  exists h'. split; [done|]. split; [|done| |].
  - eapply dlist_ext; [|exact Hi]. intros x Hx. apply Hf, Hsep. set_solver.
  - intros x Hx. rewrite Hf by (apply Hsep; set_solver). apply Ho. set_solver.
  - eapply nodup_perm; [|exact Hn]. solve_Permutation.
Qed.

Lemma lists_push_idle :
  lists_ok h idle active (c :: o) → ∃ h', list_add_tail h c IDLE = Ok h' ∧ lists_ok h' (idle ++ [c]) active o.
Proof.
  intros [Hi Ha Ho Hn]. assert (Hsep : c ∉ IDLE :: idle ∧ (∀ x, x ∈ ACTIVE :: active ++ o → x ∉ IDLE :: idle ++ [c])).
  { clear -Hn. nodup_split. set_solver. }
  destruct Hsep as [Hc Hsep].
  destruct (list_add_tail_before h IDLE idle [] IDLE c) as (h' & E & Hd & Hf); try done.
  { by rewrite app_nil_r. } { apply Ho. set_solver. } { by rewrite app_nil_r. }
  exists h'. split; [done|]. split; [done| | |].
  - eapply dlist_ext; [|exact Ha]. intros x Hx. apply Hf, Hsep. set_solver.
  - intros x Hx. rewrite Hf by (apply Hsep; set_solver). apply Ho. set_solver.
  - eapply nodup_perm; [|exact Hn]. solve_Permutation.
Qed.

(** The first runnable coroutine, unlinked with its node reset. *)
Lemma lists_pop_active :
  lists_ok h idle (c :: active) o →
  get_next h ACTIVE = Ok c ∧ ∃ h', list_del_init h c = Ok h' ∧ lists_ok h' idle active (c :: o).
Proof.
  intros [Hi Ha Ho Hn]. split; [by apply (dlist_next h ACTIVE [] (c :: active) ACTIVE)|].
  assert (Hsep : ∀ x, x ∈ IDLE :: idle ++ o → x ∉ ACTIVE :: c :: active).
  { clear -Hn. nodup_split. set_solver. }
  destruct (list_del_init_ok h ACTIVE [] active c Ha) as (h' & E & Hd & Hc & Hf).
  exists h'. split; [done|]. split; [|done| |].
  - eapply dlist_ext; [|exact Hi]. intros x Hx. apply Hf, Hsep. set_solver.
  - intros x [->|Hx]%elem_of_cons; [eapply dlist_mapped; [exact Hc | set_solver]|].
    rewrite Hf by (apply Hsep; set_solver). by apply Ho.
  - eapply nodup_perm; [|exact Hn]. solve_Permutation.
Qed.

(** The first idle coroutine; [list_del] leaves its node as it is. *)
Lemma lists_pop_idle :
  lists_ok h (c :: idle) active o →
  get_next h IDLE = Ok c ∧ ∃ h', list_del h c = Ok h' ∧ lists_ok h' idle active (c :: o).
Proof.
  intros [Hi Ha Ho Hn]. split; [by apply (dlist_next h IDLE [] (c :: idle) IDLE)|].
  assert (Hsep : ∀ x, x ∈ ACTIVE :: active ++ c :: o → x ∉ IDLE :: idle).
  { clear -Hn. nodup_split. set_solver. }
  destruct (list_del_ok h IDLE [] idle c Hi) as (h' & E & Hd & Hf).
  exists h'. split; [done|]. split; [done| | |].
  - eapply dlist_ext; [|exact Ha]. intros x Hx. apply Hf, Hsep. set_solver.
  - intros x [->|Hx]%elem_of_cons; rewrite Hf by (apply Hsep; set_solver); [|by apply Ho].
    eapply dlist_mapped; [exact Hi | set_solver].
  - eapply nodup_perm; [|exact Hn]. solve_Permutation.
Qed.

(** A coroutine on no list can have its node initialised, or be new. *)
Lemma lists_init :
  lists_ok h idle active (c :: o) → ∃ h', INIT_LIST_HEAD h c = Ok h' ∧ lists_ok h' idle active (c :: o).
Proof.
  intros [Hi Ha Ho Hn]. assert (Hsep : ∀ x, x ∈ IDLE :: ACTIVE :: idle ++ active ++ o → x ≠ c).
  { clear -Hn. nodup_split. set_solver. }
  destruct (INIT_LIST_HEAD_ok h c) as (h' & E & Hc & Hf); [apply Ho; set_solver|].
  exists h'. split; [done|]. split; [| | |done].
  - eapply dlist_ext; [|exact Hi]. intros x Hx. apply Hf, Hsep. set_solver.
  - eapply dlist_ext; [|exact Ha]. intros x Hx. apply Hf, Hsep. set_solver.
  - intros x [->|Hx]%elem_of_cons; [eapply dlist_mapped; [exact Hc | set_solver]|].
    rewrite Hf by (apply Hsep; set_solver). apply Ho. set_solver.
Qed.

Lemma lists_new n :
  lists_ok h idle active o → c ∉ IDLE :: ACTIVE :: idle ++ active ++ o → lists_ok (<[c := n]> h) idle active (c :: o).
Proof.
  intros [Hi Ha Ho Hn] Hc. split.
  - eapply dlist_ext; [|exact Hi]. intros x Hx. rewrite lookup_insert_ne; [done|]. set_solver.
  - eapply dlist_ext; [|exact Ha]. intros x Hx. rewrite lookup_insert_ne; [done|]. set_solver.
  - intros x [->|Hx]%elem_of_cons; [by rewrite lookup_insert_eq|].
    rewrite lookup_insert_ne by set_solver. by apply Ho.
  - eapply nodup_perm; [|apply NoDup_cons; split; [exact Hc | exact Hn]]. solve_Permutation.
Qed.

End Lists.
