(* ===== verification/SchedOps.v ===== *)
(** The state of the scheduler as a whole, and what its operations do to it. *)

From stdpp Require Import base gmap list numbers strings sets sorting.
From Stdlib Require Import ZArith Lia.
From S2P Require Import Prelude ListHead Memcache RbTree RbRep RbInsert RbErase RbEraseColor RbProps.
From S2P Require Import Sched SchedSearch SchedInv SchedLists.

(** Who is idle, runnable, waiting, and on neither list nor tree: the running coroutine and
    those that could not be parked. *)
Record view : Type := View { v_idle : list Z; v_active : list Z; v_groups : list group; v_run : list Z }.

Definition everyone (v : view) : list Z := v_idle v ++ v_active v ++ waiters (v_groups v) ++ v_run v.

(** The waiting coroutines with the times they wait for. *)
Definition pairs (gs : list group) : list (Z * Z) := gs ≫= λ g, (λ c, (c, g_time g)) <$> g_coros g.

Definition coro_ok (s : coro_schedule) (c : Z) : Prop :=
  is_Some (co_nodes s !! co_node c) ∧ ∃ x, coros s !! c = Some x ∧ 1 ≤ coro_id x ≤ next_coro_id s ∧ 0 ≤ coro_timeout x < 2 ^ 63.

Record sched_inv (s : coro_schedule) (v : view) : Prop := SchedInv {
  si_lists : lists_ok (lists s) (v_idle v) (v_active v) (waiters (v_groups v) ++ v_run v);
  si_waiting : waiting s (v_groups v);
  si_coros : ∀ c, c ∈ everyone v → coro_ok s c;
  si_ids : ∀ a b, a ∈ everyone v → b ∈ everyone v → id_of s a = id_of s b → a = b;
  si_count : curr_coro_size s = Z.of_nat (length (everyone v)) ∧ next_coro_id s = curr_coro_size s ∧
    curr_coro_size s ≤ max_coro_size s < 2 ^ 31;
  si_pool : ∃ rest, owned (live s) (tm_cache s) (list_to_set (g_tm <$> v_groups v)) rest ∧
    ∀ c, c ∈ IDLE :: ACTIVE :: everyone v → c ∈ rest;
  si_live : ∀ p, p ∈ live s → aligned p;
  si_all : ∀ c, is_Some (coros s !! c) → c ∈ everyone v;
}.

(** ** Consequences *)

Lemma waiters_app gs1 gs2 : waiters (gs1 ++ gs2) = waiters gs1 ++ waiters gs2.
Proof. apply bind_app. Qed.
Lemma pairs_app gs1 gs2 : pairs (gs1 ++ gs2) = pairs gs1 ++ pairs gs2.
Proof. apply bind_app. Qed.
Lemma pairs_waiters gs : (pairs gs).*1 = waiters gs.
Proof.
  induction gs as [|g gs IH]; [done|]. cbn. rewrite fmap_app, <-list_fmap_compose. f_equal; [|exact IH].
  cbn. induction (g_coros g) as [|c l IHl]; [done|]. cbn. by rewrite IHl.
Qed.

Lemma waiter_elem gs g c : g ∈ gs → c ∈ g_coros g → c ∈ waiters gs.
Proof. intros Hg Hc. apply list_elem_of_bind. eauto. Qed.

Lemma everyone_nodup s v : sched_inv s v → NoDup (IDLE :: ACTIVE :: everyone v).
Proof. intros Hi. exact (lo_nodup _ _ _ _ (si_lists _ _ Hi)). Qed.

Lemma everyone_live s v c : sched_inv s v → c ∈ IDLE :: ACTIVE :: everyone v → c ∈ live s.
Proof. intros Hi Hc. destruct (si_pool _ _ Hi) as (rest & [_ _ Hlive _ _ _] & Hr). rewrite Hlive. specialize (Hr c Hc). set_solver. Qed.

Lemma everyone_aligned s v c : sched_inv s v → c ∈ IDLE :: ACTIVE :: everyone v → aligned c.
Proof. intros Hi Hc. apply (si_live _ _ Hi). by eapply everyone_live. Qed.

Lemma aligned_co_node c : aligned c → aligned (co_node c).
Proof. unfold aligned, co_node, NODE_OFFSET. intros [Hp Hm]. split; [lia|]. rewrite <-Z.add_mod_idemp_l, Hm by lia. done. Qed.

Lemma aligned_nonnull c : aligned c → c ≠ NULL.
Proof. intros [Hp _] ->. unfold NULL in *. lia. Qed.

Lemma coro_id_range s v c x : sched_inv s v → c ∈ everyone v → coros s !! c = Some x → 0 ≤ coro_id x < 2 ^ 31 ∧ id_of s c = coro_id x.
Proof.
  intros Hi Hc Hx. destruct (si_coros _ _ Hi c Hc) as (_ & x' & Hx' & Hr & _). assert (x' = x) as -> by congruence.
  destruct (si_count _ _ Hi) as (_ & Hn & ?). split; [lia|]. unfold id_of. by rewrite Hx.
Qed.

(** ** The trees after a change of one timer node *)

Lemma group_ok_frame s tm t r g :
  group_ok s g → g_tm g ≠ tm → (∀ c, c ∈ g_coros g → rb_heap r !! co_node c = co_nodes s !! co_node c) →
  group_ok (with_timer s tm t r) g.
Proof.
  intros (r0 & Hr0 & Hh & Hs & Hw) Hne Hf. exists r0. cbn [with_timer set_timers set_co_nodes timers co_nodes coros].
  rewrite lookup_insert_ne by done. split_and!; [done | | done | done].
  apply (holds_ext (RbState (co_nodes s) r0)); [done | | exact Hh]. intros z (c & -> & Hc)%list_elem_of_fmap. by apply Hf.
Qed.

Lemma groups_frame s tm t r l gs :
  Forall (group_ok s) gs → tm ∉ g_tm <$> gs → untouched (co_node <$> l) (RbState (co_nodes s) NULL) r →
  (∀ c, c ∈ waiters gs → c ∉ l) → Forall (group_ok (with_timer s tm t r)) gs.
Proof.
  intros Hg Htm Hu Hd. apply Forall_forall. intros g Hin. apply group_ok_frame.
  - by eapply (proj1 (Forall_forall _ _) Hg).
  - intros <-. apply Htm. by apply list_elem_of_fmap_2.
  - intros c Hc. rewrite Hu; [done|]. intros (e & ->%(inj co_node) & He)%list_elem_of_fmap.
    apply (Hd e); [by eapply waiter_elem | done].
Qed.

(** One group of the waiting coroutines is replaced; it may become empty. *)
Lemma waiting_replace s gs1 g gs2 l r :
  waiting s (gs1 ++ g :: gs2) → group_ok (with_timer s (g_tm g) (g_time g) r) (Group (g_tm g) (g_time g) l) →
  untouched (co_node <$> l) (RbState (co_nodes s) NULL) r → (∀ c, c ∈ waiters (gs1 ++ gs2) → c ∉ l) →
  let s' := with_timer s (g_tm g) (g_time g) r in
  holds (inactive_tree s') (g_tm <$> gs1 ++ Group (g_tm g) (g_time g) l :: gs2) ∧
  by_time (gs1 ++ Group (g_tm g) (g_time g) l :: gs2) ∧ times_ok (gs1 ++ Group (g_tm g) (g_time g) l :: gs2) ∧
  Forall (group_ok s') (gs1 ++ Group (g_tm g) (g_time g) l :: gs2) ∧ Forall (λ g, g_coros g ≠ []) (gs1 ++ gs2).
Proof.
  intros (Hh & Hs & Ht & Hg & Hne) Hg' Hu Hd s'. pose proof (holds_nodup _ _ Hh) as Hn.
  rewrite fmap_app in Hh, Hn |- *. cbn [fmap list_fmap] in Hh, Hn |- *.
  apply Forall_app in Hg as [Hg1 [Hg0 Hg2]%Forall_cons]. apply Forall_app in Hne as [Hne1 [_ Hne2]%Forall_cons].
  rewrite waiters_app in Hd. split_and!.
  - done.
  - destruct (sorted_elem _ _ _ _ Hs) as [H1 H2]. apply sorted_insert_mid; [by eapply sorted_remove | done | done].
  - unfold times_ok in *. apply Forall_app in Ht as [? [? ?]%Forall_cons]. apply Forall_app. split; [done|]. by apply Forall_cons.
  - apply Forall_app. split; [|apply Forall_cons; split; [done|]]; (eapply groups_frame; [done | | exact Hu |]).
    + clear -Hn. nodup_split. set_solver.
    + intros c Hc. apply Hd. set_solver.
    + clear -Hn. nodup_split. set_solver.
    + intros c Hc. apply Hd. set_solver.
  - by apply Forall_app.
Qed.

(** Coroutines change between waiting and running; everything else stays. *)
Lemma inv_retree s v s' gs' run' :
  sched_inv s v → lists s' = lists s → coros s' = coros s → curr_coro_size s' = curr_coro_size s →
  next_coro_id s' = next_coro_id s → max_coro_size s' = max_coro_size s →
  waiters gs' ++ run' ≡ₚ waiters (v_groups v) ++ v_run v → waiting s' gs' →
  (∀ z, is_Some (co_nodes s !! z) → is_Some (co_nodes s' !! z)) →
  (∃ rest, owned (live s') (tm_cache s') (list_to_set (g_tm <$> gs')) rest ∧ ∀ c, c ∈ IDLE :: ACTIVE :: everyone v → c ∈ rest) →
  (∀ p, p ∈ live s' → aligned p) →
  sched_inv s' (View (v_idle v) (v_active v) gs' run').
Proof.
  intros [Hl Hw Hc Hids Hcnt Hpool Hlive Hall] El Ec E1 E2 E3 Hp Hw' Hm Hpool' Hlive'.
  assert (Hev : everyone (View (v_idle v) (v_active v) gs' run') ≡ₚ everyone v) by (unfold everyone; cbn; by rewrite Hp).
  assert (Hid : ∀ c, id_of s' c = id_of s c) by (intros c; unfold id_of; by rewrite Ec).
  split; cbn [v_idle v_active v_groups v_run].
  - rewrite El. by eapply lists_ok_perm; [symmetry|].
  - done.
  - intros c. rewrite Hev. intros Hin. destruct (Hc c Hin) as [? ?]. split; [by apply Hm|]. by rewrite Ec, E2.
  - intros a b. rewrite !Hev, !Hid. apply Hids.
  - by rewrite E1, E2, E3, Hev.
  - destruct Hpool' as (rest & Ho & Hr). exists rest. split; [done|]. intros c. rewrite Hev. apply Hr.
  - done.
  - intros c. rewrite Hev, Ec. apply Hall.
Qed.

(** Nodes stay mapped when a timer node is changed. *)
Lemma with_timer_mapped s g l r :
  group_ok (with_timer s (g_tm g) (g_time g) r) (Group (g_tm g) (g_time g) l) →
  untouched (co_node <$> l) (RbState (co_nodes s) NULL) r →
  ∀ z, is_Some (co_nodes s !! z) → is_Some (co_nodes (with_timer s (g_tm g) (g_time g) r) !! z).
Proof.
  intros (r0 & _ & Hh & _) Hu z Hz. cbn [g_coros] in Hh. destruct (decide (z ∈ co_node <$> l)) as [Hin|Hin].
  - exact (holds_mapped _ _ _ Hh Hin).
  - cbn. by rewrite Hu.
Qed.

(** The window in which the [int] of [move_to_inactive_tree] holds the difference. *)
Definition in_window (t : Z) (gs : list group) : Prop := Forall (λ g, - 2 ^ 31 ≤ t - g_time g < 2 ^ 31) gs.

(** [malloc] returns memory aligned for any object. *)
Definition aligned_malloc (malloc : gset Z → Z) : Prop := ∀ l, malloc l = NULL ∨ aligned (malloc l).

Lemma alloc_live malloc l c p c' l' :
  aligned_malloc malloc → memcache_alloc malloc l c = Ok (p, c', l') → (∀ q, q ∈ l → aligned q) → ∀ q, q ∈ l' → aligned q.
Proof.
  intros Hm E Hl q Hq. unfold memcache_alloc in E. destruct (negb (curr c =? 0)).
  - destruct (remove_element c) as [[e c1]| |]; cres_simpl; try done. injection E as <- <- <-. by apply Hl.
  - unfold malloc_block in E. destruct (malloc l =? NULL) eqn:En; injection E as <- <- <-; [by apply Hl|].
    apply elem_of_union in Hq as [->%elem_of_singleton|Hq]; [|by apply Hl]. destruct (Hm l) as [Hz|?]; [|done]. rewrite Hz in En. done.
Qed.

Section Park.
  Context (s : coro_schedule) (v : view) (c : Z) (x : coroutine) (run : list Z).
  Context (Hinv : sched_inv s v) (Hrun : v_run v = c :: run) (Hx : coros s !! c = Some x).
  Context (Ht : 0 ≤ coro_timeout x < 2 ^ 63) (Hwin : in_window (coro_timeout x) (v_groups v)).

#[local] Set Default Proof Using "Type*".

Lemma park_elem : c ∈ everyone v.
Proof using Hrun. unfold everyone. rewrite Hrun. clear. set_solver. Qed.

Lemma park_fresh gs : waiters gs ⊆ waiters (v_groups v) → c ∉ waiters gs.
Proof.
  intros Hsub Hc%Hsub. pose proof (everyone_nodup _ _ Hinv) as Hn. unfold everyone in Hn. rewrite Hrun in Hn.
  clear -Hn Hc. nodup_split. set_solver.
Qed.

Lemma park_others e gs : e ∈ waiters gs → waiters gs ⊆ waiters (v_groups v) → id_of s e ≠ coro_id x.
Proof.
  intros He Hsub Hid. pose proof park_elem as Hc. destruct (coro_id_range _ _ _ _ Hinv Hc Hx) as [_ Hidc].
  assert (Hev : e ∈ everyone v) by (unfold everyone; specialize (Hsub e He); set_solver).
  rewrite <-Hidc in Hid. apply (si_ids _ _ Hinv e c Hev Hc) in Hid as ->. by apply (park_fresh gs).
Qed.

(** The timer node for the time exists. *)
Lemma park_join gs1 g gs2 :
  v_groups v = gs1 ++ g :: gs2 → g_time g = coro_timeout x →
  ∃ s' gs', add_to_timer_node s (g_tm g) c = Ok s' ∧ sched_inv s' (View (v_idle v) (v_active v) gs' run) ∧
    pairs gs' ≡ₚ (c, coro_timeout x) :: pairs (v_groups v) ∧ coros s' = coros s ∧ current s' = current s.
Proof.
  intros Hgs Hgt. pose proof park_elem as Hc. destruct (coro_id_range _ _ _ _ Hinv Hc Hx) as [Hid Hidc].
  pose proof (si_waiting _ _ Hinv) as Hw. assert (Hg : group_ok s g).
  { destruct Hw as (_ & _ & _ & Hg & _). rewrite Hgs in Hg. by apply Forall_app in Hg as [_ [? _]%Forall_cons]. }
  assert (Hsub : waiters [g] ⊆ waiters (v_groups v)) by (rewrite Hgs, waiters_app; cbn; set_solver).
  assert (Hin : ∀ e, e ∈ g_coros g → e ∈ waiters [g]) by (intros e He; cbn; by rewrite app_nil_r).
  destruct (add_to_timer_node_ok s g c x Hg Hx (eq_sym Hgt) Hid) as (l1 & l2 & r & Hl & E & Hg' & Hu).
  { intros Hcg%Hin. by apply (park_fresh [g]). }
  { intros e He%Hin. by apply (park_others e [g]). }
  { by destruct (si_coros _ _ Hinv c Hc). }
  { apply aligned_co_node, (everyone_aligned _ _ _ Hinv). set_solver. }
  exists (with_timer s (g_tm g) (g_time g) r), (gs1 ++ Group (g_tm g) (g_time g) (l1 ++ c :: l2) :: gs2).
  rewrite Hgs in Hw. pose proof (everyone_nodup _ _ Hinv) as Hn. unfold everyone in Hn. rewrite Hgs, Hrun in Hn.
  destruct (waiting_replace s gs1 g gs2 (l1 ++ c :: l2) r Hw Hg' Hu) as (H1 & H2 & H3 & H4 & H5).
  { rewrite waiters_app in Hn |- *. change (waiters (g :: gs2)) with (g_coros g ++ waiters gs2) in Hn. rewrite Hl in Hn. clear -Hn. nodup_split. set_solver. }
  split_and!; [done | | | done | done].
  - apply (inv_retree s v); try done.
    + rewrite Hgs, Hrun, !waiters_app. cbn. rewrite Hl. solve_Permutation.
    + split_and!; try done. apply Forall_app in H5 as [? ?]. apply Forall_app. split; [done|]. apply Forall_cons. split; [|done].
      cbn. by destruct l1.
    + by apply (with_timer_mapped s g (l1 ++ c :: l2)).
    + destruct (si_pool _ _ Hinv) as (rest & Ho & Hr). exists rest. rewrite Hgs, fmap_app in Ho. rewrite fmap_app. done.
    + apply (si_live _ _ Hinv).
  - rewrite Hgs, !pairs_app. cbn. rewrite Hl, !fmap_app. cbn. rewrite Hgt. solve_Permutation.
Qed.

(** The state with the fresh timer node [p] in it. *)
Definition fresh_timer (p : Z) (cache : memcache) (l : gset Z) (t : Z) : coro_schedule :=
  let s := set_pool s cache l in
  let s := set_tm_nodes s (<[p := RbNode 0 NULL NULL]> (tm_nodes s)) in
  set_timers s (<[p := Timer NULL t]> (timers s)).

Lemma fresh_timer_groups p cache l t gs :
  Forall (group_ok s) gs → p ∉ g_tm <$> gs → Forall (group_ok (fresh_timer p cache l t)) gs.
Proof using Type.
  intros Hg Hp. apply Forall_forall. intros g Hin. destruct (proj1 (Forall_forall _ _) Hg g Hin) as (r & Hr & Hh & Hs & Hw).
  exists r. cbn [fresh_timer set_timers timers set_tm_nodes set_pool]. rewrite lookup_insert_ne; [by split_and!|].
  intros ->. apply Hp. by apply list_elem_of_fmap_2.
Qed.

(** A new timer node for the time, at its place in the tree. *)
Lemma park_new p cache l rest qs gs1 gs2 :
  v_groups v = gs1 ++ gs2 → g_tm <$> gs1 = before qs → g_tm <$> gs2 = after qs → leaf_gap (inactive_tree s) qs →
  Forall (λ g, g_time g < coro_timeout x) gs1 → Forall (λ g, coro_timeout x < g_time g) gs2 →
  owned l cache ({[p]} ∪ list_to_set (g_tm <$> v_groups v)) rest → p ∉ g_tm <$> v_groups v →
  (∀ e, e ∈ IDLE :: ACTIVE :: everyone v → e ∈ rest) → (∀ q, q ∈ l → aligned q) →
  ∃ s', (s1 ← add_to_timer_node (fresh_timer p cache l (coro_timeout x)) p c;
         on_inactive s1 (λ t, t ← rb_link_node t p (above qs) (link_of qs); rb_insert_color t p)) = Ok s' ∧
    sched_inv s' (View (v_idle v) (v_active v) (gs1 ++ Group p (coro_timeout x) [c] :: gs2) run) ∧
    coros s' = coros s ∧ current s' = current s.
Proof.
  intros Hgs Hb Ha Hgap Hlt Hgt Hown Hp Hrest Hlal. pose proof park_elem as Hc.
  destruct (coro_id_range _ _ _ _ Hinv Hc Hx) as [Hid _]. pose proof (si_waiting _ _ Hinv) as (Hh & Hs & Hts & Hg & Hne).
  set (t := coro_timeout x) in *. set (s2 := fresh_timer p cache l t).
  assert (Hg0 : group_ok s2 (Group p t [])).
  { exists NULL. cbn [g_tm g_time g_coros s2 fresh_timer set_timers timers]. rewrite lookup_insert_eq.
    split_and!; [done | apply holds_empty | apply SSorted_nil | done]. }
  destruct (add_to_timer_node_ok s2 (Group p t []) c x Hg0 Hx eq_refl Hid) as (l1 & l2 & r & Hl & E & Hg' & Hu); cbn [g_coros g_tm g_time] in *.
  { set_solver. } { set_solver. } { by destruct (si_coros _ _ Hinv c Hc). }
  { apply aligned_co_node, (everyone_aligned _ _ _ Hinv). set_solver. }
  symmetry in Hl. apply app_nil in Hl as [-> ->]. cbn [app] in Hg', Hu. rewrite E. cres_simpl. unfold on_inactive.
  assert (Hpl : p ∈ l) by (destruct Hown as [_ _ -> _ _ _]; clear; set_solver).
  destruct (gap_insert (inactive_tree (with_timer s2 p t r)) qs p) as (t' & Ei & Hh' & _).
  { apply (leaf_gap_ext (inactive_tree s)); [done | | done]. intros z Hz. cbn. rewrite lookup_insert_ne; [done|].
    intros ->. apply Hp. rewrite Hgs, fmap_app, Hb, Ha. done. }
  { by apply Hlal. }
  { rewrite addrs_fill. cbn [addrs app]. rewrite <-Hb, <-Ha, <-fmap_app, <-Hgs. done. }
  { cbn. by rewrite lookup_insert_eq. }
  rewrite Ei. cres_simpl. eexists. split; [done|]. split; [|done]. apply (inv_retree s v); try done.
  - rewrite Hgs, Hrun, !waiters_app. cbn. solve_Permutation.
  - rewrite <-Hb, <-Ha in Hh'. split_and!.
    + rewrite fmap_app. by destruct t'.
    + rewrite Hgs in Hs. by apply sorted_insert_mid.
    + unfold times_ok in *. rewrite Hgs in Hts. apply Forall_app in Hts as [? ?]. apply Forall_app. split; [done|]. by apply Forall_cons.
    + assert (Hall : Forall (group_ok (with_timer s2 p t r)) (v_groups v)).
      { eapply (groups_frame s2); [by apply fresh_timer_groups | done | exact Hu |].
        intros e He ->%list_elem_of_singleton. by apply (park_fresh (v_groups v)). }
      rewrite Hgs in Hall. apply Forall_app in Hall as [? ?]. apply Forall_app. split; [done|]. by apply Forall_cons.
    + rewrite Hgs in Hne. apply Forall_app in Hne as [? ?]. apply Forall_app. split; [done|]. by apply Forall_cons.
  - apply (with_timer_mapped s2 (Group p t []) [c]); done.
  - exists rest. split; [|done]. rewrite fmap_app. cbn [fmap list_fmap g_tm]. cbn.
    replace (list_to_set _ : gset Z) with ({[p]} ∪ list_to_set (g_tm <$> v_groups v) : gset Z); [done|].
    rewrite Hgs, fmap_app, !list_to_set_app_L, list_to_set_cons. set_solver.
Qed.

(** [move_to_inactive_tree]: the coroutine waits, or, without memory for a timer node, it is
    left where it was, on no list. *)
Lemma move_to_inactive_tree_ok malloc :
  fresh_malloc malloc → aligned_malloc malloc →
  ∃ s', move_to_inactive_tree malloc s c = Ok s' ∧ coros s' = coros s ∧ current s' = current s ∧
    ((∃ gs', sched_inv s' (View (v_idle v) (v_active v) gs' run) ∧ pairs gs' ≡ₚ (c, coro_timeout x) :: pairs (v_groups v)) ∨
     (s' = s ∧ curr (tm_cache s) = 0 ∧ malloc (live s) = NULL ∧ ∀ g, g ∈ v_groups v → g_time g ≠ coro_timeout x)).
Proof.
  intros Hfresh Hal. pose proof (si_waiting _ _ Hinv) as (Hh & Hs & Hts & Hg & Hne). set (t := coro_timeout x) in *.
  unfold move_to_inactive_tree. rewrite (get_coro_ok _ _ _ Hx). cres_simpl. fold t.
  set (d := λ z, sign_dir (i32 (t - time_of s z))).
  assert (Hd : ∀ g, g ∈ v_groups v → d (g_tm g) = sign_dir (t - g_time g)).
  { intros g Hin. unfold d. rewrite time_of_group by (by eapply (proj1 (Forall_forall _ _) Hg)).
    rewrite i32_id; [done|]. exact (proj1 (Forall_forall _ _) Hwin g Hin). }
  destruct (holds_place (inactive_tree s) (g_tm <$> v_groups v)
    (λ each, tm ← get_timer s each; d ← ll_arith (t - timeout tm); mret (sign_dir (i32 d))) d (size (tm_nodes s)))
    as [(z & Hz & Hdz & E)|(qs & Hgap & HA & H1 & H2 & E)]; try done.
  - by apply (tm_cmp_ok s (v_groups v)).
  - assert (Hmono : monotone (λ z, sign_dir (t - time_of s z)) (g_tm <$> v_groups v)).
    { apply (sorted_monotone _ (time_of s)); [by apply by_time_keys | by_keys..]. }
    destruct Hmono as (k1 & k2 & k3 & Ek & K1 & K2 & K3). exists k1, k2, k3.
    assert (Hk : ∀ z, z ∈ k1 ++ k2 ++ k3 → d z = sign_dir (t - time_of s z)).
    { intros z. rewrite <-Ek. intros (g & -> & Hin)%list_elem_of_fmap. rewrite Hd by done.
      by rewrite time_of_group by (by eapply (proj1 (Forall_forall _ _) Hg)). }
    split_and!; [done|..]; apply Forall_forall; intros z Hz; rewrite Hk by set_solver;
      [by eapply (proj1 (Forall_forall _ _) K1) | by eapply (proj1 (Forall_forall _ _) K2) | by eapply (proj1 (Forall_forall _ _) K3)].
  - apply list_elem_of_fmap in Hz as (g & -> & Hin). rewrite Hd in Hdz by done. rewrite E. cres_simpl.
    assert (Hgt : g_time g = t) by (unfold sign_dir in Hdz; repeat case_match; try done; lia).
    apply list_elem_of_split in Hin as (gs1 & gs2 & Hgs).
    destruct (park_join gs1 g gs2 Hgs Hgt) as (s' & gs' & E' & Hi' & Hp' & Hc' & Hcur'). exists s'.
    split_and!; [done | done | done |]. left. by exists gs'.
  - rewrite E. cres_simpl. destruct (si_pool _ _ Hinv) as (rest & Hown & Hrest).
    destruct (alloc_ok malloc _ _ _ _ Hfresh Hown) as (p & cache & l & Ea & Hcase). rewrite Ea. cres_simpl.
    apply fmap_app_inv in HA as (gs1 & gs2 & Eb & Eaf & Hgs).
    assert (Hcmp : ∀ g, g ∈ v_groups v → (d (g_tm g) = GoRight → g_time g < t) ∧ (d (g_tm g) = GoLeft → t < g_time g)).
    { intros g Hin. rewrite Hd by done. unfold sign_dir. repeat case_match; (split; [intros ?|intros ?]); try done; lia. }
    assert (Hlt : Forall (λ g, g_time g < t) gs1).
    { rewrite Eb in H1. apply (Forall_fmap _ _ _) in H1. apply Forall_forall. intros g Hin.
      apply Hcmp; [rewrite Hgs; set_solver | exact (proj1 (Forall_forall _ _) H1 g Hin)]. }
    assert (Hgt : Forall (λ g, t < g_time g) gs2).
    { rewrite Eaf in H2. apply (Forall_fmap _ _ _) in H2. apply Forall_forall. intros g Hin.
      apply Hcmp; [rewrite Hgs; set_solver | exact (proj1 (Forall_forall _ _) H2 g Hin)]. }
    destruct Hcase as [(-> & Hcz & -> & ->)|(Hpn & Hpu & _ & Hown')].
    + exists s. cbn. split; [by destruct s|]. split_and!; [done | done |]. right. split_and!; [done | done | |].
      * unfold memcache_alloc in Ea. rewrite Hcz in Ea. cbn [Z.eqb negb] in Ea. unfold malloc_block in Ea.
        destruct (malloc (live s) =? NULL) eqn:En; [by apply Z.eqb_eq|]. injection Ea as Ea _. rewrite Ea in En. done.
      * intros g. rewrite Hgs. intros [Hin|Hin]%elem_of_app;
          [pose proof (proj1 (Forall_forall _ _) Hlt g Hin) | pose proof (proj1 (Forall_forall _ _) Hgt g Hin)]; cbn in *; lia.
    + rewrite (proj2 (Z.eqb_neq p NULL) Hpn).
      destruct (park_new p cache l rest qs gs1 gs2) as (s' & E' & Hi' & Hc' & Hcur'); try done.
      * by apply not_elem_of_list_to_set in Hpu.
      * by eapply alloc_live; [| |apply (si_live _ _ Hinv)].
      * exists s'. split_and!; [exact E' | done | done |]. left. eexists. split; [done|].
        rewrite Hgs, !pairs_app. cbn. fold t. solve_Permutation.
Qed.

End Park.

(** ** Leaving the trees *)

(** A timer node that has left the tree returns to the pool. *)
Lemma free_timer_ok s tm gs rest :
  waiting s gs → tm ∉ g_tm <$> gs → owned (live s) (tm_cache s) ({[tm]} ∪ list_to_set (g_tm <$> gs)) rest →
  ∃ s', free_timer s tm = Ok s' ∧ waiting s' gs ∧ owned (live s') (tm_cache s') (list_to_set (g_tm <$> gs)) rest ∧
    live s' ⊆ live s ∧ lists s' = lists s ∧ coros s' = coros s ∧ co_nodes s' = co_nodes s ∧ current s' = current s ∧
    curr_coro_size s' = curr_coro_size s ∧ next_coro_id s' = next_coro_id s ∧ max_coro_size s' = max_coro_size s.
Proof.
  intros (Hh & Hs & Ht & Hg & Hne) Hnin Hown.
  destruct (add_element_ok (live s) (tm_cache s) _ rest tm Hown) as (cache & l & Ec & Hown' & _); [clear; set_solver|].
  unfold free_timer, memcache_free. rewrite Ec. cres_simpl. eexists. split; [done|]. split_and!; try done.
  - split_and!; try done; [|].
    { apply (holds_ext (inactive_tree s)); [done | | done]. intros z Hz. cbn. rewrite lookup_delete_ne; [done|]. by intros <-. }
    apply Forall_forall. intros g' Hin. destruct (proj1 (Forall_forall _ _) Hg g' Hin) as (r & Hr & Hrest).
    exists r. cbn. rewrite lookup_delete_ne; [done|]. intros ->. apply Hnin. by apply list_elem_of_fmap_2.
  - cbn. replace (list_to_set (g_tm <$> gs) : gset Z) with (({[tm]} ∪ list_to_set (g_tm <$> gs)) ∖ {[tm]} : gset Z); [done|].
    apply set_eq. intros z. rewrite elem_of_difference, elem_of_union, !elem_of_list_to_set, elem_of_singleton. clear -Hnin. set_solver.
  - cbn. unfold add_element in Ec. destruct (curr (tm_cache s) <? cache_size (tm_cache s)).
    + destruct (array_set _ _ _); cres_simpl; try done. by injection Ec as _ <-.
    + unfold free in Ec. destruct (bool_decide _); cres_simpl; try done. injection Ec as _ <-. clear; set_solver.
Qed.

(** [rb_erase] of a timer node. *)
Lemma erase_timer_ok s gs1 g gs2 :
  holds (inactive_tree s) (g_tm <$> gs1 ++ g :: gs2) →
  ∃ t, rb_erase (inactive_tree s) (g_tm g) = Ok t ∧ holds (inactive_tree (set_inactive s t)) (g_tm <$> gs1 ++ gs2) ∧
    g_tm g ∉ g_tm <$> gs1 ++ gs2.
Proof.
  intros Hh. pose proof (holds_nodup _ _ Hh) as Hn. rewrite !fmap_app in Hh, Hn |- *. cbn [fmap list_fmap] in Hh, Hn.
  destruct (holds_erase _ _ _ _ Hh) as (t & Et & Ht & Hu). exists t. split_and!; [done | by destruct t |].
  clear -Hn. nodup_split. set_solver.
Qed.

(** Blocks in use by the scheduler can be counted among the others. *)
Lemma owned_move l c p used rest : p ∉ used → owned l c ({[p]} ∪ used) rest → owned l c used ({[p]} ∪ rest).
Proof.
  intros Hp [Hok Hnd Hlive Hus Hre Hnull]. split; [done | done | | | | done].
  - rewrite Hlive. set_solver.
  - intros x Hx. destruct (Hus x Hx). set_solver.
  - set_solver.
Qed.

(** A block allocated by others. *)
Lemma owned_malloc l c p used rest : owned l c used rest → p ∉ l → p ≠ NULL → owned ({[p]} ∪ l) c used ({[p]} ∪ rest).
Proof.
  intros [Hok Hnd Hlive Hus Hre Hnull] Hp Hpn. assert (Hps : ∀ x, x ∈ self c :: pooled c → x ≠ p).
  { intros x Hx ->. apply Hp. rewrite Hlive. apply elem_of_union; left. apply elem_of_union; left. by apply elem_of_list_to_set. }
  assert (Hpu : p ∉ used) by (intros Hu; apply Hp; rewrite Hlive; clear -Hu; set_solver).
  split; [done | done | rewrite Hlive; clear; set_solver | | clear -Hre Hpu; set_solver | clear -Hnull Hpn; set_solver].
  intros x Hx. destruct (Hus x Hx) as [? Hr]. split; [done|]. specialize (Hps x Hx). clear -Hr Hps. set_solver.
Qed.

Lemma by_time_inj gs g g' : by_time gs → g ∈ gs → g' ∈ gs → g_time g = g_time g' → g = g'.
Proof.
  intros Hs Hg Hg' He. apply list_elem_of_split in Hg as (l1 & l2 & ->). destruct (sorted_elem _ _ _ _ Hs) as [H1 H2].
  apply elem_of_app in Hg' as [Hb|[->|Hb]%elem_of_cons]; [|done|].
  - pose proof (proj1 (Forall_forall _ _) H1 g' Hb). cbn in *. lia.
  - pose proof (proj1 (Forall_forall _ _) H2 g' Hb). cbn in *. lia.
Qed.

Section Unpark.
  Context (s : coro_schedule) (v : view) (Hinv : sched_inv s v) (c : Z) (x : coroutine) (Hx : coros s !! c = Some x).

#[local] Set Default Proof Using "Type*".

(** A waiting coroutine leaves its group; the last one takes the timer node with it. *)
Lemma remove_waiting_ok :
  c ∈ waiters (v_groups v) →
  ∃ s' gs', remove_from_inactive_tree s c = Ok s' ∧ sched_inv s' (View (v_idle v) (v_active v) gs' (c :: v_run v)) ∧
    pairs (v_groups v) ≡ₚ (c, coro_timeout x) :: pairs gs' ∧ coros s' = coros s ∧ current s' = current s.
Proof.
  intros (g & Hcg & Hgin)%list_elem_of_bind. pose proof (si_waiting _ _ Hinv) as Hw. pose proof Hw as (Hh & Hs & Hts & Hg & Hne).
  pose proof (proj1 (Forall_forall _ _) Hg g Hgin) as Hgo. pose proof (proj1 (Forall_forall _ _) Hts g Hgin) as Htg. cbn in Htg.
  assert (Hxt : coro_timeout x = g_time g).
  { destruct Hgo as (_ & _ & _ & _ & Hwf). destruct (proj1 (Forall_forall _ _) Hwf c Hcg) as (x' & Hx' & ? & _). congruence. }
  assert (Hev : c ∈ IDLE :: ACTIVE :: everyone v).
  { unfold everyone. pose proof (waiter_elem _ _ _ Hgin Hcg) as Hc. clear -Hc. set_solver. }
  unfold remove_from_inactive_tree. rewrite (get_coro_ok _ _ _ Hx). cres_simpl. rewrite Hxt.
  destruct (find_timer_node_ok s (v_groups v) (g_time g) Hw Htg) as [(g' & Hg' & Hgt & ->)|[Hno _]]; [|by destruct (Hno g Hgin)].
  assert (g' = g) as -> by (by eapply by_time_inj). cres_simpl.
  rewrite (aligned_ne (g_tm g)) by (eapply holds_aligned; [exact Hh | by apply list_elem_of_fmap_2]).
  apply list_elem_of_split in Hcg as (l1 & l2 & Hl). apply list_elem_of_split in Hgin as (gs1 & gs2 & Hgs).
  destruct (remove_from_timer_node_ok s g c x l1 l2 Hgo Hl Hx) as (r & -> & Hg1 & Hu).
  { by apply aligned_nonnull, (everyone_aligned _ _ _ Hinv). }
  cres_simpl. set (s1 := with_timer s (g_tm g) (g_time g) r) in *. pose proof Hg1 as (r1 & Hr1 & Hh1 & _). cbn [g_tm g_time g_coros] in Hr1, Hh1.
  rewrite (get_timer_ok _ _ _ Hr1). cres_simpl. cbn [root]. unfold RB_EMPTY_ROOT.
  pose proof (holds_root _ _ Hh1) as Hempty. cbn [rb_root] in Hempty. rewrite Hempty.
  rewrite Hgs in Hw. pose proof (everyone_nodup _ _ Hinv) as Hn. unfold everyone in Hn. rewrite Hgs, waiters_app in Hn.
  change (waiters (g :: gs2)) with (g_coros g ++ waiters gs2) in Hn. rewrite Hl in Hn.
  destruct (waiting_replace s gs1 g gs2 (l1 ++ l2) r Hw Hg1 Hu) as (H1 & H2 & H3 & H4 & H5).
  { rewrite waiters_app. clear -Hn. nodup_split. set_solver. }
  fold s1 in H1, H4. destruct (si_pool _ _ Hinv) as (rest & Hown & Hrest). rewrite Hgs in Hown.
  assert (Hmap := with_timer_mapped s g (l1 ++ l2) r Hg1 Hu). fold s1 in Hmap.
  case_bool_decide as Hnil.
  - assert (l1 = [] ∧ l2 = []) as [-> ->].
    { apply (f_equal length) in Hnil. rewrite length_fmap, length_app in Hnil. destruct l1, l2; simpl in Hnil; (done || lia). }
    assert (H4' : Forall (group_ok s1) (gs1 ++ gs2)) by (apply Forall_app in H4 as [? [_ ?]%Forall_cons]; by apply Forall_app).
    assert (Htm : (g_tm <$> gs1 ++ Group (g_tm g) (g_time g) [] :: gs2) = (g_tm <$> gs1 ++ g :: gs2)) by (by rewrite !fmap_app).
    cbn [app] in H1. rewrite Htm in H1. destruct (erase_timer_ok s1 gs1 g gs2 H1) as (t & Et & H6 & Hnin).
    unfold on_inactive. rewrite Et. cres_simpl.
    assert (Hw2 : waiting (set_inactive s1 t) (gs1 ++ gs2)).
    { split_and!; [done | by eapply sorted_remove | |done|done].
      unfold times_ok in *. apply Forall_app in H3 as [? [_ ?]%Forall_cons]. by apply Forall_app. }
    destruct (free_timer_ok (set_inactive s1 t) (g_tm g) (gs1 ++ gs2) rest Hw2 Hnin)
      as (s' & E' & Hw' & Hown' & Hlv & F1 & F2 & F3 & F4 & F5 & F6 & F7).
    { rewrite fmap_app in Hown |- *. cbn [fmap list_fmap] in Hown. rewrite list_to_set_app_L, list_to_set_cons in Hown.
      rewrite list_to_set_app_L. cbn [set_inactive live tm_cache]. by rewrite (assoc_L (∪)), (comm_L (∪) {[g_tm g]}), <-(assoc_L (∪)). }
    exists s', (gs1 ++ gs2). split; [done|]. split_and!; [| |done|done].
    + apply (inv_retree s v); try done.
      * rewrite Hgs, !waiters_app. cbn. rewrite Hl. solve_Permutation.
      * intros z Hz. rewrite F3. by apply Hmap.
      * by exists rest.
      * intros p Hp. by apply (si_live _ _ Hinv), Hlv.
    + rewrite Hgs, !pairs_app. cbn. rewrite Hl. cbn. solve_Permutation.
  - eexists _, (gs1 ++ Group (g_tm g) (g_time g) (l1 ++ l2) :: gs2). split; [done|]. split_and!; [| |done|done].
    + apply (inv_retree s v); try done.
      * rewrite Hgs, !waiters_app. cbn. rewrite Hl. solve_Permutation.
      * split_and!; try done. apply Forall_app in H5 as [? ?]. apply Forall_app. split; [done|]. apply Forall_cons. split; [|done].
        cbn. intros He. by rewrite He in Hnil.
      * exists rest. rewrite fmap_app in Hown |- *. done.
      * apply (si_live _ _ Hinv).
    + rewrite Hgs, !pairs_app. cbn. rewrite Hl, !fmap_app. cbn. solve_Permutation.
Qed.

(** A coroutine that does not wait is not found. *)
Lemma remove_absent_ok : c ∈ v_run v → remove_from_inactive_tree s c = Ok s.
Proof.
  intros Hc. pose proof (si_waiting _ _ Hinv) as Hw. pose proof Hw as (Hh & Hs & Hts & Hg & Hne).
  assert (Hev : c ∈ everyone v) by (unfold everyone; clear -Hc; set_solver).
  destruct (si_coros _ _ Hinv c Hev) as (_ & x' & Hx' & _ & Ht). assert (x' = x) as -> by congruence.
  destruct (coro_id_range _ _ _ _ Hinv Hev Hx) as [Hid Hidc].
  unfold remove_from_inactive_tree. rewrite (get_coro_ok _ _ _ Hx). cres_simpl.
  destruct (find_timer_node_ok s (v_groups v) _ Hw Ht) as [(g & Hgin & Hgt & ->)|[_ ->]]; [|done]. cres_simpl.
  rewrite (aligned_ne (g_tm g)) by (eapply holds_aligned; [exact Hh | by apply list_elem_of_fmap_2]).
  pose proof (proj1 (Forall_forall _ _) Hg g Hgin) as Hgo.
  rewrite (remove_from_timer_node_absent s g c x Hgo Hx Hid).
  - cres_simpl. destruct Hgo as (r & Hr & Hhr & _). rewrite (get_timer_ok _ _ _ Hr). cres_simpl. cbn [root]. unfold RB_EMPTY_ROOT.
    pose proof (holds_root _ _ Hhr) as He. cbn [rb_root] in He. rewrite He, bool_decide_eq_false_2; [done|].
    pose proof (proj1 (Forall_forall _ _) Hne g Hgin) as Hg0. cbn in Hg0. by destruct (g_coros g).
  - intros e He Hide. rewrite <-Hidc in Hide. pose proof (waiter_elem _ _ _ Hgin He) as Hew.
    assert (Heev : e ∈ everyone v) by (unfold everyone; clear -Hew; set_solver).
    apply (si_ids _ _ Hinv e c Heev Hev) in Hide as ->. pose proof (everyone_nodup _ _ Hinv) as Hn. unfold everyone in Hn.
    clear -Hn Hew Hc. nodup_split. set_solver.
Qed.

End Unpark.
