(* ===== verification/SchedSteps.v ===== *)
(** The scheduler's entry points. *)

From stdpp Require Import base gmap list numbers strings sets sorting.
From Stdlib Require Import ZArith Lia.
From S2P Require Import Prelude ListHead Memcache RbTree RbRep RbInsert RbErase RbEraseColor RbProps.
From S2P Require Import Sched SchedSearch SchedInv SchedLists SchedOps.

(** ** Changes that keep the invariant *)

Lemma inv_current s v z : sched_inv s v → sched_inv (set_current s z) v.
Proof. intros [? ? ? ? ? ? ? ?]. by split. Qed.

(** The lists change and coroutines move between them and the rest. *)
Lemma inv_relist s v h idle active run :
  sched_inv s v → lists_ok h idle active (waiters (v_groups v) ++ run) →
  idle ++ active ++ run ≡ₚ v_idle v ++ v_active v ++ v_run v →
  sched_inv (set_lists s h) (View idle active (v_groups v) run).
Proof.
  intros [Hl Hw Hc Hids Hcnt Hpool Hlive Hall] Hl' Hp.
  assert (Hev : everyone (View idle active (v_groups v) run) ≡ₚ everyone v).
  { unfold everyone. cbn. transitivity (waiters (v_groups v) ++ (idle ++ active ++ run)); [solve_Permutation|]. rewrite Hp. solve_Permutation. }
  split; cbn [v_idle v_active v_groups v_run]; try done.
  - intros c. rewrite Hev. apply Hc.
  - intros a b. rewrite !Hev. apply Hids.
  - by rewrite Hev.
  - destruct Hpool as (rest & Ho & Hr). exists rest. split; [done|]. intros c. rewrite Hev. apply Hr.
  - intros c. rewrite Hev. apply Hall.
Qed.

Lemma group_ok_put s c x x' g :
  coros s !! c = Some x → coro_id x' = coro_id x → (c ∈ g_coros g → coro_timeout x' = coro_timeout x) →
  group_ok s g → group_ok (put_coro s c x') g.
Proof.
  intros Hx Hid Ht (r & Hr & Hh & Hs & Hw). exists r.
  assert (Hids : ∀ e, id_of (put_coro s c x') e = id_of s e).
  { intros e. unfold id_of, put_coro. cbn. destruct (decide (e = c)) as [->|]; [|by rewrite lookup_insert_ne].
    rewrite lookup_insert_eq, Hx. cbn. done. }
  split_and!; [done | done | |].
  - clear -Hs Hids. unfold by_id in *. induction Hs as [|a l Hs IH Ha]; constructor; [done|].
    eapply Forall_impl; [exact Ha|]. intros b. cbn. by rewrite !Hids.
  - apply Forall_forall. intros e He. destruct (proj1 (Forall_forall _ _) Hw e He) as (y & Hy & Hyt & Hyi). unfold waits_for, put_coro. cbn.
    destruct (decide (e = c)) as [->|]; [|rewrite lookup_insert_ne by done; eauto].
    rewrite lookup_insert_eq. assert (y = x) as -> by congruence. exists x'. rewrite Hid, Ht by done. done.
Qed.

(** A field of a coroutine changes: not its identifier, nor its time while it waits. *)
Lemma inv_put_coro s v c x x' :
  sched_inv s v → coros s !! c = Some x → coro_id x' = coro_id x → 0 ≤ coro_timeout x' < 2 ^ 63 →
  (c ∈ waiters (v_groups v) → coro_timeout x' = coro_timeout x) → sched_inv (put_coro s c x') v.
Proof.
  intros [Hl Hw Hc Hids Hcnt Hpool Hlive Hall] Hx Hid Ht Hwt. split; try done.
  - destruct Hw as (Hh & Hs & Hts & Hg & Hne). split_and!; try done. apply Forall_forall. intros g Hin.
    apply (group_ok_put s c x); try done; [|by eapply (proj1 (Forall_forall _ _) Hg)].
    intros Hcg. apply Hwt. by eapply waiter_elem.
  - intros e He. destruct (Hc e He) as (Hn & y & Hy & Hyi & Hyt). split; [done|]. unfold put_coro. cbn.
    destruct (decide (e = c)) as [->|]; [|rewrite lookup_insert_ne by done; eauto].
    rewrite lookup_insert_eq. assert (y = x) as -> by congruence. exists x'. by rewrite Hid.
  - assert (Hi : ∀ e, id_of (put_coro s c x') e = id_of s e).
    { intros e. unfold id_of, put_coro. cbn. destruct (decide (e = c)) as [->|]; [|by rewrite lookup_insert_ne].
      rewrite lookup_insert_eq, Hx. done. }
    intros a b. rewrite !Hi. apply Hids.
  - intros e. unfold put_coro. cbn. destruct (decide (e = c)) as [->|]; [|rewrite lookup_insert_ne by done; apply Hall].
    intros _. apply Hall. by rewrite Hx.
Qed.

Lemma inv_perm_run s idle active gs run run' :
  run ≡ₚ run' → sched_inv s (View idle active gs run) → sched_inv s (View idle active gs run').
Proof.
  intros Hp Hi. pose proof Hi as [? ? ? ? ? ? ? ?]. apply (inv_retree s (View idle active gs run)); try done.
  cbn. by rewrite Hp.
Qed.

(** Moving a coroutine that is on no list to one. *)
Lemma inv_push s idle active gs c run :
  sched_inv s (View idle active gs (c :: run)) →
  (∃ h, list_add_tail (lists s) c ACTIVE = Ok h ∧ sched_inv (set_lists s h) (View idle (active ++ [c]) gs run)) ∧
  (∃ h, list_add (lists s) c ACTIVE = Ok h ∧ sched_inv (set_lists s h) (View idle (c :: active) gs run)) ∧
  (∃ h, list_add_tail (lists s) c IDLE = Ok h ∧ sched_inv (set_lists s h) (View (idle ++ [c]) active gs run)).
Proof.
  intros Hi. pose proof (si_lists _ _ Hi) as Hl. cbn [v_idle v_active v_groups v_run] in Hl.
  apply (lists_ok_perm _ _ _ _ (c :: waiters gs ++ run)) in Hl; [|solve_Permutation]. split_and!.
  - destruct (lists_push_active _ _ _ _ _ Hl) as (h & E & Hl'). exists h. split; [done|].
    apply (inv_relist _ _ _ _ _ _ Hi); [done|]. cbn. solve_Permutation.
  - destruct (lists_push_active_head _ _ _ _ _ Hl) as (h & E & Hl'). exists h. split; [done|].
    apply (inv_relist _ _ _ _ _ _ Hi); [done|]. cbn. solve_Permutation.
  - destruct (lists_push_idle _ _ _ _ _ Hl) as (h & E & Hl'). exists h. split; [done|].
    apply (inv_relist _ _ _ _ _ _ Hi); [done|]. cbn. solve_Permutation.
Qed.

(** ** Waking up *)

Lemma active_flag_ok s v c x b :
  sched_inv s v → c ∈ everyone v → coros s !! c = Some x → sched_inv (put_coro s c (set_active_by_timeout x b)) v.
Proof.
  intros Hi Hc Hx. apply (inv_put_coro s v c x); try done. destruct (si_coros _ _ Hi c Hc) as (_ & x' & Hx' & _ & Ht).
  by assert (x' = x) as -> by congruence.
Qed.

Lemma wakeup_waiting_ok s idle active gs run c x :
  sched_inv s (View idle active gs run) → c ∈ waiters gs → coros s !! c = Some x →
  ∃ gs', pairs gs ≡ₚ (c, coro_timeout x) :: pairs gs' ∧
    (∃ s', wakeup_coro s c = Ok s' ∧ sched_inv s' (View idle (active ++ [c]) gs' run) ∧
       coros s' = <[c := set_active_by_timeout x false]> (coros s) ∧ current s' = current s) ∧
    (∃ s', wakeup_coro_priority s c = Ok s' ∧ sched_inv s' (View idle (c :: active) gs' run) ∧
       coros s' = <[c := set_active_by_timeout x false]> (coros s) ∧ current s' = current s).
Proof.
  intros Hi Hc Hx. assert (Hev : c ∈ everyone (View idle active gs run)) by (unfold everyone; cbn; clear -Hc; set_solver).
  pose proof (active_flag_ok _ _ _ _ false Hi Hev Hx) as Hi1. set (s1 := put_coro s c _) in *.
  assert (Hx1 : coros s1 !! c = Some (set_active_by_timeout x false)) by (cbn; by rewrite lookup_insert_eq).
  destruct (remove_waiting_ok s1 _ Hi1 c _ Hx1 Hc) as (s2 & gs' & E & Hi2 & Hp & Hc2 & Hcur). cbn [v_idle v_active v_groups v_run coro_timeout set_active_by_timeout] in *.
  exists gs'. split; [done|]. destruct (inv_push _ _ _ _ _ _ Hi2) as ((h1 & E1 & I1) & (h2 & E2 & I2) & _).
  unfold wakeup_coro, wakeup_coro_priority, move_to_active_list_tail, move_to_active_list_head. rewrite (get_coro_ok _ _ _ Hx). cres_simpl.
  fold s1. rewrite E. cres_simpl. unfold on_lists. rewrite E1, E2. cres_simpl. split; eexists; (split; [done|]; by split_and!).
Qed.

Lemma wakeup_absent_ok s idle active gs run c x :
  sched_inv s (View idle active gs (c :: run)) → coros s !! c = Some x →
  (∃ s', wakeup_coro s c = Ok s' ∧ sched_inv s' (View idle (active ++ [c]) gs run) ∧
     coros s' = <[c := set_active_by_timeout x false]> (coros s) ∧ current s' = current s) ∧
  (∃ s', wakeup_coro_priority s c = Ok s' ∧ sched_inv s' (View idle (c :: active) gs run) ∧
     coros s' = <[c := set_active_by_timeout x false]> (coros s) ∧ current s' = current s).
Proof.
  intros Hi Hx. assert (Hev : c ∈ everyone (View idle active gs (c :: run))) by (unfold everyone; cbn; clear; set_solver).
  pose proof (active_flag_ok _ _ _ _ false Hi Hev Hx) as Hi1. set (s1 := put_coro s c _) in *.
  assert (Hx1 : coros s1 !! c = Some (set_active_by_timeout x false)) by (cbn; by rewrite lookup_insert_eq).
  assert (Hcr : c ∈ v_run (View idle active gs (c :: run))) by (cbn; set_solver).
  pose proof (remove_absent_ok s1 _ Hi1 c _ Hx1 Hcr) as E.
  destruct (inv_push _ _ _ _ _ _ Hi1) as ((h1 & E1 & I1) & (h2 & E2 & I2) & _).
  unfold wakeup_coro, wakeup_coro_priority, move_to_active_list_tail, move_to_active_list_head. rewrite (get_coro_ok _ _ _ Hx). cres_simpl.
  fold s1. rewrite E. cres_simpl. unfold on_lists. rewrite E1, E2. cres_simpl. split; eexists; (split; [done|]; by split_and!).
Qed.

(** ** The running coroutine *)

Lemma schedule_timeout_ok malloc s idle active gs run c x now ms :
  fresh_malloc malloc → aligned_malloc malloc → sched_inv s (View idle active gs (c :: run)) → current s = c →
  coros s !! c = Some x → 0 ≤ now + ms < 2 ^ 63 → in_window (now + ms) gs →
  ∃ s', schedule_timeout malloc s now ms = Ok s' ∧ current s' = MAIN_CORO ∧ coros s' = <[c := set_timeout x (now + ms)]> (coros s) ∧
    ((∃ gs', sched_inv s' (View idle active gs' run) ∧ pairs gs' ≡ₚ (c, now + ms) :: pairs gs) ∨
     (sched_inv s' (View idle active gs (c :: run)) ∧ curr (tm_cache s) = 0 ∧ malloc (live s) = NULL ∧ ∀ g, g ∈ gs → g_time g ≠ now + ms)).
Proof.
  intros Hf Ha Hi Hcur Hx Ht Hwin. assert (Hev : c ∈ everyone (View idle active gs (c :: run))) by (unfold everyone; cbn; clear; set_solver).
  assert (Hnw : c ∉ waiters gs).
  { pose proof (everyone_nodup _ _ Hi) as Hn. unfold everyone in Hn. cbn in Hn. clear -Hn. nodup_split. set_solver. }
  assert (Hi1 : sched_inv (put_coro s c (set_timeout x (now + ms))) (View idle active gs (c :: run))) by (by apply (inv_put_coro s _ c x)).
  set (s1 := put_coro s c _) in *. assert (Hx1 : coros s1 !! c = Some (set_timeout x (now + ms))) by (cbn; by rewrite lookup_insert_eq).
  unfold schedule_timeout. rewrite Hcur, (get_coro_ok _ _ _ Hx). cres_simpl. rewrite ll_arith_ok by lia. cres_simpl. fold s1.
  destruct (move_to_inactive_tree_ok s1 _ c _ run Hi1 eq_refl Hx1 Ht Hwin malloc Hf Ha) as (s2 & E & Hc2 & Hcur2 & Hcase).
  rewrite E. cres_simpl. eexists. split; [done|]. split; [done|]. split; [done|].
  destruct Hcase as [(gs' & Hi2 & Hp)|(-> & Hc0 & Hm & Hne)]; [left|right].
  - exists gs'. split; [by apply inv_current | done].
  - split; [by apply inv_current | by split_and!].
Qed.

Lemma coro_return_ok s idle active gs run c :
  sched_inv s (View idle active gs (c :: run)) →
  ∃ s', coro_routine_return s c = Ok s' ∧ sched_inv s' (View (idle ++ [c]) active gs run) ∧ current s' = MAIN_CORO ∧ coros s' = coros s.
Proof.
  intros Hi. destruct (inv_push _ _ _ _ _ _ Hi) as (_ & _ & (h & E & Hi')). unfold coro_routine_return, move_to_idle_list_direct, on_lists.
  rewrite E. cres_simpl. eexists. split; [done|]. split_and!; [by apply inv_current | done | done].
Qed.

Lemma get_active_ok s idle active gs run :
  sched_inv s (View idle active gs run) →
  match active with
  | [] => get_active_coroutine s = Ok (NULL, s)
  | c :: active =>
    ∃ s', get_active_coroutine s = Ok (c, s') ∧ sched_inv s' (View idle active gs (c :: run)) ∧ coros s' = coros s ∧ current s' = current s
  end.
Proof.
  intros Hi. pose proof (si_lists _ _ Hi) as Hl. cbn [v_idle v_active v_groups v_run] in Hl. unfold get_active_coroutine.
  rewrite (list_empty_ok _ _ _ (lo_active _ _ _ _ Hl)). cres_simpl. destruct active as [|c active].
  - by rewrite bool_decide_eq_true_2 by done.
  - rewrite bool_decide_eq_false_2 by done. destruct (lists_pop_active _ _ _ _ _ Hl) as (En & h & E & Hl').
    rewrite En. cres_simpl. unfold on_lists. rewrite E. cres_simpl. eexists. split; [done|]. split_and!; [|done|done].
    apply (inv_relist _ _ _ _ _ _ Hi); [|cbn; solve_Permutation]. cbn. eapply lists_ok_perm; [|exact Hl']. solve_Permutation.
Qed.

(** ** Timers that expire *)

Lemma container_elem t A : holds t (co_node <$> A) → A ≠ [] → ∃ l1 c l2, A = l1 ++ c :: l2 ∧ rb_root t = co_node c.
Proof.
  intros Hh HA. assert (Hr : rb_root t ∈ co_node <$> A) by (apply holds_root_elem; [done | by destruct A]).
  apply list_elem_of_fmap in Hr as (c & Hc & Hin). apply list_elem_of_split in Hin as (l1 & l2 & ->). by exists l1, c, l2.
Qed.

(** The flags of the coroutines in [xs] are set. *)
Definition flagged (xs : list Z) (m m' : gmap Z coroutine) : Prop :=
  (∀ c, c ∈ xs → m' !! c = (λ x, set_active_by_timeout x true) <$> m !! c) ∧ (∀ c, c ∉ xs → m' !! c = m !! c).

Lemma flagged_nil m : flagged [] m m.
Proof. split; [set_solver | done]. Qed.

Lemma flagged_cons c x xs m m' :
  m !! c = Some x → c ∉ xs → flagged xs (<[c := set_active_by_timeout x true]> m) m' → flagged (c :: xs) m m'.
Proof.
  intros Hx Hc [H1 H2]. split.
  - intros e [->|He]%elem_of_cons; [by rewrite H2, lookup_insert_eq, Hx by done|].
    rewrite H1 by done. rewrite lookup_insert_ne; [done|]. by intros ->.
  - intros e He. rewrite H2 by set_solver. rewrite lookup_insert_ne; [done|]. set_solver.
Qed.

Lemma flagged_app xs ys m m1 m2 :
  NoDup (xs ++ ys) → flagged xs m m1 → flagged ys m1 m2 → flagged (xs ++ ys) m m2.
Proof.
  intros (_ & Hd & _)%NoDup_app [H1 H2] [H3 H4]. split.
  - intros c [Hc|Hc]%elem_of_app; [rewrite H4 by (by apply Hd); by apply H1|]. rewrite H3 by done. rewrite H2; [done|].
    intros Hc'. by apply (Hd c).
  - intros c Hc. rewrite elem_of_app in Hc. rewrite H4, H2 by tauto. done.
Qed.

(** What the handling of one timer node leaves alone. *)
Definition same_trees (s s' : coro_schedule) : Prop :=
  inactive_tree s' = inactive_tree s ∧ live s' = live s ∧ tm_cache s' = tm_cache s ∧ current s' = current s.

Lemma same_trees_trans s1 s2 s3 : same_trees s1 s2 → same_trees s2 s3 → same_trees s1 s3.
Proof. unfold same_trees. intros (-> & -> & -> & ->). done. Qed.

(** One iteration: the root of the timer's tree goes to the end of the runnable list. *)
Lemma timeout_step s idle active gs run tm t l :
  sched_inv s (View idle active gs (l ++ run)) → group_ok s (Group tm t l) → tm ∉ g_tm <$> gs → l ≠ [] →
  ∃ l1 c l2 x s', l = l1 ++ c :: l2 ∧ coros s !! c = Some x ∧
    (∀ fuel, timeout_loop (S fuel) s tm = timeout_loop fuel s' tm) ∧
    sched_inv s' (View idle (active ++ [c]) gs ((l1 ++ l2) ++ run)) ∧ group_ok s' (Group tm t (l1 ++ l2)) ∧
    coros s' = <[c := set_active_by_timeout x true]> (coros s) ∧ same_trees s s'.
Proof.
  intros Hi Hg Htm Hne. pose proof Hg as (r0 & Hr0 & Hh & Hs & Hw). cbn [g_tm g_time g_coros] in *.
  destruct (container_elem _ _ Hh Hne) as (l1 & c & l2 & -> & Hroot). cbn [rb_root] in Hroot.
  destruct (proj1 (Forall_forall _ _) Hw c) as (x & Hx & Hxt & Hxi); [clear; set_solver|].
  assert (Hh0 := Hh). rewrite fmap_app in Hh. cbn [fmap list_fmap] in Hh. destruct (holds_erase _ _ _ _ Hh) as (r & Er & Hr & Hu).
  rewrite <-fmap_app in Hr, Hu. set (s1 := with_timer s tm t r).
  assert (Hg1 : group_ok s1 (Group tm t (l1 ++ l2))).
  { exists (rb_root r). cbn. rewrite lookup_insert_eq. split_and!; [done | by destruct r | by eapply sorted_remove |].
    apply Forall_app in Hw as [? [_ ?]%Forall_cons]. by apply Forall_app. }
  assert (Hi1 : sched_inv s1 (View idle active gs ((l1 ++ c :: l2) ++ run))).
  { pose proof Hi as [_ (Hth & Hts & Htt & Htg & Htn) _ _ _ Hpool Hlive _].
    apply (inv_retree s (View idle active gs ((l1 ++ c :: l2) ++ run))); try done.
    - split_and!; try done. eapply groups_frame; [done | done | exact Hu |]. intros e He. cbn [v_groups] in He.
      pose proof (everyone_nodup _ _ Hi) as Hn. unfold everyone in Hn. cbn in Hn. clear -Hn He. nodup_split. set_solver.
    - apply (with_timer_mapped s (Group tm t []) (l1 ++ l2)); done. }
  assert (Hev : c ∈ everyone (View idle active gs ((l1 ++ c :: l2) ++ run))) by (unfold everyone; cbn; clear; set_solver).
  pose proof (active_flag_ok s1 _ c x true Hi1 Hev Hx) as Hi2. apply (inv_perm_run _ _ _ _ _ (c :: (l1 ++ l2) ++ run)) in Hi2; [|solve_Permutation].
  destruct (inv_push _ _ _ _ _ _ Hi2) as ((h & Eh & Hi3) & _ & _).
  exists l1, c, l2, x, (set_lists (put_coro s1 c (set_active_by_timeout x true)) h).
  split; [done|]. split; [done|]. split_and!.
  - intros fuel. cbn [timeout_loop]. rewrite (get_timer_ok _ _ _ Hr0). cres_simpl. cbn [root].
    rewrite Hroot, (aligned_ne (co_node c)) by (eapply holds_aligned; [exact Hh0 | apply list_elem_of_fmap_2; clear; set_solver]).
    rewrite (on_timer_ok s tm (Timer r0 t) _ r) by done. cres_simpl. rewrite container_co_node. cbn [timeout]. fold s1.
    rewrite (get_coro_ok s1 c x) by done. cres_simpl. unfold move_to_active_list_tail_direct, on_lists. rewrite Eh. by cres_simpl.
  - done.
  - apply (group_ok_put s1 c x); done.
  - done.
  - done.
Qed.

(** One timer node, already out of the inactive tree: its coroutines become runnable. *)
Lemma timeout_loop_ok fuel s idle active gs run tm t l :
  sched_inv s (View idle active gs (l ++ run)) → group_ok s (Group tm t l) → tm ∉ g_tm <$> gs → (length l ≤ fuel)%nat →
  ∃ s' xs, timeout_loop fuel s tm = Ok s' ∧ xs ≡ₚ l ∧ sched_inv s' (View idle (active ++ xs) gs run) ∧
    flagged xs (coros s) (coros s') ∧ same_trees s s'.
Proof.
  revert s active l. induction fuel as [|fuel IH]; intros s active l Hi Hg Htm Hf; (destruct (decide (l = [])) as [->|Hne];
    [pose proof Hg as (r & Hr & Hh & _); cbn [g_tm g_time g_coros] in Hr, Hh;
     pose proof (holds_root _ _ Hh) as He; cbn in He; exists s, []; cbn [timeout_loop]; rewrite (get_timer_ok _ _ _ Hr); cres_simpl;
     cbn [root]; rewrite He, app_nil_r; by split_and!; [| |done|apply flagged_nil|..]|]).
  - destruct l; [done | simpl in Hf; lia].
  - destruct (timeout_step s idle active gs run tm t l Hi Hg Htm Hne) as (l1 & c & l2 & x & s1 & -> & Hx & E & Hi1 & Hg1 & Hc1 & Ht1).
    destruct (IH s1 (active ++ [c]) (l1 ++ l2) Hi1 Hg1 Htm) as (s' & xs & E' & Hxs & Hi' & Hfl & Ht').
    { rewrite length_app in Hf |- *. simpl in Hf. lia. }
    exists s', (c :: xs). split_and!.
    + by rewrite E.
    + rewrite Hxs. solve_Permutation.
    + by rewrite <-app_assoc in Hi'.
    + rewrite Hc1 in Hfl. apply (flagged_cons c x); [done | | done]. rewrite Hxs.
      pose proof (everyone_nodup _ _ Hi) as Hn. unfold everyone in Hn. cbn in Hn. clear -Hn. nodup_split. set_solver.
    + by eapply same_trees_trans.
Qed.

Lemma pair_elem gs p : p ∈ pairs gs → ∃ g, g ∈ gs ∧ p.2 = g_time g ∧ p.1 ∈ g_coros g.
Proof. intros (g & (c & -> & Hc)%list_elem_of_fmap & Hg)%list_elem_of_bind. by exists g. Qed.

Lemma sorted_join {A} (R : A → A → Prop) l1 l2 :
  StronglySorted R l1 → StronglySorted R l2 → (∀ a b, a ∈ l1 → b ∈ l2 → R a b) → StronglySorted R (l1 ++ l2).
Proof.
  induction 1 as [|a l1 Hs IH Ha]; intros H2 Hr; [done|]. cbn. constructor.
  - apply IH; [done|]. intros x y Hx. apply Hr. by right.
  - apply Forall_app. split; [done|]. apply Forall_forall. intros b Hb. apply Hr; [by left | done].
Qed.

(** The first timer node is due: it and its coroutines leave the tree. *)
Lemma expire_first s idle active g gs run :
  sched_inv s (View idle active (g :: gs) run) →
  ∃ t s' xs, rb_erase (inactive_tree s) (g_tm g) = Ok t ∧
    (s1 ← timeout_coroutine_handler (set_inactive s t) (g_tm g); free_timer s1 (g_tm g)) = Ok s' ∧ xs ≡ₚ g_coros g ∧
    sched_inv s' (View idle (active ++ xs) gs run) ∧ flagged xs (coros s) (coros s') ∧ current s' = current s.
Proof.
  intros Hi. pose proof (si_waiting _ _ Hi) as (Hh & Hs & Ht & Hg & Hne). cbn [v_groups] in *.
  destruct (erase_timer_ok s [] g gs Hh) as (t & Et & Hh1 & Hnin). cbn [app] in Hh1, Hnin. set (s1 := set_inactive s t).
  apply Forall_cons in Hg as [Hgo Hg]. apply Forall_cons in Hne as [Hg0 Hne]. apply Forall_cons in Ht as [_ Ht].
  apply StronglySorted_inv in Hs as [Hs _]. destruct (si_pool _ _ Hi) as (rest & Hown & Hrest). cbn [v_groups fmap list_fmap] in Hown.
  rewrite list_to_set_cons in Hown.
  assert (Hi1 : sched_inv s1 (View idle active gs (g_coros g ++ run))).
  { apply (inv_retree s _ s1 gs (g_coros g ++ run) Hi); try done.
    - cbn. solve_Permutation.
    - exists ({[g_tm g]} ∪ rest). split; [|intros c Hc; specialize (Hrest c Hc); set_solver].
      apply owned_move; [by rewrite elem_of_list_to_set | done].
    - apply (si_live _ _ Hi). }
  assert (Hfuel : (length (g_coros g) ≤ size (co_nodes s1))%nat).
  { destruct Hgo as (r & _ & (u & Hrep & _ & Hu) & _). pose proof (rep_size _ _ Hrep) as Hsz. rewrite Hu, length_fmap in Hsz. done. }
  destruct (timeout_loop_ok (size (co_nodes s1)) s1 idle active gs run (g_tm g) (g_time g) (g_coros g) Hi1)
    as (s2 & xs & E2 & Hxs & Hi2 & Hfl & (Ht1 & Ht2 & Ht3 & Ht4)); [by destruct g | done | done |].
  pose proof (si_waiting _ _ Hi2) as Hw2. cbn [v_groups] in Hw2.
  destruct (free_timer_ok s2 (g_tm g) gs rest Hw2 Hnin) as (s3 & E3 & Hw3 & Hown3 & Hlv & F1 & F2 & F3 & F4 & F5 & F6 & F7).
  { rewrite Ht2, Ht3. done. }
  exists t, s3, xs. split; [done|]. unfold timeout_coroutine_handler. fold s1. rewrite E2. cres_simpl.
  split_and!; [done | done | | by rewrite F2 | by rewrite F4, Ht4].
  apply (inv_retree s2 _ s3 gs run Hi2); try done.
  - intros z. by rewrite F3.
  - exists rest. split; [done|]. intros c Hc. apply Hrest. unfold everyone in Hc |- *. cbn in Hc |- *.
    assert (Hp : idle ++ (active ++ xs) ++ waiters gs ++ run ≡ₚ idle ++ active ++ (g_coros g ++ waiters gs) ++ run) by (rewrite Hxs; solve_Permutation).
    rewrite Hp in Hc. exact Hc.
  - intros p Hp. apply (si_live _ _ Hi2), Hlv, Hp.
Qed.

Lemma check_timeout_loop_ok fuel s idle active gs run now :
  sched_inv s (View idle active gs run) → (length gs ≤ fuel)%nat →
  ∃ s' ws gs', check_timeout_loop fuel s now = Ok s' ∧ sched_inv s' (View idle (active ++ ws.*1) gs' run) ∧
    ws ++ pairs gs' ≡ₚ pairs gs ∧ Forall (λ p, p.2 ≤ now) ws ∧ Forall (λ p, now < p.2) (pairs gs') ∧
    StronglySorted (λ p q, p.2 ≤ q.2) ws ∧ flagged ws.*1 (coros s) (coros s') ∧ current s' = current s.
Proof.
  revert s active gs. induction fuel as [|fuel IH]; intros s active gs Hi Hf.
  all: pose proof (si_waiting _ _ Hi) as (Hh & Hs & Ht & Hg & Hne); cbn [v_groups] in *; cbn [check_timeout_loop];
    unfold get_recent_timer_node; rewrite (holds_first _ _ Hh); cres_simpl; destruct gs as [|g gs];
    [exists s, [], []; cbn; rewrite app_nil_r; split_and!; try done; [constructor | apply flagged_nil]|].
  { simpl in Hf. lia. }
  cbn [fmap list_fmap head default from_option]. cbn [id]. pose proof (holds_aligned _ _ (g_tm g) Hh ltac:(set_solver)) as Hal.
  rewrite (aligned_ne _ Hal). apply Forall_cons in Hg as [Hgo Hg]. pose proof Hgo as (r & Hr & _). rewrite (get_timer_ok _ _ _ Hr). cres_simpl.
  cbn [timeout]. apply StronglySorted_inv in Hs as [Hs Hlt]. destruct (now <? g_time g) eqn:En.
  - exists s, [], (g :: gs). cbn [fmap list_fmap]. rewrite app_nil_r. split_and!; try done; [|constructor|apply flagged_nil].
    apply Forall_forall. intros p (g' & Hg' & -> & _)%pair_elem. apply Z.ltb_lt in En.
    apply elem_of_cons in Hg' as [->|Hg']; [done|]. pose proof (proj1 (Forall_forall _ _) Hlt g' Hg'). cbn in *. lia.
  - apply Z.ltb_ge in En. destruct (expire_first s idle active g gs run Hi) as (t & s1 & xs & Et & E1 & Hxs & Hi1 & Hfl1 & Hcur1).
    unfold on_inactive. rewrite Et. cres_simpl. simpl in Hf.
    destruct (IH s1 (active ++ xs) gs Hi1 ltac:(lia)) as (s' & ws & gs' & E' & Hi' & Hp & Hle & Hgt & Hsw & Hfl & Hcur).
    assert (Hloop : (s ← timeout_coroutine_handler (set_inactive s t) (g_tm g); s ← free_timer s (g_tm g); check_timeout_loop fuel s now) = Ok s').
    { destruct (timeout_coroutine_handler _ _) as [s2| |]; cres_simpl; try done. rewrite E1. cres_simpl. done. }
    exists s', (((λ c, (c, g_time g)) <$> xs) ++ ws), gs'. split; [done|].
    assert (Hfst : (((λ c, (c, g_time g)) <$> xs) ++ ws).*1 = xs ++ ws.*1).
    { rewrite fmap_app, <-list_fmap_compose. f_equal. cbn. by rewrite list_fmap_id. }
    rewrite Hfst. split_and!.
    + by rewrite app_assoc.
    + rewrite <-app_assoc, Hp. cbn. by rewrite Hxs.
    + apply Forall_app. split; [|done]. apply Forall_fmap. apply Forall_forall. intros c _. done.
    + done.
    + apply sorted_join; [|done|].
      * clear. induction xs as [|c xs IHx]; constructor; [done|]. apply Forall_fmap, Forall_forall. intros e _. cbn. lia.
      * intros p q (c & -> & _)%list_elem_of_fmap Hq. cbn.
        assert (Hq' : q ∈ pairs gs) by (rewrite <-Hp; set_solver). apply pair_elem in Hq' as (g' & Hg' & -> & _).
        pose proof (proj1 (Forall_forall _ _) Hlt g' Hg'). cbn in *. lia.
    + eapply flagged_app; [|done|done]. pose proof (everyone_nodup _ _ Hi') as Hn. unfold everyone in Hn. cbn in Hn.
      rewrite <-!app_assoc in Hn. clear -Hn. apply NoDup_cons in Hn as [_ Hn]. apply NoDup_cons in Hn as [_ Hn].
      apply NoDup_app in Hn as (_ & _ & Hn). apply NoDup_app in Hn as (_ & _ & Hn). rewrite app_assoc in Hn. by apply NoDup_app in Hn as (? & _).
    + congruence.
Qed.

(** ** New coroutines *)

Lemma group_ok_co_node s c n g : group_ok s g → c ∉ g_coros g → group_ok (set_co_nodes s (<[co_node c := n]> (co_nodes s))) g.
Proof.
  intros (r & Hr & Hh & Hs & Hw) Hc. exists r. split_and!; try done. apply (holds_ext (RbState (co_nodes s) r)); [done | | done].
  intros z (e & -> & He)%list_elem_of_fmap. cbn. rewrite lookup_insert_ne; [done|]. by intros <-%(inj co_node).
Qed.

Lemma groups_co_node s c n gs :
  Forall (group_ok s) gs → c ∉ waiters gs → Forall (group_ok (set_co_nodes s (<[co_node c := n]> (co_nodes s)))) gs.
Proof.
  intros Hg Hc. apply Forall_forall. intros g Hin. apply group_ok_co_node; [by eapply (proj1 (Forall_forall _ _) Hg)|].
  intros Hcg. apply Hc. by eapply waiter_elem.
Qed.

(** The tree node of a coroutine that does not wait may change. *)
Lemma inv_co_node s v c n :
  sched_inv s v → c ∉ waiters (v_groups v) → sched_inv (set_co_nodes s (<[co_node c := n]> (co_nodes s))) v.
Proof.
  intros [Hl (Hh & Hs & Ht & Hg & Hne) Hc Hids Hcnt Hpool Hlive Hall] Hnw. split; try done.
  - split_and!; try done. by apply groups_co_node.
  - intros e He. destruct (Hc e He) as [Hn ?]. split; [|done]. cbn.
    destruct (decide (e = c)) as [->|Hne']; [by rewrite lookup_insert_eq|]. rewrite lookup_insert_ne; [done|]. by intros ->%(inj co_node).
Qed.

Lemma coroutine_init_ok s idle active o c x :
  lists_ok (lists s) idle active (c :: o) → is_Some (co_nodes s !! co_node c) → coros s !! c = Some x →
  ∃ h n, coroutine_init s c = Ok (put_coro (set_co_nodes (set_lists s h) (<[co_node c := n]> (co_nodes s))) c
      (set_active_by_timeout (set_timeout x 0) false)) ∧ lists_ok h idle active (c :: o).
Proof.
  intros Hl [n0 Hn0] Hx. destruct (lists_init _ _ _ _ _ Hl) as (h & E & Hl'). unfold coroutine_init, on_lists. rewrite E. cres_simpl.
  unfold RB_CLEAR_NODE, rb_set_parent, rb_set_pc, rb_get. cbn [set_lists co_nodes rb_heap]. rewrite Hn0. cres_simpl.
  unfold get_coro. cbn [set_co_nodes coros set_lists]. rewrite Hx. cres_simpl. by eexists _, _.
Qed.

Lemma put_put s c x y : put_coro (put_coro s c x) c y = put_coro s c y.
Proof. unfold put_coro. cbn. by rewrite insert_insert_eq. Qed.

(** What a dispatched coroutine starts with. *)
Definition dispatched (f a : Z) (x : coroutine) : Prop :=
  func x = f ∧ args x = a ∧ coro_timeout x = 0 ∧ active_by_timeout x = false.

(** The fresh coroutine [c] joins as one that is on no list. *)
Lemma inv_new s v c h n x :
  sched_inv s v → c ∉ live s → aligned c → lists_ok h (v_idle v) (v_active v) (c :: waiters (v_groups v) ++ v_run v) →
  curr_coro_size s < max_coro_size s → coro_id x = next_coro_id s + 1 → 0 ≤ coro_timeout x < 2 ^ 63 →
  sched_inv (set_counts (put_coro (set_co_nodes (set_lists (set_pool s (tm_cache s) ({[c]} ∪ live s)) h)
      (<[co_node c := n]> (co_nodes s))) c x) (curr_coro_size s + 1) (next_coro_id s + 1))
    (View (v_idle v) (v_active v) (v_groups v) (c :: v_run v)).
Proof.
  intros Hi Hc Hca Hl Hlt Hid Ht. pose proof Hi as [_ (Hh & Hs & Hts & Hg & Hne) Hco Hids (Hn1 & Hn2 & Hn3) (rest & Hown & Hrest) Hlive Hall].
  assert (Hnew : ∀ e, e ∈ IDLE :: ACTIVE :: everyone v → e ≠ c) by (intros e He ->; by apply Hc, (everyone_live _ _ _ Hi)).
  assert (Hev : everyone (View (v_idle v) (v_active v) (v_groups v) (c :: v_run v)) ≡ₚ c :: everyone v) by (unfold everyone; cbn; solve_Permutation).
  assert (Hnw : c ∉ waiters (v_groups v)) by (intros Hw; apply (Hnew c); [unfold everyone; set_solver | done]).
  set (s' := set_counts _ _ _). assert (Hid' : ∀ e, e ∈ everyone v → id_of s' e = id_of s e).
  { intros e He. unfold id_of. cbn. rewrite lookup_insert_ne; [done|]. apply not_eq_sym, Hnew. set_solver. }
  assert (Hidc : id_of s' c = next_coro_id s + 1) by (unfold id_of; cbn; by rewrite lookup_insert_eq).
  assert (Hold : ∀ e, e ∈ everyone v → id_of s e ≤ next_coro_id s).
  { intros e He. destruct (Hco e He) as (_ & y & Hy & Hr & _). unfold id_of. rewrite Hy. cbn. lia. }
  split; cbn [v_idle v_active v_groups v_run].
  - cbn. eapply lists_ok_perm; [|exact Hl]. solve_Permutation.
  - split_and!; try done. apply Forall_forall. intros g Hin. pose proof (proj1 (Forall_forall _ _) Hg g Hin) as (r & Hr & Hhr & Hsr & Hwr).
    assert (Hcg : ∀ e, e ∈ g_coros g → e ∈ everyone v) by (intros e He; unfold everyone; pose proof (waiter_elem _ _ _ Hin He); set_solver).
    exists r. split_and!; [done | | |].
    + apply (holds_ext (RbState (co_nodes s) r)); [done | | done]. intros z (e & -> & He)%list_elem_of_fmap. cbn.
      rewrite lookup_insert_ne; [done|]. intros <-%(inj co_node). apply (Hnew c); [|done]. specialize (Hcg c He). set_solver.
    + unfold by_id in *. clear -Hsr Hcg Hid'. induction Hsr as [|b l Hs IH Hb]; constructor; [apply IH; set_solver|].
      apply Forall_forall. intros e He. rewrite !Hid' by (apply Hcg; set_solver). exact (proj1 (Forall_forall _ _) Hb e He).
    + apply Forall_forall. intros e He. destruct (proj1 (Forall_forall _ _) Hwr e He) as (y & Hy & ?). exists y. cbn.
      rewrite lookup_insert_ne; [done|]. apply not_eq_sym, Hnew. specialize (Hcg e He). set_solver.
  - intros e. rewrite Hev. intros [->|He]%elem_of_cons.
    + split; cbn; [by rewrite lookup_insert_eq|]. rewrite lookup_insert_eq. exists x. split_and!; [done | lia | lia | lia | lia].
    + destruct (Hco e He) as (Hn & y & Hy & Hr & Hyt). assert (e ≠ c) by (apply Hnew; set_solver). split; cbn.
      * rewrite lookup_insert_ne; [done|]. by intros ->%(inj co_node).
      * rewrite lookup_insert_ne by done. exists y. split_and!; [done | lia | lia | lia | lia].
  - intros e e'. rewrite !Hev. intros [->|He]%elem_of_cons [->|He']%elem_of_cons; [done|..].
    + rewrite Hidc, Hid' by done. specialize (Hold e' He'). lia.
    + rewrite Hidc, Hid' by done. specialize (Hold e He). lia.
    + rewrite !Hid' by done. by apply Hids.
  - rewrite Hev. cbn. lia.
  - exists ({[c]} ∪ rest). split.
    + cbn. apply owned_malloc; [done | done | by apply aligned_nonnull].
    + intros e. rewrite Hev. intros [->|[->|[->|He]%elem_of_cons]%elem_of_cons]%elem_of_cons; [..|by set_solver | ];
        apply elem_of_union; right; apply Hrest; set_solver.
  - cbn. intros p [->%elem_of_singleton|Hp]%elem_of_union; [done | by apply Hlive].
  - intros e. rewrite Hev. cbn. destruct (decide (e = c)) as [->|]; [by left|]. rewrite lookup_insert_ne by done. right. by apply Hall.
Qed.

Section Dispatch.
  Context (malloc : gset Z → Z) (junk : list_head * rb_node * coroutine) (stack_alloc : Z → option (Z * Z)).
  Context (f a : Z).

(** An idle coroutine is used again. *)
Lemma dispatch_idle_ok s c idle active gs run :
  sched_inv s (View (c :: idle) active gs run) →
  ∃ s' x, dispatch_coro malloc junk stack_alloc s f a = Ok (0, s') ∧ sched_inv s' (View idle (active ++ [c]) gs run) ∧
    dispatched f a x ∧ coros s' = <[c := x]> (coros s) ∧ current s' = current s.
Proof using Type.
  intros Hi. pose proof (si_lists _ _ Hi) as Hl. cbn [v_idle v_active v_groups v_run] in Hl.
  assert (Hev : c ∈ everyone (View (c :: idle) active gs run)) by (unfold everyone; cbn; clear; set_solver).
  destruct (lists_pop_idle _ _ _ _ _ Hl) as (En & h1 & E1 & Hl1).
  assert (Hi1 : sched_inv (set_lists s h1) (View idle active gs (c :: run))).
  { apply (inv_relist _ _ _ _ _ _ Hi); [|cbn; solve_Permutation]. cbn. eapply lists_ok_perm; [|exact Hl1]. solve_Permutation. }
  destruct (si_coros _ _ Hi c Hev) as (Hn & x & Hx & _).
  destruct (coroutine_init_ok (set_lists s h1) idle active (waiters gs ++ run) c x Hl1 Hn Hx) as (h2 & n & E2 & Hl2).
  assert (Hnw : c ∉ waiters gs).
  { pose proof (everyone_nodup _ _ Hi) as Hnd. unfold everyone in Hnd. cbn in Hnd. clear -Hnd. nodup_split. set_solver. }
  set (y := set_entry (set_active_by_timeout (set_timeout x 0) false) f a).
  set (s2 := put_coro (set_co_nodes (set_lists (set_lists s h1) h2) (<[co_node c := n]> (co_nodes s))) c y).
  assert (Hi2 : sched_inv s2 (View idle active gs (c :: run))).
  { apply (inv_put_coro _ _ c x); try done. refine (inv_co_node (set_lists (set_lists s h1) h2) (View idle active gs (c :: run)) c n _ Hnw). apply (inv_relist _ _ _ _ _ _ Hi1); [|done].
    cbn. eapply lists_ok_perm; [|exact Hl2]. solve_Permutation. }
  destruct (inv_push _ _ _ _ _ _ Hi2) as ((h3 & E3 & Hi3) & _ & _).
  exists (set_lists s2 h3), y. split; [|by split_and!].
  unfold dispatch_coro, get_coroutine. rewrite (list_empty_ok _ _ _ (lo_idle _ _ _ _ Hl)). cres_simpl.
  rewrite bool_decide_eq_false_2 by done. cbn [negb]. rewrite En. cres_simpl. unfold on_lists. rewrite E1. cres_simpl. rewrite E2. cres_simpl.
  rewrite (aligned_ne c) by (apply (everyone_aligned _ _ _ Hi); set_solver).
  rewrite (get_coro_ok _ c (set_active_by_timeout (set_timeout x 0) false)) by (cbn; by rewrite lookup_insert_eq). cres_simpl.
  rewrite put_put. cbn [co_nodes set_lists] in *. fold y s2. unfold move_to_active_list_tail_direct, on_lists. rewrite E3. by cres_simpl.
Qed.

Context (Hfresh : fresh_malloc malloc) (Hal : aligned_malloc malloc).

(** A coroutine is created: there is room, memory and a stack. *)
Lemma dispatch_new_ok s active gs run :
  sched_inv s (View [] active gs run) → curr_coro_size s < max_coro_size s → malloc (live s) ≠ NULL →
  is_Some (stack_alloc (stack_bytes s)) →
  ∃ s' x, dispatch_coro malloc junk stack_alloc s f a = Ok (0, s') ∧ malloc (live s) ∉ live s ∧
    sched_inv s' (View [] (active ++ [malloc (live s)]) gs run) ∧
    dispatched f a x ∧ coros s' = <[malloc (live s) := x]> (coros s) ∧ current s' = current s ∧
    curr_coro_size s' = curr_coro_size s + 1.
Proof using Hfresh Hal.
  intros Hi Hlt Hm [st Hst]. set (c := malloc (live s)) in *. destruct junk as [[jl jn] jc].
  assert (Hc : c ∉ live s ∧ aligned c).
  { destruct (Hfresh (live s)) as [?|?]; [done|]. by destruct (Hal (live s)). }
  destruct Hc as [Hc Hca]. destruct (si_count _ _ Hi) as (Hn1 & Hn2 & Hn3).
  pose proof (si_lists _ _ Hi) as Hl. cbn [v_idle v_active v_groups v_run] in Hl.
  assert (Hl1 : lists_ok (<[c := jl]> (lists s)) [] active (c :: waiters gs ++ run)).
  { apply lists_new; [done|]. intros He. by apply Hc, (everyone_live _ _ _ Hi). }
  set (x0 := set_id_stack jc (next_coro_id s + 1) st).
  set (s1 := set_counts (put_coro (set_co_nodes (set_lists (set_pool s (tm_cache s) ({[c]} ∪ live s)) (<[c := jl]> (lists s)))
    (<[co_node c := jn]> (co_nodes s))) c x0) (curr_coro_size s + 1) (next_coro_id s + 1)).
  destruct (coroutine_init_ok s1 [] active (waiters gs ++ run) c x0) as (h & n & E & Hl2); [done | cbn; by rewrite lookup_insert_eq.. |].
  set (y := set_entry (set_active_by_timeout (set_timeout x0 0) false) f a).
  pose proof (inv_new s _ c h n y Hi Hc Hca Hl2 Hlt eq_refl ltac:(cbn; lia)) as Hi2. cbn [v_idle v_active v_groups v_run] in Hi2.
  destruct (inv_push _ _ _ _ _ _ Hi2) as ((h3 & E3 & Hi3) & _ & _).
  eexists _, y. split; [|split; [done|]; split; [exact Hi3 | by split_and!]].
  unfold dispatch_coro, get_coroutine. rewrite (list_empty_ok _ _ _ (lo_idle _ _ _ _ Hl)). cres_simpl.
  rewrite bool_decide_eq_true_2 by done. cbn [negb]. unfold create_coroutine, malloc_block. fold c.
  rewrite (proj2 (Z.eqb_neq (curr_coro_size s) (max_coro_size s))) by lia.
  rewrite (proj2 (Z.eqb_neq c NULL)) by done. rewrite (proj2 (Z.eqb_neq c NULL)), Hst by done.
  rewrite int_arith_ok by lia. cres_simpl. rewrite (proj2 (Z.eqb_neq c NULL)) by done.
  change (coroutine_init _ c) with (coroutine_init s1 c). rewrite E. cres_simpl. rewrite (proj2 (Z.eqb_neq c NULL)) by done.
  rewrite (get_coro_ok _ c (set_active_by_timeout (set_timeout x0 0) false)) by (cbn; by rewrite lookup_insert_eq). cres_simpl.
  rewrite put_put. unfold move_to_active_list_tail_direct, on_lists.
  change (lists (put_coro (set_co_nodes (set_lists s1 h) _) c _)) with h. cbn [lists set_counts put_coro set_coros set_co_nodes set_lists] in E3.
  rewrite E3. cres_simpl. f_equal. f_equal. unfold s1, put_coro. cbn. by rewrite !insert_insert_eq.
Qed.

(** No coroutine is to be had. *)
Lemma dispatch_fail_ok s active gs run :
  sched_inv s (View [] active gs run) →
  curr_coro_size s = max_coro_size s ∨ malloc (live s) = NULL ∨ stack_alloc (stack_bytes s) = None →
  dispatch_coro malloc junk stack_alloc s f a = Ok (-1, s).
Proof using Hfresh. clear Hal.
  intros Hi Hcase. pose proof (si_lists _ _ Hi) as Hl. cbn [v_idle] in Hl.
  unfold dispatch_coro, get_coroutine. rewrite (list_empty_ok _ _ _ (lo_idle _ _ _ _ Hl)). cres_simpl.
  rewrite bool_decide_eq_true_2 by done. cbn [negb]. unfold create_coroutine.
  destruct (curr_coro_size s =? max_coro_size s) eqn:En; [done|]. destruct Hcase as [Hc|Hcase]; [by apply Z.eqb_neq in En|].
  destruct (malloc_block_ok malloc (live s) Hfresh) as [Em | (p & Em & Hp & Hnl)]; rewrite Em; [done|].
  rewrite (proj2 (Z.eqb_neq p NULL)) by done. destruct Hcase as [Hm|Hm].
  - unfold malloc_block in Em. rewrite Hm in Em. by injection Em as <-.
  - rewrite Hm. unfold free. rewrite bool_decide_eq_true_2 by set_solver. cres_simpl. cbn [Z.eqb NULL].
    replace (({[p]} ∪ live s) ∖ {[p]}) with (live s) by set_solver. by destruct s.
Qed.

End Dispatch.
