(* ===== verification/SchedProps.v ===== *)
(** What the scheduler promises: its entry points on the sets of idle, runnable and waiting
    coroutines, and the scheduling cycle as a state machine that never goes wrong. *)

From stdpp Require Import base gmap list numbers strings sets sorting.
From Stdlib Require Import ZArith Lia.
From S2P Require Import Prelude ListHead Memcache RbTree RbRep RbInsert RbErase RbEraseColor RbProps.
From S2P Require Import Sched SchedSearch SchedInv SchedLists SchedOps SchedSteps.

(** ** Start *)

Lemma malloc_block_aligned malloc l :
  aligned_malloc malloc → (∀ q, q ∈ l → aligned q) → ∀ q, q ∈ (malloc_block malloc l).2 → aligned q.
Proof.
  intros Hm Hl q. unfold malloc_block. destruct (malloc l =? NULL) eqn:E; cbn; [apply Hl|].
  intros [->%elem_of_singleton|Hq]%elem_of_union; [|by apply Hl]. destruct (Hm l) as [Hz|?]; [|done]. by rewrite Hz in E.
Qed.

Lemma add_element_live l c e c' l' : add_element l c e = Ok (c', l') → l' ⊆ l.
Proof.
  unfold add_element. destruct (curr c <? cache_size c).
  - destruct (array_set _ _ _); cres_simpl; try done. by intros [= _ <-].
  - unfold free. destruct (bool_decide _); cres_simpl; try done. intros [= _ <-]. set_solver.
Qed.

Lemma fill_loop_aligned malloc fuel l c limit c' l' :
  aligned_malloc malloc → (∀ q, q ∈ l → aligned q) → fill_loop malloc fuel l c limit = Ok (Some c', l') → ∀ q, q ∈ l' → aligned q.
Proof.
  intros Hm. revert l c. induction fuel as [|fuel IH]; intros l c Hl; cbn [fill_loop]; (destruct (curr c <? limit); [|by intros [= <- <-]]); [done|].
  pose proof (malloc_block_aligned malloc l Hm Hl) as Hb. destruct (malloc_block malloc l) as [p l1]. cbn [snd] in Hb.
  destruct (p =? NULL); [destruct (free_pool l1 c); by cres_simpl|].
  destruct (add_element l1 c p) as [[c1 l2]| |] eqn:Ea; cres_simpl; try done. apply IH. intros q Hq. by apply Hb, (add_element_live _ _ _ _ _ Ea).
Qed.

Lemma create_aligned malloc l osize n c l' :
  aligned_malloc malloc → (∀ q, q ∈ l → aligned q) → memcache_create malloc l osize n = Ok (Running (Some c, l')) →
  ∀ q, q ∈ l' → aligned q.
Proof.
  intros Hm Hl. unfold memcache_create. destruct (negb (2 <=? n)); [done|].
  pose proof (malloc_block_aligned malloc l Hm Hl) as Hb. destruct (malloc_block malloc l) as [p l1]. cbn [snd] in Hb.
  destruct (p =? NULL); [done|]. destruct (fill_loop _ _ _ _ _) as [[[c1|] l2]| |] eqn:Ef; cres_simpl; try done.
  intros [= <- <-]. by eapply fill_loop_aligned.
Qed.

(** The memory the scheduler starts with: its list heads exist, blocks are aligned. *)
Definition memory_ok (l : gset Z) (h : gmap Z list_head) : Prop :=
  IDLE ∈ l ∧ ACTIVE ∈ l ∧ (∀ q, q ∈ l → aligned q) ∧ is_Some (h !! IDLE) ∧ is_Some (h !! ACTIVE).

Lemma schedule_init_ok malloc l h kb max :
  fresh_malloc malloc → aligned_malloc malloc → memory_ok l h → 4 ≤ max < 2 ^ 31 →
  schedule_init malloc l h kb max = Ok (Exit 0) ∨
  ∃ s, schedule_init malloc l h kb max = Ok (Running s) ∧ sched_inv s (View [] [] [] []) ∧
    max_coro_size s = max ∧ stack_bytes s = size_t (kb * 1024) ∧ cache_size (tm_cache s) = max / 2.
Proof.
  intros Hf Ha (Hi & Hact & Hal & Hm1 & Hm2) Hmax. unfold schedule_init. rewrite (proj2 (Z.leb_le _ _)) by lia. cbn [negb].
  destruct (INIT_LIST_HEAD_ok h IDLE Hm1) as (h1 & -> & Hd1 & Hf1). cres_simpl.
  destruct (INIT_LIST_HEAD_ok h1 ACTIVE) as (h2 & -> & Hd2 & Hf2); [by rewrite Hf1|]. cres_simpl.
  assert (Hnull : NULL ∉ l) by (intros Hn%Hal; by apply (aligned_nonnull NULL)).
  assert (Hhalf : 2 ≤ max / 2) by (apply Z.div_le_lower_bound; lia).
  destruct (create_ok malloc l SIZEOF_TIMER_NODE (max / 2) Hf Hnull Hhalf) as (l' & [(c & Ec & Ho & Hcs & _)|[Ec _]]); rewrite Ec; cres_simpl.
  - right. eexists. split; [done|]. split; [|done]. split; cbn.
    + split; [|done| |].
      * eapply dlist_ext; [|exact Hd1]. intros a ->%list_elem_of_singleton. by apply Hf2.
      * set_solver.
      * apply (bool_decide_unpack _). done.
    + split_and!; [apply holds_empty | constructor | constructor | constructor | constructor].
    + set_solver.
    + set_solver.
    + lia.
    + exists l. split; [done|]. intros c0 [->|[->|H%elem_of_nil]%elem_of_cons]%elem_of_cons; done.
    + by eapply create_aligned.
    + intros c0 [x Hx]. done.
  - by left.
Qed.

(** It ends the process only when there is no memory for the pool of timer nodes. *)
Lemma schedule_init_exit malloc l h kb max code :
  fresh_malloc malloc → 0 ≤ max → schedule_init malloc l h kb max = Ok (Exit code) → code = 0 ∧ runs_out malloc l (S (Z.to_nat (max / 2 / 4))).
Proof.
  intros Hf Hmax. unfold schedule_init. destruct (negb _); [done|]. destruct (INIT_LIST_HEAD h IDLE); try done. cres_simpl.
  destruct (INIT_LIST_HEAD _ ACTIVE); try done. cres_simpl.
  destruct (memcache_create malloc l SIZEOF_TIMER_NODE (max / 2)) as [[[[c|] l']| |]| |] eqn:E; cres_simpl; try done.
  - intros [= <-]. split; [done|]. eapply create_failed; [done | apply Z.div_pos; lia | exact E].
  - exfalso. unfold memcache_create in E. destruct (negb _); [done|]. destruct (malloc_block malloc l) as [p l1]. destruct (p =? NULL); [done|].
    by destruct (fill_loop _ _ _ _ _).
Qed.

(** ** The entry points *)

(** C32: [schedule_timeout] takes the running coroutine off the processor and returns control to
    the scheduler.  If the new time lies within 2^31 milliseconds of every time that is waited
    for (the range of the [int] it is compared in), the coroutine is recorded as waiting for
    exactly the current time plus the given milliseconds, all others staying where they are,
    with one exception: when nobody waits for that very time, the pool of timer nodes is empty
    and [malloc] returns NULL, the coroutine is lost, on no list and in no tree, although
    the comment at that return says that it is still in the active list. *)
Theorem schedule_timeout_spec malloc s idle active gs run c x now ms :
  fresh_malloc malloc → aligned_malloc malloc → sched_inv s (View idle active gs (c :: run)) → current s = c →
  coros s !! c = Some x → 0 ≤ now + ms < 2 ^ 63 → in_window (now + ms) gs →
  ∃ s', schedule_timeout malloc s now ms = Ok s' ∧ current s' = MAIN_CORO ∧
    ((∃ gs', sched_inv s' (View idle active gs' run) ∧ pairs gs' ≡ₚ (c, now + ms) :: pairs gs) ∨
     (sched_inv s' (View idle active gs (c :: run)) ∧ curr (tm_cache s) = 0 ∧ malloc (live s) = NULL ∧ ∀ g, g ∈ gs → g_time g ≠ now + ms)).
Proof.
  intros Hf Ha Hi Hc Hx Ht Hw. destruct (schedule_timeout_ok malloc s idle active gs run c x now ms) as (s' & E & H1 & _ & H2); try done.
  by exists s'.
Qed.

(** C33: [check_timeout_coroutine] makes runnable exactly the coroutines whose time has come,
    in the order of their times, behind the ones already runnable; it flags each of them as
    woken by its timeout, keeps all others waiting, and returns. *)
Theorem check_timeout_spec s idle active gs run now :
  sched_inv s (View idle active gs run) →
  ∃ s' ws gs', check_timeout_coroutine s now = Ok s' ∧ sched_inv s' (View idle (active ++ ws.*1) gs' run) ∧
    ws ++ pairs gs' ≡ₚ pairs gs ∧ Forall (λ p, p.2 ≤ now) ws ∧ Forall (λ p, now < p.2) (pairs gs') ∧
    StronglySorted (λ p q, p.2 ≤ q.2) ws ∧ flagged ws.*1 (coros s) (coros s').
Proof.
  intros Hi. destruct (check_timeout_loop_ok (size (tm_nodes s)) s idle active gs run now Hi) as (s' & ws & gs' & E & H1 & H2 & H3 & H4 & H5 & H6 & _).
  { pose proof (si_waiting _ _ Hi) as ((u & Hrep & _ & Hu) & _). pose proof (rep_size _ _ Hrep) as Hsz. rewrite Hu, length_fmap in Hsz. done. }
  exists s', ws, gs'. by split_and!.
Qed.

(** C39: [wakeup_coro] makes a waiting coroutine runnable at the end of the list and
    [wakeup_coro_priority] at its front; the coroutine is no longer waiting and not flagged
    as timed out, and nothing else changes. *)
Theorem wakeup_spec s idle active gs run c x :
  sched_inv s (View idle active gs run) → c ∈ waiters gs → coros s !! c = Some x →
  ∃ gs', pairs gs ≡ₚ (c, coro_timeout x) :: pairs gs' ∧
    (∃ s', wakeup_coro s c = Ok s' ∧ sched_inv s' (View idle (active ++ [c]) gs' run) ∧
       coros s' = <[c := set_active_by_timeout x false]> (coros s) ∧ current s' = current s) ∧
    (∃ s', wakeup_coro_priority s c = Ok s' ∧ sched_inv s' (View idle (c :: active) gs' run) ∧
       coros s' = <[c := set_active_by_timeout x false]> (coros s) ∧ current s' = current s).
Proof. apply wakeup_waiting_ok. Qed.

(** C40: [dispatch_coro] reuses the oldest idle coroutine, creates one if none is idle, or
    fails with -1 and no change when the limit is reached or memory is short; a dispatched
    coroutine is the last of the runnable ones, with its function and argument set. *)
Theorem dispatch_spec malloc junk stack_alloc s idle active gs run f a :
  fresh_malloc malloc → aligned_malloc malloc → sched_inv s (View idle active gs run) →
  match idle with
  | c :: idle' =>
    ∃ s' x, dispatch_coro malloc junk stack_alloc s f a = Ok (0, s') ∧ sched_inv s' (View idle' (active ++ [c]) gs run) ∧
      dispatched f a x ∧ coros s' = <[c := x]> (coros s)
  | [] =>
    if bool_decide (curr_coro_size s < max_coro_size s ∧ malloc (live s) ≠ NULL ∧ is_Some (stack_alloc (stack_bytes s))) then
      ∃ s' x, dispatch_coro malloc junk stack_alloc s f a = Ok (0, s') ∧ malloc (live s) ∉ everyone (View idle active gs run) ∧
        sched_inv s' (View [] (active ++ [malloc (live s)]) gs run) ∧ dispatched f a x ∧ coros s' = <[malloc (live s) := x]> (coros s)
    else dispatch_coro malloc junk stack_alloc s f a = Ok (-1, s)
  end.
Proof.
  intros Hf Ha Hi. destruct idle as [|c idle].
  - case_bool_decide as Hcase.
    + destruct Hcase as (H1 & H2 & H3). destruct (dispatch_new_ok malloc junk stack_alloc f a Hf Ha s active gs run Hi H1 H2 H3)
        as (s' & x & E & Hn & Hi' & Hd & Hc & _). exists s', x. split_and!; try done.
      intros He. apply Hn, (everyone_live _ _ _ Hi). set_solver.
    + apply (dispatch_fail_ok malloc junk stack_alloc f a Hf s active gs run Hi). destruct (si_count _ _ Hi) as (_ & _ & Hle).
      destruct (decide (curr_coro_size s = max_coro_size s)); [by left|]. destruct (decide (malloc (live s) = NULL)); [by right; left|].
      right; right. destruct (stack_alloc (stack_bytes s)) eqn:Es; [|done]. destruct Hcase. split_and!; [lia | done | by eexists].
  - destruct (dispatch_idle_ok malloc junk stack_alloc f a s c idle active gs run Hi) as (s' & x & E & Hi' & Hd & Hc & _). by exists s', x.
Qed.

Lemma recent_timespan_ok s idle active gs run now :
  sched_inv s (View idle active gs run) → 0 ≤ now < 2 ^ 63 → Forall (λ p, p.2 - now < 2 ^ 31) (pairs gs) →
  match gs with
  | [] => get_recent_timespan s now = Ok 10000
  | g :: _ => get_recent_timespan s now = Ok (Z.max 0 (i32 (g_time g - now))) ∧ g_time g - now < 2 ^ 31
  end.
Proof.
  intros Hi Hnow Hw. pose proof (si_waiting _ _ Hi) as (Hh & Hs & Ht & Hg & Hne). cbn [v_groups] in *. unfold get_recent_timespan, get_recent_timer_node.
  rewrite (holds_first _ _ Hh). cres_simpl. destruct gs as [|g gs]; [done|]. cbn [fmap list_fmap head default from_option id].
  rewrite (aligned_ne (g_tm g)) by (eapply holds_aligned; [exact Hh | set_solver]). apply Forall_cons in Hg as [(r & Hr & _) _].
  rewrite (get_timer_ok _ _ _ Hr). cres_simpl. cbn [timeout]. apply Forall_cons in Ht as [Ht _]. cbn in Ht. rewrite ll_arith_ok by lia. cres_simpl.
  split.
  - f_equal. destruct (_ <? 0) eqn:E; lia.
  - apply Forall_cons in Hne as [Hne _]. destruct (g_coros g) as [|c l] eqn:El; [done|].
    apply (proj1 (Forall_forall _ _) Hw (c, g_time g)). apply list_elem_of_bind. exists g. split; [|by left].
    rewrite El. by left.
Qed.

(** The time the scheduler lets the event loop wait is ten seconds when nobody waits, and
    otherwise the time until the first coroutine is due, zero if that is over: with waiting
    times less than 24 days apart it neither oversleeps nor, through the conversion to
    [int], wakes for a coroutine that is not due. *)
Theorem timespan_spec s idle active gs run now :
  sched_inv s (View idle active gs run) → 0 ≤ now < 2 ^ 63 → Forall (λ p, - 2 ^ 31 ≤ p.2 - now < 2 ^ 31) (pairs gs) →
  ∃ t, get_recent_timespan s now = Ok t ∧ 0 ≤ t ∧
    (pairs gs = [] → t = 10000) ∧
    (∀ p, p ∈ pairs gs → t ≤ Z.max 0 (p.2 - now)) ∧
    (pairs gs ≠ [] → ∃ p, p ∈ pairs gs ∧ t = Z.max 0 (p.2 - now)).
Proof.
  intros Hi Hnow Hw. assert (Hw' : Forall (λ p, p.2 - now < 2 ^ 31) (pairs gs)) by (eapply Forall_impl; [exact Hw|]; cbn; lia).
  pose proof (recent_timespan_ok s idle active gs run now Hi Hnow Hw') as Hts. destruct gs as [|g gs].
  { exists 10000. split_and!; try done. intros p Hp. by apply elem_of_nil in Hp. }
  destruct Hts as [E Hlt]. pose proof (si_waiting _ _ Hi) as (_ & Hs & _ & _ & Hne). cbn [v_groups] in *.
  apply Forall_cons in Hne as [Hne _]. destruct (g_coros g) as [|c l] eqn:El; [done|].
  assert (Hin : (c, g_time g) ∈ pairs (g :: gs)) by (apply list_elem_of_bind; exists g; split; [rewrite El; by left | by left]).
  pose proof (proj1 (Forall_forall _ _) Hw _ Hin) as Hg. cbn in Hg. rewrite i32_id in E by lia.
  exists (Z.max 0 (g_time g - now)). split_and!; [done | lia | | |].
  - intros Hnil. rewrite Hnil in Hin. by apply elem_of_nil in Hin.
  - intros p (g' & Hg' & -> & _)%pair_elem. apply StronglySorted_inv in Hs as [_ Hlt'].
    apply elem_of_cons in Hg' as [->|Hg']; [lia|]. pose proof (proj1 (Forall_forall _ _) Hlt' g' Hg'). cbn in *. lia.
  - intros _. by exists (c, g_time g).
Qed.

(** ** The scheduling cycle *)

(** Where the program is: in [schedule_cycle], before the check of the timers, in one of the
    two calls of [run_active_coroutine] or in the event loop; or inside a coroutine that one
    of these calls has switched to. *)
Inductive phase : Type := Check_timers | Run_first | Wait_events | Run_again.
Inductive mode : Type := In_main (p : phase) | In_coro (p : phase).

(** The state, the clock, and when the timers were last checked. *)
Record machine : Type := Machine { m_mode : mode; m_sched : coro_schedule; m_now : Z; m_last : Z }.

(** A coroutine that has given up the processor and is not runnable: what the event loop may
    be asked to wake. *)
Definition suspended (s : coro_schedule) (c : Z) : Prop :=
  is_Some (coros s !! c) ∧ (∀ xs, dlist (lists s) ACTIVE xs → c ∉ xs) ∧ (∀ xs, dlist (lists s) IDLE xs → c ∉ xs).

Definition running_phase (p : phase) : Prop := p = Run_first ∨ p = Run_again.
Definition next_phase (p : phase) : phase :=
  match p with Check_timers => Run_first | Run_first => Wait_events | Wait_events => Run_again | Run_again => Check_timers end.

(** Times: a cycle, and a sleep, take less than [HORIZON] milliseconds (12 days). *)
Definition HORIZON : Z := 2 ^ 30.

Section Machine.
  Context (malloc : gset Z → Z) (junk : list_head * rb_node * coroutine) (stack_alloc : Z → option (Z * Z)).

Inductive sched_step : machine → machine → Prop :=
| step_tick md s now last now' :
    now ≤ now' < last + HORIZON → now' < 2 ^ 62 → sched_step (Machine md s now last) (Machine md s now' last)
| step_check s now last s' :
    check_timeout_coroutine s now = Ok s' →
    sched_step (Machine (In_main Check_timers) s now last) (Machine (In_main Run_first) s' now now)
| step_run p s now last c s' :
    running_phase p → get_active_coroutine s = Ok (c, s') → c ≠ NULL →
    sched_step (Machine (In_main p) s now last) (Machine (In_coro p) (coroutine_switch s' c) now last)
| step_run_done p s now last s' :
    running_phase p → get_active_coroutine s = Ok (NULL, s') →
    sched_step (Machine (In_main p) s now last) (Machine (In_main (next_phase p)) s' now last)
| step_wake s now last c s' :
    suspended s c → wakeup_coro s c = Ok s' →
    sched_step (Machine (In_main Wait_events) s now last) (Machine (In_main Wait_events) s' now last)
| step_wake_priority s now last c s' :
    suspended s c → wakeup_coro_priority s c = Ok s' →
    sched_step (Machine (In_main Wait_events) s now last) (Machine (In_main Wait_events) s' now last)
| step_events_done s now last :
    sched_step (Machine (In_main Wait_events) s now last) (Machine (In_main Run_again) s now last)
| step_dispatch p s now last f a r s' :
    dispatch_coro malloc junk stack_alloc s f a = Ok (r, s') →
    sched_step (Machine (In_coro p) s now last) (Machine (In_coro p) s' now last)
| step_flag p s now last b s' :
    is_wakeup_by_timeout s = Ok (b, s') →
    sched_step (Machine (In_coro p) s now last) (Machine (In_coro p) s' now last)
| step_sleep p s now last ms s' :
    0 ≤ ms ≤ HORIZON → schedule_timeout malloc s now ms = Ok s' →
    sched_step (Machine (In_coro p) s now last) (Machine (In_main p) s' now last)
| step_return p s now last s' :
    coro_routine_return s (current s) = Ok s' →
    sched_step (Machine (In_coro p) s now last) (Machine (In_main p) s' now last).

(** What holds in every state of the machine. *)
Record machine_inv (m : machine) (v : view) : Prop := MachineInv {
  mi_inv : sched_inv (m_sched m) v;
  mi_clock : 0 ≤ m_last m ≤ m_now m ∧ m_now m < m_last m + HORIZON ∧ m_now m < 2 ^ 62;
  mi_times : Forall (λ p, m_last m ≤ p.2 ≤ m_now m + HORIZON) (pairs (v_groups v));
  mi_mode : match m_mode m with
            | In_main _ => True
            | In_coro p => running_phase p ∧ ∃ run, v_run v = current (m_sched m) :: run
            end;
}.

(** The coroutines that are not idle, and what a step leaves as it is: they stay, except for
    the running one; the event loop is entered when nobody is runnable; a coroutine runs
    until it gives up the processor. *)
Definition off_idle (v : view) : list Z := v_active v ++ waiters (v_groups v) ++ v_run v.

Record step_keeps (m m' : machine) (v v' : view) : Prop := StepKeeps {
  sk_stay : ∀ c, c ∈ off_idle v → (∀ p, m_mode m = In_coro p → c ≠ current (m_sched m)) → c ∈ off_idle v';
  sk_empty : m_mode m ≠ In_main Wait_events → m_mode m' = In_main Wait_events → v_active v' = [];
  sk_current : ∀ p p', m_mode m = In_coro p → m_mode m' = In_coro p' → current (m_sched m') = current (m_sched m);
}.

Context (Hfresh : fresh_malloc malloc) (Hal : aligned_malloc malloc).

Lemma suspended_where s v c :
  sched_inv s v → suspended s c →
  c ∈ waiters (v_groups v) ∨ ∃ run, v_run v ≡ₚ c :: run.
Proof using Type.
  intros Hi (Hc & Ha & Hid). pose proof (si_all _ _ Hi c Hc) as Hev. pose proof (si_lists _ _ Hi) as [Hdi Hda _ _].
  specialize (Ha _ Hda). specialize (Hid _ Hdi). unfold everyone in Hev. rewrite !elem_of_app in Hev.
  destruct Hev as [?|[?|[?|Hr]]]; [done | done | by left | right].
  apply list_elem_of_split in Hr as (l1 & l2 & ->). exists (l1 ++ l2). solve_Permutation.
Qed.

Lemma window_times now last ms gs :
  0 ≤ last ≤ now → now < last + HORIZON → 0 ≤ ms ≤ HORIZON → Forall (λ g, g_coros g ≠ []) gs →
  Forall (λ p, last ≤ p.2 ≤ now + HORIZON) (pairs gs) → in_window (now + ms) gs.
Proof using Type.
  intros Hl Hn Hms Hne Hp. apply Forall_forall. intros g Hg. pose proof (proj1 (Forall_forall _ _) Hne g Hg) as Hg0. cbn in Hg0.
  destruct (g_coros g) as [|c l] eqn:El; [done|].
  assert (Hin : (c, g_time g) ∈ pairs gs) by (apply list_elem_of_bind; exists g; split; [rewrite El; by left | done]).
  pose proof (proj1 (Forall_forall _ _) Hp _ Hin). cbn in *. unfold HORIZON in *. lia.
Qed.

(** A wake-up by the event loop. *)
Lemma wake_ok s v c :
  sched_inv s v → suspended s c →
  (∃ s' v', wakeup_coro s c = Ok s' ∧ sched_inv s' v' ∧ (∀ p, p ∈ pairs (v_groups v') → p ∈ pairs (v_groups v)) ∧ off_idle v ≡ₚ off_idle v') ∧
  (∃ s' v', wakeup_coro_priority s c = Ok s' ∧ sched_inv s' v' ∧ (∀ p, p ∈ pairs (v_groups v') → p ∈ pairs (v_groups v)) ∧ off_idle v ≡ₚ off_idle v').
Proof using Type.
  intros Hi Hsus. pose proof Hsus as ([x Hx] & _). destruct v as [idle active gs run]. destruct (suspended_where _ _ _ Hi Hsus) as [Hc|[run' Hr]].
  - destruct (wakeup_waiting_ok s idle active gs run c x Hi Hc Hx) as (gs' & Hp & (s1 & E1 & I1 & _) & (s2 & E2 & I2 & _)).
    assert (Hsub : ∀ p, p ∈ pairs gs' → p ∈ pairs gs) by (intros p Hin; rewrite Hp; by right).
    assert (Hpm : waiters gs ≡ₚ c :: waiters gs') by (by rewrite <-!pairs_waiters, Hp).
    split; [exists s1, (View idle (active ++ [c]) gs' run) | exists s2, (View idle (c :: active) gs' run)]; split_and!; try done;
      unfold off_idle; cbn; rewrite Hpm; solve_Permutation.
  - apply (inv_perm_run _ _ _ _ _ _ Hr) in Hi.
    destruct (wakeup_absent_ok s idle active gs run' c x Hi Hx) as ((s1 & E1 & I1 & _) & (s2 & E2 & I2 & _)).
    cbn in Hr. split; [exists s1, (View idle (active ++ [c]) gs run') | exists s2, (View idle (c :: active) gs run')]; split_and!; try done;
      unfold off_idle; cbn; rewrite Hr; solve_Permutation.
Qed.

(** A dispatch by the running coroutine. *)
Lemma dispatch_ok s idle active gs run f a :
  sched_inv s (View idle active gs run) →
  ∃ r s' idle' active', dispatch_coro malloc junk stack_alloc s f a = Ok (r, s') ∧ sched_inv s' (View idle' active' gs run) ∧ current s' = current s ∧
    active ⊆ active'.
Proof using Hfresh Hal.
  intros Hi. destruct idle as [|c idle].
  - destruct (decide (curr_coro_size s < max_coro_size s ∧ malloc (live s) ≠ NULL ∧ is_Some (stack_alloc (stack_bytes s)))) as [(H1 & H2 & H3)|Hno].
    + destruct (dispatch_new_ok malloc junk stack_alloc f a Hfresh Hal s active gs run Hi H1 H2 H3) as (s' & x & E & _ & Hi' & _ & _ & Hc & _).
      eexists _, s', _, _. split_and!; try done. set_solver.
    + exists (-1), s, [], active. split_and!; [|done|done|done]. apply (dispatch_fail_ok malloc junk stack_alloc f a Hfresh s active gs run Hi).
      destruct (si_count _ _ Hi) as (_ & _ & Hle). destruct (decide (curr_coro_size s = max_coro_size s)); [by left|].
      destruct (decide (malloc (live s) = NULL)); [by right; left|]. right; right. destruct (stack_alloc (stack_bytes s)) eqn:Es; [|done].
      destruct Hno. split_and!; [lia | done | by eexists].
  - destruct (dispatch_idle_ok malloc junk stack_alloc f a s c idle active gs run Hi) as (s' & x & E & Hi' & _ & _ & Hc).
    eexists _, s', _, _. split_and!; try done. set_solver.
Qed.

Lemma flag_ok s v : sched_inv s v → current s ∈ everyone v →
  ∃ b s', is_wakeup_by_timeout s = Ok (b, s') ∧ sched_inv s' v ∧ current s' = current s.
Proof using Type.
  intros Hi Hc. destruct (si_coros _ _ Hi _ Hc) as (_ & x & Hx & _). unfold is_wakeup_by_timeout. rewrite (get_coro_ok _ _ _ Hx). cres_simpl.
  eexists _, _. split; [done|]. split; [by apply active_flag_ok | done].
Qed.

Lemma check_ok s idle active gs run now :
  sched_inv s (View idle active gs run) →
  ∃ s' active' gs', check_timeout_coroutine s now = Ok s' ∧ sched_inv s' (View idle active' gs' run) ∧
    (∀ p, p ∈ pairs gs' → p ∈ pairs gs ∧ now < p.2) ∧ active' ++ waiters gs' ≡ₚ active ++ waiters gs.
Proof using Type.
  intros Hi. destruct (check_timeout_loop_ok (size (tm_nodes s)) s idle active gs run now Hi) as (s' & ws & gs' & E & H1 & H2 & _ & H4 & _).
  { pose proof (si_waiting _ _ Hi) as ((u & Hrep & _ & Hu) & _). pose proof (rep_size _ _ Hrep) as Hsz. rewrite Hu, length_fmap in Hsz. done. }
  eexists s', _, gs'. split; [done|]. split; [done|]. split; [|rewrite <-!pairs_waiters, <-H2, fmap_app; by rewrite app_assoc]. intros p Hp. split; [rewrite <-H2; apply elem_of_app; by right | exact (proj1 (Forall_forall _ _) H4 p Hp)].
Qed.

(** Sleeping. *)
Lemma sleep_ok s idle active gs run now last ms :
  sched_inv s (View idle active gs (current s :: run)) → 0 ≤ last ≤ now → now < last + HORIZON → now < 2 ^ 62 → 0 ≤ ms ≤ HORIZON →
  Forall (λ p, last ≤ p.2 ≤ now + HORIZON) (pairs gs) →
  ∃ s' gs' run', schedule_timeout malloc s now ms = Ok s' ∧ sched_inv s' (View idle active gs' run') ∧
    Forall (λ p, last ≤ p.2 ≤ now + HORIZON) (pairs gs') ∧ waiters gs' ++ run' ≡ₚ waiters gs ++ current s :: run.
Proof using Hfresh Hal.
  intros Hi Hl Hn Hmax Hms Hp. assert (Hc : current s ∈ everyone (View idle active gs (current s :: run))) by (unfold everyone; cbn; clear; set_solver).
  destruct (si_coros _ _ Hi _ Hc) as (_ & x & Hx & _). pose proof (si_waiting _ _ Hi) as (_ & _ & _ & _ & Hne).
  destruct (schedule_timeout_ok malloc s idle active gs run (current s) x now ms) as (s' & E & _ & _ & [(gs' & Hi' & Hp')|(Hi' & _)]); try done.
  - unfold HORIZON in *. lia.
  - by apply (window_times now last).
  - exists s', gs', run. split_and!; [done | done | |]; [rewrite Hp'; apply Forall_cons; split; [cbn; lia | done]|].
    rewrite <-!pairs_waiters, Hp'. cbn. by rewrite Permutation_middle.
  - by exists s', gs, (current s :: run).
Qed.

Lemma machine_step_keeps m m' v : machine_inv m v → sched_step m m' → ∃ v', machine_inv m' v' ∧ step_keeps m m' v v'.
Proof using Hfresh Hal.
  intros [Hi Hclk Ht Hmode] Hs. destruct v as [idle active gs run].
  destruct Hs as [md s now last now' Hnow Hmax|s now last s' E|p s now last c s' Hp E Hc|p s now last s' Hp E|s now last c s' Hsus E
    |s now last c s' Hsus E|s now last|p s now last f a r s' E|p s now last b s' E|p s now last ms s' Hms E|p s now last s' E];
    cbn [m_mode m_sched m_now m_last v_groups v_run] in *.
  - eexists. split; [split; [exact Hi | cbn; lia | | done] | by split]. cbn. eapply Forall_impl; [exact Ht|]. cbn. lia.
  - destruct (check_ok s idle active gs run now Hi) as (s1 & act' & gs' & E1 & Hi1 & Hp & Hpm). rewrite E in E1. injection E1 as <-.
    eexists. split; [split; [exact Hi1 | cbn; unfold HORIZON; lia | | done]|].
    + cbn. apply Forall_forall. intros p Hin. destruct (Hp p Hin) as [Hold Hlt]. pose proof (proj1 (Forall_forall _ _) Ht p Hold). cbn in *. lia.
    + split; try done. intros c Hc _. unfold off_idle in *. cbn in *. rewrite app_assoc in *. by rewrite Hpm.
  - pose proof (get_active_ok _ _ _ _ _ Hi) as Hga. destruct active as [|c' active]; [rewrite E in Hga; by injection Hga as -> _|].
    destruct Hga as (s1 & E1 & Hi1 & _ & _). rewrite E in E1. injection E1 as <- <-.
    eexists. split; [split; [by apply inv_current | done | done |]|]; [split; [done|]; by exists run|].
    split; try done. intros d Hd _. unfold off_idle in *. cbn in *. clear -Hd. set_solver.
  - pose proof (get_active_ok _ _ _ _ _ Hi) as Hga. destruct active as [|c' active].
    + rewrite E in Hga. injection Hga as ->. by exists (View idle [] gs run).
    + destruct Hga as (s1 & E1 & Hi1 & _ & _). rewrite E in E1. injection E1 as <- <-. exfalso.
      apply (aligned_nonnull NULL); [|done]. apply (everyone_aligned _ _ _ Hi). unfold everyone. cbn. clear. set_solver.
  - destruct (wake_ok s _ c Hi Hsus) as [(s1 & v' & E1 & Hi1 & Hsub & Hpm) _]. rewrite E in E1. injection E1 as <-. exists v'.
    split; [split; [done | done | | done] | split; try done; intros d Hd _; by rewrite <-Hpm].
    cbn. apply Forall_forall. intros p Hin. exact (proj1 (Forall_forall _ _) Ht p (Hsub p Hin)).
  - destruct (wake_ok s _ c Hi Hsus) as [_ (s1 & v' & E1 & Hi1 & Hsub & Hpm)]. rewrite E in E1. injection E1 as <-. exists v'.
    split; [split; [done | done | | done] | split; try done; intros d Hd _; by rewrite <-Hpm].
    cbn. apply Forall_forall. intros p Hin. exact (proj1 (Forall_forall _ _) Ht p (Hsub p Hin)).
  - eexists. split; [by split | by split].
  - destruct Hmode as (Hrp & run' & ->). destruct (dispatch_ok s idle active gs (current s :: run') f a Hi) as (r1 & s1 & i' & a' & E1 & Hi1 & Hc & Hsub).
    rewrite E in E1. injection E1 as <- <-. eexists. split; [split; [exact Hi1 | done | done |] | split; try done].
    + split; [done|]. exists run'. cbn. by rewrite Hc.
    + intros d Hd _. unfold off_idle in *. cbn in *. clear -Hd Hsub. set_solver.
  - destruct Hmode as (Hrp & run' & ->). destruct (flag_ok s _ Hi) as (b1 & s1 & E1 & Hi1 & Hc); [unfold everyone; cbn; clear; set_solver|].
    rewrite E in E1. injection E1 as <- <-. eexists. split; [split; [exact Hi1 | done | done |] | by split]. split; [done|]. exists run'. cbn. by rewrite Hc.
  - destruct Hmode as (Hrp & run' & ->). destruct Hclk as (Hl1 & Hl2 & Hl3).
    destruct (sleep_ok s idle active gs run' now last ms Hi Hl1 Hl2 Hl3 Hms Ht) as (s1 & gs' & r' & E1 & Hi1 & Ht1 & Hpm).
    rewrite E in E1. injection E1 as <-. eexists. split; [by split; [exact Hi1 | | exact Ht1 |] | split; try done].
    + intros d Hd _. unfold off_idle in *. cbn in *. by rewrite Hpm.
    + intros _ [= ->]. by destruct Hrp.
  - destruct Hmode as (Hrp & run' & ->). destruct (coro_return_ok s idle active gs run' (current s) Hi) as (s1 & E1 & Hi1 & _).
    rewrite E in E1. injection E1 as <-. eexists. split; [by split; [exact Hi1 | | |] | split; try done].
    + intros d Hd Hne. specialize (Hne p eq_refl). unfold off_idle in *. cbn in *. clear -Hd Hne. set_solver.
    + intros _ [= ->]. by destruct Hrp.
Qed.

Lemma machine_step_inv m m' v : machine_inv m v → sched_step m m' → ∃ v', machine_inv m' v'.
Proof using Hfresh Hal. intros Hm Hs. destruct (machine_step_keeps m m' v Hm Hs) as (v' & ? & _). by exists v'. Qed.

(** Whatever the program does next is defined. *)
Definition proceeds (m : machine) : Prop :=
  let s := m_sched m in
  match m_mode m with
  | In_main Check_timers => ∃ s', check_timeout_coroutine s (m_now m) = Ok s'
  | In_main Wait_events =>
    (∃ t, get_recent_timespan s (m_now m) = Ok t ∧ 0 ≤ t) ∧
    ∀ c, suspended s c → (∃ s', wakeup_coro s c = Ok s') ∧ (∃ s', wakeup_coro_priority s c = Ok s')
  | In_main _ => ∃ c s', get_active_coroutine s = Ok (c, s')
  | In_coro _ =>
    (∀ f a, ∃ r s', dispatch_coro malloc junk stack_alloc s f a = Ok (r, s')) ∧
    (∃ b s', is_wakeup_by_timeout s = Ok (b, s')) ∧
    (∀ ms, 0 ≤ ms ≤ HORIZON → ∃ s', schedule_timeout malloc s (m_now m) ms = Ok s') ∧
    (∃ s', coro_routine_return s (current s) = Ok s')
  end.

Lemma machine_proceeds m v : machine_inv m v → proceeds m.
Proof using Hfresh Hal.
  destruct m as [md s now last], v as [idle active gs run]. intros [Hi (Hl1 & Hl2 & Hl3) Ht Hmode]. cbn [m_mode m_sched m_now m_last v_groups v_run] in *.
  pose proof (get_active_ok _ _ _ _ _ Hi) as Hga. unfold proceeds. cbn [m_sched m_mode m_now]. destruct md as [[]|p].
  - destruct (check_ok s idle active gs run now Hi) as (s' & _ & _ & E & _). by exists s'.
  - destruct active as [|c active]; [eauto|]. destruct Hga as (s' & E & _). eauto.
  - split.
    + pose proof (recent_timespan_ok s idle active gs run now Hi ltac:(lia)) as Hr. destruct gs as [|g gs].
      * exists 10000. split; [apply Hr | lia]. constructor.
      * destruct Hr as [E _]; [eapply Forall_impl; [exact Ht|]; cbn; unfold HORIZON; lia|]. eexists. split; [exact E | lia].
    + intros c Hsus. destruct (wake_ok s _ c Hi Hsus) as [(s1 & _ & E1 & _) (s2 & _ & E2 & _)]. split; [by exists s1 | by exists s2].
  - destruct active as [|c active]; [eauto|]. destruct Hga as (s' & E & _). eauto.
  - destruct Hmode as (_ & run' & ->). split_and!.
    + intros f a. destruct (dispatch_ok s idle active gs _ f a Hi) as (r & s' & _ & _ & E & _). by exists r, s'.
    + destruct (flag_ok s _ Hi) as (b & s' & E & _); [unfold everyone; cbn; clear; set_solver|]. by exists b, s'.
    + intros ms Hms. destruct (sleep_ok s idle active gs run' now last ms Hi Hl1 Hl2 Hl3 Hms Ht) as (s' & _ & _ & E & _). by exists s'.
    + destruct (coro_return_ok s idle active gs run' (current s) Hi) as (s' & E & _). by exists s'.
Qed.

Lemma machine_reach_inv m m' v : machine_inv m v → rtc sched_step m m' → ∃ v', machine_inv m' v'.
Proof using Hfresh Hal.
  intros Hm Hr. revert v Hm. induction Hr as [|m m1 m' Hs _ IH]; intros v Hm; [by exists v|].
  destruct (machine_step_inv _ _ _ Hm Hs) as [v1 Hm1]. by apply (IH v1).
Qed.

(** What a worker does before it enters the cycle: it initialises the scheduler and
    dispatches its first coroutine. *)
Definition started (l : gset Z) (h : gmap Z list_head) (kb max f a now : Z) (m : machine) : Prop :=
  ∃ s0 r s, schedule_init malloc l h kb max = Ok (Running s0) ∧ dispatch_coro malloc junk stack_alloc s0 f a = Ok (r, s) ∧
    m = Machine (In_main Check_timers) s now now.

Lemma started_inv l h kb max f a now m :
  memory_ok l h → 4 ≤ max < 2 ^ 31 → 0 ≤ now < 2 ^ 62 → started l h kb max f a now m → ∃ v, machine_inv m v.
Proof using Hfresh Hal.
  intros Hl Hmax Hnow (s0 & r & s & E0 & E1 & ->).
  destruct (schedule_init_ok malloc l h kb max Hfresh Hal Hl Hmax) as [E|(s' & E & Hi & _)]; rewrite E0 in E; [done|]. injection E as <-.
  destruct (dispatch_ok s0 [] [] [] [] f a Hi) as (r1 & s1 & i' & a' & E2 & Hi1 & _). rewrite E1 in E2. injection E2 as <- <-.
  eexists. split; [exact Hi1 | cbn; unfold HORIZON; lia | constructor | done].
Qed.

End Machine.

(** C12: the scheduler never goes wrong.  In every state the cycle can reach, with whatever
    coroutines do and whatever order events arrive in, each coroutine is in exactly one of
    the idle list, the runnable list, the timers or the group that runs or is suspended
    without a timer, the timer trees are well formed, and whatever the program does next is
    defined: no pointer is used after its object is freed, no list or tree is corrupted, no
    signed overflow, no loop that does not end.  (A cycle and a sleep take less than
    [HORIZON] milliseconds.) *)
Theorem sched_safe malloc junk stack_alloc l h kb max f a now m0 m :
  fresh_malloc malloc → aligned_malloc malloc → memory_ok l h → 4 ≤ max < 2 ^ 31 → 0 ≤ now < 2 ^ 62 →
  started malloc junk stack_alloc l h kb max f a now m0 → rtc (sched_step malloc junk stack_alloc) m0 m →
  (∃ v, sched_inv (m_sched m) v) ∧ proceeds malloc junk stack_alloc m.
Proof.
  intros Hf Ha Hl Hmax Hnow Hst Hr. destruct (started_inv _ _ _ Hf Ha _ _ _ _ _ _ _ _ Hl Hmax Hnow Hst) as [v0 H0].
  destruct (machine_reach_inv _ _ _ Hf Ha _ _ _ H0 Hr) as [v Hv]. split; [exists v; apply Hv | by apply (machine_proceeds _ _ _ Hf Ha m v)].
Qed.

(** [schedule_init] aborts for fewer than four coroutines, ends the process if the timer
    pool cannot be created, and otherwise leaves an empty scheduler that satisfies the
    invariant and has room for [max] coroutines. *)
Theorem schedule_init_spec malloc l h kb max :
  fresh_malloc malloc → aligned_malloc malloc → memory_ok l h → 0 ≤ max < 2 ^ 31 →
  if max <? 4 then schedule_init malloc l h kb max = Ok Aborted
  else schedule_init malloc l h kb max = Ok (Exit 0) ∨
    ∃ s, schedule_init malloc l h kb max = Ok (Running s) ∧ sched_inv s (View [] [] [] []) ∧
      max_coro_size s = max ∧ stack_bytes s = size_t (kb * 1024).
Proof.
  intros Hf Ha Hl Hmax. destruct (max <? 4) eqn:E.
  - unfold schedule_init. destruct (negb (2 <=? max)) eqn:E2; [done|]. destruct Hl as (_ & _ & _ & Hm1 & Hm2).
    destruct (INIT_LIST_HEAD_ok h IDLE Hm1) as (h1 & -> & Hd1 & Hf1). cres_simpl.
    destruct (INIT_LIST_HEAD_ok h1 ACTIVE) as (h2 & -> & _); [by rewrite Hf1|]. cres_simpl.
    unfold memcache_create. assert (max / 2 < 2) by (apply Z.div_lt_upper_bound; lia). rewrite (proj2 (Z.leb_gt _ _)) by lia. done.
  - destruct (schedule_init_ok malloc l h kb max Hf Ha Hl) as [?|(s & E1 & Hi & ? & ? & _)]; [lia | by left | right; by exists s].
Qed.

