(* ===== verification/SchedDemo.v ===== *)
(** The scheduler's theorems at concrete states: two coroutines are dispatched, the first one
    runs at time 1000 and goes to sleep for 50 milliseconds. *)

From stdpp Require Import base gmap list numbers strings sets sorting.
From Stdlib Require Import ZArith Lia.
From S2P Require Import Prelude ListHead Memcache RbTree RbRep RbInsert RbErase RbEraseColor RbProps.
From S2P Require Import Sched SchedSearch SchedInv SchedLists SchedOps SchedSteps SchedProps.

Definition mem : gset Z := {[IDLE; ACTIVE]}.
Definition heads : gmap Z list_head := {[IDLE := Node NULL NULL; ACTIVE := Node NULL NULL]}.
Definition blocks : gset Z → Z := arena 20.
Definition junk0 : list_head * rb_node * coroutine := (Node 3 3, RbNode 3 3 3, Coroutine 3 (3, 3) 3 3 3 true).
Definition stacks (n : Z) : option (Z * Z) := if n <=? 65536 then Some (8192, n) else None.

Lemma arena_aligned n : aligned_malloc (arena n).
Proof.
  intros l. unfold arena. destruct (filter _ _) as [|p l'] eqn:E; [by left|right]. cbn.
  assert (Hp : p ∈ p :: l') by (by left). rewrite <-E in Hp. apply list_elem_of_filter in Hp as [_ (i & -> & Hi%elem_of_seq)%list_elem_of_fmap].
  unfold aligned. split; [lia|]. rewrite Z.mul_mod by lia. done.
Qed.

Lemma mem_ok : memory_ok mem heads.
Proof.
  unfold memory_ok. split_and!; [set_solver | set_solver | | by eexists | by eexists].
  intros q [->%elem_of_singleton | ->%elem_of_singleton]%elem_of_union; done.
Qed.

(** The state in a result, if there is one. *)
Definition state_of {A} (d : coro_schedule) (get : A → coro_schedule) (r : cres A) : coro_schedule :=
  match r with Ok a => get a | _ => d end.

Definition none : coro_schedule := Schedule 0 0 0 0 0 0 (Cache 0 [] 0 0 0) ∅ ∅ ∅ ∅ ∅ ∅.
Definition demo0 : coro_schedule := state_of none (λ r, match r with Running s => s | _ => none end) (schedule_init blocks mem heads 16 8).
Definition demo1 : coro_schedule := state_of none snd (dispatch_coro blocks junk0 stacks demo0 70 71).
Definition demo2 : coro_schedule := state_of none snd (dispatch_coro blocks junk0 stacks demo1 80 81).
Definition demo3 : coro_schedule := state_of none (λ r, coroutine_switch r.2 r.1) (get_active_coroutine demo2).
Definition demo4 : coro_schedule := state_of none id (schedule_timeout blocks demo3 1000 50).

Ltac concrete := vm_compute; (reflexivity || discriminate).

Lemma demo0_ok : sched_inv demo0 (View [] [] [] []).
Proof.
  destruct (schedule_init_ok blocks mem heads 16 8 (arena_fresh 20) (arena_aligned 20) mem_ok ltac:(lia)) as [E|(s & E & Hi & _)]; [vm_compute in E; discriminate E|].
  assert (demo0 = s) as <- by (unfold demo0; rewrite E; reflexivity). done.
Qed.

Lemma demo1_ok : sched_inv demo1 (View [] [192] [] []).
Proof.
  destruct (dispatch_new_ok blocks junk0 stacks 70 71 (arena_fresh 20) (arena_aligned 20) demo0 [] [] [] demo0_ok) as (s & x & E & _ & Hi & _);
    [concrete | concrete | by eexists |]. assert (demo1 = s) as -> by (unfold demo1; rewrite E; reflexivity). exact Hi.
Qed.

Lemma demo2_ok : sched_inv demo2 (View [] [192; 256] [] []).
Proof.
  destruct (dispatch_new_ok blocks junk0 stacks 80 81 (arena_fresh 20) (arena_aligned 20) demo1 [192] [] [] demo1_ok) as (s & x & E & _ & Hi & _);
    [concrete | concrete | by eexists |]. assert (demo2 = s) as -> by (unfold demo2; rewrite E; reflexivity). exact Hi.
Qed.

Lemma demo3_ok : sched_inv demo3 (View [] [256] [] [192]).
Proof.
  destruct (get_active_ok _ _ _ _ _ demo2_ok) as (s & E & Hi & _). assert (demo3 = coroutine_switch s 192) as -> by (unfold demo3; rewrite E; reflexivity).
  by apply inv_current.
Qed.

Definition coro192 : coroutine := Coroutine 1 (8192, 16384) 70 71 0 false.

Lemma demo4_ok : ∃ gs, sched_inv demo4 (View [] [256] gs []) ∧ pairs gs = [(192, 1050)].
Proof.
  destruct (schedule_timeout_ok blocks demo3 [] [256] [] [] 192 coro192 1000 50) as (s & E & _ & _ & H);
    [apply arena_fresh | apply arena_aligned | exact demo3_ok | concrete | concrete | lia | constructor |].
  assert (demo4 = s) as -> by (unfold demo4; rewrite E; reflexivity). destruct H as [(gs & Hi & Hp)|(_ & Hc & _)]; [|vm_compute in Hc; discriminate Hc].
  exists gs. split; [done|]. by apply Permutation_singleton_r in Hp.
Qed.

Lemma schedule_timeout_spec_witness :
  ∃ s', schedule_timeout blocks demo3 1000 50 = Ok s' ∧ current s' = MAIN_CORO ∧
    ∃ gs', sched_inv s' (View [] [256] gs' []) ∧ pairs gs' ≡ₚ [(192, 1000 + 50)].
Proof.
  destruct (schedule_timeout_spec blocks demo3 [] [256] [] [] 192 coro192 1000 50) as (s' & E & Hm & [H|(_ & Hc & _)]);
    [apply arena_fresh | apply arena_aligned | exact demo3_ok | concrete | concrete | lia | constructor | | vm_compute in Hc; discriminate Hc].
  exists s'. split; [exact E|]. split; [exact Hm | exact H].
Defined.

Lemma check_timeout_spec_witness :
  ∃ gs, sched_inv demo4 (View [] [256] gs []) ∧ pairs gs = [(192, 1050)] ∧
  ∃ s' ws gs', check_timeout_coroutine demo4 2000 = Ok s' ∧ sched_inv s' (View [] ([256] ++ ws.*1) gs' []) ∧
    ws ++ pairs gs' ≡ₚ pairs gs ∧ Forall (λ p, p.2 ≤ 2000) ws ∧ Forall (λ p, 2000 < p.2) (pairs gs') ∧
    StronglySorted (λ p q, p.2 ≤ q.2) ws ∧ flagged ws.*1 (coros demo4) (coros s').
Proof.
  destruct demo4_ok as (gs & Hi & Hp). exists gs. split; [exact Hi|]. split; [exact Hp|].
  exact (check_timeout_spec demo4 [] [256] gs [] 2000 Hi).
Defined.

Lemma wakeup_spec_witness :
  ∃ gs, sched_inv demo4 (View [] [256] gs []) ∧ 192 ∈ waiters gs ∧
  ∃ gs', pairs gs ≡ₚ (192, 1050) :: pairs gs' ∧
    (∃ s', wakeup_coro demo4 192 = Ok s' ∧ sched_inv s' (View [] ([256] ++ [192]) gs' []) ∧
       coros s' = <[192 := set_active_by_timeout (set_timeout coro192 1050) false]> (coros demo4) ∧ current s' = current demo4) ∧
    (∃ s', wakeup_coro_priority demo4 192 = Ok s' ∧ sched_inv s' (View [] [192; 256] gs' []) ∧
       coros s' = <[192 := set_active_by_timeout (set_timeout coro192 1050) false]> (coros demo4) ∧ current s' = current demo4).
Proof.
  destruct demo4_ok as (gs & Hi & Hp). exists gs. split; [exact Hi|].
  assert (Hc : 192 ∈ waiters gs) by (rewrite <-pairs_waiters, Hp; by left). split; [exact Hc|].
  apply (wakeup_spec demo4 [] [256] gs [] 192 (set_timeout coro192 1050) Hi Hc). vm_compute. reflexivity.
Defined.

Lemma dispatch_spec_witness :
  ∃ gs s' x, sched_inv demo4 (View [] [256] gs []) ∧
    dispatch_coro blocks junk0 stacks demo4 90 91 = Ok (0, s') ∧ blocks (live demo4) ∉ everyone (View [] [256] gs []) ∧
    sched_inv s' (View [] ([256] ++ [blocks (live demo4)]) gs []) ∧ dispatched 90 91 x ∧
    coros s' = <[blocks (live demo4) := x]> (coros demo4).
Proof.
  destruct demo4_ok as (gs & Hi & Hp).
  pose proof (dispatch_spec blocks junk0 stacks demo4 [] [256] gs [] 90 91 (arena_fresh 20) (arena_aligned 20) Hi) as H.
  cbv beta iota in H. rewrite bool_decide_eq_true_2 in H; [destruct H as (s' & x & H); exists gs, s', x; exact (conj Hi H)|].
  split_and!; [concrete | concrete | vm_compute; by eexists].
Defined.

Lemma timespan_spec_witness :
  ∃ gs, sched_inv demo4 (View [] [256] gs []) ∧ pairs gs = [(192, 1050)] ∧
  ∃ t, get_recent_timespan demo4 1010 = Ok t ∧ 0 ≤ t ∧
    (pairs gs = [] → t = 10000) ∧
    (∀ p, p ∈ pairs gs → t ≤ Z.max 0 (p.2 - 1010)) ∧
    (pairs gs ≠ [] → ∃ p, p ∈ pairs gs ∧ t = Z.max 0 (p.2 - 1010)).
Proof.
  destruct demo4_ok as (gs & Hi & Hp). exists gs. split; [exact Hi|]. split; [exact Hp|].
  apply (timespan_spec demo4 [] [256] gs [] 1010 Hi); [lia|]. rewrite Hp. repeat constructor; cbn; lia.
Defined.

Lemma schedule_init_spec_witness :
  schedule_init blocks mem heads 16 3 = Ok Aborted ∧
  (schedule_init blocks mem heads 16 8 = Ok (Exit 0) ∨
    ∃ s, schedule_init blocks mem heads 16 8 = Ok (Running s) ∧ sched_inv s (View [] [] [] []) ∧
      max_coro_size s = 8 ∧ stack_bytes s = size_t (16 * 1024)).
Proof.
  split.
  - apply (schedule_init_spec blocks mem heads 16 3); [apply arena_fresh | apply arena_aligned | apply mem_ok | lia].
  - apply (schedule_init_spec blocks mem heads 16 8); [apply arena_fresh | apply arena_aligned | apply mem_ok | lia].
Defined.

(** The worker starts, finds no timer due and runs its first coroutine, which sleeps. *)
Definition begun : machine := Machine (In_main Check_timers) demo1 1000 1000.
Definition asleep : machine :=
  Machine (In_main Run_first) (state_of none id (schedule_timeout blocks (state_of none (λ r, coroutine_switch r.2 r.1) (get_active_coroutine demo1)) 1000 50)) 1000 1000.

Lemma begun_ok : started blocks junk0 stacks mem heads 16 8 70 71 1000 begun.
Proof. exists demo0, 0, demo1. split; [vm_compute; reflexivity|]. split; [vm_compute; reflexivity|]. done. Qed.

Lemma asleep_reached : rtc (sched_step blocks junk0 stacks) begun asleep.
Proof.
  eapply rtc_l; [apply step_check; vm_compute; reflexivity|].
  eapply rtc_l; [eapply (step_run _ _ _ Run_first _ _ _ 192); [by left | vm_compute; reflexivity | done]|].
  apply rtc_once, (step_sleep _ _ _ _ _ _ _ 50); [unfold HORIZON; lia | vm_compute; reflexivity].
Qed.

Lemma sched_safe_witness : (∃ v, sched_inv (m_sched asleep) v) ∧ proceeds blocks junk0 stacks asleep.
Proof.
  apply (sched_safe blocks junk0 stacks mem heads 16 8 70 71 1000 begun asleep);
    [apply arena_fresh | apply arena_aligned | apply mem_ok | lia | lia | exact begun_ok | exact asleep_reached].
Defined.
