(* ===== verification/Spinlock.v ===== *)
(** The ticket lock: [src/util/spinlock.h].

    Every access to the lock is one atomic action, as the fences make them; any interleaving
    of any number of threads or processes is possible.  A thread is where its program
    counter is: outside the lock, inside a call, or in its critical section.  Two history
    variables count the tickets taken and served since the initialisation without bound;
    no action reads them. *)

From stdpp Require Import base gmap list numbers strings sets.
From Stdlib Require Import ZArith Lia.
From S2P Require Import Prelude.

(** [spinlock_t] *)
Record spinlock_t : Type := Spinlock { start : Z; ticket : Z }.

Definition spin_lock_init : spinlock_t := Spinlock 0 0.

(** Where a thread is.  [Try_cas t v]: [spin_trylock] has read [start] as [t], when [v]
    tickets had been served. *)
Inductive pc : Type :=
| Outside
| Lock_begin
| Lock_spin (t : Z)
| Try_begin
| Try_cas (t v : Z)
| Inside
| Unlock_begin
| Unlock_store (v : Z).

(** [spin_lock]: take a ticket; then read [start] until it is our ticket. *)
Definition lock_fetch_add (l : spinlock_t) : pc * spinlock_t :=
  (Lock_spin (ticket l), Spinlock (start l) (u32 (ticket l + 1))).
Definition lock_test (l : spinlock_t) (t : Z) : pc * spinlock_t :=
  (if start l =? t then Inside else Lock_spin t, l).

(** [spin_trylock]: read [start]; take that ticket if it is the next one. *)
Definition trylock_read (l : spinlock_t) (v : Z) : pc * spinlock_t := (Try_cas (start l) v, l).
Definition trylock_cas (l : spinlock_t) (t : Z) : pc * spinlock_t :=
  if ticket l =? t then (Inside, Spinlock (start l) (u32 (t + 1))) else (Outside, l).

(** [spin_unlock]: [lock->start++] is a read and a write. *)
Definition unlock_read (l : spinlock_t) : pc * spinlock_t := (Unlock_store (start l), l).
Definition unlock_write (l : spinlock_t) (v : Z) : pc * spinlock_t := (Outside, Spinlock (u32 (v + 1)) (ticket l)).

(** The next action of a thread inside a call. *)
Definition spin_act (served : Z) (l : spinlock_t) (p : pc) : pc * spinlock_t :=
  match p with
  | Outside | Inside => (p, l)
  | Lock_begin => lock_fetch_add l
  | Lock_spin t => lock_test l t
  | Try_begin => trylock_read l served
  | Try_cas t _ => trylock_cas l t
  | Unlock_begin => unlock_read l
  | Unlock_store v => unlock_write l v
  end.

Record system : Type := System { lock : spinlock_t; threads : gmap Z pc; taken : Z; served : Z }.

(** The history variables follow the fields. *)
Definition took (l l' : spinlock_t) : Z := if ticket l' =? ticket l then 0 else 1.
Definition gave (l l' : spinlock_t) : Z := if start l' =? start l then 0 else 1.
Definition advance (s : system) (i : Z) (r : pc * spinlock_t) : system :=
  System r.2 (<[i := r.1]> (threads s)) (taken s + took (lock s) r.2) (served s + gave (lock s) r.2).

(** A thread enters a call, performs an action of it, or leaves its critical section. *)
Inductive spin_step (s : system) (i : Z) : system → Prop :=
| call_lock : threads s !! i = Some Outside → spin_step s i (advance s i (Lock_begin, lock s))
| call_trylock : threads s !! i = Some Outside → spin_step s i (advance s i (Try_begin, lock s))
| call_unlock : threads s !! i = Some Inside → spin_step s i (advance s i (Unlock_begin, lock s))
| in_call p : threads s !! i = Some p → p ≠ Outside → p ≠ Inside → spin_step s i (advance s i (spin_act (served s) (lock s) p)).

Definition spin_start (ids : gset Z) : system := System spin_lock_init (gset_to_gmap Outside ids) 0 0.

(** No compare-and-swap comes so late that the 32-bit counter has gone round meanwhile. *)
Definition timely (s : system) : Prop :=
  ∀ i t v, threads s !! i = Some (Try_cas t v) → taken s - v < 2 ^ 32.

Definition timely_step (s s' : system) : Prop := timely s ∧ ∃ i, spin_step s i s'.

(** ** The specification: a lock that is granted in the order of the requests *)

Record fifo : Type := Fifo { holder : option Z; waiting : list Z }.

Definition queue (a : fifo) : list Z := option_list (holder a) ++ waiting a.

Inductive fifo_step (i : Z) : fifo → fifo → Prop :=
| fifo_request h w : i ∉ queue (Fifo h w) → fifo_step i (Fifo h w) (Fifo h (w ++ [i]))
| fifo_grant w : fifo_step i (Fifo None (i :: w)) (Fifo (Some i) w)
| fifo_try : fifo_step i (Fifo None []) (Fifo (Some i) [])
| fifo_release w : fifo_step i (Fifo (Some i) w) (Fifo None w).

Definition held (a : fifo) : Z := Z.of_nat (length (option_list (holder a))).

(** The program counters of a holder, and of a thread without a ticket. *)
Definition critical (l : spinlock_t) (p : pc) : Prop :=
  match p with
  | Inside | Unlock_begin => True
  | Unlock_store v => v = start l
  | _ => False
  end.
Definition without (s : system) (p : pc) : Prop :=
  match p with
  | Outside | Lock_begin | Try_begin => True
  | Try_cas t v => t = u32 v ∧ v ≤ served s
  | _ => False
  end.

Record spin_inv (s : system) (a : fifo) : Prop := SpinInv {
  sp_count : taken s = served s + Z.of_nat (length (queue a)) ∧ 0 ≤ served s;
  sp_lock : lock s = Spinlock (u32 (served s)) (u32 (taken s));
  sp_nodup : NoDup (queue a);
  sp_holder : ∀ i, holder a = Some i → ∃ p, threads s !! i = Some p ∧ critical (lock s) p;
  sp_waiting : ∀ k i, waiting a !! k = Some i → threads s !! i = Some (Lock_spin (u32 (served s + held a + Z.of_nat k)));
  sp_without : ∀ i p, threads s !! i = Some p → i ∉ queue a → without s p;
}.

(** ** Counters *)

Lemma u32_add a b : u32 (u32 a + b) = u32 (a + b).
Proof. unfold u32. by rewrite Z.add_mod_idemp_l by lia. Qed.

Lemma u32_eq a b : u32 a = u32 b → 0 ≤ b - a < 2 ^ 32 → a = b.
Proof.
  unfold u32. intros E H. assert ((b - a) mod 2 ^ 32 = 0) as Hm by (rewrite Zminus_mod, E, Z.sub_diag; done).
  rewrite Z.mod_small in Hm by lia. lia.
Qed.

Lemma u32_succ_ne t : u32 (t + 1) ≠ t.
Proof. unfold u32. intros E. Z.div_mod_to_equations. lia. Qed.

Lemma took_one l l' : ticket l' = u32 (ticket l + 1) → took l l' = 1.
Proof. intros E. unfold took. rewrite E. destruct (_ =? _) eqn:H; [|done]. by apply Z.eqb_eq, u32_succ_ne in H. Qed.
Lemma gave_one l l' : start l' = u32 (start l + 1) → gave l l' = 1.
Proof. intros E. unfold gave. rewrite E. destruct (_ =? _) eqn:H; [|done]. by apply Z.eqb_eq, u32_succ_ne in H. Qed.
Lemma took_none l l' : ticket l' = ticket l → took l l' = 0.
Proof. intros E. unfold took. by rewrite E, Z.eqb_refl. Qed.
Lemma gave_none l l' : start l' = start l → gave l l' = 0.
Proof. intros E. unfold gave. by rewrite E, Z.eqb_refl. Qed.

Lemma advance_quiet s i p : advance s i (p, lock s) = System (lock s) (<[i := p]> (threads s)) (taken s) (served s).
Proof. unfold advance. cbn. rewrite took_none, gave_none by done. by rewrite !Z.add_0_r. Qed.

(** ** The invariant is preserved *)

Section Inv.
  Context (s : system) (a : fifo) (i : Z).
  Context (Hi : spin_inv s a) (Hsize : Z.of_nat (size (threads s)) ≤ 2 ^ 32).

(** Whose turn it is. *)
Lemma holder_place p : holder a = Some i → threads s !! i = Some p → critical (lock s) p.
Proof using Hi. intros Hh Hp. destruct (sp_holder _ _ Hi i Hh) as (p' & Hp' & Hc). by simplify_eq. Qed.

Lemma queue_threads j : j ∈ queue a → is_Some (threads s !! j).
Proof using Hi.
  unfold queue. intros [Hj|Hj]%elem_of_app.
  - destruct (holder a) as [h|] eqn:Eh; [|by apply elem_of_nil in Hj]. apply list_elem_of_singleton in Hj as ->.
    destruct (sp_holder _ _ Hi h Eh) as (p & Hp & _). by exists p.
  - apply list_elem_of_lookup in Hj as [k Hk]. eexists. by eapply sp_waiting.
Qed.

Lemma queue_length : Z.of_nat (length (queue a)) ≤ Z.of_nat (size (threads s)).
Proof using Hi.
  apply Nat2Z.inj_le. rewrite <-(size_list_to_set (C := gset Z) (queue a)) by apply (sp_nodup _ _ Hi). rewrite <-size_dom.
  apply subseteq_size. intros j Hj%elem_of_list_to_set. by apply elem_of_dom, queue_threads.
Qed.

Lemma queue_short p : threads s !! i = Some p → i ∉ queue a → Z.of_nat (length (queue a)) < 2 ^ 32.
Proof using Hi Hsize.
  intros Hp Hn. enough (Z.of_nat (length (i :: queue a)) ≤ Z.of_nat (size (threads s))) as H by (cbn [length] in H; lia).
  apply Nat2Z.inj_le. rewrite <-(size_list_to_set (C := gset Z) (i :: queue a)) by (constructor; [done | apply (sp_nodup _ _ Hi)]).
  rewrite <-size_dom. apply subseteq_size. intros j [->|Hj]%elem_of_list_to_set%elem_of_cons; apply elem_of_dom; [by exists p | by apply queue_threads].
Qed.

(** A thread without a ticket does something that does not change the lock. *)
Lemma inv_outside p : i ∉ queue a → without s p → spin_inv (advance s i (p, lock s)) a.
Proof using Hi.
  intros Hn Hp. rewrite advance_quiet. destruct Hi as [Hc Hl Hd Hh Hw Ho]. unfold queue in *. split; cbn; try done.
  - intros j Hj. rewrite lookup_insert_ne; [by apply Hh|]. intros <-. apply Hn. rewrite Hj. by left.
  - intros k j Hj. rewrite lookup_insert_ne; [by apply Hw|]. intros <-. apply Hn, elem_of_app. right. by eapply list_elem_of_lookup_2.
  - intros j q. destruct (decide (i = j)) as [->|Hne].
    + rewrite lookup_insert_eq. intros [= <-] _. destruct p; done.
    + rewrite lookup_insert_ne by done. intros Hq Hj. pose proof (Ho j q Hq Hj). by destruct q.
Qed.

(** The holder moves on without changing the lock. *)
Lemma inv_holder p : holder a = Some i → critical (lock s) p → spin_inv (advance s i (p, lock s)) a.
Proof using Hi.
  intros Hh Hp. rewrite advance_quiet. pose proof (sp_nodup _ _ Hi) as Hd. unfold queue in Hd. rewrite Hh in Hd. cbn in Hd. apply NoDup_cons in Hd as [Hnw Hdw].
  destruct Hi as [Hc Hl Hdq Hho Hw Ho]. split; cbn; try done.
  - intros j Hj. assert (j = i) as -> by congruence. rewrite lookup_insert_eq. eauto.
  - intros k j Hj. rewrite lookup_insert_ne; [by apply Hw|]. intros <-. apply Hnw. by eapply list_elem_of_lookup_2.
  - intros j q Hq Hj. rewrite lookup_insert_ne in Hq; [|intros <-; apply Hj; unfold queue; rewrite Hh; by left].
    pose proof (Ho j q Hq Hj). by destruct q.
Qed.

(** Where a thread of the system is. *)
Lemma located p :
  threads s !! i = Some p →
  (i ∉ queue a ∧ without s p) ∨ (holder a = Some i ∧ critical (lock s) p) ∨
  (∃ k, waiting a !! k = Some i ∧ p = Lock_spin (u32 (served s + held a + Z.of_nat k))).
Proof using Hi.
  intros Hp. destruct (decide (i ∈ queue a)) as [[Hq|Hq]%elem_of_app|Hq]; [right; left | right; right | left].
  - destruct (holder a) as [h|] eqn:Eh; [|by apply elem_of_nil in Hq]. apply list_elem_of_singleton in Hq as ->.
    split; [done|]. destruct (sp_holder _ _ Hi h Eh) as (p' & Hp' & Hc). by simplify_eq.
  - apply list_elem_of_lookup in Hq as [k Hk]. exists k. split; [done|]. pose proof (sp_waiting _ _ Hi k i Hk). by simplify_eq.
  - split; [done|]. by apply (sp_without _ _ Hi i).
Qed.

(** [spin_lock] takes a ticket. *)
Lemma inv_request :
  i ∉ queue a → spin_inv (advance s i (lock_fetch_add (lock s))) (Fifo (holder a) (waiting a ++ [i])).
Proof using Hi.
  intros Hn. unfold advance, lock_fetch_add. cbn. rewrite took_one, gave_none, Z.add_0_r by done. destruct Hi as [[Hc Hz] Hl Hd Hh Hw Ho].
  unfold queue, held in *. rewrite Hl in *. cbn [start ticket] in *. split; cbn.
  - unfold queue. cbn. rewrite Hc, !length_app. cbn. lia.
  - by rewrite u32_add.
  - unfold queue. cbn. rewrite app_assoc. apply NoDup_app. split; [done|]. split; [|apply NoDup_singleton]. intros x Hx ->%list_elem_of_singleton. done.
  - intros j Hj. rewrite lookup_insert_ne; [by apply Hh|]. intros <-. apply Hn. rewrite Hj. by left.
  - intros k j Hj. apply lookup_app_Some in Hj as [Hj|[Hk Hj]].
    + rewrite lookup_insert_ne; [by apply Hw|]. intros <-. apply Hn, elem_of_app. right. by eapply list_elem_of_lookup_2.
    + apply list_lookup_singleton_Some in Hj as [Hk0 ->]. rewrite lookup_insert_eq. do 3 f_equal. unfold held. cbn. rewrite Hc, length_app. lia.
  - intros j q Hq Hj. unfold queue in Hj. cbn in Hj. rewrite lookup_insert_ne in Hq; [|intros <-; apply Hj; rewrite !elem_of_app; right; right; by left].
    assert (Hj' : j ∉ option_list (holder a) ++ waiting a) by (intros Hin; apply Hj; rewrite app_assoc; apply elem_of_app; by left).
    pose proof (Ho j q Hq Hj'). by destruct q.
Qed.

(** The test of [spin_lock] succeeds exactly for the first thread in the queue, when nobody
    holds the lock. *)
Lemma test_turn k :
  waiting a !! k = Some i → start (lock s) = u32 (served s + held a + Z.of_nat k) ↔ holder a = None ∧ k = 0%nat.
Proof using Hi Hsize.
  intros Hk. rewrite (sp_lock _ _ Hi). cbn. pose proof queue_length as Hlen. unfold queue in Hlen. rewrite length_app in Hlen.
  apply lookup_lt_Some in Hk. unfold held. split.
  - intros E%u32_eq; [|lia]. destruct (holder a); cbn in *; [lia|]. split; [done|lia].
  - intros [-> ->]. cbn. f_equal. lia.
Qed.

Lemma inv_grant w :
  a = Fifo None (i :: w) → spin_inv (advance s i (Inside, lock s)) (Fifo (Some i) w).
Proof using Hi.
  intros ->. rewrite advance_quiet. destruct Hi as [[Hc Hz] Hl Hd Hh Hw Ho]. unfold queue, held in *. cbn in *. apply NoDup_cons in Hd as [Hnw Hd].
  split; cbn.
  - done.
  - done.
  - by constructor.
  - intros j [= <-]. rewrite lookup_insert_eq. by exists Inside.
  - intros k j Hj. rewrite lookup_insert_ne; [|intros <-; apply Hnw; by eapply list_elem_of_lookup_2].
    rewrite (Hw (S k) j Hj). unfold held. cbn. do 3 f_equal. lia.
  - intros j q Hq Hj. unfold queue in Hj. cbn in Hj. rewrite lookup_insert_ne in Hq; [|intros <-; apply Hj; by left].
    pose proof (Ho j q Hq Hj). by destruct q.
Qed.

(** The compare-and-swap of [spin_trylock] succeeds only if the lock is free. *)
Lemma cas_free t v :
  threads s !! i = Some (Try_cas t v) → taken s - v < 2 ^ 32 → ticket (lock s) = t → a = Fifo None [].
Proof using Hi.
  intros Hp Hv Ht. destruct (located _ Hp) as [[Hn [-> Hv']]|[[_ []]|(k & _ & ?)]]; [|done].
  destruct (sp_count _ _ Hi) as [Hc Hz]. rewrite (sp_lock _ _ Hi) in Ht. cbn in Ht.
  assert (v = taken s) by (apply u32_eq; [done|lia]). unfold queue in Hc. rewrite length_app in Hc. destruct a as [[h|] [|]]; cbn in *; try done; lia.
Qed.

Lemma inv_try t :
  a = Fifo None [] → ticket (lock s) = t → spin_inv (advance s i (Inside, Spinlock (start (lock s)) (u32 (t + 1)))) (Fifo (Some i) []).
Proof using Hi.
  intros -> <-. unfold advance. cbn. rewrite took_one, gave_none, Z.add_0_r by done. destruct Hi as [[Hc Hz] Hl Hd Hh Hw Ho].
  unfold queue, held in *. cbn in *. rewrite Hl in *. cbn in *. split; cbn.
  - split; [lia|done].
  - by rewrite u32_add.
  - apply NoDup_singleton.
  - intros j [= <-]. rewrite lookup_insert_eq. by exists Inside.
  - intros k j Hj. done.
  - intros j q Hq Hj. unfold queue in Hj. cbn in Hj. rewrite lookup_insert_ne in Hq; [|intros <-; apply Hj; by left].
    pose proof (Ho j q Hq (not_elem_of_nil _)). by destruct q.
Qed.

(** [spin_unlock] serves the next ticket. *)
Lemma inv_release w v :
  a = Fifo (Some i) w → v = start (lock s) → spin_inv (advance s i (unlock_write (lock s) v)) (Fifo None w).
Proof using Hi.
  intros -> ->. unfold advance, unlock_write. cbn. rewrite took_none, gave_one, Z.add_0_r by done. destruct Hi as [[Hc Hz] Hl Hd Hh Hw Ho].
  unfold queue, held in *. cbn in *. rewrite Hl in *. cbn [start ticket] in *. apply NoDup_cons in Hd as [Hnw Hd]. split; cbn.
  - lia.
  - by rewrite u32_add.
  - done.
  - done.
  - intros k j Hj. rewrite lookup_insert_ne; [|intros <-; apply Hnw; by eapply list_elem_of_lookup_2].
    rewrite (Hw k j Hj). unfold held. cbn. do 3 f_equal. lia.
  - intros j q. destruct (decide (i = j)) as [->|Hne]; [rewrite lookup_insert_eq; by intros [= <-]|]. rewrite lookup_insert_ne by done.
    intros Hq Hj. assert (Hj' : j ∉ i :: w) by (intros [->|?]%elem_of_cons; done).
    pose proof (Ho j q Hq Hj') as Hwo. destruct q; try done. cbn in *. destruct Hwo. split; [done|lia].
Qed.

End Inv.

(** Every step of the ticket lock is a step of the specification by the same thread, or none. *)
Lemma spin_simulates s a i s' :
  spin_inv s a → Z.of_nat (size (threads s)) ≤ 2 ^ 32 → timely s → spin_step s i s' →
  ∃ a', (a' = a ∨ fifo_step i a a') ∧ spin_inv s' a'.
Proof.
  intros Hi Hsize Ht Hs. destruct Hs as [Hp|Hp|Hp|p Hp Ho Hin]; destruct (located s a i Hi _ Hp) as [[Hn Hw]|[[Hh Hc]|(k & Hk & Hq)]]; try done.
  - exists a. split; [by left|]. by apply inv_outside.
  - exists a. split; [by left|]. by apply inv_outside.
  - exists a. split; [by left|]. by apply inv_holder.
  - destruct p as [| |t| |t v| | |v]; try done; cbn [spin_act].
    + eexists. split; [|by apply inv_request]. right. destruct a. by apply fifo_request.
    + exists a. split; [by left|]. apply inv_outside; [done | done|]. split; [|done]. by rewrite (sp_lock _ _ Hi).
    + unfold trylock_cas. destruct (ticket (lock s) =? t) eqn:E.
      * apply Z.eqb_eq in E. pose proof (cas_free s a i Hi t v Hp (Ht i t v Hp) E) as Ha.
        eexists. split; [|by eapply inv_try]. right. rewrite Ha. apply fifo_try.
      * exists a. split; [by left|]. by apply inv_outside.
  - destruct p as [| |t| |t v| | |v]; try done; cbn [spin_act].
    + exists a. split; [by left|]. by apply inv_holder.
    + destruct a as [h w]. cbn in Hh. subst h. eexists. split; [|by eapply inv_release]. right. apply fifo_release.
  - rewrite Hq. cbn [spin_act]. unfold lock_test. pose proof (test_turn s a i Hi Hsize k Hk) as Hturn. destruct (_ =? _) eqn:E.
    + apply Z.eqb_eq, Hturn in E as [Hno ->]. destruct a as [h w]. cbn in Hno. subst h. cbn in Hk. destruct w as [|i' w]; [done|]. cbn in Hk. injection Hk as ->.
      eexists. split; [|by eapply inv_grant]. right. apply fifo_grant.
    + exists a. split; [by left|]. rewrite advance_quiet. rewrite insert_id by (by rewrite Hp, Hq). by destruct s.
Qed.
