(* ===== verification/SpinlockProps.v ===== *)
(** What the ticket lock promises: it behaves like a queue, at most one thread is in its
    critical section, and under a fair scheduler every call of [spin_lock] returns. *)

From stdpp Require Import base gmap list numbers strings sets.
From Stdlib Require Import ZArith Lia.
From S2P Require Import Prelude Spinlock.

Definition in_section (p : pc) : Prop :=
  match p with Inside | Unlock_begin | Unlock_store _ => True | _ => False end.
Definition spinning (p : pc) : Prop := match p with Lock_spin _ => True | _ => False end.

Lemma step_dom s i s' : spin_step s i s' → dom (threads s') = dom (threads s).
Proof.
  assert (∀ p r, threads s !! i = Some p → dom (threads (advance s i r)) = dom (threads s)) as H.
  { intros p r Hp. cbn. apply dom_insert_lookup_L. by exists p. }
  intros []; by eapply H.
Qed.

Lemma start_inv ids : spin_inv (spin_start ids) (Fifo None []).
Proof.
  split; cbn; try done; [apply NoDup_nil_2|]. by intros i p [_ <-]%lookup_gset_to_gmap_Some.
Qed.

Definition small (s : system) : Prop := Z.of_nat (size (threads s)) ≤ 2 ^ 32.

Lemma small_step s i s' : small s → spin_step s i s' → small s'.
Proof. unfold small. intros Hs Hst. by rewrite <-size_dom, (step_dom _ _ _ Hst), size_dom. Qed.

Lemma small_start (ids : gset Z) : Z.of_nat (size ids) ≤ 2 ^ 32 → small (spin_start ids).
Proof. unfold small. cbn. by rewrite <-size_dom, dom_gset_to_gmap. Qed.

Definition fifo_run : fifo → fifo → Prop := rtc (λ a a', ∃ i, fifo_step i a a').

Lemma run_simulates s s' a :
  spin_inv s a → small s → rtc timely_step s s' → ∃ a', fifo_run a a' ∧ spin_inv s' a'.
Proof.
  intros Hi Hs Hr. revert a Hi Hs. induction Hr as [s|s s1 s' [Ht [i Hst]] _ IH]; intros a Hi Hs; [exists a; by split; [apply rtc_refl|]|].
  destruct (spin_simulates _ _ _ _ Hi Hs Ht Hst) as (a1 & Ha & Hi1). destruct (IH a1 Hi1) as (a' & Hrun & Hi'); [by eapply small_step|].
  exists a'. split; [|done]. destruct Ha as [->|Ha]; [done|]. eapply rtc_l; [by exists i | done].
Qed.

Lemma inv_section s a i p : spin_inv s a → threads s !! i = Some p → in_section p ↔ holder a = Some i.
Proof.
  intros Hi Hp. destruct (located s a i Hi p Hp) as [[Hn Hw]|[[Hh Hc]|(k & Hk & ->)]].
  - split; [by destruct p|]. intros Hh. destruct Hn. unfold queue. rewrite Hh. by left.
  - split; [done|]. by destruct p.
  - split; [done|]. intros Hh. pose proof (sp_nodup _ _ Hi) as Hd. unfold queue in Hd. rewrite Hh in Hd. cbn in Hd. apply NoDup_cons in Hd as [Hd _].
    destruct Hd. by eapply list_elem_of_lookup_2.
Qed.

Lemma inv_spinning s a i p : spin_inv s a → threads s !! i = Some p → spinning p ↔ i ∈ waiting a.
Proof.
  intros Hi Hp. destruct (located s a i Hi p Hp) as [[Hn Hw]|[[Hh Hc]|(k & Hk & ->)]].
  - split; [by destruct p|]. intros Hh. destruct Hn. unfold queue. apply elem_of_app. by right.
  - split; [by destruct p|]. intros Hw%list_elem_of_lookup. destruct Hw as [k Hk]. rewrite (sp_waiting _ _ Hi k i Hk) in Hp. by injection Hp as <-.
  - split; [|done]. intros _. by eapply list_elem_of_lookup_2.
Qed.

(** C16: the ticket lock implements a lock that is granted in the order of the requests.  In
    every timely execution of any number of threads (at most [2 ^ 32]), with wrap-around of the
    counters, the system stands for a state that the queue lock can reach: the threads in
    the loop of [spin_lock] are the ones waiting, the only thread in a critical section is
    the holder, so that no two threads are in theirs at the same time.  An execution is timely
    if, while a call of [spin_trylock] is between its read and its compare-and-swap, fewer than
    [2 ^ 32] tickets have been taken beyond the number it has read; without such calls every
    execution is.  The condition is needed:
    [trylock_late] is an execution that is not timely and has two threads inside. *)
Theorem spin_refines ids s :
  Z.of_nat (size ids) ≤ 2 ^ 32 → rtc timely_step (spin_start ids) s →
  (∃ a, fifo_run (Fifo None []) a ∧
    ∀ i p, threads s !! i = Some p → (in_section p ↔ holder a = Some i) ∧ (spinning p ↔ i ∈ waiting a)) ∧
  (∀ i j p q, threads s !! i = Some p → threads s !! j = Some q → in_section p → in_section q → i = j).
Proof.
  intros Hids Hr. destruct (run_simulates _ _ _ (start_inv ids) (small_start ids Hids) Hr) as (a & Hrun & Hi). split.
  - exists a. split; [done|]. intros i p Hp. split; [by apply (inv_section s) | by apply (inv_spinning s)].
  - intros i j p q Hp Hq Hip%(inv_section _ _ _ _ Hi Hp) Hjq%(inv_section _ _ _ _ Hi Hq). congruence.
Qed.

(** ** Every call of [spin_lock] returns *)

(** What a step of another thread leaves. *)
Lemma step_other s i s' j : spin_step s i s' → j ≠ i → threads s' !! j = threads s !! j.
Proof. intros [] Hne; cbn; by rewrite lookup_insert_ne. Qed.

Lemma other_queue a a' i h q : (a' = a ∨ fifo_step i a a') → queue a = h :: q → i ≠ h → ∃ r, queue a' = h :: q ++ r.
Proof.
  intros [->|Hf] Hq Hne; [exists []; by rewrite app_nil_r|]. destruct Hf as [h' w Hn|w| |w]; unfold queue in *; cbn in *.
  - exists [i]. by rewrite app_assoc, Hq.
  - congruence.
  - done.
  - congruence.
Qed.

(** How far a thread at the head of the queue is from leaving it. *)
Definition stage (p : pc) : nat :=
  match p with Lock_spin _ => 3 | Inside => 2 | Unlock_begin => 1 | _ => 0 end.

(** The head of the queue makes progress with every action. *)
Lemma head_step s a h q p s' :
  spin_inv s a → small s → timely s → queue a = h :: q → threads s !! h = Some p → spin_step s h s' →
  ∃ a', spin_inv s' a' ∧
    ((∃ p', threads s' !! h = Some p' ∧ (stage p' < stage p)%nat ∧ queue a' = h :: q ∧ (spinning p → p' = Inside)) ∨
     (queue a' = q ∧ ¬ spinning p)).
Proof.
  intros Hi Hsm Ht Hq Hp Hst. destruct (spin_simulates _ _ _ _ Hi Hsm Ht Hst) as (a' & Ha & Hi'). exists a'. split; [done|].
  assert (Hin : h ∈ queue a) by (rewrite Hq; by left).
  assert (Hturn : ∀ t, p = Lock_spin t → start (lock s) = t).
  { intros t ->. destruct (located s a h Hi _ Hp) as [[? _]|[[_ []]|(k & Hk & [= ->])]]; [done|]. apply (test_turn s a h Hi Hsm k Hk).
    destruct a as [[h'|] w]; unfold queue in Hq; cbn in *.
    - injection Hq as -> ->. pose proof (sp_nodup _ _ Hi) as Hd. unfold queue in Hd. cbn in Hd. apply NoDup_cons in Hd as [Hd _]. destruct Hd. by eapply list_elem_of_lookup_2.
    - split; [done|]. subst w. pose proof (sp_nodup _ _ Hi) as Hd. unfold queue in Hd. cbn in Hd. by eapply (NoDup_lookup _ k 0%nat h). }
  assert (Hkeep : ∀ p', threads s' !! h = Some p' → ¬ without s' p' → queue a' = h :: q).
  { intros p' Hp' Hw. assert (Hin' : h ∈ queue a') by (destruct (decide (h ∈ queue a')) as [|Hn]; [done|]; by destruct Hw; apply (sp_without _ _ Hi' h)).
    destruct Ha as [->|Hf]; [done|]. destruct Hf; unfold queue in *; cbn in *; try done. pose proof (sp_nodup _ _ Hi) as Hd. unfold queue in Hd. cbn in Hd. by apply NoDup_cons in Hd as [Hd _]. }
  assert (Hgone : threads s' !! h = Some Outside → queue a' = q).
  { intros Hp'. assert (Hn : h ∉ queue a').
    { intros Hin'. destruct (located s' a' h Hi' _ Hp') as [[? _]|[[_ []]|(k & _ & ?)]]; done. }
    destruct Ha as [->|Hf]; [done|]. destruct Hf; unfold queue in *; cbn in *; try done; by injection Hq. }
  destruct (located s a h Hi _ Hp) as [[? _]|Hloc]; [done|].
  destruct Hst as [Hp0|Hp0|Hp0|p0 Hp0 Ho Hins]; rewrite Hp in Hp0; injection Hp0 as ->.
  1-2: destruct Hloc as [[_ []]|(k & _ & ?)]; done.
  - left. exists Unlock_begin. cbn [advance threads fst]. rewrite lookup_insert_eq. split_and!; [done | cbn; lia | | done]. apply (Hkeep Unlock_begin); [|by intros []]. cbn. by rewrite lookup_insert_eq.
  - destruct p0 as [| |t| |t v| | |v]; try done; try (destruct Hloc as [[_ []]|(k & _ & ?)]; done).
    + left. exists Inside. assert (E : threads (advance s h (spin_act (served s) (lock s) (Lock_spin t))) !! h = Some Inside).
      { cbn. unfold lock_test. rewrite (Hturn t eq_refl), Z.eqb_refl. cbn. by rewrite lookup_insert_eq. }
      split_and!; [done | cbn; lia | | done]. by apply (Hkeep Inside); [|intros []].
    + left. eexists (Unlock_store _). assert (E : threads (advance s h (spin_act (served s) (lock s) Unlock_begin)) !! h = Some (Unlock_store (start (lock s)))).
      { cbn. by rewrite lookup_insert_eq. }
      split_and!; [exact E | cbn; lia | | done]. by apply (Hkeep _ E); intros [].
    + right. split; [|by intros []]. apply Hgone. cbn. by rewrite lookup_insert_eq.
Qed.

Lemma queue_head s a i : spin_inv s a → i ∈ queue a → ∃ h q p, queue a = h :: q ∧ threads s !! h = Some p ∧ p ≠ Outside.
Proof.
  intros Hi Hin. destruct (queue a) as [|h q] eqn:Eq; [by apply elem_of_nil in Hin|].
  assert (Hh : h ∈ queue a) by (rewrite Eq; by left). destruct (queue_threads s a Hi h Hh) as [p Hp]. exists h, q, p. split_and!; [done | done |].
  intros ->. destruct (located s a h Hi _ Hp) as [[? _]|[[_ []]|(k & _ & ?)]]; done.
Qed.

Lemma keeps_place s i s' j t : spin_step s j s' → i ≠ j → threads s !! i = Some (Lock_spin t) → threads s' !! i = Some (Lock_spin t).
Proof. intros Hst Hne Hp. by rewrite (step_other _ _ _ _ Hst Hne). Qed.

Lemma queue_not_outside s a h p : spin_inv s a → h ∈ queue a → threads s !! h = Some p → p ≠ Outside.
Proof. intros Hi Hin Hp ->. destruct (located s a h Hi _ Hp) as [[? _]|[[_ []]|(k & _ & ?)]]; done. Qed.

Lemma stage_le p : (stage p ≤ 3)%nat.
Proof. destruct p; cbn; lia. Qed.

Lemma still_spinning s a k i h q p :
  spin_inv s a → queue a = h :: q → queue a !! k = Some i → threads s !! h = Some p →
  (i = h → spinning p) → ∃ t, threads s !! i = Some (Lock_spin t) ∧ (k = 0%nat → spinning p).
Proof.
  intros Hi Hq Hk Hp Hs. assert (Hin : i ∈ queue a) by (by eapply list_elem_of_lookup_2). destruct (queue_threads s a Hi i Hin) as [pi Hpi].
  assert (Hpi' : spinning pi).
  { destruct (decide (i = h)) as [->|Hne]; [simplify_eq; by apply Hs|]. apply (inv_spinning s a i pi Hi Hpi).
    unfold queue in Hq, Hin. destruct (holder a) as [h'|]; cbn in *; [|done]. injection Hq as -> _. by apply elem_of_cons in Hin as [?|?]. }
  destruct pi; try done. eexists. split; [done|]. intros ->. rewrite Hq in Hk. injection Hk as ->. by apply Hs.
Qed.

Lemma begin_act s i s' : spin_step s i s' → threads s !! i = Some Lock_begin → threads s' !! i = Some (Lock_spin (ticket (lock s))).
Proof. intros [H|H|H|p H _ _] Hp; rewrite Hp in H; try done. injection H as <-. cbn. by rewrite lookup_insert_eq. Qed.

Section Live.
  Context (exec : nat → system) (who : nat → Z).

(** An infinite execution in which every thread inside a call or a critical section acts
    again and again: critical sections end, and the scheduler is fair. *)
Record fair_run : Prop := FairRun {
  fr_step : ∀ n, spin_step (exec n) (who n) (exec (S n));
  fr_timely : ∀ n, timely (exec n);
  fr_fair : ∀ n i p, threads (exec n) !! i = Some p → p ≠ Outside → ∃ m, (n ≤ m)%nat ∧ who m = i;
}.

Context (ids : gset Z) (Hids : Z.of_nat (size ids) ≤ 2 ^ 32) (Hstart : exec 0 = spin_start ids) (Hrun : fair_run).

Lemma exec_small n : small (exec n).
Proof using Hids Hstart Hrun.
  induction n as [|n IH]; [rewrite Hstart; by apply small_start|]. eapply small_step; [exact IH | apply (fr_step Hrun)].
Qed.

Lemma exec_inv n : ∃ a, spin_inv (exec n) a.
Proof using Hids Hstart Hrun.
  induction n as [|n [a Ha]]; [rewrite Hstart; eexists; apply start_inv|].
  destruct (spin_simulates _ _ _ _ Ha (exec_small n) (fr_timely Hrun n) (fr_step Hrun n)) as (a' & _ & Ha'). by exists a'.
Qed.

(** Until the head acts, the queue only grows. *)
Lemma head_waits h p m : ∀ n a q,
  (n ≤ m)%nat → who m = h → spin_inv (exec n) a → queue a = h :: q → threads (exec n) !! h = Some p →
  ∃ n' a' r, (n ≤ n')%nat ∧ who n' = h ∧ spin_inv (exec n') a' ∧ queue a' = h :: q ++ r ∧ threads (exec n') !! h = Some p.
Proof using Hids Hstart Hrun.
  intros n. remember (m - n)%nat as d eqn:Hd. revert n Hd. induction d as [|d IH]; intros n Hd a q Hle Hwho Hi Hq Hp.
  { assert (m = n) as -> by lia. exists n, a, []. rewrite app_nil_r. by split_and!. }
  destruct (decide (who n = h)) as [Heq|Hne]; [exists n, a, []; rewrite app_nil_r; by split_and!|].
  pose proof (fr_step Hrun n) as Hst. destruct (spin_simulates _ _ _ _ Hi (exec_small n) (fr_timely Hrun n) Hst) as (a1 & Ha & Hi1).
  destruct (other_queue _ _ _ _ _ Ha Hq Hne) as [r Hr].
  destruct (IH (S n) ltac:(lia) a1 (q ++ r)) as (n' & a' & r' & H1 & H2 & H3 & H4 & H5); [lia | done | done | done | by rewrite (step_other _ _ _ _ Hst) |].
  exists n', a', (r ++ r'). split_and!; [lia | done | done | by rewrite H4, app_assoc | done].
Qed.

(** A call of [spin_lock] takes its ticket. *)
Lemma begin_spins n i : threads (exec n) !! i = Some Lock_begin → ∃ n' t, (n ≤ n')%nat ∧ threads (exec n') !! i = Some (Lock_spin t).
Proof using ids Hrun.
  intros Hp. destruct (fr_fair Hrun n i _ Hp) as (m & Hle & Hw); [done|].
  remember (m - n)%nat as d eqn:Hd. revert n Hd Hp Hle. induction d as [|d IH]; intros n Hd Hp Hle; pose proof (fr_step Hrun n) as Hst.
  - assert (m = n) as -> by lia. rewrite Hw in Hst. exists (S n). eexists. split; [lia|]. by apply (begin_act _ _ _ Hst).
  - destruct (decide (who n = i)) as [Hwi|Hwi].
    + rewrite Hwi in Hst. exists (S n). eexists. split; [lia|]. by apply (begin_act _ _ _ Hst).
    + destruct (IH (S n)) as (n' & t & ? & ?); [lia | by rewrite (step_other _ _ _ i Hst) | lia |]. exists n', t. split; [lia|done].
Qed.

(** The rank: the threads before us, and how far the first one is. *)
Lemma live_rank i : ∀ r n a k h q p t,
  spin_inv (exec n) a → queue a = h :: q → queue a !! k = Some i → threads (exec n) !! i = Some (Lock_spin t) →
  threads (exec n) !! h = Some p → p ≠ Outside → (4 * k + stage p < r)%nat → ∃ m, (n ≤ m)%nat ∧ threads (exec m) !! i = Some Inside.
Proof using Hids Hstart Hrun.
  induction r as [|r IH]; intros n a k h q p t Hi Hq Hk Ht Hp Hpo Hr; [lia|].
  destruct (fr_fair Hrun n h p Hp Hpo) as (m & Hm & Hwho).
  destruct (head_waits h p m n a q Hm Hwho Hi Hq Hp) as (n' & a' & r' & Hn' & Hwho' & Hi' & Hq' & Hp').
  assert (Hk' : queue a' !! k = Some i).
  { rewrite Hq', app_comm_cons. rewrite Hq in Hk. by apply lookup_app_l_Some. }
  destruct (still_spinning _ _ _ _ _ _ _ Hi' Hq' Hk' Hp') as (t' & Ht' & Hk0); [intros Heq; rewrite Heq, Hp in Ht; injection Ht as ->; done|].
  pose proof (fr_step Hrun n') as Hst. rewrite Hwho' in Hst.
  destruct (head_step _ _ _ _ _ _ Hi' (exec_small n') (fr_timely Hrun n') Hq' Hp' Hst) as (a2 & Hi2 & Hcase).
  destruct (decide (k = 0%nat)) as [->|Hkn].
  - rewrite Hq' in Hk'. injection Hk' as ->. destruct Hcase as [(p2 & Hp2 & _ & _ & Hins)|[_ Hns]]; [|by destruct Hns; apply Hk0].
    exists (S n'). split; [lia|]. rewrite Hp2, Hins by (by apply Hk0). done.
  - assert (Hne : i ≠ h) by (intros ->; apply Hkn; eapply (NoDup_lookup (queue a')); [apply (sp_nodup _ _ Hi') | exact Hk' | by rewrite Hq']).
    assert (Ht2 : threads (exec (S n')) !! i = Some (Lock_spin t')) by (by eapply keeps_place).
    destruct Hcase as [(p2 & Hp2 & Hlt & Hq2 & _)|[Hq2 _]].
    + destruct (IH (S n') a2 k h (q ++ r') p2 t') as (m2 & Hm2 & ?); try done; [by rewrite Hq2, <-Hq' | apply (queue_not_outside _ a2 h p2 Hi2); [rewrite Hq2; by left | done] | lia |].
      exists m2. split; [lia|done].
    + destruct k as [|k]; [done|]. rewrite Hq' in Hk'. cbn in Hk'. rewrite <-Hq2 in Hk'.
      destruct (queue_head _ _ i Hi2) as (h2 & q2 & p2 & Hq3 & Hp2 & Hpo2); [by eapply list_elem_of_lookup_2|].
      destruct (IH (S n') a2 k h2 q2 p2 t') as (m2 & Hm2 & ?); try done; [pose proof (stage_le p2); lia|]. exists m2. split; [lia|done].
Qed.

End Live.

(** C20: under a fair scheduler, with critical sections that end and in a timely run, every
    call of [spin_lock] returns: a thread that has called it is in its critical section at some later time. *)
Theorem spin_lock_live exec who ids n i p :
  Z.of_nat (size ids) ≤ 2 ^ 32 → exec 0%nat = spin_start ids → fair_run exec who →
  threads (exec n) !! i = Some p → p = Lock_begin ∨ spinning p →
  ∃ m, (n ≤ m)%nat ∧ threads (exec m) !! i = Some Inside.
Proof.
  intros Hids Hst Hrun Hp Hor.
  assert (Hspin : ∃ n' t, (n ≤ n')%nat ∧ threads (exec n') !! i = Some (Lock_spin t)).
  { destruct Hor as [->|Hs]; [by eapply begin_spins | destruct p as [| |t| | | | |]; try done; by exists n, t]. }
  destruct Hspin as (n' & t & Hn' & Ht). destruct (exec_inv exec who ids Hids Hst Hrun n') as [a Ha].
  assert (Hin : i ∈ queue a) by (apply elem_of_app; right; by apply (inv_spinning _ _ _ _ Ha Ht)).
  destruct (queue_head _ _ _ Ha Hin) as (h & q & ph & Hq & Hh & Hho). apply list_elem_of_lookup in Hin as [k Hk].
  destruct (live_rank exec who ids Hids Hst Hrun i (S (4 * k + stage ph)) n' a k h q ph t) as (m & ? & ?); try done; [lia|].
  exists m. split; [lia|done].
Qed.

(** ** A compare-and-swap that comes too late

    Thread 1 has read [start] in [spin_trylock]; thread 2 takes and gives back the lock. *)

Definition late (taken served : Z) (p : pc) : system :=
  System (Spinlock (u32 served) (u32 taken)) (<[2 := p]> {[1 := Try_cas 0 0]}) taken served.

Definition any_step (s s' : system) : Prop := ∃ i, spin_step s i s'.

Lemma late_threads n m p q : <[2 := q]> (threads (late n m p)) = threads (late n m q).
Proof. cbn. apply insert_insert_eq. Qed.

Lemma late_quiet n m p q : advance (late n m p) 2 (q, lock (late n m p)) = late n m q.
Proof. rewrite advance_quiet, late_threads. done. Qed.

Lemma late_take n m : advance (late n m Lock_begin) 2 (lock_fetch_add (lock (late n m Lock_begin))) = late (n + 1) m (Lock_spin (u32 n)).
Proof.
  unfold advance, lock_fetch_add. cbn [fst snd]. rewrite took_one, gave_none, late_threads by done. unfold late. cbn. by rewrite u32_add, Z.add_0_r.
Qed.

Lemma late_give n m : advance (late n m (Unlock_store (u32 m))) 2 (unlock_write (lock (late n m (Unlock_store (u32 m)))) (u32 m)) = late n (m + 1) Outside.
Proof.
  unfold advance, unlock_write. cbn [fst snd]. rewrite took_none, gave_one, late_threads by done. unfold late. cbn. by rewrite u32_add, Z.add_0_r.
Qed.

Lemma late_act n m p : p ≠ Outside → p ≠ Inside →
  any_step (late n m p) (advance (late n m p) 2 (spin_act m (lock (late n m p)) p)).
Proof. intros H1 H2. exists 2. by apply (in_call (late n m p) 2 p). Qed.

Lemma late_lock n : rtc any_step (late n n Outside) (late (n + 1) n Inside).
Proof.
  eapply rtc_l; [exists 2; by apply call_lock|]. rewrite late_quiet. eapply rtc_l; [by apply late_act|]. cbn [spin_act]. rewrite late_take.
  eapply rtc_l; [by apply late_act|]. cbn [spin_act]. unfold lock_test. cbn [lock late start]. rewrite Z.eqb_refl.
  change (Spinlock (u32 n) (u32 (n + 1))) with (lock (late (n + 1) n (Lock_spin (u32 n)))). rewrite late_quiet. apply rtc_refl.
Qed.

Lemma late_unlock n m : rtc any_step (late n m Inside) (late n (m + 1) Outside).
Proof.
  eapply rtc_l; [exists 2; by apply call_unlock|]. rewrite late_quiet. eapply rtc_l; [by apply late_act|]. cbn [spin_act]. unfold unlock_read. rewrite late_quiet.
  eapply rtc_l; [by apply late_act|]. cbn [spin_act]. rewrite late_give. apply rtc_refl.
Qed.

Lemma late_cycles n : rtc any_step (late 0 0 Outside) (late (Z.of_nat n) (Z.of_nat n) Outside).
Proof.
  induction n as [|n IH]; [apply rtc_refl|]. etrans; [exact IH|]. etrans; [apply late_lock|].
  rewrite Nat2Z.inj_succ. apply late_unlock.
Qed.

(** Without the bound on the delay the lock does not exclude: after [2 ^ 32] tickets the
    compare-and-swap of [spin_trylock] succeeds although another thread holds the lock. *)
Theorem trylock_late :
  ∃ s, rtc any_step (spin_start {[1; 2]}) s ∧ threads s !! 1 = Some Inside ∧ threads s !! 2 = Some Inside.
Proof.
  set (n := Z.to_nat (2 ^ 32 - 1)). assert (Hn : Z.of_nat n = 2 ^ 32 - 1) by (unfold n; lia). clearbody n.
  assert (H0 : rtc any_step (spin_start {[1; 2]}) (late 0 0 Outside)).
  { eapply rtc_l; [exists 1; apply call_trylock; vm_compute; reflexivity|].
    eapply rtc_l; [exists 1; apply (in_call _ _ Try_begin); [vm_compute; reflexivity | done | done]|].
    match goal with |- rtc _ ?s _ => replace s with (late 0 0 Outside) by (vm_compute; reflexivity) end. apply rtc_refl. }
  exists (advance (late (2 ^ 32) (2 ^ 32 - 1) Inside) 1 (trylock_cas (lock (late (2 ^ 32) (2 ^ 32 - 1) Inside)) 0)).
  split; [|split; vm_compute; reflexivity].
  etrans; [exact H0|]. etrans; [apply (late_cycles n)|]. rewrite Hn.
  etrans; [apply late_lock|]. apply rtc_once. exists 1. by apply (in_call _ 1 (Try_cas 0 0)).
Qed.

(** ** Witnesses *)

(** Two threads take turns, each locking and unlocking for ever. *)
Definition turn (n : nat) : Z := if Nat.even n then 1 else 2.
Definition go (s : system) (i : Z) : system :=
  match threads s !! i with
  | Some Outside => advance s i (Lock_begin, lock s)
  | Some Inside => advance s i (Unlock_begin, lock s)
  | Some p => advance s i (spin_act (served s) (lock s) p)
  | None => s
  end.
Fixpoint duel (n : nat) : system :=
  match n with
  | O => spin_start {[1; 2]}
  | S n => go (duel n) (turn n)
  end.

Definition trying (p : pc) : Prop := match p with Try_begin | Try_cas _ _ => True | _ => False end.

Lemma act_not_trying v l p : ¬ trying p → ¬ trying (spin_act v l p).1.
Proof. destruct p; cbn; intros H; try (by intros []); try (by destruct H). destruct (_ =? _); by intros []. Qed.

Lemma duel_ok n : dom (threads (duel n)) = {[1; 2]} ∧ ∀ i p, threads (duel n) !! i = Some p → ¬ trying p.
Proof.
  induction n as [|n [Hd Hn]].
  { split; [vm_compute; reflexivity|]. intros i p [_ <-]%lookup_gset_to_gmap_Some. by intros []. }
  cbn [duel]. set (i := turn n). assert (Hi : i ∈ dom (threads (duel n))) by (rewrite Hd; unfold i, turn; destruct (Nat.even n); set_solver).
  apply elem_of_dom in Hi as [p Hp]. pose proof (Hn i p Hp) as Hnp.
  assert (Hgo : ∃ r, go (duel n) i = advance (duel n) i r ∧ ¬ trying r.1).
  { unfold go. rewrite Hp. destruct p; (eexists; split; [reflexivity|]); try (by intros []); by apply act_not_trying. }
  destruct Hgo as (r & -> & Hr). split; [cbn; rewrite dom_insert_lookup_L by (by exists p); done|].
  intros j q. cbn. intros [[_ <-]|[_ Hq]]%lookup_insert_Some; [done | by eapply Hn].
Qed.

Lemma duel_fair : fair_run duel turn.
Proof.
  split.
  - intros n. cbn [duel]. destruct (duel_ok n) as [Hd Hn].
    assert (Hi : turn n ∈ dom (threads (duel n))) by (rewrite Hd; unfold turn; destruct (Nat.even n); set_solver).
    apply elem_of_dom in Hi as [p Hp]. unfold go. rewrite Hp. destruct p; try (by apply (in_call _ _ _ Hp)).
    + by apply call_lock.
    + by apply call_unlock.
  - intros n i t v Hp. by destruct (proj2 (duel_ok n) _ _ Hp).
  - intros n i p Hp _. assert (Hi : i ∈ dom (threads (duel n))) by (apply elem_of_dom; by exists p).
    rewrite (proj1 (duel_ok n)) in Hi. apply elem_of_union in Hi as [->%elem_of_singleton|Hi%elem_of_singleton].
    + exists (2 * n)%nat. split; [lia|]. unfold turn. by rewrite Nat.even_even.
    + exists (2 * n + 1)%nat. split; [lia|]. unfold turn. by rewrite Nat.even_odd.
Qed.

(** Thread 2 waits for its turn while thread 1 is in its critical section. *)
Lemma spin_lock_live_witness :
  threads (duel 6) !! 2 = Some (Lock_spin 1) ∧ ∃ m, (6 ≤ m)%nat ∧ threads (duel m) !! 2 = Some Inside.
Proof.
  split; [vm_compute; reflexivity|].
  apply (spin_lock_live duel turn {[1; 2]} 6 2 (Lock_spin 1)); [vm_compute; discriminate | reflexivity | exact duel_fair | vm_compute; reflexivity | by right].
Defined.

Lemma duel_reached n : rtc timely_step (spin_start {[1; 2]}) (duel n).
Proof.
  induction n as [|n IH]; [apply rtc_refl|]. eapply rtc_r; [exact IH|]. split; [apply (fr_timely _ _ duel_fair)|].
  exists (turn n). apply (fr_step _ _ duel_fair).
Qed.

Lemma spin_refines_witness :
  (∃ a, fifo_run (Fifo None []) a ∧
    ∀ i p, threads (duel 6) !! i = Some p → (in_section p ↔ holder a = Some i) ∧ (spinning p ↔ i ∈ waiting a)) ∧
  (∀ i j p q, threads (duel 6) !! i = Some p → threads (duel 6) !! j = Some q → in_section p → in_section q → i = j).
Proof. apply (spin_refines {[1; 2]} (duel 6)); [vm_compute; discriminate | apply duel_reached]. Defined.
