(* ===== verification/Shm.v ===== *)
(** Shared memory: [src/util/shm.c], with the macros of [src/common.h] it uses.

    [mmap] is a parameter: the start of the mapping of the given size, or [None].  The
    allocator is modelled twice: [shm_alloc] as a function for a process that is alone, and
    as the actions of processes that call it at the same time, interleaved with the actions
    of the ticket lock that guards it. *)

From stdpp Require Import base gmap list numbers strings sets.
From Stdlib Require Import ZArith Lia.
From S2P Require Import Prelude Spinlock SpinlockProps.

(** [sizeof(unsigned long)], and rounding in the type [size_t] *)
Definition MEM_ALIGN : Z := 8.
Definition ROUND_UP (x y : Z) : Z := size_t (size_t (x + (y - 1)) / y * y).

(** [struct shm] without its lock *)
Record shm : Type := Shm { addr : Z; size : Z; offset : Z }.

(** Three words and a [spinlock_t] of 72 bytes *)
Definition SIZEOF_SHM : Z := 96.

(** The test under the lock, and the rest of [shm_alloc]. *)
Definition shm_full (s : shm) (size_bytes : Z) : bool := size s <? size_t (offset s + size_bytes).

Definition shm_alloc (s : shm) (size_bytes : Z) : Z * shm :=
  let size_bytes := ROUND_UP size_bytes MEM_ALIGN in
  if shm_full s size_bytes then (NULL, s)
  else (addr s + offset s, Shm (addr s) (size s) (size_t (offset s + size_bytes))).

Section Pages.
  Context (mmap : Z → option Z) (page_size : Z).

(** [pg_count * get_page_size()] is an [unsigned int]. *)
Definition shm_pages_alloc (pg_count : Z) : Z := default NULL (mmap (u32 (pg_count * page_size))).

(** What is unmapped: start and length *)
Definition shm_pages_free (a pg_count : Z) : Z * Z := (a, u32 (pg_count * page_size)).

Definition shm_init : proc (shm * spinlock_t) :=
  let a := shm_pages_alloc 1 in
  if a =? NULL then Exit 0
  else Running (Shm a page_size (ROUND_UP SIZEOF_SHM MEM_ALIGN), spin_lock_init).

End Pages.

(** ** Several processes *)

(** Where a process is in [shm_alloc (n)]: it waits for the lock, or holds it and knows that
    there is room, has the address, has read the offset it will increase, or has its result
    and releases the lock. *)
Inductive call : Type :=
| Idle
| Locking (n : Z)
| Fits (n : Z)
| Addr (n a : Z)
| Adding (n a o : Z)
| Done (n a : Z)
| Returned (n a : Z).

(** [log] is a history variable: who asked for how many bytes and got which address, in the
    order of the critical sections. *)
Record processes : Type := Processes { sys : system; obj : shm; calls : gmap Z call; log : list (Z * Z * Z) }.

Definition set_call (s : processes) (i : Z) (c : call) : processes := Processes (sys s) (obj s) (<[i := c]> (calls s)) (log s).
Definition set_sys (s : processes) (y : system) : processes := Processes y (obj s) (calls s) (log s).
Definition set_obj (s : processes) (o : shm) (l : list (Z * Z * Z)) : processes := Processes (sys s) o (calls s) l.

Definition at_pc (s : processes) (i : Z) (p : pc) : Prop := threads (sys s) !! i = Some p.
Definition at_call (s : processes) (i : Z) (c : call) : Prop := calls s !! i = Some c.

Inductive shm_step (s : processes) (i : Z) : processes → Prop :=
| shm_call n c :
    at_call s i c → c = Idle ∨ (∃ m a, c = Returned m a) → at_pc s i Outside →
    shm_step s i (set_call (set_sys s (advance (sys s) i (Lock_begin, lock (sys s)))) i (Locking n))
| shm_lock p :
    at_pc s i p → p ≠ Outside → p ≠ Inside →
    shm_step s i (set_sys s (advance (sys s) i (spin_act (served (sys s)) (lock (sys s)) p)))
| shm_fail n :
    at_call s i (Locking n) → at_pc s i Inside → shm_full (obj s) (ROUND_UP n MEM_ALIGN) = true →
    shm_step s i (set_call (set_obj s (obj s) (log s ++ [(i, n, NULL)])) i (Done n NULL))
| shm_fits n :
    at_call s i (Locking n) → at_pc s i Inside → shm_full (obj s) (ROUND_UP n MEM_ALIGN) = false →
    shm_step s i (set_call s i (Fits n))
| shm_addr n :
    at_call s i (Fits n) → shm_step s i (set_call s i (Addr n (addr (obj s) + offset (obj s))))
| shm_load n a :
    at_call s i (Addr n a) → shm_step s i (set_call s i (Adding n a (offset (obj s))))
| shm_store n a o :
    at_call s i (Adding n a o) →
    shm_step s i (set_call (set_obj s (Shm (addr (obj s)) (size (obj s)) (size_t (o + ROUND_UP n MEM_ALIGN))) (log s ++ [(i, n, a)])) i (Done n a))
| shm_unlock n a :
    at_call s i (Done n a) → at_pc s i Inside →
    shm_step s i (set_sys s (advance (sys s) i (Unlock_begin, lock (sys s))))
| shm_return n a :
    at_call s i (Done n a) → at_pc s i Outside → shm_step s i (set_call s i (Returned n a)).

Definition shm_start (o : shm) (ids : gset Z) : processes := Processes (spin_start ids) o (gset_to_gmap Idle ids) [].

(** ** One process after the other *)

(** The results of a sequence of requests. *)
Fixpoint alloc_all (s : shm) (ns : list Z) : list Z * shm :=
  match ns with
  | [] => ([], s)
  | n :: ns => let '(a, s) := shm_alloc s n in let '(l, s) := alloc_all s ns in (a :: l, s)
  end.

Lemma alloc_all_app s ns ms :
  alloc_all s (ns ++ ms) = ((alloc_all s ns).1 ++ (alloc_all (alloc_all s ns).2 ms).1, (alloc_all (alloc_all s ns).2 ms).2).
Proof.
  revert s. induction ns as [|n ns IH]; intros s; cbn; [by destruct (alloc_all s ms)|].
  destruct (shm_alloc s n) as [a s1]. rewrite IH. by destruct (alloc_all s1 ns) as [l s2].
Qed.

Lemma round_up_ok n : 0 ≤ n ≤ 2 ^ 63 → n ≤ ROUND_UP n MEM_ALIGN ≤ n + 7 ∧ ROUND_UP n MEM_ALIGN mod 8 = 0.
Proof.
  intros Hn. unfold ROUND_UP, MEM_ALIGN. rewrite (size_t_id (n + _)) by lia.
  rewrite size_t_id by (Z.div_mod_to_equations; lia). split; [Z.div_mod_to_equations; lia|]. by rewrite Z.mod_mul.
Qed.

(** The state of the allocator: the free rest is aligned. *)
Definition shm_ok (s : shm) : Prop :=
  0 < addr s ∧ addr s mod 8 = 0 ∧ 0 ≤ offset s ≤ size s ∧ offset s mod 8 = 0 ∧ size s < 2 ^ 62.

Definition request_ok (n : Z) : Prop := 0 ≤ n ≤ 2 ^ 63.

Lemma shm_full_ok s n : shm_ok s → request_ok n →
  shm_full s (ROUND_UP n MEM_ALIGN) = (size s <? offset s + ROUND_UP n MEM_ALIGN) ∧ 0 ≤ offset s + ROUND_UP n MEM_ALIGN < 2 ^ 64.
Proof.
  intros (_ & _ & Ho & _ & Hs) Hn. destruct (round_up_ok n Hn) as [Hr _]. unfold request_ok in Hn. unfold shm_full. rewrite size_t_id by lia. split; [done|lia].
Qed.

Lemma shm_alloc_ok s n a s' :
  shm_ok s → request_ok n → shm_alloc s n = (a, s') →
  shm_ok s' ∧ addr s' = addr s ∧ size s' = size s ∧
  ((a = NULL ∧ s' = s ∧ size s < offset s + ROUND_UP n MEM_ALIGN) ∨
   (a = addr s + offset s ∧ a + n ≤ addr s + offset s' ∧ offset s' = offset s + ROUND_UP n MEM_ALIGN ∧ a mod 8 = 0)).
Proof.
  intros Hok Hn. destruct (shm_full_ok s n Hok Hn) as [Hf Hr]. unfold shm_alloc. rewrite Hf. pose proof Hok as (Ha & Haa & Ho & Hoa & Hs).
  destruct (round_up_ok n Hn) as [Hru Hrm]. destruct (size s <? _) eqn:E.
  - intros [= <- <-]. apply Z.ltb_lt in E. split_and!; try done. by left.
  - intros [= <- <-]. apply Z.ltb_ge in E. rewrite size_t_id by lia. cbn. split_and!; try done.
    + unfold shm_ok. cbn. split_and!; try done; try lia. rewrite Z.add_mod, Hoa, Hrm by lia. done.
    + right. split_and!; try done; [lia|]. rewrite Z.add_mod, Haa, Hoa by lia. done.
Qed.

(** Blocks, given by start and requested length, lie one behind the other; a failed request
    has none. *)
Fixpoint stacked (lo hi : Z) (l : list (Z * Z)) : Prop :=
  match l with
  | [] => lo ≤ hi
  | (a, n) :: l =>
    if a =? NULL then stacked lo hi l else lo ≤ a ∧ a mod 8 = 0 ∧ 0 ≤ n ∧ ∃ mid, a + n ≤ mid ∧ stacked mid hi l
  end.

Lemma alloc_all_ok ns : ∀ s,
  shm_ok s → Forall request_ok ns →
  let r := alloc_all s ns in
  shm_ok r.2 ∧ addr r.2 = addr s ∧ size r.2 = size s ∧ length r.1 = length ns ∧
  stacked (addr s + offset s) (addr s + offset r.2) (zip r.1 ns).
Proof.
  induction ns as [|n ns IH]; intros s Hs Hf; cbn [alloc_all]; [cbn; split_and!; try done; lia|]. apply Forall_cons in Hf as [Hn Hf].
  destruct (shm_alloc s n) as [a s1] eqn:E. destruct (shm_alloc_ok s n a s1 Hs Hn E) as (Hs1 & Ea & Es & Hc).
  destruct (IH s1 Hs1 Hf) as (Hr & Ha & Hsz & Hl & Hst). destruct (alloc_all s1 ns) as [l s2]. cbn [fst snd] in *.
  split_and!; [done | congruence | congruence | cbn; by rewrite Hl |]. cbn. destruct Hc as [(-> & -> & _)|(-> & Hend & Ho & Hal)].
  - done.
  - destruct Hs as (Hpos & _ & Hoff & _). rewrite (proj2 (Z.eqb_neq _ _)) by (unfold NULL; lia). split_and!; try done; [apply Hn|].
    exists (addr s1 + offset s1). split; [lia|]. by rewrite Ea in *.
Qed.

Lemma stacked_le lo hi l : stacked lo hi l → lo ≤ hi.
Proof. revert lo. induction l as [|[a n] l IH]; intros lo; cbn; [done|]. case_match; [apply IH|]. intros (? & ? & ? & mid & ? & ?%IH). lia. Qed.

Lemma stacked_bounds lo hi l a n : stacked lo hi l → (a, n) ∈ l → a ≠ NULL → lo ≤ a ∧ a + n ≤ hi ∧ a mod 8 = 0 ∧ 0 ≤ n.
Proof.
  intros Hs Hin Hnn. revert lo Hs. induction l as [|[b m] l IH]; intros lo Hs; [by apply elem_of_nil in Hin|]. cbn in Hs.
  apply elem_of_cons in Hin as [[= -> ->]|Hin].
  - rewrite (proj2 (Z.eqb_neq _ _) Hnn) in Hs. destruct Hs as (? & ? & ? & mid & ? & ?%stacked_le). split_and!; try done; lia.
  - destruct (b =? NULL); [by apply IH|]. destruct Hs as (? & ? & ? & mid & ? & Hs). destruct (IH Hin mid Hs) as (? & ? & ? & ?).
    split_and!; try done; lia.
Qed.

Lemma stacked_disjoint lo hi l i j a n b m :
  stacked lo hi l → l !! i = Some (a, n) → l !! j = Some (b, m) → a ≠ NULL → b ≠ NULL → (i < j)%nat → a + n ≤ b.
Proof.
  intros Hs Hi Hj Ha Hb Hlt. revert lo i j Hs Hi Hj Hlt. induction l as [|[c k] l IH]; intros lo i j Hs Hi Hj Hlt; [done|]. cbn in Hs.
  destruct j as [|j]; [lia|]. cbn in Hj. destruct i as [|i]; cbn in Hi.
  - injection Hi as -> ->. rewrite (proj2 (Z.eqb_neq _ _) Ha) in Hs. destruct Hs as (_ & _ & _ & mid & Hmid & Hs).
    apply list_elem_of_lookup_2 in Hj. pose proof (stacked_bounds _ _ _ _ _ Hs Hj Hb). lia.
  - destruct (c =? NULL); [apply (IH lo i j Hs Hi Hj); lia|]. destruct Hs as (_ & _ & _ & mid & Hmid & Hs). apply (IH mid i j Hs Hi Hj). lia.
Qed.

(** ** The interleaved calls *)

Definition sizes (l : list (Z * Z * Z)) : list Z := (λ e, e.1.2) <$> l.
Definition results (l : list (Z * Z * Z)) : list Z := snd <$> l.

(** What a process knows at its place. *)
Definition call_ok (s : processes) (i : Z) (c : call) (p : pc) : Prop :=
  match c with
  | Idle => p = Outside
  | Locking n => p = Lock_begin ∨ spinning p ∨ p = Inside
  | Fits n => p = Inside ∧ shm_full (obj s) (ROUND_UP n MEM_ALIGN) = false
  | Addr n a => p = Inside ∧ shm_full (obj s) (ROUND_UP n MEM_ALIGN) = false ∧ a = addr (obj s) + offset (obj s)
  | Adding n a o =>
    p = Inside ∧ shm_full (obj s) (ROUND_UP n MEM_ALIGN) = false ∧ a = addr (obj s) + offset (obj s) ∧ o = offset (obj s)
  | Done n a => (p = Outside ∨ in_section p) ∧ (i, n, a) ∈ log s
  | Returned n a => p = Outside ∧ (i, n, a) ∈ log s
  end.

Record shm_inv (o : shm) (s : processes) (f : fifo) : Prop := ShmInv {
  sh_lock : spin_inv (sys s) f;
  sh_small : small (sys s);
  sh_log : alloc_all o (sizes (log s)) = (results (log s), obj s);
  sh_calls : ∀ i p, threads (sys s) !! i = Some p → ∃ c, calls s !! i = Some c ∧ call_ok s i c p;
  sh_threads : ∀ i c, calls s !! i = Some c → is_Some (threads (sys s) !! i);
}.

Lemma call_not_trying s i c p : call_ok s i c p → ¬ trying p.
Proof. destruct c, p; cbn; naive_solver. Qed.

Lemma shm_timely o s f : shm_inv o s f → timely (sys s).
Proof. intros Hi i t v Hp. destruct (sh_calls _ _ _ Hi _ _ Hp) as (c & _ & Hc). by destruct (call_not_trying _ _ _ _ Hc). Qed.

(** Others do not see the change. *)
Lemma call_frame s s' j c p :
  call_ok s j c p → obj s' = obj s ∨ ¬ in_section p → (∀ e, e ∈ log s → e ∈ log s') → call_ok s' j c p.
Proof.
  intros Hc Ho Hl. destruct c; cbn in *; try done.
  - destruct Hc as [-> Hc]. destruct Ho as [->|Hn]; [done|by destruct Hn].
  - destruct Hc as [-> Hc]. destruct Ho as [->|Hn]; [done|by destruct Hn].
  - destruct Hc as [-> Hc]. destruct Ho as [->|Hn]; [done|by destruct Hn].
  - destruct Hc as [? ?]. split; [done|by apply Hl].
  - destruct Hc as [? ?]. split; [done|by apply Hl].
Qed.
