(* ===== verification/ShmProps.v ===== *)
(** What the allocator of shared memory promises to processes that call it at the same time. *)

From stdpp Require Import base gmap list numbers strings sets.
From Stdlib Require Import ZArith Lia.
From S2P Require Import Prelude Spinlock SpinlockProps Shm.

Section Step.
  Context (o : shm) (s : processes) (f : fifo) (i : Z) (Hi : shm_inv o s f).

Lemma at_both c p : at_call s i c → at_pc s i p → call_ok s i c p.
Proof using Hi. intros Hc Hp. destruct (sh_calls _ _ _ Hi i p Hp) as (c' & Hc' & Hok). unfold at_call in Hc. by simplify_eq. Qed.

(** A step of the lock. *)
Lemma inv_spin y c p :
  spin_step (sys s) i y → threads y !! i = Some p → call_ok s i c p →
  ∃ f', shm_inv o (set_call (set_sys s y) i c) f'.
Proof using Hi.
  intros Hst Hp Hok. destruct (spin_simulates _ _ _ _ (sh_lock _ _ _ Hi) (sh_small _ _ _ Hi) (shm_timely _ _ _ Hi) Hst) as (f' & _ & Hf').
  exists f'. split; cbn.
  - done.
  - by eapply small_step; [apply (sh_small _ _ _ Hi)|].
  - apply (sh_log _ _ _ Hi).
  - intros j q Hq. destruct (decide (i = j)) as [<-|Hne].
    + rewrite lookup_insert_eq. rewrite Hp in Hq. injection Hq as <-. exists c. split; [done|]. eapply call_frame; [exact Hok | by left | done].
    + rewrite lookup_insert_ne by done. rewrite (step_other _ _ _ j Hst) in Hq by done.
      destruct (sh_calls _ _ _ Hi j q Hq) as (c' & Hc' & Hok'). exists c'. split; [done|]. eapply call_frame; [exact Hok' | by left | done].
  - intros j c' [[<- _]|[Hne Hc']]%lookup_insert_Some; [by exists p|]. rewrite (step_other _ _ _ j Hst) by done. by apply (sh_threads _ _ _ Hi j c').
Qed.

(** A step of the code between the calls of the lock; only its holder changes the object. *)
Lemma inv_data o' l' c p :
  at_pc s i p → o' = obj s ∨ in_section p → alloc_all o (sizes l') = (results l', o') → (∀ e, e ∈ log s → e ∈ l') →
  call_ok (set_obj s o' l') i c p → shm_inv o (set_call (set_obj s o' l') i c) f.
Proof using Hi.
  intros Hp Ho Hl Hsub Hok. split; cbn; try done; [apply (sh_lock _ _ _ Hi) | apply (sh_small _ _ _ Hi) | |].
  - intros j q Hq. destruct (decide (i = j)) as [<-|Hne].
    + rewrite lookup_insert_eq. unfold at_pc in Hp. rewrite Hp in Hq. injection Hq as <-. exists c. split; [done|]. eapply call_frame; [exact Hok | by left | done].
    + rewrite lookup_insert_ne by done. destruct (sh_calls _ _ _ Hi j q Hq) as (c' & Hc' & Hok'). exists c'. split; [done|].
      eapply call_frame; [exact Hok' | | done]. cbn. destruct Ho as [->|Hin]; [by left|]. right. intros Hinj. apply Hne.
      apply (inv_section _ _ _ _ (sh_lock _ _ _ Hi) Hp) in Hin. apply (inv_section _ _ _ _ (sh_lock _ _ _ Hi) Hq) in Hinj. congruence.
  - intros j c' [[<- _]|[Hne Hc']]%lookup_insert_Some; [by exists p|]. by apply (sh_threads _ _ _ Hi j c').
Qed.

Lemma log_extend n a o' :
  shm_alloc (obj s) n = (a, o') → alloc_all o (sizes (log s ++ [(i, n, a)])) = (results (log s ++ [(i, n, a)]), o').
Proof using Hi.
  intros E. unfold sizes, results. rewrite !fmap_app. cbn. rewrite alloc_all_app. change ((λ e, e.1.2) <$> log s) with (sizes (log s)).
  rewrite (sh_log _ _ _ Hi). cbn. by rewrite E.
Qed.

Lemma in_log x : ∀ e, e ∈ log s → e ∈ log s ++ [x].
Proof using Type. intros e He. apply elem_of_app. by left. Qed.

Lemma has_pc c : at_call s i c → ∃ p, at_pc s i p ∧ call_ok s i c p.
Proof using Hi. intros Hc. destruct (sh_threads _ _ _ Hi i c Hc) as [p Hp]. exists p. split; [done|]. by apply at_both. Qed.

Lemma unchanged c : at_call s i c → <[i := c]> (calls s) = calls s.
Proof using Type. apply insert_id. Qed.

(** Where an action of the lock leaves the process. *)
Lemma lock_place c p :
  at_call s i c → at_pc s i p → p ≠ Outside → p ≠ Inside → call_ok s i c p → call_ok s i c (spin_act (served (sys s)) (lock (sys s)) p).1.
Proof using Type.
  intros _ _ Ho Hin Hok. destruct c; cbn in *; try naive_solver.
  - destruct Hok as [->|[Hsp|?]]; [right; by left | | done]. destruct p; try done. cbn. destruct (_ =? _); [by right; right | right; by left].
  - destruct Hok as [[?|Hsec] Hl]; [done|]. split; [|done]. destruct p; cbn in *; try done; [by right | by left].
Qed.

Lemma shm_step_inv s' : shm_step s i s' → ∃ f', shm_inv o s' f'.
Proof using Hi.
  intros Hst. destruct Hst as [n c Hc _ Hp|p Hp Ho Hin|n Hc Hp Hf|n Hc Hp Hf|n Hc|n a Hc|n a v Hc|n a Hc Hp|n a Hc Hp].
  - eapply inv_spin; [by apply call_lock | cbn; by rewrite lookup_insert_eq | by left].
  - destruct (sh_calls _ _ _ Hi i p Hp) as (c & Hc & Hok). destruct (inv_spin _ c _ (in_call _ _ p Hp Ho Hin) ltac:(cbn; by rewrite lookup_insert_eq)) as (f' & Hf').
    { by apply lock_place. }
    exists f'. unfold set_call, set_sys in Hf'. cbn in Hf'. by rewrite unchanged in Hf'.
  - exists f. eapply inv_data; [exact Hp | by left | | apply in_log |].
    + apply log_extend. unfold shm_alloc. by rewrite Hf.
    + cbn. split; [by right|]. apply elem_of_app. right. by left.
  - exists f. eapply (inv_data (obj s) (log s)); [exact Hp | by left | apply (sh_log _ _ _ Hi) | done | done].
  - destruct (has_pc _ Hc) as (p & Hp & -> & Hfit). exists f. by eapply (inv_data (obj s) (log s)); [exact Hp | by left | apply (sh_log _ _ _ Hi) | done | done].
  - destruct (has_pc _ Hc) as (p & Hp & -> & Hfit & Ha). exists f. by eapply (inv_data (obj s) (log s)); [exact Hp | by left | apply (sh_log _ _ _ Hi) | done | done].
  - destruct (has_pc _ Hc) as (p & Hp & -> & Hfit & -> & ->). exists f. eapply inv_data; [exact Hp | by right | | apply in_log |].
    + apply log_extend. unfold shm_alloc. by rewrite Hfit.
    + cbn. split; [by right|]. apply elem_of_app. right. by left.
  - pose proof (at_both _ _ Hc Hp) as [_ Hl].
    destruct (inv_spin _ (Done n a) _ (call_unlock _ _ Hp) ltac:(cbn; by rewrite lookup_insert_eq)) as (f' & Hf'); [cbn; split; [by right | done]|].
    exists f'. unfold set_call, set_sys in Hf'. cbn in Hf'. by rewrite unchanged in Hf'.
  - pose proof (at_both _ _ Hc Hp) as [_ Hl]. exists f. by eapply (inv_data (obj s) (log s)); [exact Hp | by left | apply (sh_log _ _ _ Hi) | done | done].
Qed.

End Step.

Lemma shm_reach_inv o s s' f : shm_inv o s f → rtc (λ s s', ∃ i, shm_step s i s') s s' → ∃ f', shm_inv o s' f'.
Proof.
  intros Hi Hr. revert f Hi. induction Hr as [|s s1 s' [i Hs] _ IH]; intros f Hi; [by exists f|].
  destruct (shm_step_inv _ _ _ _ Hi _ Hs) as [f1 Hi1]. by apply (IH f1).
Qed.

Lemma shm_start_inv o ids : Z.of_nat (base.size ids) ≤ 2 ^ 32 → shm_inv o (shm_start o ids) (Fifo None []).
Proof.
  intros Hids. split; cbn; try done; [apply start_inv | by apply small_start | |].
  - intros i p [Hin <-]%lookup_gset_to_gmap_Some. exists Idle. split; [|done]. by apply lookup_gset_to_gmap_Some.
  - intros i c [Hin _]%lookup_gset_to_gmap_Some. exists Outside. by apply lookup_gset_to_gmap_Some.
Qed.

(** C17: however processes interleave their calls of [shm_alloc], the results are those of
    the same requests served one after the other; each process gets the address that was
    recorded for it; and the blocks are aligned, lie inside the mapping behind its header,
    and never overlap (for requests of at most [2 ^ 63] bytes). *)
Theorem shm_alloc_concurrent o ids s :
  shm_ok o → Z.of_nat (base.size ids) ≤ 2 ^ 32 → rtc (λ s s', ∃ i, shm_step s i s') (shm_start o ids) s →
  alloc_all o (sizes (log s)) = (results (log s), obj s) ∧
  (∀ i n a, calls s !! i = Some (Returned n a) → (i, n, a) ∈ log s) ∧
  (Forall request_ok (sizes (log s)) →
   ∀ x i n a, log s !! x = Some (i, n, a) → a ≠ NULL →
   a mod 8 = 0 ∧ addr o + offset o ≤ a ∧ a + n ≤ addr o + size o ∧
   ∀ y j m b, log s !! y = Some (j, m, b) → b ≠ NULL → x ≠ y → a + n ≤ b ∨ b + m ≤ a).
Proof.
  intros Hok Hids Hr. destruct (shm_reach_inv _ _ _ _ (shm_start_inv o ids Hids) Hr) as [f Hi]. pose proof (sh_log _ _ _ Hi) as Hlog. split; [done|]. split.
  - intros i n a Hc. destruct (has_pc _ _ _ _ Hi _ Hc) as (p & _ & _ & Hl). done.
  - intros Hreq. destruct (alloc_all_ok _ o Hok Hreq) as ((_ & _ & Hoff & _) & _ & Hsz & _ & Hst). rewrite Hlog in *. cbn [fst snd] in *.
    assert (Hz : ∀ x i n a, log s !! x = Some (i, n, a) → zip (results (log s)) (sizes (log s)) !! x = Some (a, n)).
    { intros x i n a Hx. apply lookup_zip_with_Some. exists a, n. unfold results, sizes. rewrite !list_lookup_fmap, Hx. done. }
    intros x i n a Hx%Hz Hna. destruct (stacked_bounds _ _ _ a n Hst) as (H1 & H2 & H3 & _); [by eapply list_elem_of_lookup_2 | done|].
    split_and!; [done | done | lia |]. intros y j m b Hy%Hz Hnb Hne. destruct (decide (x < y)%nat).
    + left. by eapply (stacked_disjoint _ _ _ x y).
    + right. eapply (stacked_disjoint _ _ _ y x); [exact Hst | done | done | done | done | lia].
Qed.

(** A request close to [SIZE_MAX] overflows the test: it succeeds and moves the offset back,
    so that the next block overlaps the header of the allocator. *)
Theorem shm_alloc_overflow :
  let o := Shm 4096 4096 96 in
  (shm_alloc o (2 ^ 64 - 96)).1 = 4192 ∧ (shm_alloc (shm_alloc o (2 ^ 64 - 96)).2 8).1 = 4096.
Proof. done. Qed.

(** ** Start *)

(** The start-up maps one page, keeps the header at its beginning and leaves the rest free. *)
Lemma shm_init_ok mmap page_size s l :
  page_size mod 8 = 0 → 128 ≤ page_size < 2 ^ 31 → (∀ n a, mmap n = Some a → 0 < a ∧ a mod 8 = 0) →
  shm_init mmap page_size = Running (s, l) → shm_ok s ∧ l = spin_lock_init ∧ addr s + SIZEOF_SHM ≤ addr s + offset s.
Proof.
  intros Hp Hr Hm. unfold shm_init, shm_pages_alloc. destruct (mmap (u32 (1 * page_size))) as [a|] eqn:E; cbn; [|done].
  destruct (a =? NULL) eqn:Ea; [done|]. intros [= <- <-]. destruct (Hm _ _ E) as [H1 H2]. split; [|by cbn].
  unfold shm_ok. cbn [addr offset size]. change (ROUND_UP SIZEOF_SHM MEM_ALIGN) with 96. split_and!; try done; lia.
Qed.

(** The next step of a process; a new call asks for [n] bytes. *)
Definition shm_next (n : Z) (s : processes) (i : Z) : option processes :=
  p ← threads (sys s) !! i;
  c ← calls s !! i;
  match p, c with
  | Outside, Done m a => Some (set_call s i (Returned m a))
  | Outside, Idle => Some (set_call (set_sys s (advance (sys s) i (Lock_begin, lock (sys s)))) i (Locking n))
  | Outside, _ => None
  | Inside, Locking m =>
    if shm_full (obj s) (ROUND_UP m MEM_ALIGN) then Some (set_call (set_obj s (obj s) (log s ++ [(i, m, NULL)])) i (Done m NULL))
    else Some (set_call s i (Fits m))
  | Inside, Fits m => Some (set_call s i (Addr m (addr (obj s) + offset (obj s))))
  | Inside, Addr m a => Some (set_call s i (Adding m a (offset (obj s))))
  | Inside, Adding m a v =>
    Some (set_call (set_obj s (Shm (addr (obj s)) (size (obj s)) (size_t (v + ROUND_UP m MEM_ALIGN))) (log s ++ [(i, m, a)])) i (Done m a))
  | Inside, Done _ _ => Some (set_sys s (advance (sys s) i (Unlock_begin, lock (sys s))))
  | Inside, _ => None
  | _, _ => Some (set_sys s (advance (sys s) i (spin_act (served (sys s)) (lock (sys s)) p)))
  end.

Lemma shm_next_step n s i s' : shm_next n s i = Some s' → shm_step s i s'.
Proof.
  unfold shm_next. intros (p & Hp & H)%bind_Some. apply bind_Some in H as (c & Hc & H).
  destruct p, c; try done; try (injection H as <-; by apply (shm_lock s i _ Hp)).
  - injection H as <-. eapply shm_call; [exact Hc | by left | done].
  - injection H as <-. by eapply shm_return.
  - destruct (shm_full _ _) eqn:E; injection H as <-; [by eapply shm_fail | by eapply shm_fits].
  - injection H as <-. by eapply shm_addr.
  - injection H as <-. by eapply shm_load.
  - injection H as <-. by eapply shm_store.
  - injection H as <-. by eapply shm_unlock.
Qed.

Fixpoint shm_script (n : Z) (s : processes) (is_ : list Z) : processes :=
  match is_ with
  | [] => s
  | i :: is_ => match shm_next n s i with Some s' => shm_script n s' is_ | None => s end
  end.

Lemma shm_script_reached n is_ s : rtc (λ s s', ∃ i, shm_step s i s') s (shm_script n s is_).
Proof.
  revert s. induction is_ as [|i is_ IH]; intros s; cbn; [apply rtc_refl|]. destruct (shm_next n s i) as [s'|] eqn:E; [|apply rtc_refl].
  eapply rtc_l; [exists i; by apply (shm_next_step n) | apply IH].
Qed.

(** Two processes allocate 100 bytes each at the same time. *)
Definition page : shm := Shm 65536 4096 96.
Definition both : processes :=
  shm_script 100 (shm_start page {[1; 2]}) [1; 1; 2; 2; 1; 2; 1; 1; 2; 1; 1; 1; 1; 1; 2; 1; 2; 2; 2; 2; 2; 2; 2; 2].

Lemma shm_alloc_concurrent_witness :
  calls both !! 1 = Some (Returned 100 65632) ∧ calls both !! 2 = Some (Returned 100 65736) ∧
  alloc_all page (sizes (log both)) = (results (log both), obj both) ∧
  (∀ i n a, calls both !! i = Some (Returned n a) → (i, n, a) ∈ log both) ∧
  (Forall request_ok (sizes (log both)) →
   ∀ x i n a, log both !! x = Some (i, n, a) → a ≠ NULL →
   a mod 8 = 0 ∧ addr page + offset page ≤ a ∧ a + n ≤ addr page + size page ∧
   ∀ y j m b, log both !! y = Some (j, m, b) → b ≠ NULL → x ≠ y → a + n ≤ b ∨ b + m ≤ a).
Proof.
  split; [vm_compute; reflexivity|]. split; [vm_compute; reflexivity|].
  apply (shm_alloc_concurrent page {[1; 2]} both);
    [unfold shm_ok; cbn; split_and!; (lia || reflexivity) | vm_compute; discriminate | apply shm_script_reached].
Defined.
