(* ===== verification/Cirbuf.v ===== *)
(** The circular buffer: [src/util/cirbuf.h].

    The elements are slots of an array.  One process writes and another one reads, both
    without a lock; the operations are given as functions and, for the two processes, as
    the atomic actions they consist of.  A slot that is being written holds [None]. *)

From stdpp Require Import base gmap list numbers strings sets.
From Stdlib Require Import ZArith Lia.
From S2P Require Import Prelude.

(** [struct cirbuf]; the callbacks are arguments of the operations that call them. *)
Record cirbuf (A : Type) : Type := Cirbuf { elem_count : Z; start : Z; end_ : Z; elem : list (option A) }.
Arguments Cirbuf {A} _ _ _ _.
Arguments elem_count {A} _.
Arguments start {A} _.
Arguments end_ {A} _.
Arguments elem {A} _.

(** The remainder of two [int]s. *)
Definition int_rem (a b : Z) : cres Z := if b =? 0 then Ub else mret (Z.rem a b).

Section Cirbuf.
  Context {A : Type}.
  Implicit Types q : cirbuf A.

Definition set_start q (i : Z) : cirbuf A := Cirbuf (elem_count q) i (end_ q) (elem q).
Definition set_end q (i : Z) : cirbuf A := Cirbuf (elem_count q) (start q) i (elem q).
Definition set_elem q (l : list (option A)) : cirbuf A := Cirbuf (elem_count q) (start q) (end_ q) l.

Definition cirbuf_is_empty q : bool := start q =? end_ q.

(** [(i + 1) % queue->elem_count] *)
Definition next_index q (i : Z) : cres Z := j ← int_arith (i + 1); int_rem j (elem_count q).

Definition cirbuf_is_full q : cres bool := j ← next_index q (end_ q); mret (j =? start q).

(** [queue->elem + i * queue->elem_size] *)
Definition slot q (i : Z) : cres (option A) := if 0 <=? i then of_option (elem q !! Z.to_nat i) else Ub.
Definition put_slot q (i : Z) (x : option A) : cres (cirbuf A) :=
  _ ← slot q i; mret (set_elem q (<[Z.to_nat i := x]> (elem q))).

(** [write_cb] fills the slot with [x]. *)
Definition cirbuf_write q (x : A) : cres (Z * cirbuf A) :=
  full ← cirbuf_is_full q;
  if (full : bool) then mret (-1, q) else
  q ← put_slot q (end_ q) (Some x);
  e ← next_index q (end_ q);
  mret (0, set_end q e).

(** [read_cb] consumes the element into the state [st]. *)
Definition cirbuf_read {S} (read_cb : A → S → cres S) q (st : S) : cres (Z * S * cirbuf A) :=
  if cirbuf_is_empty q then mret (-1, st, q) else
  x ← slot q (start q);
  x ← of_option x;
  st ← read_cb x st;
  i ← next_index q (start q);
  mret (0, st, set_start q i).

(** The array is not touched. *)
Definition cirbuf_init (slots : list (option A)) (count : Z) : cirbuf A := Cirbuf count 0 0 slots.

(** ** A writer and a reader at the same time *)

Inductive writer : Type :=
| W_idle
| W_room (x : A)
| W_filling (x : A)
| W_filled (x : A).

Inductive reader : Type :=
| R_idle
| R_some
| R_got (x : A).

(** [sent] and [received] are history variables: what has been added, and what has been read. *)
Record pipe : Type := Pipe { ring : cirbuf A; wr : writer; rd : reader; sent : list A; received : list A }.

Inductive pipe_step : pipe → pipe → Prop :=
| w_full q r s t : cirbuf_is_full q = Ok true → pipe_step (Pipe q W_idle r s t) (Pipe q W_idle r s t)
| w_room q r s t x : cirbuf_is_full q = Ok false → pipe_step (Pipe q W_idle r s t) (Pipe q (W_room x) r s t)
| w_begin q r s t x q' : put_slot q (end_ q) None = Ok q' → pipe_step (Pipe q (W_room x) r s t) (Pipe q' (W_filling x) r s t)
| w_finish q r s t x q' : put_slot q (end_ q) (Some x) = Ok q' → pipe_step (Pipe q (W_filling x) r s t) (Pipe q' (W_filled x) r s t)
| w_publish q r s t x e : next_index q (end_ q) = Ok e → pipe_step (Pipe q (W_filled x) r s t) (Pipe (set_end q e) W_idle r (s ++ [x]) t)
| r_empty q w s t : cirbuf_is_empty q = true → pipe_step (Pipe q w R_idle s t) (Pipe q w R_idle s t)
| r_some q w s t : cirbuf_is_empty q = false → pipe_step (Pipe q w R_idle s t) (Pipe q w R_some s t)
| r_read q w s t x : slot q (start q) = Ok (Some x) → pipe_step (Pipe q w R_some s t) (Pipe q w (R_got x) s t)
| r_publish q w s t x i : next_index q (start q) = Ok i → pipe_step (Pipe q w (R_got x) s t) (Pipe (set_start q i) w R_idle s (t ++ [x])).

(** ** The queue a buffer holds *)

(** The elements [pending], from the oldest, in the slots from [start] on. *)
Record holds_queue q (pending : list A) : Prop := HoldsQueue {
  hq_count : 2 ≤ elem_count q < 2 ^ 31;
  hq_slots : Z.of_nat (length (elem q)) = elem_count q;
  hq_start : 0 ≤ start q < elem_count q;
  hq_end : end_ q = (start q + Z.of_nat (length pending)) mod elem_count q;
  hq_room : Z.of_nat (length pending) < elem_count q;
  hq_elem : ∀ k x, pending !! k = Some x → elem q !! Z.to_nat ((start q + Z.of_nat k) mod elem_count q) = Some (Some x);
}.

Lemma next_index_ok q l i : holds_queue q l → 0 ≤ i < elem_count q → next_index q i = Ok ((i + 1) mod elem_count q).
Proof.
  intros Hq Hi. pose proof (hq_count _ _ Hq). unfold next_index, int_rem. rewrite int_arith_ok by lia. cbn.
  rewrite (proj2 (Z.eqb_neq _ _)) by lia. cbn. by rewrite Z.rem_mod_nonneg by lia.
Qed.

Lemma hq_end_range q l : holds_queue q l → 0 ≤ end_ q < elem_count q.
Proof. intros Hq. rewrite (hq_end _ _ Hq). apply Z.mod_pos_bound. pose proof (hq_count _ _ Hq). lia. Qed.

Lemma mod_ne a b c m : 0 < m → 0 ≤ b < m → 0 ≤ c < m → (a + b) mod m = (a + c) mod m → b = c.
Proof.
  intros Hm Hb Hc E. assert ((b - c) mod m = 0) as Hz.
  { replace (b - c) with ((a + b) - (a + c)) by lia. by rewrite Zminus_mod, E, Z.sub_diag. }
  apply Z.mod_divide in Hz as [k Hk]; [|lia]. assert (k = 0) by nia. lia.
Qed.

Lemma is_empty_ok q l : holds_queue q l → cirbuf_is_empty q = bool_decide (l = []).
Proof.
  intros Hq. unfold cirbuf_is_empty. rewrite (hq_end _ _ Hq). pose proof (hq_start _ _ Hq). pose proof (hq_room _ _ Hq).
  destruct l as [|x l]; cbn [length].
  - rewrite Z.add_0_r, Z.mod_small by lia. by rewrite Z.eqb_refl.
  - rewrite bool_decide_eq_false_2 by done. apply Z.eqb_neq. intros E.
    rewrite <-(Z.mod_small (start q) (elem_count q)) in E at 1 by lia. rewrite <-(Z.add_0_r (start q)) in E at 1.
    apply mod_ne in E; cbn [length] in *; lia.
Qed.

Lemma is_full_ok q l : holds_queue q l → cirbuf_is_full q = Ok (bool_decide (Z.of_nat (length l) = elem_count q - 1)).
Proof.
  intros Hq. unfold cirbuf_is_full. rewrite (next_index_ok q l) by (done || by eapply hq_end_range). cbn. f_equal.
  pose proof (hq_start _ _ Hq). pose proof (hq_room _ _ Hq). pose proof (hq_count _ _ Hq). rewrite (hq_end _ _ Hq), Z.add_mod_idemp_l by lia.
  case_bool_decide as E.
  - replace (start q + Z.of_nat (length l) + 1) with (start q + 1 * elem_count q) by lia. rewrite Z_mod_plus, Z.mod_small by lia. apply Z.eqb_refl.
  - apply Z.eqb_neq. intros E2. rewrite <-(Z.mod_small (start q) (elem_count q)) in E2 at 2 by lia. rewrite <-(Z.add_0_r (start q)) in E2 at 2.
    rewrite <-Z.add_assoc in E2. apply mod_ne in E2; lia.
Qed.

Lemma slot_ok q l i : holds_queue q l → 0 ≤ i < elem_count q → ∃ x, slot q i = Ok x ∧ elem q !! Z.to_nat i = Some x.
Proof.
  intros Hq Hi. unfold slot. rewrite (proj2 (Z.leb_le _ _)) by lia. destruct (lookup_lt_is_Some_2 (elem q) (Z.to_nat i)) as [x Hx].
  { pose proof (hq_slots _ _ Hq). lia. }
  rewrite Hx. by exists x.
Qed.

(** Writing the slot at the end leaves the queue as it is. *)
Lemma put_end_ok q l x : holds_queue q l →
  ∃ q', put_slot q (end_ q) x = Ok q' ∧ q' = set_elem q (<[Z.to_nat (end_ q) := x]> (elem q)) ∧ holds_queue q' l ∧
    elem q' !! Z.to_nat (end_ q) = Some x.
Proof.
  intros Hq. pose proof (hq_end_range _ _ Hq) as He. destruct (slot_ok q l _ Hq He) as (y & Hs & Hy). unfold put_slot. rewrite Hs. cbn.
  eexists. split; [done|]. split; [done|]. pose proof (lookup_lt_Some _ _ _ Hy) as Hlt. split; [|cbn; by apply list_lookup_insert_eq].
  destruct Hq as [H1 H2 H3 H4 H5 H6]. split; cbn; try done; [by rewrite length_insert|].
  intros k z Hk. rewrite list_lookup_insert_ne; [by apply H6|]. intros E. apply lookup_lt_Some in Hk.
  rewrite H4 in E. apply Z2Nat.inj in E; try (apply Z.mod_pos_bound; lia). apply mod_ne in E; lia.
Qed.

(** Moving the end over a filled slot appends, moving the start removes the oldest. *)
Lemma advance_end_ok q l x e :
  holds_queue q l → Z.of_nat (length l) < elem_count q - 1 → elem q !! Z.to_nat (end_ q) = Some (Some x) →
  next_index q (end_ q) = Ok e → holds_queue (set_end q e) (l ++ [x]).
Proof.
  intros Hq Hr Hx He. rewrite (next_index_ok q l) in He by (done || by eapply hq_end_range). injection He as <-.
  destruct Hq as [H1 H2 H3 H4 H5 H6]. split; cbn; try done.
  - rewrite H4, length_app, Z.add_mod_idemp_l by lia. f_equal. cbn. lia.
  - rewrite length_app. cbn. lia.
  - intros k z [Hk|[Hk Hz]]%lookup_app_Some; [by apply H6|]. apply list_lookup_singleton_Some in Hz as [Hk0 ->].
    replace (Z.of_nat k) with (Z.of_nat (length l)) by lia. by rewrite <-H4.
Qed.

Lemma advance_start_ok q x l i :
  holds_queue q (x :: l) → next_index q (start q) = Ok i → holds_queue (set_start q i) l.
Proof.
  intros Hq Hi. rewrite (next_index_ok q (x :: l)) in Hi by (done || apply (hq_start _ _ Hq)). injection Hi as <-.
  destruct Hq as [H1 H2 H3 H4 H5 H6]. split; cbn in *; try done.
  - apply Z.mod_pos_bound. lia.
  - rewrite H4, Z.add_mod_idemp_l by lia. f_equal. lia.
  - lia.
  - intros k z Hk. specialize (H6 (S k) z Hk). rewrite Z.add_mod_idemp_l by lia. replace (start q + 1 + Z.of_nat k) with (start q + Z.of_nat (S k)) by lia. done.
Qed.

Lemma first_slot_ok q x l : holds_queue q (x :: l) → slot q (start q) = Ok (Some x).
Proof.
  intros Hq. pose proof (hq_start _ _ Hq) as Hs. destruct (slot_ok q _ _ Hq Hs) as (y & -> & Hy).
  pose proof (hq_elem _ _ Hq 0%nat x eq_refl) as H0. rewrite Z.add_0_r, Z.mod_small in H0 by lia. congruence.
Qed.

Lemma init_ok slots count : 2 ≤ count < 2 ^ 31 → Z.of_nat (length slots) = count → holds_queue (cirbuf_init slots count) [].
Proof. intros Hc Hl. split; cbn; try done; lia. Qed.

(** ** The operations *)

Lemma write_ok q l x : holds_queue q l →
  ∃ q', cirbuf_write q x = Ok (if bool_decide (Z.of_nat (length l) = elem_count q - 1) then -1 else 0, q') ∧
    holds_queue q' (if bool_decide (Z.of_nat (length l) = elem_count q - 1) then l else l ++ [x]) ∧ elem_count q' = elem_count q.
Proof.
  intros Hq. unfold cirbuf_write. rewrite (is_full_ok q l Hq). cbn. case_bool_decide as E; [by exists q|].
  destruct (put_end_ok q l (Some x) Hq) as (q1 & -> & Hq1e & Hq1 & Hx). cbn. pose proof (hq_end_range _ _ Hq1) as He.
  assert (end_ q1 = end_ q ∧ elem_count q1 = elem_count q) as [E1 E2] by (by rewrite Hq1e). clear Hq1e. rewrite <-E1 in Hx.
  pose proof (next_index_ok q1 l _ Hq1 He) as Hn. rewrite Hn. cbn. eexists. split; [done|]. split; [|done].
  eapply advance_end_ok; [exact Hq1 | rewrite E2; pose proof (hq_room _ _ Hq); lia | exact Hx | exact Hn].
Qed.

Lemma read_empty_ok {S} (cb : A → S → cres S) q st : holds_queue q [] → cirbuf_read cb q st = Ok (-1, st, q).
Proof. intros Hq. unfold cirbuf_read. by rewrite (is_empty_ok q [] Hq). Qed.

Lemma read_ok {S} (cb : A → S → cres S) q x l st st' : holds_queue q (x :: l) → cb x st = Ok st' →
  ∃ q', cirbuf_read cb q st = Ok (0, st', q') ∧ holds_queue q' l ∧ elem_count q' = elem_count q.
Proof.
  intros Hq Hcb. unfold cirbuf_read. rewrite (is_empty_ok q _ Hq), bool_decide_eq_false_2 by done.
  rewrite (first_slot_ok q x l Hq). cbn. rewrite Hcb. cbn. rewrite (next_index_ok q (x :: l)) by (done || apply (hq_start _ _ Hq)). cbn.
  eexists. split; [done|]. split; [|done]. eapply advance_start_ok; [exact Hq|]. apply (next_index_ok q (x :: l)); [done | apply (hq_start _ _ Hq)].
Qed.

End Cirbuf.

Arguments pipe : clear implicits.
Arguments writer : clear implicits.
Arguments reader : clear implicits.
