(* ===== verification/CirbufProps.v ===== *)
(** The circular buffer between one writer and one reader that share it without a lock. *)

From stdpp Require Import base gmap list numbers strings sets.
From Stdlib Require Import ZArith Lia.
From S2P Require Import Prelude Cirbuf.

Section Pipe.
  Context {A : Type}.
  Implicit Types p : pipe A.

(** What each side knows, with [l] in the buffer. *)
Definition writer_ok (q : cirbuf A) (l : list A) (w : writer A) : Prop :=
  match w with
  | W_idle => True
  | W_room _ | W_filling _ => Z.of_nat (length l) < elem_count q - 1
  | W_filled x => Z.of_nat (length l) < elem_count q - 1 ∧ elem q !! Z.to_nat (end_ q) = Some (Some x)
  end.

Definition reader_ok (l : list A) (r : reader A) : Prop :=
  match r with
  | R_idle => True
  | R_some => l ≠ []
  | R_got x => head l = Some x
  end.

Record pipe_inv (n : Z) p (l : list A) : Prop := PipeInv {
  pi_queue : holds_queue (ring p) l;
  pi_count : elem_count (ring p) = n;
  pi_sent : sent p = received p ++ l;
  pi_writer : writer_ok (ring p) l (wr p);
  pi_reader : reader_ok l (rd p);
}.

Lemma full_room q (l : list A) b : holds_queue q l → cirbuf_is_full q = Ok b → if b then True else Z.of_nat (length l) < elem_count q - 1.
Proof.
  intros Hq. rewrite (is_full_ok q l Hq). intros [= <-]. case_bool_decide; [done|]. pose proof (hq_room _ _ Hq). lia.
Qed.

Lemma reader_app (l : list A) r x : reader_ok l r → reader_ok (l ++ [x]) r.
Proof. destruct r; cbn; [done | |]; destruct l; done. Qed.

Lemma pipe_step_inv n p p' l : pipe_inv n p l → pipe_step p p' → ∃ l', pipe_inv n p' l'.
Proof.
  intros [Hq Hn Hs Hw Hr] Hst. destruct Hst as [q r s t Hf|q r s t x Hf|q r s t x q' Hp|q r s t x q' Hp|q r s t x e He|q w s t He|q w s t He|q w s t x Hx|q w s t x i Hx];
    cbn [ring wr rd sent received] in *.
  - by exists l.
  - exists l. split; try done. exact (full_room _ _ _ Hq Hf).
  - destruct (put_end_ok q l None Hq) as (q1 & E & Hq1 & Hq1h & _). rewrite Hp in E. injection E as ->. exists l. split; try done; by rewrite Hq1.
  - destruct (put_end_ok q l (Some x) Hq) as (q1 & E & Hq1 & Hq1h & Hx). rewrite Hp in E. injection E as ->. exists l. split; try done; rewrite Hq1; [done|].
    split; [done|]. by rewrite Hq1 in Hx.
  - exists (l ++ [x]). destruct Hw as [Hroom Hx]. split; cbn; try done; [by eapply advance_end_ok | by rewrite Hs, app_assoc | by apply reader_app].
  - by exists l.
  - exists l. split; try done. rewrite (is_empty_ok q l Hq) in He. by apply bool_decide_eq_false in He.
  - exists l. split; try done. destruct l as [|y l]; [done|]. rewrite (first_slot_ok q y l Hq) in Hx. injection Hx as <-. done.
  - destruct l as [|y l]; [done|]. cbn in Hr. injection Hr as ->. exists l. split; cbn; try done; [by eapply advance_start_ok | by rewrite Hs, <-app_assoc |].
    destruct w; cbn in *; lia || (destruct Hw; split; [lia|done]) || done.
Qed.

(** Each side can always go on. *)
Definition pipe_enabled p : Prop :=
  (match wr p with
   | W_idle => ∃ b, cirbuf_is_full (ring p) = Ok b
   | W_room x => ∃ q, put_slot (ring p) (end_ (ring p)) None = Ok q
   | W_filling x => ∃ q, put_slot (ring p) (end_ (ring p)) (Some x) = Ok q
   | W_filled x => ∃ e, next_index (ring p) (end_ (ring p)) = Ok e
   end) ∧
  (match rd p with
   | R_idle => True
   | R_some => ∃ x, slot (ring p) (start (ring p)) = Ok (Some x)
   | R_got x => ∃ i, next_index (ring p) (start (ring p)) = Ok i
   end).

Lemma pipe_goes_on n p l : pipe_inv n p l → pipe_enabled p.
Proof.
  destruct p as [q w r s t]. intros [Hq Hn Hs Hw Hr]. cbn [ring wr rd sent received] in *. unfold pipe_enabled. cbn [ring wr rd]. split.
  - destruct w as [|x|x|x].
    + eexists. by apply (is_full_ok q l).
    + destruct (put_end_ok q l None Hq) as (q1 & E & _). by exists q1.
    + destruct (put_end_ok q l (Some x) Hq) as (q1 & E & _). by exists q1.
    + eexists. apply (next_index_ok q l); [done | by eapply hq_end_range].
  - destruct r as [| |x]; [done | |].
    + destruct l as [|y l]; [done|]. exists y. by apply (first_slot_ok q y l).
    + eexists. apply (next_index_ok q l); [done | apply (hq_start _ _ Hq)].
Qed.

Definition pipe_start (slots : list (option A)) (n : Z) : pipe A := Pipe (cirbuf_init slots n) W_idle R_idle [] [].

(** C18: one writer and one reader can use the buffer at the same time without a lock: in
    every interleaving what has been received is the beginning of what has been added, the
    rest, at most [elem_count - 1] elements, is in the buffer in order, no half-written slot
    is read, and every access stays inside the array. *)
Theorem cirbuf_pipe slots n p :
  2 ≤ n < 2 ^ 31 → Z.of_nat (length slots) = n → rtc pipe_step (pipe_start slots n) p →
  (∃ l, sent p = received p ++ l ∧ Z.of_nat (length l) ≤ n - 1 ∧ holds_queue (ring p) l) ∧ pipe_enabled p.
Proof.
  intros Hn Hl Hr. assert (∃ l, pipe_inv n p l) as [l Hi].
  { assert (Hi0 : pipe_inv n (pipe_start slots n) []) by (split; cbn; try done; by apply init_ok).
    revert Hi0. generalize (@nil A). induction Hr as [p|p p1 p' Hs _ IH]; intros l Hi; [by exists l|].
    destruct (pipe_step_inv _ _ _ _ Hi Hs) as [l1 Hi1]. by apply (IH l1). }
  split; [|by apply (pipe_goes_on n p l)]. exists l. pose proof (hq_room _ _ (pi_queue _ _ _ Hi)) as Hroom. rewrite (pi_count _ _ _ Hi) in Hroom.
  split_and!; [apply (pi_sent _ _ _ Hi) | lia | apply (pi_queue _ _ _ Hi)].
Qed.

End Pipe.

(** The writer has added 7; the reader has fetched it and not yet moved on. *)
Definition busy : pipe Z := Pipe (Cirbuf 2 0 1 [Some 7; None]) W_idle (R_got 7) [7] [].

Lemma busy_reached : rtc pipe_step (pipe_start [None; None] 2) busy.
Proof.
  eapply rtc_l; [by apply (w_room _ _ _ _ 7)|]. eapply rtc_l; [by apply w_begin|]. eapply rtc_l; [by apply w_finish|]. eapply rtc_l; [by apply w_publish|].
  eapply rtc_l; [by apply r_some|]. apply rtc_once. by apply r_read.
Qed.

Lemma cirbuf_pipe_witness :
  (∃ l, sent busy = received busy ++ l ∧ Z.of_nat (length l) ≤ 2 - 1 ∧ holds_queue (ring busy) l) ∧ pipe_enabled busy.
Proof. apply (cirbuf_pipe [None; None] 2 busy); [lia | reflexivity | exact busy_reached]. Defined.
