(* ===== verification/Logger.v ===== *)
(** The logger: [src/logger.c].

    Every process writes its records into a circular buffer of its own in shared memory; the
    master copies them through a page to the log file.  [pid], buffers and slots are the
    shared state; [log_fd], the page and what has been written to the file belong to the
    master.  What [strftime] prints, what [write] gets into the file, and the mappings are
    parameters.  The text of a message is an argument, [vsnprintf] truncates it. *)

From stdpp Require Import base gmap list numbers strings sets pretty.
From Stdlib Require Import ZArith Lia.
From S2P Require Import Prelude CStr Spinlock Shm Cirbuf.

Definition LOG_SIZE : Z := 1024 * 1024.

(** [struct log_buff]: the length that [snprintf] returned, and the array up to the
    terminating NUL. *)
Record log_buff : Type := LogBuff { len : Z; buff : list Z }.
Definition SIZEOF_LOG_BUFF : Z := 1024.
Definition BUFF_SIZE : Z := 1016.
Definition MSG_SIZE : Z := 1024.

(** [struct logger] *)
Record logger : Type := Logger { pid : Z; need_init : bool; queue : cirbuf log_buff }.
Definition SIZEOF_LOGGER : Z := 56.
Definition SIZEOF_SPINLOCK : Z := 72.

Definition set_queue (g : logger) (q : cirbuf log_buff) : logger := Logger (pid g) (need_init g) q.

Definition STR_LOG_LEVEL : list (list Z) := [str "CRIT"; str "ERR"; str "WARN"; str "INFO"].

Fixpoint level_loop (index : Z) (names : list (list Z)) (level : list Z) : proc Z :=
  match names with
  | [] => Exit 0
  | name :: names => if str_equal level name then Running index else level_loop (index + 1) names level
  end.
Definition log_str_level (level : list Z) : proc Z := level_loop 0 STR_LOG_LEVEL level.

(** The state: descriptor, level, the page (whether it is mapped, and its used part), the
    contents of the file, the shared loggers. *)
Record logs : Type := Logs {
  logger_fd : Z; log_level : Z; page_mapped : bool; flush_page : list Z; log_file : list Z; log_object : list logger
}.

Definition set_page (s : logs) (p : list Z) : logs :=
  Logs (logger_fd s) (log_level s) (page_mapped s) p (log_file s) (log_object s).
Definition set_file (s : logs) (f : list Z) : logs :=
  Logs (logger_fd s) (log_level s) (page_mapped s) (flush_page s) f (log_object s).
Definition set_object (s : logs) (o : list logger) : logs :=
  Logs (logger_fd s) (log_level s) (page_mapped s) (flush_page s) (log_file s) o.

Section Logger.
  Context (page_size : Z) (sys_write : list Z → list Z).

Definition zlen {A} (l : list A) : Z := Z.of_nat (length l).

Definition log_flush (s : logs) : logs :=
  if zlen (flush_page s) =? 0 then s else
  let s := if logger_fd s >? 0 then set_file s (log_file s ++ sys_write (flush_page s)) else s in
  set_page s [].

(** [memcpy] reads [len] bytes of [buff] and must not leave the page. *)
Definition log_read (x : log_buff) (s : logs) : cres logs :=
  let s := if size_t (page_size - zlen (flush_page s)) <? len x then log_flush s else s in
  if negb (page_mapped s) then Ub else
  if (BUFF_SIZE <? len x) || (page_size <? zlen (flush_page s) + len x) then Ub else
  mret (set_page s (flush_page s ++ take (Z.to_nat (len x)) (buff x))).

Definition dec (z : Z) : list Z := str (pretty z).

(** ["(%d)%s %s:%d [%s]: %s\n"] *)
Definition log_text (pid : Z) (strnow file : list Z) (line : Z) (level msg : list Z) : list Z :=
  str "(" ++ dec pid ++ str ")" ++ strnow ++ str " " ++ file ++ str ":" ++ dec line ++ str " [" ++ level ++ str "]: " ++ msg ++ [10].

(** [snprintf] returns the length of the whole text and stores what fits, with a NUL. *)
Definition snprintf (size : Z) (text : list Z) : log_buff :=
  LogBuff (zlen text) (take (Z.to_nat (size - 1)) text ++ [0]).

Definition log_write (pid : Z) (strnow file : list Z) (line level : Z) (msg : list Z) : cres log_buff :=
  name ← of_option (STR_LOG_LEVEL !! Z.to_nat level);
  mret (snprintf BUFF_SIZE (log_text pid strnow file line name msg)).

(** [while (-1 != cirbuf_read(&log->queue, NULL));] *)
Fixpoint drain (fuel : nat) (q : cirbuf log_buff) (s : logs) : cres (cirbuf log_buff * logs) :=
  '(r, s, q) ← cirbuf_read log_read q s;
  if r =? -1 then mret (q, s) else
  match fuel with
  | O => Fuel
  | S fuel => drain fuel q s
  end.

Definition copy_to_cache (g : logger) (s : logs) : cres (logger * logs) :=
  '(q, s) ← drain (Z.to_nat (elem_count (queue g))) (queue g) s;
  mret (if need_init g then Logger 0 false q else Logger (pid g) (need_init g) q, s).

Fixpoint scan_loop (gs : list logger) (s : logs) : cres (list logger * logs) :=
  match gs with
  | [] => mret ([], s)
  | g :: gs =>
    '(g, s) ← (if pid g =? 0 then mret (g, s) else copy_to_cache g s);
    '(gs, s) ← scan_loop gs s;
    mret (g :: gs, s)
  end.

Definition log_scan_write (s : logs) : cres logs :=
  '(gs, s) ← scan_loop (log_object s) s;
  mret (log_flush (set_object s gs)).

(** Under the lock; the result and the index that becomes [logger_id]. *)
Fixpoint alloc_loop (index : Z) (gs : list logger) (p : Z) : option (Z * list logger) :=
  match gs with
  | [] => None
  | g :: gs =>
    if pid g =? 0 then
      Some (index, Logger p false (cirbuf_init (elem (queue g)) (LOG_SIZE / SIZEOF_LOG_BUFF)) :: gs)
    else '(i, gs) ← alloc_loop (index + 1) gs p; Some (i, g :: gs)
  end.

Definition log_worker_alloc (s : logs) (logger_id p : Z) : Z * Z * logs :=
  match alloc_loop 0 (log_object s) p with
  | Some (i, gs) => (0, i, set_object s gs)
  | None => (-1, logger_id, s)
  end.

Definition log_worker_flush_and_reset (s : logs) (p : Z) : logs :=
  set_object s ((λ g, if pid g =? p then Logger (pid g) true (queue g) else g) <$> log_object s).

Definition log_out (s : logs) (logger_id level : Z) (strnow file : list Z) (line : Z) (text : list Z) : cres logs :=
  if log_level s <? level then mret s else
  g ← of_option (log_object s !! Z.to_nat logger_id);
  x ← log_write (pid g) strnow file line level (take (Z.to_nat (MSG_SIZE - 1)) text);
  '(_, q) ← cirbuf_write (queue g) x;
  mret (set_object s (<[Z.to_nat logger_id := set_queue g q]> (log_object s))).

End Logger.

(** ** Start *)

Section Init.
  (** The answer to the [i]-th call of [mmap] since the start, for a size. *)
  Context (page_size : Z) (mmap : nat → Z → option Z).

(** A mapping of [LOG_SIZE] bytes as slots; what they contain. *)
Context (fresh_slots : list (option log_buff)).

(** [n] objects are left to be made, and [i] mappings have been made. *)
Fixpoint objects_loop (i n : nat) : proc (list logger) :=
  match n with
  | O => Running []
  | S n =>
    if shm_pages_alloc (mmap i) page_size (LOG_SIZE / page_size) =? NULL then Exit 0 else
    match objects_loop (S i) n with
    | Running gs => Running (Logger 0 false (Cirbuf 0 0 0 fresh_slots) :: gs)
    | Exit code => Exit code
    | Aborted => Aborted
    end
  end.

(** [access] tells whether the file is there and usable, [open] with or without [O_CREAT]
    gives a descriptor or -1. *)
Context (access : list Z → bool) (open : bool → list Z → Z).

Definition gen_logfile_fd (path : list Z) : proc Z :=
  let fd := if access path then open false path else open true path in
  if fd =? -1 then Exit 0 else Running fd.

(** [mmap] does not return NULL when it fails, so that the test of [flush_page] never
    succeeds; the lock is initialised without a test.  The first mapping is the one of
    [shm_init]. *)
Definition log_init (path level : list Z) (o : shm) (worker_processes : Z) : cres (proc (logs * shm)) :=
  match gen_logfile_fd path with
  | Exit code => mret (Exit code)
  | Aborted => mret Aborted
  | Running fd =>
  match log_str_level level with
  | Exit code => mret (Exit code)
  | Aborted => mret Aborted
  | Running lv =>
    let mapped := bool_decide (is_Some (mmap 1%nat page_size)) in
    let '(lock, o) := shm_alloc o SIZEOF_SPINLOCK in
    if lock =? NULL then Ub else
    num ← int_arith (worker_processes + 1);
    let '(objs, o) := shm_alloc o (size_t (SIZEOF_LOGGER * size_t num)) in
    if objs =? NULL then mret (Exit 0) else
    match objects_loop 2 (Z.to_nat num) with
    | Running gs => mret (Running (Logs fd lv mapped [] [] gs, o))
    | Exit code => mret (Exit code)
    | Aborted => mret Aborted
    end
  end
  end.

End Init.
