(* ===== verification/LoggerProps.v ===== *)
(** What the logger promises: records reach the file completely and in order, and processes
    do not share a slot. *)

From stdpp Require Import base gmap list numbers strings sets pretty.
From Stdlib Require Import ZArith Lia.
From S2P Require Import Prelude CStr Spinlock Shm Cirbuf Logger.

(** A record that fits its array, and what the reader takes from it. *)
Definition readable (x : log_buff) : Prop := 0 ≤ len x ≤ BUFF_SIZE ∧ len x ≤ zlen (buff x).
Definition bytes (x : log_buff) : list Z := take (Z.to_nat (len x)) (buff x).

(** The records that wait in the buffers; a slot without a process has none. *)
Definition pending (g : logger) (l : list log_buff) : Prop :=
  if pid g =? 0 then l = [] else holds_queue (queue g) l ∧ Forall readable l.

(** A slot after a scan. *)
Definition scanned (g g' : logger) : Prop :=
  if pid g =? 0 then g' = g
  else holds_queue (queue g') [] ∧ elem_count (queue g') = elem_count (queue g) ∧ need_init g' = false ∧
    pid g' = if need_init g then 0 else pid g.

Definition master_ok (page_size : Z) (s : logs) : Prop := page_mapped s = true ∧ logger_fd s > 0 ∧ zlen (flush_page s) ≤ page_size.
(** Only the page and the file differ. *)
Definition same_rest (s s' : logs) : Prop :=
  logger_fd s' = logger_fd s ∧ log_level s' = log_level s ∧ page_mapped s' = page_mapped s ∧ log_object s' = log_object s.

Lemma same_rest_trans s1 s2 s3 : same_rest s1 s2 → same_rest s2 s3 → same_rest s1 s3.
Proof. unfold same_rest. intuition congruence. Qed.

Section Master.
  Context (page_size : Z) (sys_write : list Z → list Z) (Hps : BUFF_SIZE ≤ page_size < 2 ^ 31).

(** The bytes [l] pass through the page: it is handed to [write] whenever it is full, and
    what [write] takes of each page comes to the file. *)
Definition flows (s s' : logs) (l : list Z) : Prop :=
  ∃ pages, log_file s' = log_file s ++ concat (sys_write <$> pages) ∧ concat pages ++ flush_page s' = flush_page s ++ l ∧
    Forall (λ p, 0 < zlen p ≤ page_size) pages.

Lemma flows_refl s : flows s s [].
Proof using Type. exists []. by rewrite !app_nil_r. Qed.

Lemma flows_trans s1 s2 s3 l1 l2 : flows s1 s2 l1 → flows s2 s3 l2 → flows s1 s3 (l1 ++ l2).
Proof using Type.
  intros (p1 & F1 & E1 & H1) (p2 & F2 & E2 & H2). exists (p1 ++ p2). split_and!; [|..|by apply Forall_app].
  - by rewrite F2, F1, fmap_app, concat_app, app_assoc.
  - by rewrite concat_app, <-app_assoc, E2, !app_assoc, E1.
Qed.

Lemma flush_ok s : master_ok page_size s →
  master_ok page_size (log_flush sys_write s) ∧ same_rest s (log_flush sys_write s) ∧ flush_page (log_flush sys_write s) = [] ∧ flows s (log_flush sys_write s) [].
Proof using Hps.
  intros (Hm & Hfd & Hlen). unfold log_flush. destruct (zlen (flush_page s) =? 0) eqn:E.
  - apply Z.eqb_eq in E. unfold zlen in E. assert (flush_page s = []) by (apply length_zero_iff_nil; lia). split_and!; try done. apply flows_refl.
  - rewrite Z.gtb_ltb, (proj2 (Z.ltb_lt _ _)) by lia. apply Z.eqb_neq in E. cbn. split_and!; try done.
    + unfold BUFF_SIZE in *. split_and!; cbn; [done | done|]. unfold zlen. cbn. lia.
    + exists [flush_page s]. cbn. rewrite !app_nil_r. split_and!; try done. apply Forall_singleton. unfold zlen in *. lia.
Qed.

Lemma read_flows x s : master_ok page_size s → readable x →
  ∃ s', log_read page_size sys_write x s = Ok s' ∧ master_ok page_size s' ∧ same_rest s s' ∧ flows s s' (bytes x).
Proof using Hps.
  intros Hs [Hx Hbx]. unfold log_read. pose proof Hs as (_ & _ & Hlen). rewrite size_t_id by (unfold zlen in *; lia).
  set (s1 := if _ <? _ then _ else _).
  assert (H1 : master_ok page_size s1 ∧ same_rest s s1 ∧ flows s s1 [] ∧ zlen (flush_page s1) + len x ≤ page_size).
  { unfold s1. destruct (_ <? len x) eqn:E.
    - destruct (flush_ok s Hs) as (H1 & H2 & H3 & H4). split; [done|]. split; [done|]. split; [done|]. rewrite H3. unfold zlen. cbn. lia.
    - apply Z.ltb_ge in E. split; [done|]. split; [done|]. split; [apply flows_refl|]. lia. }
  clearbody s1. clear Hlen. destruct H1 as ((Hm & Hfd & Hlen) & Hr & Hst & Hfit). rewrite Hm. cbn [negb].
  rewrite (proj2 (Z.ltb_ge _ _)), (proj2 (Z.ltb_ge _ _)) by lia. cbn. eexists. split; [done|]. split_and!; cbn; try done.
  - unfold master_ok. cbn. split_and!; try done. unfold zlen in *. rewrite length_app, length_take. lia.
  - eapply (flows_trans _ _ _ [] _ Hst). exists []. cbn. by rewrite app_nil_r.
Qed.

Lemma drain_ok fuel : ∀ q l s,
  holds_queue q l → Forall readable l → master_ok page_size s → (length l ≤ fuel)%nat →
  ∃ q' s', drain page_size sys_write fuel q s = Ok (q', s') ∧ holds_queue q' [] ∧ elem_count q' = elem_count q ∧ master_ok page_size s' ∧ same_rest s s' ∧
    flows s s' (concat (bytes <$> l)).
Proof using Hps.
  induction fuel as [|fuel IH]; intros q l s Hq Hl Hs Hf; (destruct l as [|x l]; [cbn [drain]; rewrite read_empty_ok by done; cbn; eexists _, _; split; [done|]; split_and!; try done; apply flows_refl|]);
    cbn [length] in Hf; [lia|]. apply Forall_cons in Hl as [Hx Hl].
  destruct (read_flows x s Hs Hx) as (s1 & E1 & Hs1 & Hr1 & Hst1). destruct (read_ok (log_read page_size sys_write) q x l s s1 Hq E1) as (q1 & E2 & Hq1 & Hc1).
  cbn [drain]. rewrite E2. cbn. destruct (IH q1 l s1 Hq1 Hl Hs1) as (q' & s' & E & H1 & H2 & H3 & H4 & H5); [lia|].
  exists q', s'. rewrite E. split_and!; try done; [congruence | by eapply same_rest_trans | by eapply flows_trans].
Qed.

Lemma scan_loop_ok gs : ∀ ls s,
  Forall2 pending gs ls → master_ok page_size s →
  ∃ gs' s', scan_loop page_size sys_write gs s = Ok (gs', s') ∧ Forall2 scanned gs gs' ∧ master_ok page_size s' ∧ same_rest s s' ∧
    flows s s' (concat (bytes <$> concat ls)).
Proof using Hps.
  induction gs as [|g gs IH]; intros ls s Hp Hs.
  { apply Forall2_nil_inv_l in Hp as ->. cbn. eexists _, _. split; [done|]. split_and!; try done. apply flows_refl. }
  apply Forall2_cons_inv_l in Hp as (l & ls' & Hg & Hgs & ->). cbn [scan_loop].
  assert (∃ g' s1, (if pid g =? 0 then mret (g, s) else copy_to_cache page_size sys_write g s) = Ok (g', s1) ∧ scanned g g' ∧ master_ok page_size s1 ∧ same_rest s s1 ∧
    flows s s1 (concat (bytes <$> l))) as (g' & s1 & -> & Hg' & Hs1 & Hr1 & Hst1).
  { unfold pending, scanned in *. destruct (pid g =? 0) eqn:E.
    - subst l. cbn. eexists _, _. split; [done|]. split_and!; try done. apply flows_refl.
    - destruct Hg as [Hq Hl]. unfold copy_to_cache. destruct (drain_ok (Z.to_nat (elem_count (queue g))) (queue g) l s Hq Hl Hs) as (q' & s' & -> & H1 & H2 & H3 & H4 & H5).
      { pose proof (hq_room _ _ Hq). lia. }
      cbn. eexists _, _. split; [done|]. split; [|split; [done|]; split; done]. destruct (need_init g) eqn:En; cbn; by rewrite ?En. }
  cbn. destruct (IH ls' s1 Hgs Hs1) as (gs' & s' & -> & H1 & H2 & H3 & H4). cbn. eexists _, _. split; [done|].
  split_and!; [by constructor | done | by eapply same_rest_trans |]. rewrite fmap_app, concat_app. by eapply flows_trans.
Qed.

Lemma scan_ok s ls :
  Forall2 pending (log_object s) ls → master_ok page_size s →
  ∃ s', log_scan_write page_size sys_write s = Ok s' ∧ Forall2 scanned (log_object s) (log_object s') ∧
    master_ok page_size s' ∧ flush_page s' = [] ∧ flows s s' (concat (bytes <$> concat ls)).
Proof using Hps.
  intros Hp Hs. unfold log_scan_write. destruct (scan_loop_ok _ ls s Hp Hs) as (gs' & s1 & -> & Hsc & Hs1 & Hr & Hst). cbn.
  assert (Hs2 : master_ok page_size (set_object s1 gs')) by exact Hs1. destruct (flush_ok _ Hs2) as (H1 & (_ & _ & _ & H2) & H3 & H4).
  eexists. split; [done|]. split_and!; try done; [by rewrite H2|].
  rewrite <-(app_nil_r (concat _)). eapply flows_trans; [exact Hst|]. exact H4.
Qed.

End Master.

(** ** A message *)

Lemma snprintf_bytes text : zlen text < BUFF_SIZE → readable (snprintf BUFF_SIZE text) ∧ bytes (snprintf BUFF_SIZE text) = text.
Proof.
  unfold readable, bytes, snprintf, zlen, BUFF_SIZE. cbn [len buff]. intros Hl. rewrite Nat2Z.id, (take_ge text) by lia. split; [rewrite length_app; cbn; lia|].
  by rewrite take_app_length.
Qed.

Lemma out_ok s i g l level strnow file line text name :
  0 ≤ i → log_object s !! Z.to_nat i = Some g → holds_queue (queue g) l → level ≤ log_level s → STR_LOG_LEVEL !! Z.to_nat level = Some name →
  let x := snprintf BUFF_SIZE (log_text (pid g) strnow file line name (take (Z.to_nat (MSG_SIZE - 1)) text)) in
  ∃ q, log_out s i level strnow file line text = Ok (set_object s (<[Z.to_nat i := set_queue g q]> (log_object s))) ∧
    holds_queue q (if bool_decide (zlen l = elem_count (queue g) - 1) then l else l ++ [x]).
Proof.
  intros Hi Hg Hq Hlv Hname x. unfold log_out. rewrite (proj2 (Z.ltb_ge _ _)) by lia. rewrite Hg. cres_simpl. unfold log_write. rewrite Hname. cres_simpl.
  fold x. destruct (write_ok (queue g) l x Hq) as (q & -> & Hq' & _). cres_simpl. by exists q.
Qed.

(** C25: a log message of a process comes out in its place.  If the level is enabled, the
    buffer of the process has room and the formatted line is shorter than a record, [log_out]
    and then [log_scan_write] hand to [write], in pieces of at most a page, exactly what was
    in the page, then everything that was buffered, with that line behind the other records
    of its process; the file gets of each piece what [write] takes of it, so that it gets
    every byte in order if the writes are complete.  The scan ends, empties all buffers and
    frees the slots of the processes that have ended. *)
Theorem log_roundtrip page_size sys_write s ls i g l level strnow file line text name :
  BUFF_SIZE ≤ page_size < 2 ^ 31 → master_ok page_size s → Forall2 pending (log_object s) ls →
  0 ≤ i → log_object s !! Z.to_nat i = Some g → ls !! Z.to_nat i = Some l → pid g ≠ 0 → zlen l < elem_count (queue g) - 1 →
  level ≤ log_level s → STR_LOG_LEVEL !! Z.to_nat level = Some name →
  let line_text := log_text (pid g) strnow file line name (take (Z.to_nat (MSG_SIZE - 1)) text) in
  zlen line_text < BUFF_SIZE →
  ∃ s1 s2 pages, log_out s i level strnow file line text = Ok s1 ∧ log_scan_write page_size sys_write s1 = Ok s2 ∧
    concat pages = flush_page s ++ concat (bytes <$> concat (take (S (Z.to_nat i)) ls)) ++ line_text ++ concat (bytes <$> concat (drop (S (Z.to_nat i)) ls)) ∧
    Forall (λ p, 0 < zlen p ≤ page_size) pages ∧ log_file s2 = log_file s ++ concat (sys_write <$> pages) ∧
    ((∀ p, sys_write p = p) → log_file s2 = log_file s ++ concat pages) ∧
    flush_page s2 = [] ∧ Forall2 scanned (log_object s1) (log_object s2).
Proof.
  intros Hps Hm Hp Hi Hg Hl Hpid Hroom Hlv Hname lt Hlt. pose proof (Forall2_lookup_lr _ _ _ _ _ _ Hp Hg Hl) as Hgl. unfold pending in Hgl.
  rewrite (proj2 (Z.eqb_neq _ _) Hpid) in Hgl. destruct Hgl as [Hq Hread]. destruct (snprintf_bytes lt Hlt) as [Hrx Hbx].
  destruct (out_ok s i g l level strnow file line text name Hi Hg Hq Hlv Hname) as (q & E & Hq'). fold lt in Hq'.
  rewrite bool_decide_eq_false_2 in Hq' by lia. set (x := snprintf BUFF_SIZE lt) in *. clearbody x. clearbody lt.
  assert (Hp' : Forall2 pending (<[Z.to_nat i := set_queue g q]> (log_object s)) (<[Z.to_nat i := l ++ [x]]> ls)).
  { apply Forall2_insert; [done|]. unfold pending. cbn. rewrite (proj2 (Z.eqb_neq _ _) Hpid). split; [done|]. apply Forall_app. split; [done | by apply Forall_singleton]. }
  destruct (scan_ok page_size sys_write Hps (set_object s (<[Z.to_nat i := set_queue g q]> (log_object s))) _ Hp' Hm) as (s2 & E2 & Hsc & _ & Hfl & pages & Hfile & Hpages & Hsize).
  exists (set_object s (<[Z.to_nat i := set_queue g q]> (log_object s))), s2, pages. rewrite Hfl, app_nil_r in Hpages. cbn [log_file flush_page set_object] in *. split_and!; try done.
  - rewrite Hpages. f_equal.
    rewrite insert_take_drop by (by eapply lookup_lt_Some). rewrite (take_S_r _ _ _ Hl), !concat_app, !fmap_app, !concat_app. cbn. rewrite !fmap_app, !concat_app. cbn.
    rewrite Hbx, !app_nil_r. by rewrite <-!app_assoc.
  - intros Hall. rewrite Hfile. f_equal. f_equal. rewrite <-(list_fmap_id pages) at 2. by apply list_fmap_ext; intros.
Qed.

(** A line longer than a record is recorded with its full length, and reading it copies
    memory behind the record. *)
Theorem log_line_too_long page_size text s :
  BUFF_SIZE < zlen text → page_mapped s = true → log_read page_size (λ p, p) (snprintf BUFF_SIZE text) s = Ub.
Proof.
  intros Hl Hm. unfold log_read. cbn [len snprintf]. set (s1 := if _ <? _ then _ else _). assert (page_mapped s1 = true) as ->.
  { unfold s1, log_flush. destruct (_ <? _); [|done]. destruct (_ =? _); [done|]. by destruct (_ >? _). }
  cbn [negb]. by rewrite (proj2 (Z.ltb_lt _ _)) by lia.
Qed.

(** ** Slots *)

Lemma alloc_loop_ok gs p : ∀ i,
  match alloc_loop i gs p with
  | None => Forall (λ g, pid g ≠ 0) gs
  | Some (j, gs') =>
    ∃ before g after, gs = before ++ g :: after ∧ Forall (λ g, pid g ≠ 0) before ∧ pid g = 0 ∧ j = i + zlen before ∧
      gs' = before ++ Logger p false (cirbuf_init (elem (queue g)) 1024) :: after
  end.
Proof.
  induction gs as [|g gs IH]; intros i; cbn [alloc_loop]; [constructor|]. destruct (pid g =? 0) eqn:E.
  - apply Z.eqb_eq in E. exists [], g, gs. unfold zlen. cbn. split_and!; try done; lia.
  - apply Z.eqb_neq in E. specialize (IH (i + 1)). destruct (alloc_loop (i + 1) gs p) as [[j gs']|]; cbn; [|by constructor].
    destruct IH as (b & g0 & a & -> & Hb & Hg0 & -> & ->). exists (g :: b), g0, a. unfold zlen. cbn. split_and!; try done; [by constructor | lia].
Qed.

(** A process that starts gets the first slot that no process has, with an empty buffer
    of 1024 records, and no other slot changes; if every slot is taken the result is -1 and
    nothing changes. *)
Theorem log_worker_alloc_spec s id p :
  Forall (λ g, pid g = 0 → length (elem (queue g)) = 1024%nat) (log_object s) →
  (log_worker_alloc s id p = (-1, id, s) ∧ Forall (λ g, pid g ≠ 0) (log_object s)) ∨
  ∃ before g after q,
    log_object s = before ++ g :: after ∧ Forall (λ g, pid g ≠ 0) before ∧ pid g = 0 ∧ holds_queue q [] ∧ elem_count q = 1024 ∧
    log_worker_alloc s id p = (0, zlen before, set_object s (before ++ Logger p false q :: after)).
Proof.
  intros Hel. unfold log_worker_alloc. pose proof (alloc_loop_ok (log_object s) p 0) as Ha. destruct (alloc_loop 0 (log_object s) p) as [[j gs']|]; [|by left].
  destruct Ha as (b & g & a & Hs & Hb & Hg & -> & ->). right. exists b, g, a, (cirbuf_init (elem (queue g)) 1024). split_and!; try done.
  apply init_ok; [lia|]. rewrite Hs in Hel. apply Forall_app in Hel as [_ [Hel _]%Forall_cons]. rewrite Hel; done.
Qed.

(** The slot of a process that has ended is free only after the next scan: if all slots are
    taken, a process that starts before the scan gets none, and one that starts after it
    does. *)
Theorem slot_recycled page_size s ls p q id :
  BUFF_SIZE ≤ page_size < 2 ^ 31 → master_ok page_size s → Forall2 pending (log_object s) ls → Forall (λ g, pid g ≠ 0) (log_object s) →
  p ∈ pid <$> log_object s →
  let s1 := log_worker_flush_and_reset s p in
  log_worker_alloc s1 id q = (-1, id, s1) ∧
  ∃ s2 i s3, log_scan_write page_size (λ p, p) s1 = Ok s2 ∧ log_worker_alloc s2 id q = (0, i, s3).
Proof.
  intros Hps Hm Hp Hall Hin s1. set (reset := λ g, if pid g =? p then Logger (pid g) true (queue g) else g).
  assert (Hs1 : log_object s1 = reset <$> log_object s) by done. assert (Hpid : ∀ g, pid (reset g) = pid g) by (intros g; unfold reset; by destruct (_ =? _)).
  assert (Hq : ∀ g, queue (reset g) = queue g) by (intros g; unfold reset; by destruct (_ =? _)).
  split.
  - unfold log_worker_alloc. pose proof (alloc_loop_ok (log_object s1) q 0) as Ha. destruct (alloc_loop 0 (log_object s1) q) as [[j gs']|]; [exfalso|done].
    destruct Ha as (b & g & a & Hg & _ & H0 & _). rewrite Hs1 in Hg. assert (Hgin : g ∈ reset <$> log_object s) by (rewrite Hg; set_solver).
    apply list_elem_of_fmap in Hgin as (g' & -> & Hg'). rewrite Hpid in H0. rewrite Forall_forall in Hall. by apply (Hall g').
  - assert (Hp1 : Forall2 pending (log_object s1) ls).
    { rewrite Hs1. apply Forall2_fmap_l. eapply Forall2_impl; [exact Hp|]. intros g l Hgl. change (pending (reset g) l). unfold pending in *. by rewrite Hpid, Hq. }
    destruct (scan_ok page_size (λ p, p) Hps s1 ls Hp1 Hm) as (s2 & E & Hsc & _). exists s2. apply list_elem_of_fmap in Hin as (g & Hpg & Hg).
    apply list_elem_of_lookup in Hg as [k Hk]. assert (Hk1 : log_object s1 !! k = Some (reset g)) by (rewrite Hs1, list_lookup_fmap, Hk; done).
    destruct (Forall2_lookup_l _ _ _ _ _ Hsc Hk1) as (g2 & Hk2 & Hg2). unfold scanned in Hg2. rewrite Forall_forall in Hall.
    rewrite Hpid, (proj2 (Z.eqb_neq _ _)) in Hg2 by (apply (Hall g), list_elem_of_lookup_2 with k; done). destruct Hg2 as (_ & _ & _ & H0).
    unfold reset in H0 at 1. rewrite Hpg, Z.eqb_refl in H0. cbn in H0.
    unfold log_worker_alloc. pose proof (alloc_loop_ok (log_object s2) q 0) as Ha. destruct (alloc_loop 0 (log_object s2) q) as [[j gs']|]; [by eexists _, _|].
    rewrite Forall_forall in Ha. destruct (Ha g2); [by eapply list_elem_of_lookup_2 | done].
Qed.

(** ** Witnesses *)

(** Two slots; process 42 has taken the first one. *)
Definition slots0 : list (option log_buff) := replicate 1024 None.
Definition fresh0 : logger := Logger 0 false (Cirbuf 0 0 0 slots0).
Definition logs0 : logs := Logs 3 3 true [] [] [fresh0; fresh0].
Definition g42 : logger := Logger 42 false (cirbuf_init slots0 1024).
Definition logs1 : logs := Logs 3 3 true [] [] [g42; fresh0].
Definition strnow0 : list Z := str "2024-01-01 00:00:00".

Lemma log_worker_alloc_spec_witness :
  (log_worker_alloc logs0 (-1) 42 = (-1, -1, logs0) ∧ Forall (λ g, pid g ≠ 0) (log_object logs0)) ∨
  ∃ before g after q,
    log_object logs0 = before ++ g :: after ∧ Forall (λ g, pid g ≠ 0) before ∧ pid g = 0 ∧ holds_queue q [] ∧ elem_count q = 1024 ∧
    log_worker_alloc logs0 (-1) 42 = (0, zlen before, set_object logs0 (before ++ Logger 42 false q :: after)).
Proof. apply (log_worker_alloc_spec logs0 (-1) 42). repeat constructor. Defined.

(** A disk that takes ten bytes of each piece *)
Lemma log_roundtrip_witness :
  ∃ s1 s2 pages, log_out logs1 0 2 strnow0 (str "main.c") 7 (str "hello") = Ok s1 ∧ log_scan_write 4096 (take 10) s1 = Ok s2 ∧
    concat pages = str "(42)2024-01-01 00:00:00 main.c:7 [WARN]: hello" ++ [10] ∧ log_file s2 = concat (take 10 <$> pages) ∧ flush_page s2 = [].
Proof.
  assert (Hp : Forall2 pending (log_object logs1) [[]; []]).
  { constructor; [|by repeat constructor]. split; [|constructor]. apply init_ok; [lia|]. unfold slots0. by rewrite length_replicate. }
  destruct (log_roundtrip 4096 (take 10) logs1 [[]; []] 0 g42 [] 2 strnow0 (str "main.c") 7 (str "hello") (str "WARN")) as (s1 & s2 & pages & E1 & E2 & Hc & _ & Hf & _ & Hp2 & _);
    [unfold BUFF_SIZE; lia | split_and!; (reflexivity || (vm_compute; discriminate)) | exact Hp | lia | reflexivity | reflexivity | discriminate | reflexivity | cbn; lia | reflexivity | reflexivity |].
  exists s1, s2, pages. split; [exact E1|]. split; [exact E2|]. split; [exact Hc|]. split; [exact Hf | exact Hp2].
Defined.
