(* ===== verification/Conf.v ===== *)
(** The configuration file: [src/util/conf.c].

    A line is the C string in the buffer, without its NUL; the pointer that walks over it is
    the rest of the line.  The file is its bytes, or [None] if it cannot be opened; whether
    the n-th [malloc] succeeds is a parameter.  The list of entries is the list of their keys
    and values, the newest first. *)

From stdpp Require Import base gmap list numbers strings.
From Stdlib Require Import ZArith Lia.
From S2P Require Import Prelude CStr.

Definition CONF_KV_LEN : Z := 64.

(** <ctype.h> in the C locale *)
Definition isspace (c : Z) : bool := (c =? 32) || ((9 <=? c) && (c <=? 13)).
Definition isprint (c : Z) : bool := (32 <=? c) && (c <=? 126).

(** [while (f( *loop)) loop++;] and the bytes passed over *)
Fixpoint span (f : Z → bool) (l : list Z) : list Z * list Z :=
  match l with
  | [] => ([], [])
  | c :: l' => if f c then let '(a, b) := span f l' in (c :: a, b) else ([], l)
  end.
Definition skip (f : Z → bool) (l : list Z) : list Z := (span f l).2.

Definition blank (c : Z) : bool := isspace c || negb (isprint c).
Definition key_char (c : Z) : bool := negb (c =? "#"%c) && negb (c =? "="%c) && negb (isspace c) && isprint c.
Definition separator (c : Z) : bool := negb (c =? "#"%c) && ((c =? "="%c) || isspace c || negb (isprint c)).
Definition value_char (c : Z) : bool := negb (c =? "#"%c) && negb (isspace c) && isprint c.

(** [Some (key, value)] stands for the result 0, [None] for -1. *)
Definition parse_conf (line : list Z) : option (list Z * list Z) :=
  let loop := skip blank line in
  match loop with
  | [] => None
  | c :: _ =>
    if c =? "#"%c then None else
    let '(key, loop) := span key_char loop in
    let loop := skip separator loop in
    let '(value, loop) := span value_char loop in
    Some (key, value)
  end.

Definition conf : Type := list (list Z * list Z).

(** [free_old_conf] releases the list that is replaced: nothing of it remains. *)
Definition free_old_conf (c : conf) : conf := [].

Fixpoint get_conf_entry (config : conf) (key : list Z) : proc (list Z) :=
  match config with
  | [] => Exit 0
  | (k, v) :: config => if str_equal k key then Running v else get_conf_entry config key
  end.

(** [fgets (buff, n + 1, fp)]: up to [n] bytes, up to and with a newline. *)
Fixpoint fgets (n : nat) (file : list Z) : list Z * list Z :=
  match n, file with
  | O, _ | _, [] => ([], file)
  | S n, c :: file =>
    if c =? 10 then ([c], file) else let '(a, b) := fgets n file in (c :: a, b)
  end.

(** The string ends at the first NUL. *)
Definition c_str (l : list Z) : list Z := (span (λ c, negb (c =? 0)) l).1.

Definition BUFF_CHARS : nat := 511.

Fixpoint load_loop (fuel : nat) (malloc_ok : nat → bool) (file : list Z) (head : conf) : cres (proc conf) :=
  match file with
  | [] => mret (Running head)
  | _ =>
    match fuel with
    | O => Fuel
    | S fuel =>
      let '(buff, file) := fgets BUFF_CHARS file in
      match parse_conf (c_str buff) with
      | None => load_loop fuel malloc_ok file head
      | Some (key, value) =>
        if (CONF_KV_LEN <=? Z.of_nat (length key)) || (CONF_KV_LEN <=? Z.of_nat (length value)) then mret (Exit 0) else
        if negb (malloc_ok (length head)) then mret (Exit 0) else
        load_loop fuel malloc_ok file ((key, value) :: head)
      end
    end
  end.

(** [config] is replaced as a whole after the file has been read. *)
Definition load_conf (malloc_ok : nat → bool) (config : conf) (file : option (list Z)) : cres (proc conf) :=
  match file with
  | None => mret (Exit 0)
  | Some bytes =>
    r ← load_loop (length bytes) malloc_ok bytes [];
    mret (match r with
          | Running head => Running (free_old_conf config ++ head)
          | Exit code => Exit code
          | Aborted => Aborted
          end)
  end.

(** ** Lines *)

(** A line as a user writes it: an entry with blanks around its parts and a comment, or no
    entry. *)
Inductive conf_line : Type :=
| Entry (before key sep value after : list Z)
| Remark (before text : list Z).

Definition newline : list Z := [10].

Definition print_line (l : conf_line) : list Z :=
  match l with
  | Entry b k s v a => b ++ k ++ s ++ v ++ a ++ newline
  | Remark b t => b ++ t ++ newline
  end.

Definition entry_of (l : conf_line) : option (list Z * list Z) :=
  match l with
  | Entry _ k _ v _ => Some (k, v)
  | Remark _ _ => None
  end.

Definition all (f : Z → bool) (l : list Z) : Prop := Forall (λ c, f c = true) l.
(** Characters of the line itself: no newline, no NUL. *)
Definition inner (c : Z) : bool := negb (c =? 10) && negb (c =? 0).
(** A tail that ends a key or value: nothing, or a comment or white space. *)
Definition stops (f : Z → bool) (l : list Z) : Prop := match l with [] => True | c :: _ => f c = false end.

Definition line_ok (l : conf_line) : Prop :=
  all inner (removelast (print_line l)) ∧ (length (print_line l) ≤ BUFF_CHARS)%nat ∧
  match l with
  | Entry b k s v a =>
    all blank b ∧ all key_char k ∧ k ≠ [] ∧ all separator s ∧ s ≠ [] ∧ all value_char v ∧
    stops separator (v ++ a ++ newline) ∧ stops value_char (a ++ newline) ∧
    Z.of_nat (length k) < CONF_KV_LEN ∧ Z.of_nat (length v) < CONF_KV_LEN
  | Remark b t => all blank b ∧ match t with [] => True | c :: _ => c = "#"%c end
  end.

Lemma span_app f a b : all f a → stops f b → span f (a ++ b) = (a, b).
Proof.
  intros Ha Hb. induction Ha as [|c a Hc _ IH]; cbn; [|by rewrite Hc, IH]. destruct b as [|c b]; [done|]. cbn in *. by rewrite Hb.
Qed.

Lemma skip_app f a b : all f a → stops f b → skip f (a ++ b) = b.
Proof. intros Ha Hb. unfold skip. by rewrite span_app. Qed.

Lemma parse_line_ok l : line_ok l → parse_conf (print_line l) = entry_of l.
Proof.
  intros (_ & _ & Hl). destruct l as [b k s v a|b t]; cbn [print_line entry_of]; unfold parse_conf.
  - destruct Hl as (Hb & Hk & Hkn & Hs & Hsn & Hv & Hsep & Hval & _). destruct k as [|c k]; [done|]. apply Forall_cons in Hk as Hk'. destruct Hk' as [Hc _].
    assert (Hcf : blank c = false ∧ (c =? "#"%c) = false).
    { unfold key_char, blank in *. destruct (c =? "#"%c), (c =? "="%c), (isspace c), (isprint c); done. }
    destruct Hcf as [Hcb Hch]. rewrite skip_app by done. cbn [app]. rewrite Hch. rewrite app_comm_cons, span_app; [|done|].
    + rewrite skip_app by done. by rewrite span_app.
    + destruct s as [|d s]; [done|]. cbn. apply Forall_cons in Hs as [Hd _]. unfold separator, key_char in *.
      destruct (d =? "#"%c), (d =? "="%c), (isspace d), (isprint d); done.
  - destruct Hl as [Hb Ht]. destruct t as [|c t].
    + rewrite (app_nil_r (b ++ [])) || idtac. cbn [app]. assert (skip blank (b ++ newline) = []) as ->; [|done].
      rewrite <-(app_nil_r (b ++ newline)). apply skip_app; [|done]. apply Forall_app. split; [done|]. by repeat constructor.
    + subst c. by rewrite skip_app.
Qed.

Lemma fgets_line n a b : all inner a → (S (length a) ≤ n)%nat → fgets n (a ++ 10 :: b) = (a ++ [10], b).
Proof.
  revert n. induction a as [|c a IH]; intros [|n] Ha Hn; cbn in *; try lia; [done|]. apply Forall_cons in Ha as [Hc Ha].
  unfold inner in Hc. destruct (c =? 10); [done|]. rewrite IH by (done || lia). done.
Qed.

Lemma c_str_id a : all inner a → c_str (a ++ [10]) = a ++ [10].
Proof.
  intros Ha. unfold c_str. rewrite <-(app_nil_r (a ++ [10])) at 1. rewrite span_app; [done | | done]. apply Forall_app. split; [|by repeat constructor].
  eapply Forall_impl; [exact Ha|]. intros c Hc. unfold inner in Hc. by destruct (c =? 10), (c =? 0).
Qed.

Lemma print_line_split l : ∃ a, print_line l = a ++ [10] ∧ removelast (print_line l) = a.
Proof.
  destruct l as [b k s v a|b t]; cbn [print_line]; unfold newline; [exists (b ++ k ++ s ++ v ++ a) | exists (b ++ t)]; rewrite !app_assoc; split; try done; apply removelast_last.
Qed.

Definition entries (ls : list conf_line) : list (list Z * list Z) := omap entry_of ls.

Lemma load_loop_step fuel malloc_ok file head buff rest :
  file ≠ [] → fgets BUFF_CHARS file = (buff, rest) →
  load_loop (S fuel) malloc_ok file head =
    match parse_conf (c_str buff) with
    | None => load_loop fuel malloc_ok rest head
    | Some (key, value) =>
      if (CONF_KV_LEN <=? Z.of_nat (length key)) || (CONF_KV_LEN <=? Z.of_nat (length value)) then mret (Exit 0) else
      if negb (malloc_ok (length head)) then mret (Exit 0) else
      load_loop fuel malloc_ok rest ((key, value) :: head)
    end.
Proof. intros Hne E. destruct file as [|c file]; [done|]. unfold load_loop at 1; fold load_loop. by rewrite E. Qed.

Lemma load_loop_ok malloc_ok ls : ∀ fuel head,
  Forall line_ok ls → (∀ n, malloc_ok n = true) → (length (mjoin (print_line <$> ls)) ≤ fuel)%nat →
  load_loop fuel malloc_ok (mjoin (print_line <$> ls)) head = Ok (Running (reverse (entries ls) ++ head)).
Proof.
  induction ls as [|l ls IH]; intros fuel head Hls Hm Hf; [by destruct fuel|]. apply Forall_cons in Hls as [Hl Hls]. cbn [fmap list_fmap mjoin list_join] in *.
  destruct (print_line_split l) as (a & Ea & Hrm). pose proof Hl as (Hin & Hlen & _). rewrite Hrm in Hin. rewrite Ea in *. rewrite length_app in Hlen, Hf. cbn in Hlen, Hf.
  rewrite <-app_assoc. cbn [app]. destruct fuel as [|fuel]; [rewrite length_app in Hf; cbn in Hf; lia|]. 
  rewrite (load_loop_step _ _ _ _ (a ++ [10]) (mjoin (print_line <$> ls))) by (by (by destruct a) || (apply fgets_line; [done|lia])).
  rewrite c_str_id, <-Ea, parse_line_ok by done. unfold entries. cbn [omap list_omap].
  assert (Hf' : (length (mjoin (print_line <$> ls)) ≤ fuel)%nat) by (rewrite length_app in Hf; enough (length a + 1 + length (mjoin (print_line <$> ls)) ≤ S fuel)%nat by lia; exact Hf).
  destruct l as [b k s v t|b t]; cbn [entry_of]; [|by apply IH].
  destruct Hl as (_ & _ & _ & _ & _ & _ & _ & _ & _ & _ & Hk & Hv). rewrite (proj2 (Z.leb_gt _ _) Hk), (proj2 (Z.leb_gt _ _) Hv). cbn [orb].
  rewrite Hm. cbn [negb]. rewrite IH by done. unfold entries. rewrite reverse_cons, <-app_assoc. done.
Qed.

Lemma get_entry_found config k v c1 c2 :
  config = c1 ++ (k, v) :: c2 → k ∉ c1.*1 → get_conf_entry config k = Running v.
Proof.
  intros -> Hn. induction c1 as [|[k' v'] c1 IH]; cbn in *; unfold str_equal.
  - by rewrite bool_decide_eq_true_2.
  - rewrite bool_decide_eq_false_2; [apply IH; set_solver | intros ->; set_solver].
Qed.

Lemma get_entry_missing config k : k ∉ config.*1 → get_conf_entry config k = Exit 0.
Proof.
  induction config as [|[k' v'] c IH]; intros Hn; cbn in *; [done|]. unfold str_equal. rewrite bool_decide_eq_false_2; [apply IH; set_solver | intros ->; set_solver].
Qed.

(** C26: a configuration file reads back as it was written: with any blanks, separators and
    comments that the format allows, [load_conf] yields exactly the entries of the lines, in
    reverse order, whatever was configured before; [get_conf_entry] then returns the value of
    the last line that defines the key, and ends the process if no line does. *)
Theorem conf_roundtrip malloc_ok old ls :
  Forall line_ok ls → (∀ n, malloc_ok n = true) →
  ∃ config, load_conf malloc_ok old (Some (mjoin (print_line <$> ls))) = Ok (Running config) ∧
    (∀ e1 k v e2, entries ls = e1 ++ (k, v) :: e2 → k ∉ e2.*1 → get_conf_entry config k = Running v) ∧
    (∀ k, k ∉ (entries ls).*1 → get_conf_entry config k = Exit 0).
Proof.
  intros Hls Hm. unfold load_conf. rewrite load_loop_ok by done. cres_simpl. rewrite app_nil_r. eexists. split; [done|]. split.
  - intros e1 k v e2 -> Hn. eapply (get_entry_found _ _ _ (reverse e2) (reverse e1)).
    + by rewrite reverse_app, reverse_cons, <-app_assoc.
    + rewrite fmap_reverse. by rewrite elem_of_reverse.
  - intros k Hn. apply get_entry_missing. cbn. rewrite fmap_reverse. by rewrite elem_of_reverse.
Qed.

(** Two definitions of a key, a comment and an empty line. *)
Definition demo_conf : list conf_line :=
  [Remark [] (str "# cserv"); Entry [] (str "listen") (str " = ") (str "80") []; Remark [32] [];
   Entry (str "  ") (str "listen") (str "=") (str "127.0.0.1:8081") (str " # local")].

Lemma conf_roundtrip_witness :
  ∃ config, load_conf (λ _, true) [] (Some (mjoin (print_line <$> demo_conf))) = Ok (Running config) ∧
    (∀ e1 k v e2, entries demo_conf = e1 ++ (k, v) :: e2 → k ∉ e2.*1 → get_conf_entry config k = Running v) ∧
    (∀ k, k ∉ (entries demo_conf).*1 → get_conf_entry config k = Exit 0).
Proof.
  apply (conf_roundtrip (λ _, true) [] demo_conf); [|done].
  assert (H : ∀ l, bool_decide (all inner (removelast (print_line l)) ∧ (length (print_line l) ≤ BUFF_CHARS)%nat) = true →
    match l with
    | Entry b k s v a => bool_decide (all blank b ∧ all key_char k ∧ k ≠ [] ∧ all separator s ∧ s ≠ [] ∧ all value_char v) = true ∧
        stops separator (v ++ a ++ newline) ∧ stops value_char (a ++ newline) ∧ Z.of_nat (length k) < CONF_KV_LEN ∧ Z.of_nat (length v) < CONF_KV_LEN
    | Remark b t => all blank b ∧ match t with [] => True | c :: _ => c = "#"%c end
    end → line_ok l).
  { intros l [H1 H2]%bool_decide_eq_true H3. split; [done|]. split; [done|]. destruct l; [|done]. destruct H3 as [H3%bool_decide_eq_true H4]. naive_solver. }
  unfold demo_conf. repeat (apply Forall_cons; split); [.. | by apply Forall_nil]; apply H; try (vm_compute; reflexivity); repeat split; try (vm_compute; reflexivity); by repeat constructor.
Defined.
