(* ===== verification/Env.v ===== *)
(** The environment: [src/env.c], and the parts of [src/util/system.c] that compute.

    The number of processors and the page size are parameters; the configuration is the list
    that [load_conf] yields.  [set_server_env] cuts the value of [listen] in place, the
    address is the part of it that the pointer then denotes. *)

From stdpp Require Import base gmap list numbers strings pretty.
From Stdlib Require Import ZArith Lia.
From S2P Require Import Prelude CStr Conf.

Definition MAX_WORKER_PROCESS : Z := 64.

(** [atoi]: white space, a sign, digits; a value outside [int] is undefined. *)
Fixpoint atoi_digits (val : Z) (l : list Z) : Z :=
  match l with
  | [] => val
  | c :: l => if is_digit c then atoi_digits (val * 10 + (c - "0"%c)) l else val
  end.
Definition atoi (l : list Z) : cres Z :=
  let l := skip isspace l in
  int_arith (match l with
             | c :: l' => if c =? "-"%c then - atoi_digits 0 l' else if c =? "+"%c then atoi_digits 0 l' else atoi_digits 0 l
             | [] => 0
             end).

(** [ALIGN] of two [int]s *)
Definition ALIGN (x a : Z) : cres Z :=
  y ← int_arith (x + (a - 1)); mret (Z.land y (Z.lnot (a - 1))).

Record env : Type := Env {
  g_log_path : list Z; g_log_strlevel : list Z;
  g_worker_processes : Z; g_worker_connections : Z; g_coro_stack_kbytes : Z;
  g_server_addr : option (list Z); g_server_port : Z
}.

(** Sequencing of steps that may end the process. *)
Notation cproc A := (cres (proc A)).
Definition pbind {A B} (x : cproc A) (f : A → cproc B) : cproc B :=
  match x with
  | Ok (Running a) => f a
  | Ok (Exit code) => Ok (Exit code)
  | Ok Aborted => Ok Aborted
  | Ub => Ub
  | Fuel => Fuel
  end.
Definition pret {A} (a : A) : cproc A := mret (Running a).
Definition pexit {A} (code : Z) : cproc A := mret (Exit code).
Notation "x ⇐ y ; z" := (pbind y (λ x, z)) (at level 20, y at level 100, z at level 200, only parsing).

Section Env.
  Context (ncpu page_size : Z).

Definition entry (config : conf) (key : string) : cproc (list Z) := mret (get_conf_entry config (str key)).
Definition number (l : list Z) : cproc Z := z ← atoi l; pret z.

Definition set_log_env (config : conf) : cproc (list Z * list Z) :=
  path ⇐ entry config "log_path";
  level ⇐ entry config "log_level";
  pret (path, level).

Definition set_worker_env (config : conf) : cproc (Z * Z * Z) :=
  c ⇐ entry config "worker_processes";
  processes ⇐ (if str_equal c (str "default") then pret ncpu else number c);
  if (processes <? 0) || (processes >? MAX_WORKER_PROCESS) then pexit 0 else
  c ⇐ entry config "worker_connections";
  connections ⇐ number c;
  if connections <=? 0 then pexit 0 else
  c ⇐ entry config "coroutine_stack_kbytes";
  kbytes ⇐ (if str_equal c (str "default") then pret (Z.shiftr page_size 10)
            else z ← atoi c; b ← int_arith (z * 1024); a ← ALIGN b page_size; pret (Z.shiftr a 10));
  if (kbytes <=? 0) || (kbytes >? 10240) then pexit 0 else
  pret (processes, connections, kbytes).

(** The loop over the value of [listen]: the text before the last colon seen, back to the one
    before it, and the text since. *)
Fixpoint listen_loop (addr : option (list Z)) (head : list Z) (l : list Z) : option (list Z) * list Z :=
  match l with
  | [] => (addr, head)
  | c :: l => if c =? ":"%c then listen_loop (Some head) [] l else listen_loop addr (head ++ [c]) l
  end.

Definition set_server_env (config : conf) : cproc (option (list Z) * Z) :=
  head ⇐ entry config "listen";
  let '(addr, head) := listen_loop None [] head in
  port ⇐ number head;
  if port <=? 0 then pexit 0 else pret (addr, port).

Definition conf_env_init (config : conf) : cproc env :=
  log ⇐ set_log_env config;
  worker ⇐ set_worker_env config;
  server ⇐ set_server_env config;
  pret (Env log.1 log.2 worker.1.1 worker.1.2 worker.2 server.1 server.2).

End Env.

(** ** [src/util/system.c] *)

(** [get_curr_mseconds] from the seconds and microseconds of the clock *)
Definition get_curr_mseconds (tv_sec tv_usec : Z) : Z := tv_sec * 1000 + tv_usec / 1000.

(** The file with the master's process number: whether it can be opened for writing, and its
    contents, [None] if it cannot be read. *)
Definition create_pidfile (can_open : bool) (pid : Z) : cproc (list Z) :=
  if can_open then pret (str (pretty pid)) else pexit 0.
Definition read_pidfile (file : option (list Z)) : cproc Z :=
  match file with
  | None => pexit 0
  | Some bytes =>
    match fgets 30 bytes with
    | ([], _) => pexit 0
    | (buff, _) => number (c_str buff)
    end
  end.

(** ** What the configuration guarantees *)

(** A power of two of at least 1024 bytes. *)
Definition page_size_ok (page_size : Z) : Prop := ∃ k, 10 ≤ k ≤ 20 ∧ page_size = 2 ^ k.

Record env_ok (page_size : Z) (e : env) : Prop := EnvOk {
  eo_processes : 0 ≤ g_worker_processes e ≤ MAX_WORKER_PROCESS;
  eo_connections : 0 < g_worker_connections e < 2 ^ 31;
  eo_stack : 0 < g_coro_stack_kbytes e ≤ 10240;
  eo_pages : ∃ n, g_coro_stack_kbytes e * 1024 = n * page_size;
  eo_port : 0 < g_server_port e < 2 ^ 31;
}.

Lemma pbind_ok {A B} (x : cproc A) (f : A → cproc B) b :
  pbind x f = Ok (Running b) → ∃ a, x = Ok (Running a) ∧ f a = Ok (Running b).
Proof. unfold pbind. destruct x as [[a|code|]| |]; try done. intros H. by exists a. Qed.

Lemma number_ok l z : number l = Ok (Running z) → - 2 ^ 31 ≤ z < 2 ^ 31.
Proof.
  unfold number, atoi. destruct (int_arith _) as [v| |] eqn:E; cbn; try done. intros [= <-]. by apply int_arith_inv in E as [-> ?].
Qed.

(** Rounding down to a multiple of a power of two. *)
Lemma land_lnot y k : 0 ≤ k → Z.land y (Z.lnot (2 ^ k - 1)) = 2 ^ k * (y / 2 ^ k).
Proof.
  intros Hk. rewrite <-Z.ldiff_land. replace (2 ^ k - 1) with (Z.ones k) by (rewrite Z.ones_equiv; lia).
  rewrite Z.ldiff_ones_r by lia. rewrite Z.shiftl_mul_pow2, Z.shiftr_div_pow2 by lia. lia.
Qed.

(** A size in KiB that stands for whole pages. *)
Lemma shiftr_pages k a : 10 ≤ k → (∃ n, a = n * 2 ^ k) → ∃ n, Z.shiftr a 10 * 1024 = n * 2 ^ k.
Proof.
  intros Hk [n ->]. exists n. rewrite Z.shiftr_div_pow2 by lia. replace (2 ^ k) with (2 ^ (k - 10) * 2 ^ 10) by (rewrite <-Z.pow_add_r by lia; f_equal; lia).
  rewrite Z.mul_assoc, Z.div_mul by lia. lia.
Qed.

Lemma conf_env_facts ncpu page_size config e :
  page_size_ok page_size → conf_env_init ncpu page_size config = Ok (Running e) → env_ok page_size e.
Proof.
  intros (k & Hk & ->) H. unfold conf_env_init in H. apply pbind_ok in H as (log & _ & H). apply pbind_ok in H as ([[p c] kb] & Hw & H).
  apply pbind_ok in H as ([addr port] & Hs & H). injection H as <-. cbn.
  unfold set_worker_env in Hw. apply pbind_ok in Hw as (s1 & _ & Hw). apply pbind_ok in Hw as (p' & _ & Hw).
  destruct ((p' <? 0) || (p' >? MAX_WORKER_PROCESS)) eqn:Ep; [done|]. apply pbind_ok in Hw as (s2 & _ & Hw). apply pbind_ok in Hw as (c' & Hc & Hw).
  destruct (c' <=? 0) eqn:Ec; [done|]. apply pbind_ok in Hw as (s3 & _ & Hw). apply pbind_ok in Hw as (kb' & Hkb & Hw).
  destruct ((kb' <=? 0) || (kb' >? 10240)) eqn:Ek; [done|]. injection Hw as -> -> ->. apply number_ok in Hc.
  unfold set_server_env in Hs. apply pbind_ok in Hs as (s4 & _ & Hs). destruct (listen_loop None [] s4) as [addr' head].
  apply pbind_ok in Hs as (port' & Hp & Hs). destruct (port' <=? 0) eqn:Eport; [done|]. injection Hs as -> ->. apply number_ok in Hp.
  assert (Hpages : ∃ n, kb * 1024 = n * 2 ^ k).
  { destruct (str_equal s3 (str "default")).
    - injection Hkb as <-. apply shiftr_pages; [lia|]. exists 1. lia.
    - destruct (atoi s3) as [z| |]; try done. cbn in Hkb. destruct (int_arith (z * 1024)) as [b| |]; try done. cbn in Hkb. unfold ALIGN in Hkb.
      destruct (int_arith (b + (2 ^ k - 1))) as [y| |]; try done. cbn in Hkb. injection Hkb as <-. apply shiftr_pages; [lia|]. rewrite land_lnot by lia.
      exists (y / 2 ^ k). lia. }
  rewrite Z.gtb_ltb in Ep, Ek. unfold MAX_WORKER_PROCESS in *. split; cbn; try done; bool_to_prop; try lia; unfold MAX_WORKER_PROCESS; lia.
Qed.

(** Values whose numbers are small: none above a million. *)
Definition small (v : list Z) : Prop := ∃ z, atoi v = Ok z ∧ - 2 ^ 20 ≤ z ≤ 2 ^ 20.
Definition numbers_ok (config : conf) : Prop := Forall (λ kv, small kv.2 ∧ small (listen_loop None [] kv.2).2) config.

Lemma entry_cases config key : get_conf_entry config key = Exit 0 ∨ ∃ v, get_conf_entry config key = Running v ∧ v ∈ config.*2.
Proof.
  induction config as [|[k v] config IH]; cbn; [by left|]. destruct (str_equal k key); [right; exists v; split; [done | by left]|].
  destruct IH as [->|(w & -> & Hw)]; [by left | right; exists w; split; [done | by right]].
Qed.

(** The next entry is missing and the process ends, or its numbers are small. *)
Lemma entry_ok_cases {B} config key (f : list Z → cproc B) (P : B → Prop) :
  numbers_ok config →
  (∀ v, small v → small (listen_loop None [] v).2 → f v = Ok (Exit 0) ∨ ∃ b, f v = Ok (Running b) ∧ P b) →
  (v ⇐ entry config key; f v) = Ok (Exit 0) ∨ ∃ b, (v ⇐ entry config key; f v) = Ok (Running b) ∧ P b.
Proof.
  intros Hc Hf. unfold entry. destruct (entry_cases config (str key)) as [->|(v & -> & Hv)]; cbn; [by left|].
  apply list_elem_of_fmap in Hv as (kv & -> & Hkv). unfold numbers_ok in Hc. rewrite Forall_forall in Hc. destruct (Hc _ Hkv). by apply Hf.
Qed.

Lemma number_small v : small v → ∃ z, number v = Ok (Running z) ∧ - 2 ^ 20 ≤ z ≤ 2 ^ 20.
Proof. intros (z & E & Hz). exists z. unfold number. by rewrite E. Qed.

Lemma worker_env_total ncpu page_size config :
  page_size_ok page_size → numbers_ok config →
  set_worker_env ncpu page_size config = Ok (Exit 0) ∨ ∃ w, set_worker_env ncpu page_size config = Ok (Running w) ∧ True.
Proof.
  intros (k & Hk & ->) Hc. assert (2 ^ k ≤ 2 ^ 20) by (apply Z.pow_le_mono_r; lia). assert (0 < 2 ^ k) by lia.
  unfold set_worker_env. apply entry_ok_cases; [done|]. intros v1 H1 _.
  assert (∃ p, (if str_equal v1 (str "default") then pret ncpu else number v1) = Ok (Running p)) as [p ->].
  { destruct (str_equal _ _); [by eexists|]. destruct (number_small v1 H1) as (z & E & _). by exists z. }
  cbn [pbind]. destruct (_ || _); [by left|]. apply entry_ok_cases; [done|]. intros v2 H2 _. destruct (number_small v2 H2) as (c & -> & _). cbn [pbind].
  destruct (c <=? 0); [by left|]. apply entry_ok_cases; [done|]. intros v3 (z & Ez & Hz) _.
  assert (∃ kb, (if str_equal v3 (str "default") then pret (Z.shiftr (2 ^ k) 10)
    else z ← atoi v3; b ← int_arith (z * 1024); a ← ALIGN b (2 ^ k); pret (Z.shiftr a 10)) = Ok (Running kb)) as [kb ->].
  { destruct (str_equal _ _); [by eexists|]. rewrite Ez. cres_simpl. rewrite int_arith_ok by lia. cres_simpl. unfold ALIGN. rewrite int_arith_ok by lia. by eexists. }
  cbn [pbind]. destruct (_ || _); [by left | right; by eexists].
Qed.

(** With small numbers in the configuration nothing overflows. *)
Lemma conf_env_total ncpu page_size config :
  page_size_ok page_size → numbers_ok config →
  conf_env_init ncpu page_size config = Ok (Exit 0) ∨ ∃ e, conf_env_init ncpu page_size config = Ok (Running e) ∧ env_ok page_size e.
Proof.
  intros Hp Hc. enough (conf_env_init ncpu page_size config = Ok (Exit 0) ∨ ∃ e, conf_env_init ncpu page_size config = Ok (Running e) ∧ True) as [H|(e & H & _)];
    [by left | right; exists e; split; [done | by eapply conf_env_facts]|].
  assert (set_log_env config = Ok (Exit 0) ∨ ∃ b, set_log_env config = Ok (Running b) ∧ True) as Hlog.
  { unfold set_log_env. apply entry_ok_cases; [done|]. intros v1 _ _. apply entry_ok_cases; [done|]. intros v2 _ _. right. by eexists. }
  unfold conf_env_init. destruct Hlog as [->|(lg & -> & _)]; cbn [pbind]; [by left|].
  destruct (worker_env_total ncpu page_size config Hp Hc) as [->|(w & -> & _)]; cbn [pbind]; [by left|].
  assert (set_server_env config = Ok (Exit 0) ∨ ∃ b, set_server_env config = Ok (Running b) ∧ True) as Hs.
  { unfold set_server_env. apply entry_ok_cases; [done|]. intros v _ Hv. destruct (listen_loop None [] v) as [addr hd]. cbn [snd] in Hv.
    destruct (number_small hd Hv) as (z & -> & _). cbn [pbind]. destruct (z <=? 0); [by left | right; by eexists]. }
  destruct Hs as [->|(sv & -> & _)]; cbn [pbind]; [by left | right; by eexists].
Qed.

(** C31: whatever the configuration file says, if the numbers in it are small then
    [conf_env_init] ends the process with status 0 or returns, and if it returns (small
    numbers or not) then the number of processes is between 0 and 64, a worker may have at
    least one connection, a coroutine stack is a positive whole number of pages of at most
    10 MiB, and the port is positive. *)
Theorem conf_env_ok ncpu page_size config :
  page_size_ok page_size →
  (numbers_ok config → conf_env_init ncpu page_size config = Ok (Exit 0) ∨ ∃ e, conf_env_init ncpu page_size config = Ok (Running e)) ∧
  (∀ e, conf_env_init ncpu page_size config = Ok (Running e) → env_ok page_size e).
Proof.
  intros Hp. split; [|intros e; by apply conf_env_facts]. intros Hc.
  destruct (conf_env_total ncpu page_size config Hp Hc) as [H|(e & H & _)]; [by left | right; by exists e].
Qed.

(** ** The process number *)

Lemma digit_char d : (d < 10)%N →
  Z.of_N (Ascii.N_of_ascii (pretty_N_char d)) = Z.of_N d + "0"%c ∧ is_digit (Z.of_N (Ascii.N_of_ascii (pretty_N_char d))) = true.
Proof.
  intros Hd. assert (d ∈ [0; 1; 2; 3; 4; 5; 6; 7; 8; 9]%N) as Hin by (rewrite !elem_of_cons; lia).
  repeat (apply elem_of_cons in Hin as [->|Hin]; [done|]). by apply elem_of_nil in Hin.
Qed.

Lemma atoi_digits_go x s : atoi_digits 0 (str (pretty_N_go x s)) = atoi_digits (Z.of_N x) (str s).
Proof.
  revert s. induction (N.lt_wf_0 x) as [x _ IH]; intros s. destruct (decide (0 < x)%N) as [Hx|Hx].
  - rewrite pretty_N_go_step by done. rewrite IH by (apply N.div_lt; lia). cbn [str atoi_digits].
    destruct (digit_char (x `mod` 10)%N) as [-> ->]; [by apply N.mod_lt|]. f_equal. rewrite N2Z.inj_div, N2Z.inj_mod.
    pose proof (Z.div_mod (Z.of_N x) (Z.of_N 10)). lia.
  - assert (x = 0%N) as -> by lia. by rewrite pretty_N_go_0.
Qed.

Lemma go_digits x s : all is_digit (str s) → all is_digit (str (pretty_N_go x s)).
Proof.
  revert s. induction (N.lt_wf_0 x) as [x _ IH]; intros s Hs. destruct (decide (0 < x)%N) as [Hx|Hx].
  - rewrite pretty_N_go_step by done. apply IH; [apply N.div_lt; lia|]. cbn. constructor; [|done]. apply digit_char. by apply N.mod_lt.
  - assert (x = 0%N) as -> by lia. by rewrite pretty_N_go_0.
Qed.

Lemma go_length n x s : (x < 10 ^ N.of_nat n)%N → (length (str (pretty_N_go x s)) ≤ n + length (str s))%nat.
Proof.
  revert x s. induction n as [|n IH]; intros x s Hx.
  - assert (x = 0%N) as -> by (cbn in Hx; lia). by rewrite pretty_N_go_0.
  - destruct (decide (0 < x)%N) as [Hp|Hp]; [|assert (x = 0%N) as -> by lia; rewrite pretty_N_go_0; lia].
    rewrite pretty_N_go_step by done. etrans; [apply IH|cbn; lia]. apply N.Div0.div_lt_upper_bound.
    by rewrite Nat2N.inj_succ, N.pow_succ_r' in Hx.
Qed.

Lemma fgets_digits l n : all is_digit l → (length l ≤ n)%nat → fgets n l = (l, []).
Proof.
  revert n. induction l as [|c l IH]; intros [|n] Hd Hn; cbn in *; try done; try lia. apply Forall_cons in Hd as [Hc Hd].
  destruct (c =? 10) eqn:E; [apply Z.eqb_eq in E; by subst|]. rewrite IH by (done || lia). done.
Qed.

Lemma digit_not c f : is_digit c = true → forallb (λ d, negb (f d)) (seqZ "0"%c 10) = true → f c = false.
Proof.
  unfold is_digit. intros Hc%andb_true_iff Hf. rewrite forallb_forall in Hf. apply negb_true_iff, Hf, list_elem_of_In, elem_of_seqZ. lia.
Qed.

Lemma c_str_digits l : all is_digit l → c_str l = l.
Proof.
  intros Hl. unfold c_str. rewrite <-(app_nil_r l) at 1. rewrite span_app; [done | | done]. eapply Forall_impl; [exact Hl|]. intros c Hc.
  cbn. apply negb_true_iff. by apply (digit_not c (λ d, d =? 0)).
Qed.

Lemma atoi_number l v : all is_digit l → l ≠ [] → atoi_digits 0 l = v → 0 ≤ v < 2 ^ 31 → atoi l = Ok v.
Proof.
  intros Hl Hne Hv Hr. unfold atoi. destruct l as [|c l]; [done|]. apply Forall_cons in Hl as Hl'. destruct Hl' as [Hc _].
  assert (Hsp : isspace c = false) by (by apply digit_not). unfold skip. cbn [span]. rewrite Hsp. cbn [snd].
  rewrite (digit_not c (λ d, d =? "-"%c)), (digit_not c (λ d, d =? "+"%c)) by done. rewrite Hv. apply int_arith_ok. lia.
Qed.

(** The commands [stop] and [exit] find the server: [read_pidfile] returns the process
    number that [create_pidfile] has written, for every positive process number. *)
Theorem pidfile_roundtrip pid : 0 < pid < 2 ^ 31 → (file ⇐ create_pidfile true pid; read_pidfile (Some file)) = Ok (Running pid).
Proof.
  intros Hp. destruct pid as [|p|p]; try lia. unfold create_pidfile. cbn [pbind pret mret cres_mret].
  change (str (pretty (Z.pos p))) with (str (pretty_N_go (N.pos p) "")). set (l := str (pretty_N_go (N.pos p) "")).
  assert (Hd : all is_digit l) by (apply go_digits; constructor).
  assert (Hlen : (length l ≤ 10)%nat) by (etrans; [apply (go_length 10); change (10 ^ N.of_nat 10)%N with 10000000000%N; lia | cbn; lia]).
  assert (Hv : atoi_digits 0 l = Z.pos p) by (unfold l; by rewrite atoi_digits_go).
  assert (Hne : l ≠ []) by (intros E; rewrite E in Hv; done).
  clearbody l. unfold read_pidfile. rewrite fgets_digits by (done || lia). destruct l as [|c l']; [done|]. set (l := c :: l') in *. rewrite c_str_digits by done.
  unfold number. by rewrite (atoi_number l (Z.pos p)) by (done || lia).
Qed.

Lemma pidfile_roundtrip_witness : (file ⇐ create_pidfile true 32768; read_pidfile (Some file)) = Ok (Running 32768).
Proof. apply (pidfile_roundtrip 32768). lia. Defined.

(** A configuration and what it amounts to with 4 processors and pages of 4 KiB. *)
Definition conf0 : conf :=
  [(str "listen", str "127.0.0.1:8081"); (str "coroutine_stack_kbytes", str "10"); (str "worker_connections", str "1024");
   (str "worker_processes", str "default"); (str "log_level", str "CRIT"); (str "log_path", str "/tmp/cserv.log")].
Definition env0 : env := Env (str "/tmp/cserv.log") (str "CRIT") 4 1024 12 (Some (str "127.0.0.1")) 8081.

Lemma conf_env_ok_witness :
  (numbers_ok conf0 → conf_env_init 4 4096 conf0 = Ok (Exit 0) ∨ ∃ e, conf_env_init 4 4096 conf0 = Ok (Running e)) ∧
  conf_env_init 4 4096 conf0 = Ok (Running env0) ∧ env_ok 4096 env0.
Proof.
  destruct (conf_env_ok 4 4096 conf0) as [H1 H2]; [exists 12; split; [lia | reflexivity]|]. split; [exact H1|].
  assert (H : conf_env_init 4 4096 conf0 = Ok (Running env0)) by (vm_compute; reflexivity). split; [exact H | exact (H2 env0 H)].
Defined.
