(* ===== verification/ProcTitle.v ===== *)
(** The process title: [proc_title_init] and [set_proc_title] of [src/util/system.c].

    The title is written over the arguments and the environment of the process, which
    therefore move to the heap first.  Memory is a map of bytes; [argv] and [environ] are the
    lists of their pointers, without the terminating NULL.  [malloc] gives the address of a
    new block or NULL, and the block holds arbitrary bytes. *)

From stdpp Require Import base gmap list numbers strings.
From Stdlib Require Import ZArith Lia.
From S2P Require Import Prelude CStr Net Env.

(** [strlen], with one round for every byte of memory *)
Fixpoint strlen_loop (fuel : nat) (m : gmap Z Z) (p n : Z) : cres Z :=
  c ← load m p;
  if c =? 0 then mret n else
  match fuel with
  | O => Fuel
  | S fuel => strlen_loop fuel m (p + 1) (n + 1)
  end.
Definition strlen (m : gmap Z Z) (p : Z) : cres Z := strlen_loop (size m) m p 0.

(** [len += strlen(argv[i]) + 1] over a list of pointers *)
Fixpoint total_length (m : gmap Z Z) (ps : list Z) (len : Z) : cres Z :=
  match ps with
  | [] => mret len
  | p :: ps => n ← strlen m p; total_length m ps (size_t (len + n + 1))
  end.

(** [argv[i] = (char * ) p + len; len += strlen(argv[i]) + 1] *)
Fixpoint relocate (m : gmap Z Z) (p : Z) (ps : list Z) (len : Z) : cres (list Z * Z) :=
  match ps with
  | [] => mret ([], len)
  | _ :: ps =>
    n ← strlen m (p + len);
    '(qs, last) ← relocate m p ps (size_t (len + n + 1));
    mret (p + len :: qs, last)
  end.

Definition proc_title_init (malloc : Z → Z) (junk : Z) (m : gmap Z Z) (argv environ : list Z) : cproc (gmap Z Z * list Z * list Z) :=
  match argv with
  | [] => Ub
  | argv0 :: args =>
    len ← total_length m args 0;
    len ← total_length m environ len;
    let p := malloc len in
    if p =? NULL then pexit 0 else
    match args ++ environ with
    | [] => Ub
    | src :: _ =>
      l ← read_bytes m src (Z.to_nat len);
      m ← memcpy (mem_of p (replicate (Z.to_nat len) junk) ∪ m) p l;
      '(args, len) ← relocate m p args 0;
      '(environ, _) ← relocate m p environ len;
      pret (m, argv0 :: args, environ)
    end
  end.

(** [strcpy(__argv[0], name)] *)
Definition set_proc_title (m : gmap Z Z) (argv0 : Z) (name : list Z) : cres (gmap Z Z) := memcpy m argv0 (name ++ [0]).

(** ** Strings one behind the other *)

Definition c_strings (ss : list (list Z)) : list Z := ss ≫= λ s, s ++ [0].

Fixpoint pointers (p : Z) (ss : list (list Z)) : list Z :=
  match ss with
  | [] => []
  | s :: ss => p :: pointers (p + Z.of_nat (length s) + 1) ss
  end.

Definition no_nul (s : list Z) : Prop := Forall (λ c, c ≠ 0) s.

Lemma c_strings_app ss1 ss2 : c_strings (ss1 ++ ss2) = c_strings ss1 ++ c_strings ss2.
Proof. apply bind_app. Qed.

Lemma pointers_app p ss1 ss2 : pointers p (ss1 ++ ss2) = pointers p ss1 ++ pointers (p + Z.of_nat (length (c_strings ss1))) ss2.
Proof.
  revert p. induction ss1 as [|s ss1 IH]; intros p; cbn [pointers app]; [by rewrite Z.add_0_r|]. rewrite IH.
  change (c_strings (s :: ss1)) with ((s ++ [0]) ++ c_strings ss1). rewrite !length_app. cbn [length]. do 2 f_equal. f_equal. lia.
Qed.

(** Bytes at consecutive addresses are as many as the memory has at least. *)
Lemma bytes_size m p l : bytes_at m p l → (length l ≤ size m)%nat.
Proof.
  intros Hb. assert (list_to_set (seqZ p (Z.of_nat (length l))) ⊆ dom m) as Hsub.
  { intros a Ha%elem_of_list_to_set. apply elem_of_seqZ in Ha. apply elem_of_dom.
    destruct (lookup_lt_is_Some_2 l (Z.to_nat (a - p))) as [c Hc]; [lia|]. exists c. rewrite <-(bytes_at_lookup _ _ _ _ _ Hb Hc). f_equal. lia. }
  apply subseteq_size in Hsub. rewrite size_list_to_set, length_seqZ, size_dom in Hsub by apply NoDup_seqZ. lia.
Qed.

Lemma strlen_loop_ok s : ∀ fuel m p n, no_nul s → bytes_at m p (s ++ [0]) → (length s ≤ fuel)%nat →
  strlen_loop fuel m p n = Ok (n + Z.of_nat (length s)).
Proof.
  induction s as [|c s IH]; intros fuel m p n Hs Hb Hf; destruct Hb as [Hc Hb].
  - destruct fuel; cbn [strlen_loop]; unfold load; rewrite Hc; cres_simpl; cbn; by rewrite Z.add_0_r.
  - apply Forall_cons in Hs as [Hc0 Hs]. destruct fuel as [|fuel]; [cbn in Hf; lia|]. cbn [strlen_loop]. unfold load. rewrite Hc. cres_simpl.
    rewrite (proj2 (Z.eqb_neq _ _) Hc0). rewrite IH; [f_equal; cbn [length]; lia | done | done | cbn in Hf; lia].
Qed.

Lemma strlen_ok m p s : no_nul s → bytes_at m p (s ++ [0]) → strlen m p = Ok (Z.of_nat (length s)).
Proof.
  intros Hs Hb. unfold strlen. pose proof (bytes_size _ _ _ Hb) as Hsz. rewrite length_app in Hsz. cbn in Hsz.
  by rewrite (strlen_loop_ok s) by (done || lia).
Qed.

Lemma total_length_ok m ss : ∀ p len,
  Forall no_nul ss → bytes_at m p (c_strings ss) → 0 ≤ len → len + Z.of_nat (length (c_strings ss)) < 2 ^ 64 →
  total_length m (pointers p ss) len = Ok (len + Z.of_nat (length (c_strings ss))).
Proof.
  induction ss as [|s ss IH]; intros p len Hn Hb Hl Hlt; cbn [pointers total_length]; [cbn; by rewrite Z.add_0_r|].
  apply Forall_cons in Hn as [Hs Hn]. change (c_strings (s :: ss)) with ((s ++ [0]) ++ c_strings ss) in *. apply bytes_at_app in Hb as [Hb1 Hb2].
  rewrite (strlen_ok m p s Hs Hb1). cres_simpl. rewrite !length_app in *. cbn [length] in *. rewrite size_t_id by lia.
  rewrite IH; [f_equal; lia | done | | lia | lia]. replace (p + Z.of_nat (length s) + 1) with (p + Z.of_nat (length s + 1)) by lia. done.
Qed.

Lemma relocate_ok m p ss (ps : list Z) : ∀ len,
  length ps = length ss → Forall no_nul ss → bytes_at m (p + len) (c_strings ss) → 0 ≤ len → len + Z.of_nat (length (c_strings ss)) < 2 ^ 64 →
  relocate m p ps len = Ok (pointers (p + len) ss, len + Z.of_nat (length (c_strings ss))).
Proof.
  revert ps. induction ss as [|s ss IH]; intros [|q ps] len Hlen Hn Hb Hl Hlt; try done; cbn [relocate pointers]; [cbn; by rewrite Z.add_0_r|].
  apply Forall_cons in Hn as [Hs Hn]. change (c_strings (s :: ss)) with ((s ++ [0]) ++ c_strings ss) in *. apply bytes_at_app in Hb as [Hb1 Hb2].
  rewrite (strlen_ok m (p + len) s Hs Hb1). cres_simpl. rewrite !length_app in *. cbn [length] in *. rewrite size_t_id by lia.
  replace (p + len + Z.of_nat (length s + 1)) with (p + (len + Z.of_nat (length s) + 1)) in Hb2 by lia.
  rewrite (IH ps (len + Z.of_nat (length s) + 1)) by (done || lia). cres_simpl. f_equal. f_equal; [f_equal; f_equal; lia | lia].
Qed.

Lemma length_pointers p ss : length (pointers p ss) = length ss.
Proof. revert p. induction ss as [|s ss IH]; intros p; cbn; [done|]. by rewrite IH. Qed.

(** Each pointer denotes its string. *)
Definition denote (m : gmap Z Z) (ps : list Z) (ss : list (list Z)) : Prop := Forall2 (λ p s, bytes_at m p (s ++ [0])) ps ss.

Lemma denote_pointers m ss : ∀ p, bytes_at m p (c_strings ss) → denote m (pointers p ss) ss.
Proof.
  induction ss as [|s ss IH]; intros p Hb; [constructor|]. change (c_strings (s :: ss)) with ((s ++ [0]) ++ c_strings ss) in Hb. apply bytes_at_app in Hb as [Hb1 Hb2].
  constructor; [done|]. apply IH. rewrite length_app in Hb2. cbn in Hb2. by replace (p + Z.of_nat (length s) + 1) with (p + Z.of_nat (length s + 1)) by lia.
Qed.

(** ** The environment survives the title *)

Definition moved (m : gmap Z Z) (p : Z) (ss : list (list Z)) (m' : gmap Z Z) : Prop :=
  bytes_at m' p (c_strings ss) ∧ ∀ x, is_Some (m !! x) → m' !! x = m !! x.

(** The start of [proc_title_init]: the copy is complete. *)
Lemma copy_ok m p l junk n :
  n = length l → (∀ x, p ≤ x < p + Z.of_nat n → m !! x = None) →
  ∃ m', memcpy (mem_of p (replicate n junk) ∪ m) p l = Ok m' ∧ bytes_at m' p l ∧ ∀ x, is_Some (m !! x) → m' !! x = m !! x.
Proof.
  intros -> Hfresh. destruct (memcpy_ok (mem_of p (replicate (length l) junk) ∪ m) p l) as (m' & E & Hb & Hf & _).
  { intros x Hx. rewrite lookup_union, mem_of_lookup, length_replicate, decide_True by lia. rewrite lookup_replicate_2 by lia. by destruct (m !! x); eexists. }
  exists m'. split_and!; [done | done|]. intros x [v Hv]. assert (Hout : ¬ (p ≤ x < p + Z.of_nat (length l))) by (intros Hx; rewrite (Hfresh x Hx) in Hv; done).
  rewrite Hf by done. rewrite lookup_union, mem_of_lookup, length_replicate, decide_False by done. by rewrite left_id_L by apply _.
Qed.

Section Title.
  Context (malloc : Z → Z) (junk : Z) (m : gmap Z Z) (argv0 a : Z) (args envs : list (list Z)).

(** The arguments after the program's name and then the environment, one string behind the
    other, as the system puts them on the stack of a new process. *)
Record process_strings : Prop := ProcessStrings {
  ps_bytes : bytes_at m a (c_strings (args ++ envs));
  ps_nul : Forall no_nul (args ++ envs);
  ps_some : args ++ envs ≠ [];
  ps_size : Z.of_nat (length (c_strings (args ++ envs))) < 2 ^ 64;
}.

Let n : Z := Z.of_nat (length (c_strings (args ++ envs))).
Let environ : list Z := pointers (a + Z.of_nat (length (c_strings args))) envs.

Lemma proc_title_init_null :
  process_strings → malloc n = NULL → proc_title_init malloc junk m (argv0 :: pointers a args) environ = Ok (Exit 0).
Proof using Type.
  intros [Hb Hn Hs Hsz] Hm. unfold n, environ in *. rewrite c_strings_app, length_app in *. apply bytes_at_app in Hb as [Hb1 Hb2]. apply Forall_app in Hn as [Hn1 Hn2].
  unfold proc_title_init. rewrite (total_length_ok m args a 0) by (done || lia). cres_simpl. rewrite Z.add_0_l.
  rewrite (total_length_ok m envs) by (done || lia). cres_simpl. by rewrite <-Nat2Z.inj_add, Hm.
Qed.

Lemma proc_title_init_ok :
  process_strings → malloc n ≠ NULL → (∀ x, malloc n ≤ x < malloc n + n → m !! x = None) →
  ∃ m', proc_title_init malloc junk m (argv0 :: pointers a args) environ =
      Ok (Running (m', argv0 :: pointers (malloc n) args, pointers (malloc n + Z.of_nat (length (c_strings args))) envs)) ∧
    moved m (malloc n) (args ++ envs) m'.
Proof using Type.
  intros [Hb Hn Hs Hsz] Hp Hf. unfold n, environ in *. rewrite c_strings_app, length_app in *. pose proof Hb as Hb0. apply bytes_at_app in Hb as [Hb1 Hb2]. apply Forall_app in Hn as [Hn1 Hn2].
  set (n1 := Z.of_nat (length (c_strings args))) in *. set (n2 := Z.of_nat (length (c_strings envs))) in *. rewrite Nat2Z.inj_add in *. fold n1 n2 in Hsz, Hp, Hf |- *.
  unfold proc_title_init. rewrite (total_length_ok m args a 0) by (done || lia). cres_simpl. fold n1. rewrite Z.add_0_l.
  rewrite (total_length_ok m envs (a + n1) n1) by (done || lia). cres_simpl. fold n2.
  rewrite (proj2 (Z.eqb_neq _ _) Hp). assert (Hsrc : ∃ rest, pointers a args ++ pointers (a + n1) envs = a :: rest).
  { unfold n1. rewrite <-pointers_app. destruct (args ++ envs) as [|s ss]; [done|]. cbn. by eexists. }
  destruct Hsrc as [rest ->]. assert (Hl : Z.to_nat (n1 + n2) = length (c_strings args ++ c_strings envs)) by (rewrite length_app; lia).
  rewrite Hl, (read_bytes_ok m a) by done. cres_simpl.
  destruct (copy_ok m (malloc (n1 + n2)) (c_strings args ++ c_strings envs) junk _ eq_refl) as (m' & -> & Hc & Hold).
  { intros x Hx. apply Hf. rewrite <-Hl in Hx. lia. }
  cres_simpl. pose proof Hc as Hc0. apply bytes_at_app in Hc as [Hc1 Hc2]. fold n1 in Hc2. set (p := malloc (n1 + n2)) in *.
  rewrite (relocate_ok m' p args _ 0) by (first [apply length_pointers | done | lia | by rewrite Z.add_0_r]). cres_simpl. fold n1. rewrite Z.add_0_l, Z.add_0_r.
  rewrite (relocate_ok m' p envs _ n1) by (first [apply length_pointers | done | lia]). cres_simpl. exists m'. split; [done|]. split; [|done]. by rewrite c_strings_app.
Qed.

(** The area that the titles are written to: the name of the program, the arguments and the
    environment, without a gap. *)
Definition title_area (x : Z) : Prop := argv0 ≤ x < a + n.

(** What [set_proc_title] finds after [proc_title_init], and leaves to the next one. *)
Record titled (m' : gmap Z Z) (args' environ' : list Z) : Prop := Titled {
  ti_area : ∀ x, title_area x → is_Some (m' !! x);
  ti_args : args' = pointers (malloc n) args;
  ti_environ : environ' = pointers (malloc n + Z.of_nat (length (c_strings args))) envs;
  ti_strings : bytes_at m' (malloc n) (c_strings (args ++ envs));
}.

Context (prog : list Z).
Hypothesis strings : process_strings.
Hypothesis prog_name : bytes_at m argv0 (prog ++ [0]).
Hypothesis prog_before : a = argv0 + Z.of_nat (length prog) + 1.
Hypothesis new_block : malloc n ≠ NULL → ∀ x, malloc n ≤ x < malloc n + n → m !! x = None.

Lemma area_mapped x : title_area x → is_Some (m !! x).
Proof using strings prog_name prog_before.
  intros Hx. assert (Hb : bytes_at m argv0 ((prog ++ [0]) ++ c_strings (args ++ envs))).
  { apply bytes_at_app. split; [done|]. rewrite length_app. cbn [length]. replace (argv0 + Z.of_nat (length prog + 1)) with a by lia. apply (ps_bytes strings). }
  destruct (lookup_lt_is_Some_2 ((prog ++ [0]) ++ c_strings (args ++ envs)) (Z.to_nat (x - argv0))) as [c Hc].
  { unfold title_area in Hx. rewrite !length_app. cbn [length]. unfold n in Hx. lia. }
  exists c. rewrite <-(bytes_at_lookup _ _ _ _ _ Hb Hc). f_equal. unfold title_area in Hx. lia.
Qed.

Lemma proc_title_init_titled :
  malloc n ≠ NULL →
  ∃ m' args' environ', proc_title_init malloc junk m (argv0 :: pointers a args) environ = Ok (Running (m', argv0 :: args', environ')) ∧ titled m' args' environ'.
Proof using strings prog_name prog_before new_block.
  intros Hp. destruct (proc_title_init_ok strings Hp (new_block Hp)) as (m' & E & Hb & Hold). eexists m', _, _. split; [exact E|]. split; try done.
  intros x Hx. rewrite Hold by (by apply area_mapped). by apply area_mapped.
Qed.

Lemma set_title_ok m' args' environ' name :
  malloc n ≠ NULL → titled m' args' environ' → Z.of_nat (length name) + 1 ≤ a + n - argv0 →
  ∃ m'', set_proc_title m' argv0 name = Ok m'' ∧ bytes_at m'' argv0 (name ++ [0]) ∧ titled m'' args' environ'.
Proof using strings prog_name prog_before new_block.
  intros Hp [Hm Ha He Hs] Hfit. unfold set_proc_title. destruct (memcpy_ok m' argv0 (name ++ [0])) as (m'' & E & Hb & Hf & Hd).
  { intros x Hx. rewrite length_app in Hx. cbn in Hx. apply Hm. unfold title_area. lia. }
  exists m''. split_and!; [done | done|]. split; try done.
  - intros x Hx. by apply Hd, Hm.
  - eapply bytes_at_ext; [|exact Hs]. intros x Hx. apply Hf. rewrite length_app. cbn. intros Hin. fold n in Hx.
    destruct (area_mapped x) as [v Hv]; [unfold title_area; lia|]. rewrite (new_block Hp x Hx) in Hv. done.
Qed.

Lemma titled_denote m' args' environ' : titled m' args' environ' → denote m' args' args ∧ denote m' environ' envs.
Proof using Type.
  intros [_ -> -> Hs]. rewrite c_strings_app in Hs. apply bytes_at_app in Hs as [H1 H2]. by split; apply denote_pointers.
Qed.

(** C22: changing the title keeps the arguments and the environment.  When the system has put
    the name of the program, the arguments and the environment one behind the other,
    [proc_title_init] ends the process if there is no memory; otherwise it moves them, and
    after any sequence of titles that fit into their old place every pointer of [argv] and
    [environ] still denotes its string, and the last title is there to be read. *)
Theorem titles_keep_environment titles last :
  Forall (λ t : list Z, Z.of_nat (length t) + 1 ≤ a + n - argv0) (titles ++ [last]) →
  if malloc n =? NULL then proc_title_init malloc junk m (argv0 :: pointers a args) environ = Ok (Exit 0)
  else ∃ m' args' environ', proc_title_init malloc junk m (argv0 :: pointers a args) environ = Ok (Running (m', argv0 :: args', environ')) ∧
    ∃ m'', foldl (λ r t, m ← r; set_proc_title m argv0 t) (Ok m') (titles ++ [last]) = Ok m'' ∧
      bytes_at m'' argv0 (last ++ [0]) ∧ denote m'' args' args ∧ denote m'' environ' envs.
Proof using strings prog_name prog_before new_block.
  intros Hfit. destruct (malloc n =? NULL) eqn:E; [by apply proc_title_init_null, Z.eqb_eq|]. apply Z.eqb_neq in E.
  destruct (proc_title_init_titled E) as (m' & args' & environ' & Ei & Ht). exists m', args', environ'. split; [done|]. clear Ei.
  apply Forall_app in Hfit as [Hts Hl]. rewrite Forall_singleton in Hl. rewrite foldl_app. cbn [foldl].
  assert (∃ m1, foldl (λ r t, m ← r; set_proc_title m argv0 t) (Ok m') titles = Ok m1 ∧ titled m1 args' environ') as (m1 & -> & Ht1).
  { revert m' Ht. induction Hts as [|t ts Hfit _ IH]; intros m' Ht; [by exists m'|]. cbn [foldl]. cres_simpl.
    destruct (set_title_ok m' args' environ' t E Ht Hfit) as (m1 & -> & _ & Ht1). by apply IH. }
  cres_simpl. destruct (set_title_ok m1 args' environ' last E Ht1 Hl) as (m2 & E2 & Hb & Ht2). exists m2. split; [done|]. split; [done|]. by eapply titled_denote.
Qed.

End Title.

(** ** A title that does not fit *)

(** The titles are not measured: one that is longer than the memory from [argv[0]] on is
    written past its end. *)
Lemma title_too_long m argv0 name k : m !! (argv0 + Z.of_nat k) = None → (k ≤ length name)%nat → set_proc_title m argv0 name = Ub.
Proof.
  intros Hn Hk. unfold set_proc_title. assert (Hl : (k < length (name ++ [0%Z]))%nat) by (rewrite length_app; cbn; lia). clear Hk. revert Hl. generalize (name ++ [0%Z]). intros l. clear name.
  revert m argv0 k Hn. induction l as [|c l IH]; intros m argv0 k Hn Hk; cbn in Hk; [lia|]. cbn [memcpy]. unfold store. destruct k as [|k].
  { rewrite Z.add_0_r in Hn. by rewrite Hn. }
  destruct (m !! argv0) as [v|] eqn:E; [|done]. cres_simpl. apply (IH _ _ k); [|lia]. rewrite lookup_insert_ne by lia. rewrite <-Hn. f_equal. lia.
Qed.

(** ** Witness *)

(** [cserv start] with one variable in the environment, at address 1000. *)
Definition prog0 : list Z := str "./cserv".
Definition args0 : list (list Z) := [str "start"].
Definition envs0 : list (list Z) := [str "HOME=/home/user"; str "LANG=C"].
Definition stack0 : gmap Z Z := mem_of 1000 ((prog0 ++ [0]) ++ c_strings (args0 ++ envs0)).

Lemma stack0_bytes : bytes_at stack0 1000 ((prog0 ++ [0]) ++ c_strings (args0 ++ envs0)).
Proof. vm_compute. repeat split. Qed.

Lemma strings0 : process_strings stack0 1008 args0 envs0.
Proof.
  split; [vm_compute; by repeat split | | done | by vm_compute]. apply Forall_forall. intros s Hs.
  assert (∀ s, s ∈ args0 ++ envs0 → forallb (λ c, negb (c =? 0)) s = true) as H.
  { apply Forall_forall. vm_compute. repeat constructor. }
  specialize (H s Hs). rewrite forallb_forall in H. apply Forall_forall. intros c Hc ->. by specialize (H 0 (proj1 (list_elem_of_In _ _) Hc)).
Qed.

Lemma titles_keep_environment_witness :
  ∃ m' args' environ', proc_title_init (λ _, 5000) 7 stack0 (1000 :: pointers 1008 args0) (pointers 1014 envs0) = Ok (Running (m', 1000 :: args', environ')) ∧
    ∃ m'', foldl (λ r t, m ← r; set_proc_title m 1000 t) (Ok m') [str "cserv: master process"; str "cserv: worker process"] = Ok m'' ∧
      bytes_at m'' 1000 (str "cserv: worker process" ++ [0]) ∧ denote m'' args' args0 ∧ denote m'' environ' envs0.
Proof.
  apply (titles_keep_environment (λ _, 5000) 7 stack0 1000 1008 args0 envs0 prog0 strings0) with (titles := [str "cserv: master process"]).
  - vm_compute. repeat split.
  - reflexivity.
  - intros _ x Hx. unfold stack0. rewrite mem_of_lookup. rewrite decide_False; [done|]. vm_compute length in *. lia.
  - repeat constructor; vm_compute; discriminate.
Defined.
