(* ===== verification/Event.v ===== *)
(** The event loop: [src/event.c].

    The kernel's side of epoll is a table from descriptors to the events of interest.  What
    [epoll_ctl] does to it is a parameter with the documented laws as an interface; what
    [epoll_wait] reports is an argument. *)

From stdpp Require Import base gmap list numbers strings.
From Stdlib Require Import ZArith Lia.
From S2P Require Import Prelude.

(** [event_t], and the flags of epoll *)
Definition EVNET_NONE : Z := 0.
Definition EVENT_READABLE : Z := 1.
Definition EVENT_WRITABLE : Z := 2.
Definition EPOLLIN : Z := 1.
Definition EPOLLOUT : Z := 4.

Inductive epoll_op : Type := EPOLL_CTL_ADD | EPOLL_CTL_MOD | EPOLL_CTL_DEL.

(** [epoll_ctl] on the table of interest; [None] stands for -1.  ADD may fail for any reason;
    of a descriptor that is watched MOD and DEL are taken to succeed, which leaves out that
    the system has no memory even for them: [del_fd_event] ignores such a failure, see
    [refused_delete]. *)
Class Epoll (epoll_ctl : epoll_op → Z → Z → gmap Z Z → option (gmap Z Z)) : Prop := {
  epoll_add fd ev t t' : epoll_ctl EPOLL_CTL_ADD fd ev t = Some t' → t !! fd = None ∧ t' = <[fd := ev]> t;
  epoll_mod fd ev t : is_Some (t !! fd) → epoll_ctl EPOLL_CTL_MOD fd ev t = Some (<[fd := ev]> t);
  epoll_del fd ev t : is_Some (t !! fd) → epoll_ctl EPOLL_CTL_DEL fd ev t = Some (delete fd t);
}.

(** [struct fd_event]; a callback is its address. *)
Record fd_event : Type := FdEvent { mask : Z; callback : Z; cb_args : Z }.

(** [struct event_loop] and the kernel's table *)
Record event_loop : Type := EventLoop { max_conn : Z; array : list fd_event; interest : gmap Z Z }.

Definition set_array (ev : event_loop) (l : list fd_event) : event_loop := EventLoop (max_conn ev) l (interest ev).
Definition set_interest (ev : event_loop) (t : gmap Z Z) : event_loop := EventLoop (max_conn ev) (array ev) t.

(** [evloop.array[fd]] *)
Definition get_fe (ev : event_loop) (fd : Z) : cres fd_event := if 0 <=? fd then of_option (array ev !! Z.to_nat fd) else Ub.
Definition put_fe (ev : event_loop) (fd : Z) (fe : fd_event) : event_loop := set_array ev (<[Z.to_nat fd := fe]> (array ev)).

Definition has (m bit : Z) : bool := negb (Z.land m bit =? 0).

(** [ev.events] for a mask *)
Definition events_of (m : Z) : Z :=
  let events := 0 in
  let events := if has m EVENT_READABLE then Z.lor events EPOLLIN else events in
  if has m EVENT_WRITABLE then Z.lor events EPOLLOUT else events.

Section Event.
  Context (epoll_ctl : epoll_op → Z → Z → gmap Z Z → option (gmap Z Z)).

Definition add_fd_event (ev : event_loop) (fd what proc args : Z) : cres (Z * event_loop) :=
  if max_conn ev <=? fd then mret (-1, ev) else
  fe ← get_fe ev fd;
  let op := if mask fe =? EVNET_NONE then EPOLL_CTL_ADD else EPOLL_CTL_MOD in
  let m := Z.lor what (mask fe) in
  match epoll_ctl op fd (events_of m) (interest ev) with
  | None => mret (-2, ev)
  | Some t => mret (0, put_fe (set_interest ev t) fd (FdEvent (Z.lor (mask fe) what) proc args))
  end.

Definition del_fd_event (ev : event_loop) (fd what : Z) : cres event_loop :=
  if max_conn ev <=? fd then mret ev else
  fe ← get_fe ev fd;
  if mask fe =? EVNET_NONE then mret ev else
  let m := Z.land (mask fe) (Z.lnot what) in
  let ev := put_fe ev fd (FdEvent m (callback fe) (cb_args fe)) in
  let op := if m =? EVNET_NONE then EPOLL_CTL_DEL else EPOLL_CTL_MOD in
  (* the result of epoll_ctl is not looked at *)
  mret (match epoll_ctl op fd (events_of m) (interest ev) with
        | None => ev
        | Some t => set_interest ev t
        end).

End Event.

(** The callbacks that [event_cycle] makes, in order, for the descriptors reported ready. *)
Fixpoint event_cycle (ev : event_loop) (ready : list Z) : cres (list (Z * Z)) :=
  match ready with
  | [] => mret []
  | fd :: ready =>
    fe ← get_fe ev fd;
    if callback fe =? NULL then Ub else
    l ← event_cycle ev ready;
    mret ((callback fe, cb_args fe) :: l)
  end.

(** [calloc] and [malloc] may fail, [epoll_create] may fail; the entries are zero. *)
Definition event_loop_init (alloc1 alloc2 create_ok : bool) (n : Z) : cres (proc event_loop) :=
  m ← int_arith (n + 128);
  if negb alloc1 then mret (Exit 0) else
  if negb create_ok then mret (Exit 0) else
  if negb alloc2 then mret (Exit 0) else
  mret (Running (EventLoop m (replicate (Z.to_nat m) (FdEvent 0 NULL 0)) ∅)).

(** ** The table and the kernel agree *)

Definition entry_ok (ev : event_loop) (fd : Z) (fe : fd_event) : Prop :=
  0 ≤ mask fe < 4 ∧ (mask fe ≠ 0 → callback fe ≠ NULL) ∧
  interest ev !! fd = if mask fe =? 0 then None else Some (events_of (mask fe)).

Record event_ok (ev : event_loop) : Prop := EventOk {
  ev_size : Z.of_nat (length (array ev)) = max_conn ev;
  ev_entry : ∀ fd fe, 0 ≤ fd → array ev !! Z.to_nat fd = Some fe → entry_ok ev fd fe;
  ev_known : ∀ fd, is_Some (interest ev !! fd) → 0 ≤ fd < max_conn ev;
}.

Lemma get_fe_ok ev fd : event_ok ev → 0 ≤ fd < max_conn ev → ∃ fe, get_fe ev fd = Ok fe ∧ array ev !! Z.to_nat fd = Some fe ∧ entry_ok ev fd fe.
Proof.
  intros Hev Hfd. destruct (lookup_lt_is_Some_2 (array ev) (Z.to_nat fd)) as [fe Hfe]; [pose proof (ev_size _ Hev); lia|].
  exists fe. unfold get_fe. rewrite (proj2 (Z.leb_le _ _)) by lia. rewrite Hfe. split_and!; try done. apply (ev_entry _ Hev); [lia | done].
Qed.

(** Masks of the two events. *)
Lemma mask_cases m : 0 ≤ m < 4 → m = 0 ∨ m = 1 ∨ m = 2 ∨ m = 3.
Proof. lia. Qed.

Definition event_bit (what : Z) : Prop := what = EVENT_READABLE ∨ what = EVENT_WRITABLE.

(** The finitely many masks and events are checked one by one. *)
Ltac mask_cases H W := destruct W as [-> | ->]; destruct (mask_cases _ H) as [-> |[-> |[-> | ->]]].

Lemma lor_mask m what : 0 ≤ m < 4 → event_bit what → 0 < Z.lor m what < 4 ∧ Z.lor what m = Z.lor m what.
Proof. intros Hm Hw. split; [|apply Z.lor_comm]. mask_cases Hm Hw; by vm_compute. Qed.

Lemma clear_mask m what : 0 ≤ m < 4 → event_bit what → 0 ≤ Z.land m (Z.lnot what) < 4.
Proof. intros Hm Hw. mask_cases Hm Hw; by vm_compute. Qed.

Lemma set_clear_other m what : 0 ≤ m < 4 → event_bit what → Z.land (Z.lor m what) (Z.lnot what) = Z.land m (Z.lnot what).
Proof. intros Hm Hw. mask_cases Hm Hw; by vm_compute. Qed.

Lemma clear_unset m what : 0 ≤ m < 4 → event_bit what → has m what = false → Z.land m (Z.lnot what) = m.
Proof. intros Hm Hw. mask_cases Hm Hw; by vm_compute. Qed.

Lemma set_clear m what : 0 ≤ m < 4 → event_bit what → has m what = false → Z.land (Z.lor m what) (Z.lnot what) = m.
Proof. intros Hm Hw Hno. by rewrite set_clear_other, clear_unset. Qed.

(** One entry and its row of the kernel's table change together. *)
Lemma update_ok ev fd fe t :
  event_ok ev → 0 ≤ fd < max_conn ev → (∀ x, x ≠ fd → t !! x = interest ev !! x) → entry_ok (set_interest ev t) fd fe →
  event_ok (put_fe (set_interest ev t) fd fe).
Proof.
  intros Hev Hfd Ht Hfe. split; cbn.
  - rewrite length_insert. apply (ev_size _ Hev).
  - intros x fx Hx Hl. destruct (decide (x = fd)) as [->|Hne].
    + rewrite list_lookup_insert_eq in Hl by (pose proof (ev_size _ Hev); lia). injection Hl as <-. exact Hfe.
    + rewrite list_lookup_insert_ne in Hl by (intros E; apply Hne; lia). destruct (ev_entry _ Hev x fx Hx Hl) as (H1 & H2 & H3).
      split; [done|]. split; [done|]. cbn. rewrite Ht by done. exact H3.
  - intros x Hx. destruct (decide (x = fd)) as [->|Hne]; [done|]. rewrite Ht in Hx by done. by apply (ev_known _ Hev).
Qed.

Section Laws.
  Context (epoll_ctl : epoll_op → Z → Z → gmap Z Z → option (gmap Z Z)) {HE : Epoll epoll_ctl}.

Lemma add_fd_ok ev fd what proc args :
  event_ok ev → 0 ≤ fd < max_conn ev → event_bit what → proc ≠ NULL →
  ∃ fe, array ev !! Z.to_nat fd = Some fe ∧
    ((mask fe = 0 ∧ add_fd_event epoll_ctl ev fd what proc args = Ok (-2, ev)) ∨
     (∃ ev', add_fd_event epoll_ctl ev fd what proc args = Ok (0, ev') ∧ event_ok ev' ∧ max_conn ev' = max_conn ev ∧
        ev' = put_fe (set_interest ev (<[fd := events_of (Z.lor (mask fe) what)]> (interest ev))) fd (FdEvent (Z.lor (mask fe) what) proc args))).
Proof using HE.
  intros Hev Hfd Hw Hproc. destruct (get_fe_ok ev fd Hev Hfd) as (fe & Hg & Hl & Hm & Hcb & Hint). exists fe. split; [done|].
  unfold add_fd_event. rewrite (proj2 (Z.leb_gt _ _)) by lia. rewrite Hg. cres_simpl. destruct (lor_mask _ _ Hm Hw) as [Hr ->].
  assert (Hok : event_ok (put_fe (set_interest ev (<[fd := events_of (Z.lor (mask fe) what)]> (interest ev))) fd (FdEvent (Z.lor (mask fe) what) proc args))).
  { apply update_ok; [done | done | intros x Hx; by rewrite lookup_insert_ne |]. unfold entry_ok. cbn. rewrite lookup_insert_eq, (proj2 (Z.eqb_neq _ _)) by lia. split_and!; [lia | lia | done | done]. }
  unfold EVNET_NONE in *. destruct (mask fe =? 0) eqn:E0.
  - destruct (epoll_ctl EPOLL_CTL_ADD _ _ _) as [t|] eqn:E.
    + apply epoll_add in E as [_ ->]. right. eexists. split; [done|]. by split_and!.
    + left. split; [by apply Z.eqb_eq | done].
  - rewrite epoll_mod by (rewrite Hint; by eexists). right. eexists. split; [done|]. by split_and!.
Qed.

Lemma del_ok ev fd what :
  event_ok ev → 0 ≤ fd < max_conn ev → event_bit what →
  ∃ fe ev', array ev !! Z.to_nat fd = Some fe ∧ del_fd_event epoll_ctl ev fd what = Ok ev' ∧ event_ok ev' ∧ max_conn ev' = max_conn ev ∧
    let m := Z.land (mask fe) (Z.lnot what) in
    ev' = if mask fe =? 0 then ev else
          put_fe (set_interest ev (if m =? 0 then delete fd (interest ev) else <[fd := events_of m]> (interest ev))) fd (FdEvent m (callback fe) (cb_args fe)).
Proof using HE.
  intros Hev Hfd Hw. destruct (get_fe_ok ev fd Hev Hfd) as (fe & Hg & Hl & Hm & Hcb & Hint). exists fe. unfold del_fd_event.
  rewrite (proj2 (Z.leb_gt _ _)) by lia. rewrite Hg. cres_simpl. unfold EVNET_NONE in *. destruct (mask fe =? 0) eqn:E0; [by exists ev|].
  pose proof (clear_mask _ _ Hm Hw) as Hc. set (m := Z.land (mask fe) (Z.lnot what)) in *. apply Z.eqb_neq in E0.
  set (t := if m =? 0 then delete fd (interest ev) else <[fd := events_of m]> (interest ev)).
  exists (put_fe (set_interest ev t) fd (FdEvent m (callback fe) (cb_args fe))). split; [done|]. split.
  - cbn [interest put_fe set_array]. unfold t. destruct (m =? 0); [rewrite epoll_del by (rewrite Hint; by eexists) | rewrite epoll_mod by (rewrite Hint; by eexists)]; done.
  - split; [|done]. apply update_ok; [done | done | |].
    + intros x Hx. unfold t. destruct (m =? 0); [by rewrite lookup_delete_ne | by rewrite lookup_insert_ne].
    + split; [done|]. cbn. split; [intros _; by apply Hcb|]. unfold t. destruct (m =? 0); [by rewrite lookup_delete_eq | by rewrite lookup_insert_eq].
Qed.

(** C28: registering an event makes the kernel watch exactly the events of the old mask and
    the new event, or fails without a change (with -1 beyond the table, with -2 only if the
    kernel refuses a descriptor that was not watched); removing the event again clears its
    bit in the mask and makes the kernel watch exactly the rest, so that an event that was
    not registered before leaves mask and kernel as they were; the table and the kernel agree
    throughout.  The kernel is taken not to refuse a change to a descriptor that it watches. *)
Theorem fd_event_roundtrip ev fd what proc args :
  event_ok ev → 0 ≤ fd → event_bit what → proc ≠ NULL →
  (max_conn ev ≤ fd ∧ add_fd_event epoll_ctl ev fd what proc args = Ok (-1, ev) ∧ del_fd_event epoll_ctl ev fd what = Ok ev) ∨
  (interest ev !! fd = None ∧ add_fd_event epoll_ctl ev fd what proc args = Ok (-2, ev)) ∨
  ∃ fe ev1 ev2, array ev !! Z.to_nat fd = Some fe ∧ add_fd_event epoll_ctl ev fd what proc args = Ok (0, ev1) ∧ event_ok ev1 ∧
    array ev1 !! Z.to_nat fd = Some (FdEvent (Z.lor (mask fe) what) proc args) ∧ interest ev1 = <[fd := events_of (Z.lor (mask fe) what)]> (interest ev) ∧
    del_fd_event epoll_ctl ev1 fd what = Ok ev2 ∧ event_ok ev2 ∧
    (let m := Z.land (mask fe) (Z.lnot what) in
     array ev2 !! Z.to_nat fd = Some (FdEvent m proc args) ∧
     interest ev2 = if m =? 0 then delete fd (interest ev) else <[fd := events_of m]> (interest ev)) ∧
    (has (mask fe) what = false → interest ev2 = interest ev ∧ array ev2 !! Z.to_nat fd = Some (FdEvent (mask fe) proc args)).
Proof using HE.
  intros Hev Hfd Hw Hproc. destruct (decide (max_conn ev ≤ fd)) as [Hbig|Hsmall].
  { left. unfold add_fd_event, del_fd_event. by rewrite (proj2 (Z.leb_le _ _) Hbig). }
  right. assert (Hr : 0 ≤ fd < max_conn ev) by lia. destruct (add_fd_ok ev fd what proc args Hev Hr Hw Hproc) as (fe & Hl & [[H0 E]|(ev1 & E & Hok & Hmax & Hev1)]).
  { left. split; [|done]. destruct (ev_entry _ Hev fd fe Hfd Hl) as (_ & _ & Hi). by rewrite H0 in Hi. }
  right. destruct (ev_entry _ Hev fd fe Hfd Hl) as (Hm & Hcb & Hi).
  assert (Hlt : (Z.to_nat fd < length (array ev))%nat) by (by eapply lookup_lt_Some).
  assert (Ha1 : array ev1 !! Z.to_nat fd = Some (FdEvent (Z.lor (mask fe) what) proc args)) by (rewrite Hev1; cbn; by apply list_lookup_insert_eq).
  destruct (del_ok ev1 fd what Hok ltac:(lia) Hw) as (fe1 & ev2 & Hl1 & E2 & Hok2 & _ & Hev2). rewrite Ha1 in Hl1. injection Hl1 as <-. cbn [mask callback cb_args] in Hev2.
  destruct (lor_mask _ _ Hm Hw) as [Hpos _]. rewrite (proj2 (Z.eqb_neq _ _)) in Hev2 by lia. rewrite (set_clear_other _ _ Hm Hw) in Hev2.
  assert (Hd : let m := Z.land (mask fe) (Z.lnot what) in array ev2 !! Z.to_nat fd = Some (FdEvent m proc args) ∧
     interest ev2 = if m =? 0 then delete fd (interest ev) else <[fd := events_of m]> (interest ev)).
  { rewrite Hev2, Hev1. cbn. split; [apply list_lookup_insert_eq; by rewrite length_insert|]. destruct (Z.land (mask fe) (Z.lnot what) =? 0); [apply delete_insert_eq | apply insert_insert_eq]. }
  exists fe, ev1, ev2. split_and!; try done; [by rewrite Hev1 |]. intros Hno. cbv zeta in Hd.
  rewrite (clear_unset _ _ Hm Hw Hno) in Hd. destruct Hd as [-> ->]. split; [|done]. destruct (mask fe =? 0); [by apply delete_id | by apply insert_id].
Qed.

End Laws.

Lemma init_event_ok alloc1 alloc2 create_ok n ev :
  0 ≤ n → event_loop_init alloc1 alloc2 create_ok n = Ok (Running ev) → event_ok ev ∧ max_conn ev = n + 128.
Proof.
  intros Hn. unfold event_loop_init. destruct (int_arith (n + 128)) as [m| |] eqn:E; try done. apply int_arith_inv in E as [-> Hr]. cres_simpl.
  destruct alloc1, create_ok, alloc2; cbn; try done. intros [= <-]. split; [|done]. split; cbn; try done.
  - rewrite length_replicate. lia.
  - intros fd fe _ [-> _]%lookup_replicate. by split_and!.
  - intros fd [x Hx]. done.
Qed.

(** [event_cycle] calls, for each descriptor the kernel reports, exactly the callback and
    argument of its last registration, in the order reported; it never calls through a null
    or missing entry. *)
Theorem event_cycle_spec ev ready :
  event_ok ev → Forall (λ fd, is_Some (interest ev !! fd)) ready →
  ∃ calls, event_cycle ev ready = Ok calls ∧
    Forall2 (λ fd c, ∃ m, array ev !! Z.to_nat fd = Some (FdEvent m c.1 c.2) ∧ m ≠ 0 ∧ c.1 ≠ NULL) ready calls.
Proof.
  intros Hev Hr. induction Hr as [|fd ready Hfd _ (calls & IH & Hc)]; cbn; [by exists []|].
  destruct (get_fe_ok ev fd Hev (ev_known _ Hev fd Hfd)) as (fe & -> & Hl & Hm & Hcb & Hint). cres_simpl.
  destruct (mask fe =? 0) eqn:E0; [rewrite Hint in Hfd; by destruct Hfd|]. apply Z.eqb_neq in E0.
  rewrite (proj2 (Z.eqb_neq _ _)) by (by apply Hcb). rewrite IH. cres_simpl. eexists. split; [done|]. constructor; [|done].
  exists (mask fe). cbn. split_and!; [by destruct fe | done | by apply Hcb].
Qed.

(** ** Witnesses *)

(** A kernel that watches up to two descriptors. *)
Definition small_epoll (op : epoll_op) (fd ev : Z) (t : gmap Z Z) : option (gmap Z Z) :=
  match op with
  | EPOLL_CTL_ADD => if bool_decide (t !! fd = None ∧ (size t < 2)%nat) then Some (<[fd := ev]> t) else None
  | EPOLL_CTL_MOD => if bool_decide (is_Some (t !! fd)) then Some (<[fd := ev]> t) else None
  | EPOLL_CTL_DEL => if bool_decide (is_Some (t !! fd)) then Some (delete fd t) else None
  end.

#[export] Instance small_epoll_ok : Epoll small_epoll.
Proof.
  split.
  - intros fd ev t t'. cbn. case_bool_decide as H; [|done]. intros [= <-]. by destruct H.
  - intros fd ev t H. cbn. by rewrite bool_decide_eq_true_2.
  - intros fd ev t H. cbn. by rewrite bool_decide_eq_true_2.
Qed.

Definition loop0 : event_loop := EventLoop 130 (replicate 130 (FdEvent 0 NULL 0)) ∅.
Lemma loop0_ok : event_ok loop0.
Proof. by apply (init_event_ok true true true 2). Qed.

(** Reading on descriptor 5 is registered, and writing is added and removed. *)
Definition loop_in : event_loop := put_fe (set_interest loop0 {[5 := 1]}) 5 (FdEvent 1 64 192).

Lemma loop_in_ok : event_ok loop_in.
Proof. apply update_ok; [exact loop0_ok | cbn; lia | intros x Hx; by rewrite lookup_singleton_ne | by split_and!]. Qed.

Lemma fd_event_roundtrip_witness :
  ∃ ev1 ev2, add_fd_event small_epoll loop_in 5 2 96 256 = Ok (0, ev1) ∧ event_ok ev1 ∧ interest ev1 = {[5 := 5]} ∧
    del_fd_event small_epoll ev1 5 2 = Ok ev2 ∧ event_ok ev2 ∧ interest ev2 = interest loop_in.
Proof.
  destruct (fd_event_roundtrip small_epoll loop_in 5 2 96 256) as [(H & _)|[(H & _)|(fe & ev1 & ev2 & Hl & Ea & H1 & _ & Hi & Ed & H2 & _ & Hr)]];
    [exact loop_in_ok | lia | by right | done | cbn in H; lia | discriminate H |].
  injection Hl as <-. exists ev1, ev2. split; [exact Ea|]. split; [exact H1|]. split; [exact Hi|]. split; [exact Ed|]. split; [exact H2|]. apply Hr. reflexivity.
Defined.

(** What [del_fd_event] does not look at: if the kernel refuses to drop a descriptor, the
    table says that nothing is registered while the kernel goes on reporting it. *)
Theorem refused_delete epoll_ctl :
  (∀ fd ev t, epoll_ctl EPOLL_CTL_DEL fd ev t = None) →
  ∃ ev, del_fd_event epoll_ctl loop_in 5 1 = Ok ev ∧ interest ev !! 5 = Some 1 ∧ mask <$> array ev !! 5%nat = Some 0.
Proof.
  intros Hdel. unfold del_fd_event. change (get_fe loop_in 5) with (Ok (FdEvent 1 64 192)). change (max_conn loop_in <=? 5) with false. cres_simpl.
  change (Z.land 1 (Z.lnot 1) =? EVNET_NONE) with true. change (mask (FdEvent 1 64 192) =? EVNET_NONE) with false. cbn iota zeta.
  cbn [mask]. rewrite Hdel. eexists. split; [reflexivity|]. by split.
Qed.

(** Descriptor 5 is watched and ready. *)
Definition loop1 : event_loop := loop_in.

Lemma loop1_ok : event_ok loop1.
Proof. exact loop_in_ok. Qed.

Lemma event_cycle_spec_witness :
  ∃ calls, event_cycle loop1 [5] = Ok calls ∧
    Forall2 (λ fd c, ∃ m, array loop1 !! Z.to_nat fd = Some (FdEvent m c.1 c.2) ∧ m ≠ 0 ∧ c.1 ≠ NULL) [5] calls.
Proof. apply (event_cycle_spec loop1 [5]); [exact loop1_ok | by repeat constructor]. Defined.
