(* ===== verification/SyscallHook.v ===== *)
(** The system calls that suspend a coroutine instead of blocking: [src/syscall_hook.c], with
    the socket options of [src/util/net.h].

    The real system calls are parameters: a step of the kernel's state that gives an outcome,
    and what [fcntl], [setsockopt] and [getsockopt] return.  While a coroutine sleeps in
    [schedule_timeout] others run; what they do to the kernel and to the event table, and
    whether the sleep ended by its timeout, is a parameter too. *)

From stdpp Require Import base gmap list numbers strings sets pretty.
From Stdlib Require Import ZArith Lia.
From S2P Require Import Prelude Event.
From S2P Require Import ListHead Memcache RbTree RbRep RbInsert RbErase RbEraseColor RbProps.
From S2P Require Import Sched SchedSearch SchedInv SchedLists SchedOps SchedSteps.

(** ** [src/util/net.h] *)

Definition O_NONBLOCK : Z := 2048.

Section Net.
  (** [fcntl(fd, F_GETFL)], [fcntl(fd, F_SETFL, flags)], and [setsockopt] by option and value *)
  Context (getfl : Z → Z) (setfl : Z → Z → Z) (setsockopt : Z → string → Z → Z).

Definition set_nonblock (fd : Z) : Z :=
  let flags := getfl fd in
  if flags <? 0 then -1 else
  if negb (Z.land flags O_NONBLOCK =? 0) then 0 else
  if setfl fd (Z.lor flags O_NONBLOCK) <? 0 then -1 else 0.

Definition enable_tcp_no_delay (fd : Z) : Z := setsockopt fd "TCP_NODELAY" 1.

Definition set_keep_alive (fd interval : Z) : Z :=
  if setsockopt fd "SO_KEEPALIVE" 1 <? 0 then -1 else
  if setsockopt fd "TCP_KEEPIDLE" interval <? 0 then -1 else
  let val := Z.quot interval 3 in
  let val := if val =? 0 then 1 else val in
  if setsockopt fd "TCP_KEEPINTVL" val <? 0 then -1 else
  if setsockopt fd "TCP_KEEPCNT" 3 <? 0 then -1 else 0.

Definition set_reuse_addr (fd : Z) : Z := if setsockopt fd "SO_REUSEADDR" 1 <? 0 then -1 else 0.

End Net.

(** [INADDR_ANY] unless [inet_pton] recognises the address. *)
Definition ip_to_nl (inet_pton : list Z → option Z) (ip : option (list Z)) : Z :=
  match ip with
  | None => 0
  | Some ip => default 0 (inet_pton ip)
  end.

(** The address of the other side: [getpeername] gives the [s_addr] of a descriptor, or fails;
    [inet_ntoa] prints its four bytes in the order they have in memory. *)
Definition fd_to_nl (getpeername : Z → option Z) (fd : Z) : Z := default 0 (getpeername fd).
Definition byte_of (nl : Z) (i : Z) : list Z := str (pretty (Z.land (Z.shiftr nl (8 * i)) 255)).
Definition inet_ntoa (nl : Z) : list Z := byte_of nl 0 ++ str "." ++ byte_of nl 1 ++ str "." ++ byte_of nl 2 ++ str "." ++ byte_of nl 3.
Definition get_peer_ip (getpeername : Z → option Z) (fd : Z) : list Z := inet_ntoa (fd_to_nl getpeername fd).

Example peer_ips : get_peer_ip (λ fd, if fd =? 3 then Some 16777343 else None) 3 = str "127.0.0.1" ∧ get_peer_ip (λ _, None) 3 = str "0.0.0.0".
Proof. vm_compute. split; reflexivity. Qed.

(** [syscall_hook_init]: the functions behind the hooks, NULL where [dlsym] finds none *)
Record real_calls : Type := RealCalls {
  real_sys_connect : Z; real_sys_accept : Z; real_sys_read : Z; real_sys_recv : Z; real_sys_write : Z; real_sys_send : Z
}.
Definition syscall_hook_init (dlsym : list Z → Z) : real_calls :=
  RealCalls (dlsym (str "connect")) (dlsym (str "accept")) (dlsym (str "read")) (dlsym (str "recv")) (dlsym (str "write")) (dlsym (str "send")).

(** ** Callbacks *)

(** The addresses of the two callbacks, and what they do. *)
Definition RW_CALLBACK : Z := 1.
Definition CONN_CALLBACK : Z := 2.
Definition event_rw_callback (s : coro_schedule) (args : Z) : cres coro_schedule := wakeup_coro s args.
Definition event_conn_callback (s : coro_schedule) (args : Z) : cres coro_schedule := wakeup_coro_priority s args.

Definition call (s : coro_schedule) (proc args : Z) : cres coro_schedule :=
  if proc =? RW_CALLBACK then event_rw_callback s args else
  if proc =? CONN_CALLBACK then event_conn_callback s args else Ub.

Fixpoint run_callbacks (s : coro_schedule) (calls : list (Z * Z)) : cres coro_schedule :=
  match calls with
  | [] => mret s
  | (proc, args) :: calls => s ← call s proc args; run_callbacks s calls
  end.

(** ** The wrapped calls *)

Definition CONN_TIMEOUT : Z := 10 * 1000.
Definition ACCEPT_TIMEOUT : Z := 3 * 1000.
Definition READ_TIMEOUT : Z := 10 * 1000.
Definition RECV_TIMEOUT : Z := 10 * 1000.
Definition WRITE_TIMEOUT : Z := 10 * 1000.
Definition SEND_TIMEOUT : Z := 10 * 1000.
Definition KEEP_ALIVE : Z := 60.

(** What a real call gives: a result, or -1 with EINTR, EAGAIN, or another error. *)
Inductive outcome : Type := Result (n : Z) | Interrupted | Not_ready | Failed.

Section Hooks.
  Context (epoll_ctl : epoll_op → Z → Z → gmap Z Z → option (gmap Z Z)).
  Context {K : Type} (real : K → outcome * K) (sleep : Z → K → event_loop → K * event_loop * bool).

(** The loop that [accept], [read], [recv], [write] and [send] share. *)
Fixpoint hook_loop (fuel : nat) (what proc ms : Z) (k : K) (ev : event_loop) (fd coro : Z) : cres (Z * K * event_loop) :=
  match real k with
  | (Result n, k) => mret (n, k, ev)
  | (Failed, k) => mret (-1, k, ev)
  | (Interrupted, k) =>
    match fuel with
    | O => Fuel
    | S fuel => hook_loop fuel what proc ms k ev fd coro
    end
  | (Not_ready, k) =>
    '(r, ev) ← add_fd_event epoll_ctl ev fd what proc coro;
    if negb (r =? 0) then mret (-2, k, ev) else
    let '(k, ev, by_timeout) := sleep ms k ev in
    ev ← del_fd_event epoll_ctl ev fd what;
    if (by_timeout : bool) then mret (-3, k, ev) else
    match fuel with
    | O => Fuel
    | S fuel => hook_loop fuel what proc ms k ev fd coro
    end
  end.

Definition read (fuel : nat) := hook_loop fuel EVENT_READABLE RW_CALLBACK READ_TIMEOUT.
Definition recv (fuel : nat) := hook_loop fuel EVENT_READABLE RW_CALLBACK RECV_TIMEOUT.
Definition write (fuel : nat) := hook_loop fuel EVENT_WRITABLE RW_CALLBACK WRITE_TIMEOUT.
Definition send (fuel : nat) := hook_loop fuel EVENT_WRITABLE RW_CALLBACK SEND_TIMEOUT.

Context (getfl : Z → Z) (setfl : Z → Z → Z) (setsockopt : Z → string → Z → Z).

(** The descriptor or an error, and the descriptor that is closed, if any. *)
Definition accept (fuel : nat) (k : K) (ev : event_loop) (sockfd coro : Z) : cres (Z * option Z * K * event_loop) :=
  '(connfd, k, ev) ← hook_loop fuel EVENT_READABLE CONN_CALLBACK ACCEPT_TIMEOUT k ev sockfd coro;
  mret (if connfd <? 0 then (connfd, None, k, ev) else
        if negb (set_nonblock getfl setfl connfd =? 0) then (-4, Some connfd, k, ev) else
        if negb (enable_tcp_no_delay setsockopt connfd =? 0) then (-5, Some connfd, k, ev) else
        if negb (set_keep_alive setsockopt connfd KEEP_ALIVE =? 0) then (-6, Some connfd, k, ev) else
        (connfd, None, k, ev)).

(** [getsockopt] of SO_ERROR from what [flags] and [len] held: its result and the new values. *)
Context (getsockopt : Z → Z → Z * Z * Z).

(** The wait for a connection that is being made.  [flags] and [len] are not initialised. *)
Definition connect_wait (flags0 len0 : Z) (k : K) (ev : event_loop) (sockfd coro : Z) : cres (Z * K * event_loop) :=
  '(r, ev) ← add_fd_event epoll_ctl ev sockfd EVENT_WRITABLE CONN_CALLBACK coro;
  if negb (r =? 0) then mret (-2, k, ev) else
  let '(k, ev, by_timeout) := sleep CONN_TIMEOUT k ev in
  ev ← del_fd_event epoll_ctl ev sockfd EVENT_WRITABLE;
  if (by_timeout : bool) then mret (-3, k, ev) else
  let '(ret, flags, len) := getsockopt flags0 len0 in
  if (ret =? -1) || negb (flags =? 0) || (len =? 0) then mret (-4, k, ev) else mret (0, k, ev).

(** [Not_ready] stands for -1 with EINPROGRESS.  The result of [set_nonblock], which comes
    first, is not looked at. *)
Definition connect (flags0 len0 : Z) (k : K) (ev : event_loop) (sockfd coro : Z) : cres (Z * K * event_loop) :=
  match real k with
  | (Result ret, k) =>
    if ret =? 0 then mret (0, k, ev) else
    if ret <? 0 then mret (-1, k, ev) else connect_wait flags0 len0 k ev sockfd coro
  | (Interrupted, k) | (Failed, k) => mret (-1, k, ev)
  | (Not_ready, k) => connect_wait flags0 len0 k ev sockfd coro
  end.

(** ** What a wrapped call promises *)

Context {HE : Epoll epoll_ctl}.

(** The entry of a descriptor and the kernel's row for it. *)
Definition same_fd (fd : Z) (ev ev' : event_loop) : Prop :=
  event_ok ev' ∧ max_conn ev' = max_conn ev ∧ array ev' !! Z.to_nat fd = array ev !! Z.to_nat fd ∧ interest ev' !! fd = interest ev !! fd.

(** While the coroutine sleeps, others leave the entry of its descriptor alone. *)
Definition others_keep (fd : Z) : Prop := ∀ ms k ev, event_ok ev → same_fd fd ev (sleep ms k ev).1.2.

(** What the kernel watches for the descriptor, and the mask, are as before. *)
Definition restored (fd : Z) (ev ev' : event_loop) : Prop :=
  event_ok ev' ∧ max_conn ev' = max_conn ev ∧ interest ev' !! fd = interest ev !! fd ∧
  (mask <$> array ev' !! Z.to_nat fd) = (mask <$> array ev !! Z.to_nat fd).

Lemma restored_refl fd ev : event_ok ev → restored fd ev ev.
Proof. by split. Qed.

Lemma restored_trans fd ev1 ev2 ev3 : restored fd ev1 ev2 → restored fd ev2 ev3 → restored fd ev1 ev3.
Proof. intros (? & ? & ? & ?) (? & ? & ? & ?). split_and!; [done | congruence..]. Qed.

(** One round of waiting: it either cannot register, or registers, sleeps and unregisters. *)
Lemma wait_round k what proc ms ev fd coro fe :
  others_keep fd → event_ok ev → 0 ≤ fd → event_bit what → proc ≠ NULL → array ev !! Z.to_nat fd = Some fe → has (mask fe) what = false →
  add_fd_event epoll_ctl ev fd what proc coro = Ok (-2, ev) ∨
  ∃ ev1 ev3, add_fd_event epoll_ctl ev fd what proc coro = Ok (0, ev1) ∧ del_fd_event epoll_ctl (sleep ms k ev1).1.2 fd what = Ok ev3 ∧ restored fd ev ev3.
Proof using HE.
  intros Hk Hev Hfd Hw Hp Hfe Hno. assert (Hr : 0 ≤ fd < max_conn ev) by (apply lookup_lt_Some in Hfe; pose proof (ev_size _ Hev); lia).
  destruct (ev_entry _ Hev fd fe Hfd Hfe) as (Hm & Hcb & Hint).
  destruct (add_fd_ok epoll_ctl ev fd what proc coro Hev Hr Hw Hp) as (fe' & Hl & [[H0 E]|(ev1 & E & Hok & Hmax & Hev1)]); [by left|].
  right. assert (fe' = fe) as -> by congruence. assert (Hlt : (Z.to_nat fd < length (array ev))%nat) by (by eapply lookup_lt_Some).
  assert (Ha1 : array ev1 !! Z.to_nat fd = Some (FdEvent (Z.lor (mask fe) what) proc coro)) by (rewrite Hev1; cbn; by apply list_lookup_insert_eq).
  destruct (Hk ms k ev1 Hok) as (Hok2 & Hmax2 & Ha2 & Hi2). set (ev2 := (sleep ms k ev1).1.2) in *.
  destruct (del_ok epoll_ctl ev2 fd what Hok2 ltac:(lia) Hw) as (fe2 & ev3 & Hl2 & E3 & Hok3 & Hmax3 & Hev3).
  rewrite Ha2, Ha1 in Hl2. injection Hl2 as <-. cbn [mask callback cb_args] in Hev3. destruct (lor_mask _ _ Hm Hw) as [Hpos _].
  rewrite (proj2 (Z.eqb_neq _ _)), (set_clear _ _ Hm Hw Hno) in Hev3 by lia. exists ev1, ev3. split; [done|]. split; [done|]. split_and!; [done | congruence | |].
  - rewrite Hev3. cbn. rewrite Hint. destruct (mask fe =? 0); [apply lookup_delete_eq | apply lookup_insert_eq].
  - rewrite Hev3. cbn. rewrite Hfe. rewrite list_lookup_insert_eq; [done|]. apply lookup_lt_Some with (x := FdEvent (Z.lor (mask fe) what) proc coro). congruence.
Qed.

(** The call ends after at most [d] more attempts: an attempt gives a result or fails, or the
    wait for the next one runs into its timeout. *)
Fixpoint done_within (ms : Z) (d : nat) (k : K) : Prop :=
  match real k with
  | (Result _, _) | (Failed, _) => True
  | (Interrupted, k) => match d with O => False | S d => done_within ms d k end
  | (Not_ready, k) => ∀ ev, (sleep ms k ev).2 = true ∨ match d with O => False | S d => done_within ms d (sleep ms k ev).1.1 end
  end.

(** What a call returns: an error, or what the last attempt of the real call gave. *)
Definition call_result (r : Z) (k' : K) : Prop := r = -1 ∨ r = -2 ∨ r = -3 ∨ ∃ k, real k = (Result r, k').

Lemma hook_loop_ok what proc ms fd coro : others_keep fd → 0 ≤ fd → event_bit what → proc ≠ NULL →
  ∀ d k ev fe fuel, event_ok ev → array ev !! Z.to_nat fd = Some fe → has (mask fe) what = false → done_within ms d k → (d ≤ fuel)%nat →
  ∃ r k' ev', hook_loop fuel what proc ms k ev fd coro = Ok (r, k', ev') ∧ restored fd ev ev' ∧ call_result r k'.
Proof using HE.
  intros Hk Hfd Hw Hp. induction d as [|d IH]; intros k ev fe fuel Hev Hfe Hno Hend Hfuel; assert (Hrefl := restored_refl fd ev Hev);
    destruct fuel as [|fuel]; try lia; cbn [hook_loop]; cbn [done_within] in Hend; destruct (real k) as [[n| | |] k1] eqn:E; try done;
    try (eexists _, _, _; split; [done|]; split; [done|]; first [by left | right; right; right; by exists k]).
  3: { apply (IH k1 ev fe fuel Hev Hfe Hno Hend). lia. }
  all: destruct (wait_round k1 what proc ms ev fd coro fe Hk Hev Hfd Hw Hp Hfe Hno) as [->|(ev1 & ev3 & -> & E3 & Hres)]; cres_simpl; cbn [negb Z.eqb];
    [eexists _, _, _; split; [done|]; split; [done|]; right; by left|]; specialize (Hend ev1);
    destruct (sleep ms k1 ev1) as [[k2 ev2] b]; cbn [fst snd] in *; rewrite E3; cres_simpl.
  1, 2: destruct Hend as [->|[]]; eexists _, _, _; split; [done|]; split; [done|]; right; right; by left.
  destruct b; [eexists _, _, _; split; [done|]; split; [done|]; right; right; by left|]. destruct Hend as [?|Hend]; [done|].
  pose proof Hres as (Hev3 & _ & _ & Hmask). rewrite Hfe in Hmask. destruct (array ev3 !! Z.to_nat fd) as [fe3|] eqn:Hfe3; [|done]. injection Hmask as Hmask.
  destruct (IH k2 ev3 fe3 fuel Hev3 Hfe3) as (r & k' & ev' & Er & Hres' & Hr); [by rewrite Hmask | done | lia |].
  exists r, k', ev'. split; [done|]. split; [by eapply restored_trans | done].
Qed.

(** A result that is not an error comes from the real call, whatever the event table does. *)
Lemma hook_loop_real what proc ms fd coro fuel : ∀ k ev r k' ev',
  hook_loop fuel what proc ms k ev fd coro = Ok (r, k', ev') → call_result r k'.
Proof using Type.
  induction fuel as [|fuel IH]; intros k ev r k' ev'; cbn [hook_loop]; destruct (real k) as [[n| | |] k1] eqn:E; cres_simpl; try done;
    try (intros [= <- <- _]; first [by left | right; right; right; by exists k]); try apply IH.
  all: destruct (add_fd_event _ _ _ _ _ _) as [[z e1]| |]; cres_simpl; try done; destruct (negb (z =? 0)); [intros [= <- <- _]; right; by left|];
    destruct (sleep ms k1 e1) as [[k2 ev2] b]; destruct (del_fd_event _ _ _ _) as [e3| |]; cres_simpl; try done;
    destruct b; try done; try apply IH; intros [= <- <- _]; right; right; by left.
Qed.

End Hooks.
