(* ===== verification/SyscallHookProps.v ===== *)
(** What the wrapped system calls promise, and how the event loop wakes the coroutines that
    sleep in them. *)

From stdpp Require Import base gmap list numbers strings sets.
From Stdlib Require Import ZArith Lia.
From S2P Require Import Prelude Event SyscallHook.
From S2P Require Import ListHead Memcache RbTree RbRep RbInsert RbErase RbEraseColor RbProps.
From S2P Require Import Sched SchedSearch SchedInv SchedLists SchedOps SchedSteps SchedProps SchedDemo.

(** C27: [read], [recv], [write] and [send] on a descriptor that nobody else waits for: as soon
    as one of the attempts gives a result, fails, or waits for its full timeout, the call
    returns.  It returns the result of a real call, or -1, -2 or -3, and in every case the
    event table and the kernel's table are for this descriptor as before: no registration is
    left behind. *)
Theorem hooked_calls epoll_ctl {HE : Epoll epoll_ctl} {K} (real : K → outcome * K) sleep k ev fd coro fe d fuel op :
  others_keep sleep fd → event_ok ev → 0 ≤ fd → array ev !! Z.to_nat fd = Some fe → mask fe = 0 →
  done_within real sleep 10000 d k → (d ≤ fuel)%nat →
  op = @read ∨ op = @recv ∨ op = @write ∨ op = @send →
  ∃ r k' ev', op epoll_ctl K real sleep fuel k ev fd coro = Ok (r, k', ev') ∧ restored fd ev ev' ∧
    (r = -1 ∨ r = -2 ∨ r = -3 ∨ ∃ k1, real k1 = (Result r, k')).
Proof.
  intros Hk Hev Hfd Hfe Hm Hend Hf Hop.
  assert (H : ∀ what, event_bit what → ∃ r k' ev', hook_loop epoll_ctl real sleep fuel what RW_CALLBACK 10000 k ev fd coro = Ok (r, k', ev') ∧ restored fd ev ev' ∧
    call_result real r k').
  { intros what Hw. apply (hook_loop_ok epoll_ctl real sleep what RW_CALLBACK 10000 fd coro Hk Hfd Hw ltac:(done) d k ev fe fuel); try done. by rewrite Hm. }
  destruct Hop as [->|[->|[->| ->]]]; [apply (H EVENT_READABLE) | apply (H EVENT_READABLE) | apply (H EVENT_WRITABLE) | apply (H EVENT_WRITABLE)]; by (left + right).
Qed.

(** [accept] gives out a descriptor only with its options set, and otherwise closes it. *)
Lemma accept_closes epoll_ctl {HE : Epoll epoll_ctl} {K} (real : K → outcome * K) sleep getfl setfl setsockopt k ev fd coro fe d fuel :
  others_keep sleep fd → event_ok ev → 0 ≤ fd → array ev !! Z.to_nat fd = Some fe → mask fe = 0 →
  done_within real sleep ACCEPT_TIMEOUT d k → (d ≤ fuel)%nat →
  ∃ r closed k' ev', accept epoll_ctl real sleep getfl setfl setsockopt fuel k ev fd coro = Ok (r, closed, k', ev') ∧ restored fd ev ev' ∧
    match closed with
    | None => r < 0 ∨ set_nonblock getfl setfl r = 0 ∧ set_keep_alive setsockopt r KEEP_ALIVE = 0
    | Some _ => -6 ≤ r ≤ -4
    end.
Proof.
  intros Hk Hev Hfd Hfe Hm Hend Hf.
  destruct (hook_loop_ok epoll_ctl real sleep EVENT_READABLE CONN_CALLBACK ACCEPT_TIMEOUT fd coro Hk Hfd ltac:(by left) ltac:(done) d k ev fe fuel Hev Hfe)
    as (r & k' & ev' & E & Hres & _); [by rewrite Hm | done | done |].
  unfold accept. rewrite E. cres_simpl. destruct (r <? 0) eqn:Er; [eexists _, _, _, _; split; [done|]; split; [done|]; left; blia|].
  destruct (negb (set_nonblock getfl setfl r =? 0)) eqn:E1; [eexists _, _, _, _; split; [done|]; split; [done|]; lia|].
  destruct (negb (enable_tcp_no_delay setsockopt r =? 0)); [eexists _, _, _, _; split; [done|]; split; [done|]; lia|].
  destruct (negb (set_keep_alive setsockopt r KEEP_ALIVE =? 0)) eqn:E3; [eexists _, _, _, _; split; [done|]; split; [done|]; lia|].
  eexists _, _, _, _. split; [done|]. split; [done|]. right. by apply negb_false_iff, Z.eqb_eq in E1, E3.
Qed.

(** The length that [connect] passes to [getsockopt] is not initialised: if it happens to be
    0, an established connection is reported as failed. *)
Theorem connect_uninitialised epoll_ctl {K} (real : K → outcome * K) sleep getsockopt k k1 k2 ev ev1 ev2 ev3 fd coro flags0 :
  real k = (Not_ready, k1) → add_fd_event epoll_ctl ev fd EVENT_WRITABLE CONN_CALLBACK coro = Ok (0, ev1) →
  sleep CONN_TIMEOUT k1 ev1 = (k2, ev2, false) → del_fd_event epoll_ctl ev2 fd EVENT_WRITABLE = Ok ev3 →
  (∀ flags, getsockopt flags 0 = (0, flags, 0)) →
  connect epoll_ctl real sleep getsockopt flags0 0 k ev fd coro = Ok (-4, k2, ev3).
Proof. intros E0 E1 E2 E3 Hg. unfold connect, connect_wait. rewrite E0, E1. cres_simpl. cbn [negb Z.eqb]. rewrite E2, E3, Hg. cres_simpl. by rewrite orb_true_r. Qed.

(** ** Events wake coroutines *)

(** The coroutines woken at the end of the list, and those woken at its front. *)
Definition at_tail (calls : list (Z * Z)) : list Z := snd <$> filter (λ c, c.1 = RW_CALLBACK) calls.
Definition at_front (calls : list (Z * Z)) : list Z := reverse (snd <$> filter (λ c, c.1 ≠ RW_CALLBACK) calls).

Lemma callback_ok s idle active gs run proc c :
  sched_inv s (View idle active gs run) → c ∈ waiters gs → proc = RW_CALLBACK ∨ proc = CONN_CALLBACK →
  ∃ s' gs' t, call s proc c = Ok s' ∧ pairs gs ≡ₚ (c, t) :: pairs gs' ∧ current s' = current s ∧
    sched_inv s' (View idle (if decide (proc = RW_CALLBACK) then active ++ [c] else c :: active) gs' run).
Proof.
  intros Hi Hc Hp. assert (Hev : c ∈ everyone (View idle active gs run)) by (unfold everyone; cbn; rewrite !elem_of_app; tauto).
  destruct (si_coros _ _ Hi c Hev) as (_ & x & Hx & _). destruct (wakeup_waiting_ok s idle active gs run c x Hi Hc Hx) as (gs' & Hpm & (s1 & E1 & I1 & _ & C1) & (s2 & E2 & I2 & _ & C2)).
  destruct Hp as [->| ->]; unfold call, event_rw_callback, event_conn_callback; cbn [Z.eqb Pos.eqb RW_CALLBACK CONN_CALLBACK].
  - exists s1, gs', (coro_timeout x). rewrite decide_True by done. by split_and!.
  - exists s2, gs', (coro_timeout x). rewrite decide_False by done. by split_and!.
Qed.

Lemma run_callbacks_ok calls : ∀ s idle active gs run,
  sched_inv s (View idle active gs run) → NoDup calls.*2 → (∀ c, c ∈ calls.*2 → c ∈ waiters gs) →
  Forall (λ c, c.1 = RW_CALLBACK ∨ c.1 = CONN_CALLBACK) calls →
  ∃ s' gs' woken, run_callbacks s calls = Ok s' ∧ current s' = current s ∧
    sched_inv s' (View idle (at_front calls ++ active ++ at_tail calls) gs' run) ∧
    pairs gs ≡ₚ woken ++ pairs gs' ∧ woken.*1 = calls.*2.
Proof.
  induction calls as [|[proc c] calls IH]; intros s idle active gs run Hi Hn Hw Hp; cbn [run_callbacks].
  { exists s, gs, []. rewrite app_nil_r. by split_and!. }
  apply Forall_cons in Hp as [Hp0 Hp]. cbn in Hp0. cbn [fmap list_fmap snd] in Hn, Hw. apply NoDup_cons in Hn as [Hnc Hn].
  destruct (callback_ok s idle active gs run proc c Hi ltac:(apply Hw; by left) Hp0) as (s1 & gs1 & t & -> & Hpm & Hcur & Hi1). cres_simpl.
  assert (Hw1 : ∀ d, d ∈ calls.*2 → d ∈ waiters gs1).
  { intros d Hd. assert (Hdg : d ∈ waiters gs) by (apply Hw; by right). rewrite <-pairs_waiters in Hdg |- *. rewrite Hpm in Hdg. cbn in Hdg.
    apply elem_of_cons in Hdg as [->|?]; done. }
  destruct (IH s1 idle _ gs1 run Hi1 Hn Hw1 Hp) as (s' & gs' & woken & E & Hcur' & Hi' & Hpm' & Hwk). exists s', gs', ((c, t) :: woken).
  split_and!; [done | congruence | | by rewrite Hpm, Hpm' | cbn; by rewrite Hwk]. unfold at_front, at_tail in *.
  destruct (decide (proc = RW_CALLBACK)) as [Hrw|Hrw].
  - rewrite (filter_cons_True (λ c : Z * Z, c.1 = RW_CALLBACK)) by done. rewrite (filter_cons_False (λ c : Z * Z, c.1 ≠ RW_CALLBACK)) by (intros H; by apply H).
    cbn [fmap list_fmap snd]. rewrite <-app_assoc in Hi'. exact Hi'.
  - rewrite (filter_cons_False (λ c : Z * Z, c.1 = RW_CALLBACK)) by done. rewrite (filter_cons_True (λ c : Z * Z, c.1 ≠ RW_CALLBACK)) by done.
    cbn [fmap list_fmap snd]. rewrite reverse_cons, <-app_assoc. exact Hi'.
Qed.

(** When the kernel reports descriptors ready, the event loop makes exactly the coroutines
    that wait for them runnable, those that wait for a connection at the front of the list
    and the others at its end; all other coroutines stay as they are, and nothing undefined
    happens (each of them sleeps, and in one descriptor only). *)
Theorem event_wakes s idle active gs run ev ready calls :
  sched_inv s (View idle active gs run) → event_ok ev → Forall (λ fd, is_Some (interest ev !! fd)) ready →
  event_cycle ev ready = Ok calls → NoDup calls.*2 → (∀ c, c ∈ calls.*2 → c ∈ waiters gs) →
  Forall (λ c, c.1 = RW_CALLBACK ∨ c.1 = CONN_CALLBACK) calls →
  ∃ s' gs' woken, run_callbacks s calls = Ok s' ∧ current s' = current s ∧
    sched_inv s' (View idle (at_front calls ++ active ++ at_tail calls) gs' run) ∧
    pairs gs ≡ₚ woken ++ pairs gs' ∧ woken.*1 = calls.*2 ∧ length woken = length ready.
Proof.
  intros Hi Hev Hr E Hn Hw Hp. destruct (run_callbacks_ok calls s idle active gs run Hi Hn Hw Hp) as (s' & gs' & woken & H1 & H2 & H3 & H4 & H5).
  exists s', gs', woken. split_and!; try done. assert (length calls = length ready) as Hl.
  { clear -E Hev Hr. revert calls E. induction Hr as [|fd ready Hfd _ IH]; intros calls E; cbn in E; [by injection E as <-|].
    destruct (get_fe ev fd) as [fe| |]; try done. cres_simpl. destruct (callback fe =? NULL); [done|]. destruct (event_cycle ev ready) as [l| |]; try done. cres_simpl.
    injection E as <-. cbn. by rewrite (IH l). }
  rewrite <-Hl. rewrite <-(length_fmap fst woken), H5. apply length_fmap.
Qed.

(** ** Witnesses *)

(** The first attempt finds nothing, the second one reads five bytes. *)
Definition real0 (i : nat) : outcome * nat := (match i with O => Not_ready | _ => Result 5 end, S i).
Definition sleep0 (ms : Z) (i : nat) (ev : event_loop) : nat * event_loop * bool := (i, ev, false).

Lemma hooked_calls_witness :
  ∃ r k' ev', recv small_epoll real0 sleep0 3 0%nat loop0 5 192 = Ok (r, k', ev') ∧ restored 5 loop0 ev' ∧
    (r = -1 ∨ r = -2 ∨ r = -3 ∨ ∃ k1, real0 k1 = (Result r, k')).
Proof.
  apply (hooked_calls small_epoll real0 sleep0 0%nat loop0 5 192 (FdEvent 0 NULL 0) 1 3 (@recv));
    [by intros ms i ev Hev | exact loop0_ok | lia | reflexivity | reflexivity | intros ev; right; exact I | lia | right; by left].
Defined.

(** Coroutine 192 sleeps until 1050 and waits for descriptor 5. *)
Definition loop2 : event_loop := put_fe (set_interest loop0 {[5 := 1]}) 5 (FdEvent 1 RW_CALLBACK 192).
Lemma loop2_ok : event_ok loop2.
Proof. apply update_ok; [exact loop0_ok | cbn; lia | intros x Hx; by rewrite lookup_singleton_ne | by split_and!]. Qed.

Lemma event_wakes_witness :
  ∃ gs, sched_inv demo4 (View [] [256] gs []) ∧ event_cycle loop2 [5] = Ok [(RW_CALLBACK, 192)] ∧
  ∃ s' gs' woken, run_callbacks demo4 [(RW_CALLBACK, 192)] = Ok s' ∧ current s' = current demo4 ∧
    sched_inv s' (View [] (at_front [(RW_CALLBACK, 192)] ++ [256] ++ at_tail [(RW_CALLBACK, 192)]) gs' []) ∧
    pairs gs ≡ₚ woken ++ pairs gs' ∧ woken.*1 = [(RW_CALLBACK, 192)].*2 ∧ length woken = length [5].
Proof.
  destruct demo4_ok as (gs & Hi & Hp). exists gs. split; [exact Hi|]. split; [vm_compute; reflexivity|].
  apply (event_wakes demo4 [] [256] gs [] loop2 [5] [(RW_CALLBACK, 192)] Hi loop2_ok);
    [by repeat constructor | vm_compute; reflexivity | apply NoDup_singleton | | by repeat constructor].
  intros c ->%list_elem_of_singleton. rewrite <-pairs_waiters, Hp. by left.
Defined.
