(* ===== verification/HookedNet.v ===== *)
(** The network the HTTP layer really uses: [recv] and [send] of [src/syscall_hook.c].

    [Kernel] is what lies below the wrapped calls: the real [recv] and [send], the data the
    last [recv] has put into the caller's buffer, what the client has still to send, and what
    happens while a coroutine sleeps.  The wrapped calls over a kernel are an instance of
    [Network], so that the theorems on the request handler hold for them. *)

From stdpp Require Import base gmap list numbers strings sets.
From Stdlib Require Import ZArith Lia.
From S2P Require Import Prelude CStr RequestTypes ParseLine ParseLineRun ParseLineSafety.
From S2P Require Import ParseLineFacts ParseHeader ParseHeaderFacts ParseHeaderProps HashTable.
From S2P Require Import HashTableSpec Memcache Net Response ResponseProps Request RequestFacts.
From S2P Require Import FirstHeader HostHeader RequestInit RequestInitFacts RequestProps.
From S2P Require Import Event SyscallHook.

Class Kernel (K : Type) : Type := {
  real_recv : Z → Z → K → outcome * K;
  real_send : Z → list Z → K → outcome * K;
  delivered : K → list Z;
  client : K → list Z;
  k_errno : K → Z;
  sleeps : Z → K → event_loop → K * event_loop * bool;
  patience : K → nat;
}.

(** POSIX: a [recv] delivers as many bytes as it says, not more than asked for, and in the
    order sent.  Others do not read from the connection, and a call is not interrupted or
    woken in vain for ever. *)
Class KernelLaws (K : Type) `{Kernel K} : Prop := {
  recv_result : ∀ fd n k r k', 0 ≤ n → real_recv fd n k = (Result r, k') → 0 ≤ r ≤ n ∧ Z.of_nat (length (delivered k')) = r;
  recv_stream : ∀ fd n k o k', 0 ≤ n → real_recv fd n k = (o, k') →
    client k = (match o with Result _ => delivered k' | _ => [] end) ++ client k';
  sleep_stream : ∀ ms k ev, client (sleeps ms k ev).1.1 = client k;
  recv_ends : ∀ fd n k, done_within (real_recv fd n) sleeps RECV_TIMEOUT (patience k) k;
  send_ends : ∀ fd l k, done_within (real_send fd l) sleeps SEND_TIMEOUT (patience k) k;
}.

(** The kernel and the event table, as the coroutine [coro] sees them. *)
Record hooked (epoll_ctl : epoll_op → Z → Z → gmap Z Z → option (gmap Z Z)) (coro : Z) (K : Type) : Type :=
  Hooked { h_kernel : K; h_table : event_loop }.
Arguments Hooked {epoll_ctl coro K} _ _.
Arguments h_kernel {epoll_ctl coro K} _.
Arguments h_table {epoll_ctl coro K} _.

Section Hooked.
  Context {epoll_ctl : epoll_op → Z → Z → gmap Z Z → option (gmap Z Z)} {coro : Z} {K : Type} `{KernelLaws K}.
  #[local] Set Default Proof Using "Type".
  Notation net := (hooked epoll_ctl coro K).

(** [errno] is ETIME after a timeout.  That the calls do return is [hooked_recv_ok]. *)
Definition hooked_recv (fd n : Z) (w : net) : received * net :=
  match recv epoll_ctl (real_recv fd n) sleeps (patience (h_kernel w)) (h_kernel w) (h_table w) fd coro with
  | Ok (r, k, ev) => (if r <? 0 then RecvError (if r =? -3 then ETIME else k_errno k) else Received (delivered k), Hooked k ev)
  | Ub | Fuel => (RecvError 0, w)
  end.

Definition hooked_send (fd : Z) (l : list Z) (w : net) : net :=
  match send epoll_ctl (real_send fd l) sleeps (patience (h_kernel w)) (h_kernel w) (h_table w) fd coro with
  | Ok (_, k, ev) => Hooked k ev
  | Ub | Fuel => w
  end.

#[export] Instance hooked_network : Network net := {| net_recv := hooked_recv; net_send := hooked_send |}.

(** ** The laws *)

Lemma call_result_real (real : K → outcome * K) r k' : call_result real r k' → 0 ≤ r → ∃ k, real k = (Result r, k').
Proof. intros [?|[?|[?|?]]] Hr; [lia | lia | lia | done]. Qed.

#[export] Instance hooked_laws : NetworkLaws net.
Proof using Type*.
  split. intros fd n w l w' Hn. cbn. unfold hooked_recv. destruct (recv _ _ _ _ _ _ _ _) as [[[r k] ev]| |] eqn:E; try done.
  destruct (r <? 0) eqn:Er; [done|]. intros [= <- <-]. apply hook_loop_real in E.
  destruct (call_result_real _ _ _ E) as (k1 & E1); [blia|]. destruct (recv_result fd n k1 r k Hn E1). lia.
Qed.

(** The stream of the client through the loop of a call. *)
Lemma hook_stream what proc ms fd n fuel : 0 ≤ n → ∀ k ev r k' ev',
  hook_loop epoll_ctl (real_recv fd n) sleeps fuel what proc ms k ev fd coro = Ok (r, k', ev') →
  client k = (if r <? 0 then [] else delivered k') ++ client k'.
Proof using Type*.
  intros Hn. induction fuel as [|fuel IH]; intros k ev r k' ev'; cbn [hook_loop]; destruct (real_recv fd n k) as [o k1] eqn:E;
    pose proof (recv_stream fd n k o k1 Hn E) as Hs; destruct o as [z| | |]; cbn [app] in Hs; cres_simpl; try done.
  all: try (intros [= <- <- _]; first [done | destruct (recv_result fd n k z k1 Hn E); by rewrite (proj2 (Z.ltb_ge _ _)) by lia]).
  all: try (rewrite Hs; apply IH).
  all: destruct (add_fd_event _ _ _ _ _ _) as [[z e1]| |]; cres_simpl; try done; destruct (negb (z =? 0)); [by intros [= <- <- _]|];
    pose proof (sleep_stream ms k1 e1) as Hsl; destruct (sleeps ms k1 e1) as [[k2 ev2] b]; cbn [fst] in Hsl;
    destruct (del_fd_event _ _ _ _) as [e3| |]; cres_simpl; try done; destruct b; try done.
  all: try (rewrite Hs, <-Hsl; apply IH). all: intros [= <- <- _]; cbn; congruence.
Qed.

#[export] Program Instance hooked_streamed : Streamed net := {| to_come w := client (h_kernel w) |}.
Next Obligation.
  intros fd n w r w' Hn. cbn. unfold hooked_recv. destruct (recv _ _ _ _ _ _ _ _) as [[[z k] ev]| |] eqn:E; try by intros [= <- <-].
  apply (hook_stream _ _ _ _ _ _ Hn) in E. destruct (z <? 0); by intros [= <- <-].
Qed.

(** ** The event table *)

Context {HE : Epoll epoll_ctl}.

(** The descriptor has an entry and nobody waits for it. *)
Definition quiet (fd : Z) (ev : event_loop) : Prop := event_ok ev ∧ 0 ≤ fd ∧ mask <$> array ev !! Z.to_nat fd = Some 0.

Lemma quiet_restored fd ev ev' : quiet fd ev → restored fd ev ev' → quiet fd ev'.
Proof. intros (_ & Hfd & Hm) (Hok & _ & _ & Hm'). split_and!; [done | done | congruence]. Qed.

Lemma hooked_call_ok (real : K → outcome * K) what ms fd k ev :
  others_keep sleeps fd → event_bit what → quiet fd ev → done_within real sleeps ms (patience k) k →
  ∃ r k' ev', hook_loop epoll_ctl real sleeps (patience k) what RW_CALLBACK ms k ev fd coro = Ok (r, k', ev') ∧ restored fd ev ev'.
Proof using HE.
  intros Hk Hw (Hok & Hfd & Hm) Hend. destruct (array ev !! Z.to_nat fd) as [fe|] eqn:Hfe; [|done]. injection Hm as Hm.
  destruct (hook_loop_ok epoll_ctl real sleeps what RW_CALLBACK ms fd coro Hk Hfd Hw ltac:(done) (patience k) k ev fe (patience k) Hok Hfe)
    as (r & k' & ev' & E & Hres & _); [by rewrite Hm | done | done|]. by exists r, k', ev'.
Qed.

Lemma hooked_recv_ok fd n (w : net) :
  others_keep sleeps fd → quiet fd (h_table w) → restored fd (h_table w) (h_table (net_recv fd n w).2).
Proof using Type*.
  intros Hk Hq. cbn. unfold hooked_recv, recv.
  destruct (hooked_call_ok (real_recv fd n) EVENT_READABLE RECV_TIMEOUT fd (h_kernel w) (h_table w) Hk ltac:(by left) Hq (recv_ends fd n (h_kernel w)))
    as (r & k' & ev' & -> & Hres). done.
Qed.

(** [send] returns: the number of bytes the kernel took, or that it failed or timed out. *)
Lemma hooked_send_ok fd l (w : net) :
  others_keep sleeps fd → quiet fd (h_table w) →
  ∃ n k' ev', send epoll_ctl (real_send fd l) sleeps (patience (h_kernel w)) (h_kernel w) (h_table w) fd coro = Ok (n, k', ev') ∧
    net_send fd l w = Hooked k' ev' ∧ call_result (real_send fd l) n k' ∧ restored fd (h_table w) ev'.
Proof using Type*.
  intros Hk Hq. destruct (hooked_call_ok (real_send fd l) EVENT_WRITABLE SEND_TIMEOUT fd (h_kernel w) (h_table w) Hk ltac:(by right) Hq (send_ends fd l (h_kernel w)))
    as (n & k' & ev' & E & Hres). exists n, k', ev'. split; [exact E|]. split; [cbn; unfold hooked_send, send; by rewrite E|].
  split; [|done]. by eapply hook_loop_real.
Qed.

Lemma receives_restored fd (w w' : net) :
  others_keep sleeps fd → receives fd w w' → quiet fd (h_table w) → restored fd (h_table w) (h_table w').
Proof using Type*.
  intros Hk Hr. induction Hr as [w|w w1 w' [n <-] _ IH]; intros Hq; [apply restored_refl, Hq|].
  pose proof (hooked_recv_ok fd n w Hk Hq) as H1. eapply restored_trans; [exact H1|]. apply IH. by eapply quiet_restored.
Qed.

End Hooked.

(** C3: a request is served over the wrapped calls.  Whatever pieces the client's bytes come
    in, however often the real calls are interrupted or find nothing, and whatever other
    coroutines do to other descriptors meanwhile, the handler returns: after nothing but
    receiving, it has passed one complete response with status 200, 400 or 507 to one call of
    [send], and no registration of the connection is left in the event table or in the kernel.
    What became of the response is the result [n] of [send], the number of bytes the kernel
    took, -1 for a failure or -2 or -3 for a registration or a wait that failed, which the code does
    not look at.  Conditions on the client as for one connection: no ten digits in a row, and a
    first header that starts well unless the object has a valid [lowcase_index]. *)
Theorem served_over_hooks epoll_ctl coro {HE : Epoll epoll_ctl} {K} `{KernelLaws K} cfg m p fd size r (w : hooked epoll_ctl coro K) :
  default_config cfg → address_ok size p → 1024 ≤ size < 2 ^ 31 → mapped m (p + SIZEOF_HTTP_REQUEST) (p + size) →
  array_ok r → index_or_plain r (to_come w) → no_ten_digits (to_come w) = true →
  others_keep sleeps fd → quiet fd (h_table w) →
  ∃ m' r' w1 code l n k' ev',
    __http_request_handler cfg m (init_request p fd size r) w = Ok (m', r', Hooked k' ev') ∧ default_code code ∧ wire code = Some l ∧
    receives fd w w1 ∧
    send epoll_ctl (real_send fd l) sleeps (patience (h_kernel w1)) (h_kernel w1) (h_table w1) fd coro = Ok (n, k', ev') ∧
    call_result (real_send fd l) n k' ∧ restored fd (h_table w) ev'.
Proof.
  intros Hd Hp Hs Hm Hl Hi Hn Hk Hq. destruct (init_request_ready m p fd size r w Hp Hs Hm Hl Hi Hn) as (Hr & Hx & Hroom & Hsh).
  destruct (request_served cfg m _ w Hd Hr Hl Hx Hroom Hsh) as (m' & r' & w' & code & E & Hc & (w1 & l & Hwire & Hrec & ->) & _).
  change (RequestTypes.fd (init_request p fd size r)) with fd in *. pose proof (receives_restored _ _ _ Hk Hrec Hq) as H1.
  destruct (hooked_send_ok fd l w1 Hk ltac:(by eapply quiet_restored)) as (n & k' & ev' & Es & En & Hcall & Hres). rewrite En in E.
  exists m', r', w1, code, l, n, k', ev'. split_and!; try done. by eapply restored_trans.
Qed.

(** ** A kernel that is a script *)

(** What the next attempts to receive find: data, an interruption, or nothing yet, in which
    case the coroutine sleeps until it is woken or its time is over. *)
Inductive arrival : Type := Data (l : list Z) | Intr | Again (by_timeout : bool).

Record arrivals : Type := Arrivals { coming : list arrival; got : list Z; out : list (Z * list Z) }.

Definition data_of (a : arrival) : list Z := match a with Data l => l | _ => [] end.

#[export] Instance arrivals_kernel : Kernel arrivals := {|
  real_recv fd n k :=
    match coming k with
    | [] => (Failed, k)
    | Intr :: rest => (Interrupted, Arrivals rest (got k) (out k))
    | Again _ :: _ => (Not_ready, k)
    | Data l :: rest =>
      if Z.of_nat (length l) <=? n then (Result (Z.of_nat (length l)), Arrivals rest l (out k))
      else (Result n, Arrivals (Data (drop (Z.to_nat n) l) :: rest) (take (Z.to_nat n) l) (out k))
    end;
  real_send fd l k := (Result (Z.of_nat (length l)), Arrivals (coming k) (got k) (out k ++ [(fd, l)]));
  delivered := got;
  client k := concat (data_of <$> coming k);
  k_errno k := 0;
  sleeps ms k ev :=
    match coming k with
    | Again b :: rest => (Arrivals rest (got k) (out k), ev, b)
    | _ => (k, ev, true)
    end;
  patience k := length (coming k);
|}.

#[export] Instance arrivals_laws : KernelLaws arrivals.
Proof.
  split.
  - intros fd n [[|[l| |b] rest] g o] r k' Hn; cbn; try done. destruct (Z.of_nat (length l) <=? n) eqn:E; intros [= <- <-]; cbn; [blia|].
    rewrite length_take. blia.
  - intros fd n [[|[l| |b] rest] g o] r k' Hn; cbn; try by intros [= <- <-]. destruct (Z.of_nat (length l) <=? n) eqn:E; intros [= <- <-]; cbn; [done|].
    by rewrite app_assoc, take_drop.
  - intros ms [[|[l| |b] rest] g o] ev; done.
  - intros fd n [c g o]. cbn [patience arrivals_kernel coming]. revert g o. induction c as [|[l| |b] rest IH]; intros g o; cbn; try done.
    + by destruct (_ <=? _).
    + intros ev. destruct b; [by left | right; apply IH].
  - intros fd l k. cbn. by destruct (length (coming k)).
Qed.

(** The POST of [sample_client], with an interruption and two waits. *)
Definition slow_client : hooked small_epoll 192 arrivals :=
  Hooked (Arrivals [Intr; Again false; Data (str "POST /a HT"); Data (str "TP/1.1" ++ CRLF ++ str "Host: Ex.org" ++ CRLF ++ str "Content-Le");
                    Again false; Data (str "ngth: 3" ++ CRLF ++ CRLF ++ str "abc")] [] []) loop0.

Lemma served_over_hooks_witness :
  ∃ m' r' w1 code l n k' ev',
    __http_request_handler (started_config (hooked small_epoll 192 arrivals)) sample_memory (init_request 4096 0 1024 stale_request) slow_client = Ok (m', r', Hooked k' ev') ∧
    default_code code ∧ wire code = Some l ∧ receives 0 slow_client w1 ∧
    send small_epoll (real_send 0 l) sleeps (patience (h_kernel w1)) (h_kernel w1) (h_table w1) 0 192 = Ok (n, k', ev') ∧
    call_result (real_send 0 l) n k' ∧ restored 0 (h_table slow_client) ev'.
Proof.
  apply (served_over_hooks small_epoll 192 (started_config (hooked small_epoll 192 arrivals)) sample_memory 4096 0 1024 stale_request slow_client).
  - apply (started_default (hooked small_epoll 192 arrivals)).
  - split; reflexivity.
  - split; [discriminate | reflexivity].
  - intros x Hx. apply sample_block. vm_compute in Hx |- *. exact Hx.
  - reflexivity.
  - right. vm_compute. reflexivity.
  - vm_compute. reflexivity.
  - intros ms [[|[l| |b] rest] g o] ev Hev; by split_and!.
  - split; [exact loop0_ok|]. split; [discriminate | reflexivity].
Defined.

(** What the slow client gets. *)
Example slow_client_served :
  match __http_request_handler (started_config (hooked small_epoll 192 arrivals)) sample_memory blank_request slow_client with
  | Ok (_, _, w) => (λ x, take 3 (drop 9 x.2)) <$> last (out (h_kernel w)) = Some (str "200")
  | _ => False
  end.
Proof. vm_compute. reflexivity. Qed.
