(* ===== verification/EventCycle.v ===== *)
(** The worker's cycle as a whole: the scheduler of [src/coro/sched.c], the event table of
    [src/event.c] and the wrapped calls of [src/syscall_hook.c] together.

    The state of the scheduler's machine is extended by the event table and by what each
    suspended coroutine will do when it continues: [waits] gives, for a coroutine inside a
    wrapped call, the descriptor and the event it has registered and will unregister first.
    The descriptors that one [epoll_wait] reports are arbitrary: any distinct ones of those
    the kernel watches, in any order. *)

From stdpp Require Import base gmap list numbers strings sets.
From Stdlib Require Import ZArith Lia.
From S2P Require Import Prelude Event SyscallHook SyscallHookProps.
From S2P Require Import ListHead Memcache RbTree RbRep RbInsert RbErase RbEraseColor RbProps.
From S2P Require Import Sched SchedSearch SchedInv SchedLists SchedOps SchedSteps SchedProps SchedDemo.

Record cycle : Type := Cycle { mach : machine; table : event_loop; waits : gmap Z (Z * Z) }.

(** A step of the scheduler that switches to a coroutine; a state in the event loop. *)
Definition enters (m m' : machine) : bool :=
  match m_mode m, m_mode m' with
  | In_main _, In_coro _ => true
  | _, _ => false
  end.
Definition polls (m : machine) : bool := match m_mode m with In_main Wait_events => true | _ => false end.

Definition hook_callback (proc : Z) : Prop := proc = RW_CALLBACK ∨ proc = CONN_CALLBACK.

(** Nobody waits for the descriptor: each one is used by one coroutine at a time. *)
Definition unused (ev : event_loop) (fd : Z) : Prop := ∀ fe, array ev !! Z.to_nat fd = Some fe → mask fe = 0.

(** What one [epoll_wait] may report. *)
Definition reported (ev : event_loop) (ready : list Z) : Prop := NoDup ready ∧ Forall (λ fd, is_Some (interest ev !! fd)) ready.

Section Cycle.
  Context (malloc : gset Z → Z) (junk : list_head * rb_node * coroutine) (stack_alloc : Z → option (Z * Z)).
  Context (epoll_ctl : epoll_op → Z → Z → gmap Z Z → option (gmap Z Z)).

Inductive cycle_step : cycle → cycle → Prop :=
| cs_tick md s now last now' ev w :
    now ≤ now' < last + HORIZON → now' < 2 ^ 62 → cycle_step (Cycle (Machine md s now last) ev w) (Cycle (Machine md s now' last) ev w)
| cs_sched m m' ev w :
    sched_step malloc junk stack_alloc m m' → enters m m' = false → polls m = false → cycle_step (Cycle m ev w) (Cycle m' ev w)
| cs_resume p s now last c s' ev w :
    running_phase p → get_active_coroutine s = Ok (c, s') → c ≠ NULL → w !! c = None →
    cycle_step (Cycle (Machine (In_main p) s now last) ev w) (Cycle (Machine (In_coro p) (coroutine_switch s' c) now last) ev w)
| cs_resume_call p s now last c s' ev w fd what ev' :
    running_phase p → get_active_coroutine s = Ok (c, s') → c ≠ NULL → w !! c = Some (fd, what) → del_fd_event epoll_ctl ev fd what = Ok ev' →
    cycle_step (Cycle (Machine (In_main p) s now last) ev w) (Cycle (Machine (In_coro p) (coroutine_switch s' c) now last) ev' (delete c w))
| cs_wait p s now last fd what proc ms ev ev' w s' :
    0 ≤ fd → event_bit what → hook_callback proc → 0 ≤ ms ≤ HORIZON → unused ev fd →
    add_fd_event epoll_ctl ev fd what proc (current s) = Ok (0, ev') → schedule_timeout malloc s now ms = Ok s' →
    cycle_step (Cycle (Machine (In_coro p) s now last) ev w) (Cycle (Machine (In_main p) s' now last) ev' (<[current s := (fd, what)]> w))
| cs_refused p s now last fd what proc r ev ev' w :
    0 ≤ fd → event_bit what → hook_callback proc → add_fd_event epoll_ctl ev fd what proc (current s) = Ok (r, ev') → r ≠ 0 →
    cycle_step (Cycle (Machine (In_coro p) s now last) ev w) (Cycle (Machine (In_coro p) s now last) ev' w)
| cs_events s now last ev w ready calls s' :
    reported ev ready → event_cycle ev ready = Ok calls → run_callbacks s calls = Ok s' →
    cycle_step (Cycle (Machine (In_main Wait_events) s now last) ev w) (Cycle (Machine (In_main Run_again) s' now last) ev w).

(** The table and the waiting coroutines agree. *)
Record calls_ok (ev : event_loop) (w : gmap Z (Z * Z)) : Prop := CallsOk {
  co_table : event_ok ev;
  co_waits : ∀ c fd what, w !! c = Some (fd, what) →
    0 ≤ fd ∧ event_bit what ∧ ∃ proc, hook_callback proc ∧ array ev !! Z.to_nat fd = Some (FdEvent what proc c);
  co_owner : ∀ fd fe, 0 ≤ fd → array ev !! Z.to_nat fd = Some fe → mask fe ≠ 0 → w !! cb_args fe = Some (fd, mask fe);
}.

(** Where a waiting coroutine is. *)
Definition placed (w : gmap Z (Z * Z)) (v : view) : Prop := ∀ c, is_Some (w !! c) → c ∈ off_idle v.

Definition mode_ok (m : machine) (w : gmap Z (Z * Z)) (v : view) : Prop :=
  match m_mode m with
  | In_main Wait_events => v_active v = []
  | In_main _ => True
  | In_coro _ => w !! current (m_sched m) = None
  end.

Record cycle_inv (x : cycle) (v : view) : Prop := CycleInv {
  cy_machine : machine_inv (mach x) v;
  cy_calls : calls_ok (table x) (waits x);
  cy_placed : placed (waits x) v;
  cy_mode : mode_ok (mach x) (waits x) v;
}.

(** ** The table *)

Context {HE : Epoll epoll_ctl}.

Lemma bit_nonzero what : event_bit what → what ≠ 0.
Proof. by intros [->| ->]. Qed.

(** Registering for a descriptor that nobody uses. *)
Lemma add_calls ev w fd what proc c ev' r :
  calls_ok ev w → 0 ≤ fd → event_bit what → hook_callback proc → add_fd_event epoll_ctl ev fd what proc c = Ok (r, ev') →
  (r ≠ 0 → ev' = ev) ∧ (r = 0 → unused ev fd → w !! c = None → calls_ok ev' (<[c := (fd, what)]> w)).
Proof using HE.
  intros Hc Hfd Hw Hp E. assert (Hpn : proc ≠ NULL) by (by destruct Hp as [->| ->]). destruct (decide (fd < max_conn ev)) as [Hlt|Hge].
  2: { unfold add_fd_event in E. rewrite (proj2 (Z.leb_le _ _)) in E by lia. injection E as <- <-. by split. }
  destruct (add_fd_ok epoll_ctl ev fd what proc c (co_table _ _ Hc) ltac:(lia) Hw Hpn) as (fe & Hl & [[H0 E2]|(ev2 & E2 & Hok & Hmax & Hev)]);
    rewrite E in E2; injection E2 as -> ->; split; try done.
  intros _ Hun Hnone. pose proof (Hun fe Hl) as Hm. rewrite Hm, Z.lor_0_l in Hev. assert (Hlen : (Z.to_nat fd < length (array ev))%nat) by (by eapply lookup_lt_Some).
  split; [done | |].
  - intros d fd2 what2 Hd. destruct (decide (d = c)) as [->|Hne].
    + rewrite lookup_insert_eq in Hd. injection Hd as <- <-. split_and!; [done | done|]. exists proc. split; [done|]. rewrite Hev. by apply list_lookup_insert_eq.
    + rewrite lookup_insert_ne in Hd by done. destruct (co_waits _ _ Hc d fd2 what2 Hd) as (H1 & H2 & proc2 & H3 & H4). split_and!; [done | done|]. exists proc2. split; [done|].
      rewrite Hev. cbn. rewrite list_lookup_insert_ne; [done|]. intros Heq. rewrite <-Heq in H4. specialize (Hun _ H4). cbn in Hun. by apply (bit_nonzero what2).
  - intros fd2 fe2 Hfd2 Hl2 Hm2. rewrite Hev in Hl2. cbn in Hl2. destruct (decide (fd2 = fd)) as [->|Hne].
    + rewrite list_lookup_insert_eq in Hl2 by done. injection Hl2 as <-. cbn. by rewrite lookup_insert_eq.
    + rewrite list_lookup_insert_ne in Hl2 by lia. pose proof (co_owner _ _ Hc fd2 fe2 Hfd2 Hl2 Hm2) as Ho. rewrite lookup_insert_ne; [done|]. intros ->. congruence.
Qed.

(** Unregistering what one has registered. *)
Lemma del_calls ev w c fd what :
  calls_ok ev w → w !! c = Some (fd, what) → ∃ ev', del_fd_event epoll_ctl ev fd what = Ok ev' ∧ calls_ok ev' (delete c w).
Proof using HE.
  intros Hc Hwc. destruct (co_waits _ _ Hc c fd what Hwc) as (Hfd & Hw & proc & Hp & Hl). pose proof (co_table _ _ Hc) as Hev.
  assert (Hlen : (Z.to_nat fd < length (array ev))%nat) by (by eapply lookup_lt_Some).
  destruct (del_ok epoll_ctl ev fd what Hev ltac:(pose proof (ev_size _ Hev); lia) Hw) as (fe & ev' & Hl' & E & Hok & Hmax & Hev'). rewrite Hl in Hl'. injection Hl' as <-.
  cbn [mask callback cb_args] in Hev'. rewrite (proj2 (Z.eqb_neq _ _)) in Hev' by (by apply bit_nonzero). rewrite Z.land_lnot_diag in Hev'. cbn [Z.eqb] in Hev'.
  exists ev'. split; [done|]. split; [done | |].
  - intros d fd2 what2 Hd. apply lookup_delete_Some in Hd as [Hne Hd]. destruct (co_waits _ _ Hc d fd2 what2 Hd) as (H1 & H2 & proc2 & H3 & H4).
    split_and!; [done | done|]. exists proc2. split; [done|]. rewrite Hev'. cbn. rewrite list_lookup_insert_ne; [done|]. intros Heq. rewrite <-Heq, Hl in H4. congruence.
  - intros fd2 fe2 Hfd2 Hl2 Hm2. rewrite Hev' in Hl2. cbn in Hl2. destruct (decide (fd2 = fd)) as [->|Hne].
    + rewrite list_lookup_insert_eq in Hl2 by done. injection Hl2 as <-. done.
    + rewrite list_lookup_insert_ne in Hl2 by lia. pose proof (co_owner _ _ Hc fd2 fe2 Hfd2 Hl2 Hm2) as Ho. rewrite lookup_delete_ne; [done|]. intros ->. congruence.
Qed.

(** What an event cycle calls: one callback for each descriptor, with distinct coroutines,
    all of them waiting. *)
Lemma cycle_calls ev w ready : calls_ok ev w → reported ev ready →
  ∃ calls, event_cycle ev ready = Ok calls ∧ Forall (λ c, hook_callback c.1) calls ∧ NoDup calls.*2 ∧
    Forall2 (λ fd c, ∃ what, w !! c = Some (fd, what)) ready calls.*2.
Proof using Type.
  intros Hc [Hn Hr]. induction ready as [|fd ready IH]; cbn [event_cycle]; [exists []; split_and!; try done; constructor|].
  apply NoDup_cons in Hn as [Hni Hn]. apply Forall_cons in Hr as [Hfd Hr]. destruct (IH Hn Hr) as (calls & -> & Hp & Hnd & Hw).
  pose proof (ev_known _ (co_table _ _ Hc) fd Hfd) as Hrange. destruct (get_fe_ok ev fd (co_table _ _ Hc) Hrange) as (fe & -> & Hl & Hm & Hcb & Hint). cres_simpl.
  destruct (mask fe =? 0) eqn:E0; [rewrite Hint in Hfd; by destruct Hfd|]. apply Z.eqb_neq in E0.
  pose proof (co_owner _ _ Hc fd fe ltac:(lia) Hl E0) as Ho. destruct (co_waits _ _ Hc _ _ _ Ho) as (_ & _ & proc & Hpr & Hl2). rewrite Hl in Hl2. injection Hl2 as Hfe.
  assert (Hcbk : callback fe = proc) by (rewrite Hfe; done). rewrite (proj2 (Z.eqb_neq _ _)) by (rewrite Hcbk; by destruct Hpr as [->| ->]).
  eexists. split; [done|]. cbn [fmap list_fmap snd]. split_and!.
  - constructor; [|done]. cbn. by rewrite Hcbk.
  - constructor; [|done]. intros Hin. apply list_elem_of_lookup in Hin as [k Hk]. destruct (Forall2_lookup_r _ _ _ _ _ Hw Hk) as (fd' & Hfd' & what & Hwc).
    apply Hni. rewrite Ho in Hwc. injection Hwc as -> _. by eapply list_elem_of_lookup_2.
  - constructor; [by exists (mask fe) | done].
Qed.

(** ** Callbacks on sleeping coroutines *)

Lemma callback_asleep s idle active gs run proc c :
  sched_inv s (View idle active gs run) → c ∈ waiters gs ++ run → hook_callback proc →
  ∃ s' active' gs' run', call s proc c = Ok s' ∧ current s' = current s ∧ sched_inv s' (View idle active' gs' run') ∧
    active' ≡ₚ c :: active ∧ waiters gs ++ run ≡ₚ c :: waiters gs' ++ run' ∧ (∀ p, p ∈ pairs gs' → p ∈ pairs gs).
Proof using Type.
  intros Hi Hc Hp. apply elem_of_app in Hc as [Hc|Hc].
  - destruct (callback_ok s idle active gs run proc c Hi Hc Hp) as (s' & gs' & t & E & Hpm & Hcur & Hi'). eexists s', _, gs', run. split_and!; [done | done | exact Hi' | | |].
    + case_decide; solve_Permutation.
    + rewrite <-!pairs_waiters, Hpm. done.
    + intros p Hin. rewrite Hpm. by right.
  - apply list_elem_of_split in Hc as (r1 & r2 & ->). apply (inv_perm_run _ _ _ _ _ (c :: r1 ++ r2)) in Hi; [|solve_Permutation].
    destruct (si_coros _ _ Hi c) as (_ & x & Hx & _); [unfold everyone; cbn; rewrite !elem_of_app; right; right; right; by left|].
    destruct (wakeup_absent_ok s idle active gs (r1 ++ r2) c x Hi Hx) as ((s1 & E1 & I1 & _ & C1) & (s2 & E2 & I2 & _ & C2)).
    destruct Hp as [->| ->]; unfold call, event_rw_callback, event_conn_callback; cbn [Z.eqb Pos.eqb RW_CALLBACK CONN_CALLBACK].
    + eexists s1, _, gs, _. split_and!; [done | done | exact I1 | solve_Permutation | solve_Permutation | done].
    + eexists s2, _, gs, _. split_and!; [done | done | exact I2 | done | solve_Permutation | done].
Qed.

Lemma callbacks_asleep calls : ∀ s idle active gs run,
  sched_inv s (View idle active gs run) → NoDup calls.*2 → (∀ c, c ∈ calls.*2 → c ∈ waiters gs ++ run) → Forall (λ c, hook_callback c.1) calls →
  ∃ s' active' gs' run', run_callbacks s calls = Ok s' ∧ sched_inv s' (View idle active' gs' run') ∧
    active' ++ waiters gs' ++ run' ≡ₚ active ++ waiters gs ++ run ∧ (∀ p, p ∈ pairs gs' → p ∈ pairs gs).
Proof using Type.
  induction calls as [|[proc c] calls IH]; intros s idle active gs run Hi Hn Hw Hp; cbn [run_callbacks]; [by exists s, active, gs, run|].
  apply Forall_cons in Hp as [Hp0 Hp]. cbn [fmap list_fmap snd] in Hn, Hw. apply NoDup_cons in Hn as [Hnc Hn].
  destruct (callback_asleep s idle active gs run proc c Hi ltac:(apply Hw; by left) Hp0) as (s1 & a1 & gs1 & r1 & -> & _ & Hi1 & Ha & Hs & Hsub). cres_simpl.
  destruct (IH s1 idle a1 gs1 r1 Hi1 Hn) as (s' & a' & gs' & r' & E & Hi' & Hpm & Hsub'); [|done|].
  - intros d Hd. assert (Hdg : d ∈ waiters gs ++ run) by (apply Hw; by right). rewrite Hs in Hdg. apply elem_of_cons in Hdg as [->|?]; done.
  - exists s', a', gs', r'. split_and!; [done | done | | auto]. rewrite Hpm, Ha, Hs. cbn. by rewrite Permutation_middle.
Qed.

(** An event cycle when nobody is runnable. *)
Lemma events_ok s idle gs run ev w ready :
  sched_inv s (View idle [] gs run) → calls_ok ev w → placed w (View idle [] gs run) → reported ev ready →
  ∃ calls s' active' gs' run', event_cycle ev ready = Ok calls ∧ run_callbacks s calls = Ok s' ∧ sched_inv s' (View idle active' gs' run') ∧
    active' ++ waiters gs' ++ run' ≡ₚ waiters gs ++ run ∧ (∀ p, p ∈ pairs gs' → p ∈ pairs gs).
Proof using Type.
  intros Hi Hc Hpl Hr. destruct (cycle_calls ev w ready Hc Hr) as (calls & E & Hp & Hn & Hw).
  destruct (callbacks_asleep calls s idle [] gs run Hi Hn) as (s' & a' & gs' & r' & E' & Hi' & Hpm & Hsub); [|done|].
  - intros c (k & Hk)%list_elem_of_lookup. destruct (Forall2_lookup_r _ _ _ _ _ Hw Hk) as (fd & _ & what & Hwc). apply (Hpl c). by eexists.
  - by exists calls, s', a', gs', r'.
Qed.

(** ** Every step preserves the invariant *)

Context (Hfresh : fresh_malloc malloc) (Hal : aligned_malloc malloc).

(** A step of the scheduler alone, or one that resumes a coroutine. *)
Lemma sched_cycle m m' ev w ev' w' v :
  cycle_inv (Cycle m ev w) v → sched_step malloc junk stack_alloc m m' → polls m = false →
  calls_ok ev' w' → (∀ c, is_Some (w' !! c) → is_Some (w !! c)) →
  (enters m m' = true → w' !! current (m_sched m') = None) → (enters m m' = false → w' = w) →
  ∃ v', cycle_inv (Cycle m' ev' w') v'.
Proof using Hfresh Hal.
  intros [Hm Hc Hpl Hmode] Hs Hpoll Hc' Hsub Hent Hno. cbn [mach table waits] in *.
  destruct (machine_step_keeps malloc junk stack_alloc Hfresh Hal m m' v Hm Hs) as (v' & Hm' & [Hstay Hempty Hcur]). exists v'.
  assert (Hnw : m_mode m ≠ In_main Wait_events) by (intros E; unfold polls in Hpoll; by rewrite E in Hpoll).
  split; cbn [mach table waits]; [done | done | |].
  - intros c Hcw. apply Hstay; [by apply Hpl, Hsub|]. intros p Hp ->. unfold mode_ok, enters in *. rewrite Hp in *. rewrite (Hno eq_refl), Hmode in Hcw. by destruct Hcw.
  - unfold mode_ok, enters in *. destruct (m_mode m') as [[]|p'] eqn:E'; try done; [by apply Hempty|].
    destruct (m_mode m) as [q|q] eqn:E; [by apply Hent|]. rewrite (Hcur q p' eq_refl eq_refl), (Hno eq_refl). exact Hmode.
Qed.

Lemma cycle_step_inv x x' v : cycle_inv x v → cycle_step x x' → ∃ v', cycle_inv x' v'.
Proof using Hfresh Hal HE.
  intros Hx Hst. pose proof Hx as [Hm Hc Hpl Hmode].
  destruct Hst as [md s now last now' ev w Hn1 Hn2|m m' ev w Hs He Hp|p s now last c s' ev w Hp E Hcn Hw|p s now last c s' ev w fd what ev' Hp E Hcn Hw Ed
    |p s now last fd what proc ms ev ev' w s' Hfd Hwh Hcb Hms Hun Ea Es|p s now last fd what proc r ev ev' w Hfd Hwh Hcb Ea Hr|s now last ev w ready calls s' Hr Ec Er];
    cbn [mach table waits] in *.
  - destruct Hm as [Hi Hclk Ht Hmd]. cbn [m_mode m_sched m_now m_last] in *. exists v. split; cbn [mach table waits]; try done.
    split; cbn [m_mode m_sched m_now m_last]; try done; [lia|]. eapply Forall_impl; [exact Ht|]. cbn. lia.
  - apply (sched_cycle m m' ev w ev w v Hx Hs Hp); try done. by rewrite He.
  - apply (sched_cycle _ _ ev w ev w v Hx (step_run malloc junk stack_alloc p s now last c s' Hp E Hcn)); try done. by destruct Hp as [->| ->].
  - destruct (del_calls ev w c fd what Hc Hw) as (ev2 & E2 & Hc2). rewrite Ed in E2. injection E2 as <-.
    apply (sched_cycle _ _ ev w ev' (delete c w) v Hx (step_run malloc junk stack_alloc p s now last c s' Hp E Hcn)); try done.
    + by destruct Hp as [->| ->].
    + intros d [y [_ Hy]%lookup_delete_Some]. by exists y.
    + intros _. apply lookup_delete_eq.
  - destruct (add_calls ev w fd what proc (current s) ev' 0 Hc Hfd Hwh Hcb Ea) as [_ Hadd]. specialize (Hadd eq_refl Hun Hmode).
    destruct Hm as [Hi (Hl1 & Hl2 & Hl3) Ht (Hrp & run' & Hrun)]. destruct v as [idle active gs run]. cbn [m_mode m_sched m_now m_last v_run v_groups] in *. subst run.
    destruct (sleep_ok malloc Hfresh Hal s idle active gs run' now last ms Hi Hl1 Hl2 Hl3 Hms Ht) as (s1 & gs' & r' & E1 & Hi1 & Ht1 & Hpm). rewrite Es in E1. injection E1 as <-.
    exists (View idle active gs' r'). split; cbn [mach table waits]; [by split | done | |].
    + intros c Hcw. unfold off_idle. cbn. rewrite Hpm. destruct (decide (c = current s)) as [->|Hne]; [rewrite !elem_of_app; right; right; by left|].
      rewrite lookup_insert_ne in Hcw by done. exact (Hpl c Hcw).
    + unfold mode_ok. cbn. by destruct Hrp as [->| ->].
  - destruct (add_calls ev w fd what proc (current s) ev' r Hc Hfd Hwh Hcb Ea) as [Hsame _]. rewrite (Hsame Hr). by exists v.
  - unfold mode_ok in Hmode. cbn in Hmode. destruct Hm as [Hi Hclk Ht Hmd]. destruct v as [idle active gs run]. cbn [m_mode m_sched m_now m_last v_groups v_active] in *. subst active.
    destruct (events_ok s idle gs run ev w ready Hi Hc Hpl Hr) as (calls1 & s1 & a' & gs' & r' & E1 & E2 & Hi' & Hpm & Hsub). rewrite Ec in E1. injection E1 as <-. rewrite Er in E2. injection E2 as <-.
    exists (View idle a' gs' r'). split; cbn [mach table waits]; [split; cbn [m_mode m_sched m_now m_last v_groups]; try done | done | |done].
    + apply Forall_forall. intros p Hin. exact (proj1 (Forall_forall _ _) Ht p (Hsub p Hin)).
    + intros c Hcw. unfold off_idle. cbn. rewrite Hpm. exact (Hpl c Hcw).
Qed.

Lemma cycle_reach_inv x x' v : cycle_inv x v → rtc cycle_step x x' → ∃ v', cycle_inv x' v'.
Proof using Hfresh Hal HE.
  intros Hx Hr. revert v Hx. induction Hr as [|x x1 x' Hs _ IH]; intros v Hx; [by exists v|].
  destruct (cycle_step_inv _ _ _ Hx Hs) as [v1 Hx1]. by apply (IH v1).
Qed.

(** Whatever the worker does next is defined. *)
Definition cycle_proceeds (x : cycle) : Prop :=
  let s := m_sched (mach x) in
  match m_mode (mach x) with
  | In_main Check_timers => ∃ s', check_timeout_coroutine s (m_now (mach x)) = Ok s'
  | In_main Wait_events =>
    (∃ t, get_recent_timespan s (m_now (mach x)) = Ok t ∧ 0 ≤ t) ∧
    ∀ ready, reported (table x) ready → ∃ calls s', event_cycle (table x) ready = Ok calls ∧ run_callbacks s calls = Ok s' ∧ length calls = length ready
  | In_main _ =>
    ∃ c s', get_active_coroutine s = Ok (c, s') ∧
      ∀ fd what, waits x !! c = Some (fd, what) → ∃ ev', del_fd_event epoll_ctl (table x) fd what = Ok ev'
  | In_coro _ =>
    proceeds malloc junk stack_alloc (mach x) ∧
    ∀ fd what proc, 0 ≤ fd → event_bit what → hook_callback proc → ∃ r ev', add_fd_event epoll_ctl (table x) fd what proc (current s) = Ok (r, ev')
  end.

Lemma add_defined ev fd what proc c :
  event_ok ev → 0 ≤ fd → event_bit what → hook_callback proc → ∃ r ev', add_fd_event epoll_ctl ev fd what proc c = Ok (r, ev').
Proof using HE.
  intros Hev Hfd Hw Hp. destruct (decide (fd < max_conn ev)) as [Hlt|Hge].
  - destruct (add_fd_ok epoll_ctl ev fd what proc c Hev ltac:(lia) Hw) as (fe & _ & [[_ E]|(ev' & E & _)]); [by destruct Hp as [->| ->] | by eexists _, _ | by eexists _, _].
  - unfold add_fd_event. rewrite (proj2 (Z.leb_le _ _)) by lia. by eexists _, _.
Qed.

Lemma cycle_goes_on x v : cycle_inv x v → cycle_proceeds x.
Proof using Hfresh Hal HE.
  intros [Hm Hc Hpl Hmode]. pose proof (machine_proceeds malloc junk stack_alloc Hfresh Hal _ _ Hm) as Hp. destruct x as [m ev w]. cbn [mach table waits] in *.
  unfold cycle_proceeds, mode_ok in *. cbn [mach table waits]. assert (Hdel : ∀ c fd what, w !! c = Some (fd, what) → ∃ ev', del_fd_event epoll_ctl ev fd what = Ok ev').
  { intros c fd what Hw. destruct (del_calls ev w c fd what Hc Hw) as (ev' & E & _). by exists ev'. }
  unfold proceeds in Hp. destruct (m_mode m) as [[]|p] eqn:Emode; cbn in Hp.
  - exact Hp.
  - destruct Hp as (c & s' & E). exists c, s'. split; [done|]. apply Hdel.
  - split; [apply Hp|]. intros ready Hr. pose proof (mi_inv _ _ Hm) as Hi. destruct v as [idle active gs run]. cbn in Hmode. subst active.
    destruct (events_ok (m_sched m) idle gs run ev w ready Hi Hc Hpl Hr) as (calls & s' & _ & _ & _ & E1 & E2 & _).
    exists calls, s'. split_and!; [done | done|]. destruct (cycle_calls ev w ready Hc Hr) as (calls' & E3 & _ & _ & Hw). rewrite E1 in E3. injection E3 as <-.
    apply Forall2_length in Hw. by rewrite length_fmap in Hw.
  - destruct Hp as (c & s' & E). exists c, s'. split; [done|]. apply Hdel.
  - split; [unfold proceeds; by rewrite Emode|]. intros fd what proc Hfd Hw Hpr. by apply add_defined; [apply (co_table _ _ Hc) | | |].
Qed.

Lemma empty_table_ok ev : event_ok ev → interest ev = ∅ → calls_ok ev ∅.
Proof using Type.
  intros Hev Hint. split; [done | intros c fd what Hw; done|]. intros fd fe Hfd Hl Hm. destruct (ev_entry _ Hev fd fe Hfd Hl) as (_ & _ & H).
  rewrite Hint, (proj2 (Z.eqb_neq _ _) Hm) in H. done.
Qed.

Lemma cycle_start_inv l h kb max f a now m ev :
  memory_ok l h → 4 ≤ max < 2 ^ 31 → 0 ≤ now < 2 ^ 62 → started malloc junk stack_alloc l h kb max f a now m → event_ok ev → interest ev = ∅ →
  ∃ v, cycle_inv (Cycle m ev ∅) v.
Proof using Hfresh Hal.
  intros Hl Hmax Hnow Hst Hev Hint. destruct (started_inv malloc junk stack_alloc Hfresh Hal l h kb max f a now m Hl Hmax Hnow Hst) as [v Hm].
  exists v. split; cbn [mach table waits]; [done | by apply empty_table_ok | by intros c [y Hy] |]. destruct Hst as (s0 & r & s & _ & _ & ->). done.
Qed.

End Cycle.

(** C5: the worker never goes wrong, whatever the kernel reports.  From its start, with
    coroutines that each wait for descriptors nobody else waits for: in every state the cycle
    can reach the scheduler's structures and the event table are well formed; every
    descriptor that the kernel watches was registered by exactly one coroutine, which is
    still suspended or just made runnable in a wrapped call and finds its entry unchanged;
    and whatever comes next is defined.  In particular [event_cycle] only wakes coroutines
    that sleep, for every list of ready descriptors, and a resumed call unregisters itself. *)
Theorem cycle_safe malloc junk stack_alloc epoll_ctl {HE : Epoll epoll_ctl} l h kb max f a now m0 ev0 x :
  fresh_malloc malloc → aligned_malloc malloc → memory_ok l h → 4 ≤ max < 2 ^ 31 → 0 ≤ now < 2 ^ 62 →
  started malloc junk stack_alloc l h kb max f a now m0 → event_ok ev0 → interest ev0 = ∅ →
  rtc (cycle_step malloc junk stack_alloc epoll_ctl) (Cycle m0 ev0 ∅) x →
  (∃ v, sched_inv (m_sched (mach x)) v ∧ ∀ c, is_Some (waits x !! c) → c ∈ off_idle v) ∧ calls_ok (table x) (waits x) ∧
  cycle_proceeds malloc junk stack_alloc epoll_ctl x.
Proof.
  intros Hf Ha Hl Hmax Hnow Hst Hev Hint Hr. destruct (cycle_start_inv malloc junk stack_alloc Hf Ha l h kb max f a now m0 ev0 Hl Hmax Hnow Hst Hev Hint) as [v0 H0].
  destruct (cycle_reach_inv malloc junk stack_alloc epoll_ctl Hf Ha _ _ _ H0 Hr) as [v Hv]. split; [exists v; split; [apply (mi_inv _ _ (cy_machine _ _ Hv)) | apply (cy_placed _ _ Hv)]|].
  split; [apply (cy_calls _ _ Hv) | by apply (cycle_goes_on malloc junk stack_alloc epoll_ctl Hf Ha x v)].
Qed.

(** ** Witness *)

(** The first coroutine waits for descriptor 5; the kernel reports it and the coroutine is
    made runnable. *)
Definition checked : coro_schedule := state_of none id (check_timeout_coroutine demo1 1000).
Definition waiting192 : coro_schedule :=
  state_of none id (schedule_timeout blocks (state_of none (λ r, coroutine_switch r.2 r.1) (get_active_coroutine checked)) 1000 10000).
Definition polling : coro_schedule := state_of none snd (get_active_coroutine waiting192).
Definition woken192 : coro_schedule := state_of none id (run_callbacks polling [(RW_CALLBACK, 192)]).
Definition cycle_woken : cycle := Cycle (Machine (In_main Run_again) woken192 1000 1000) loop2 {[192 := (5, 1)]}.

Lemma cycle_woken_reached : rtc (cycle_step blocks junk0 stacks small_epoll) (Cycle begun loop0 ∅) cycle_woken.
Proof.
  eapply rtc_l; [apply (cs_sched _ _ _ _ _ (Machine (In_main Run_first) checked 1000 1000)); [apply step_check; vm_compute; reflexivity | reflexivity | reflexivity]|].
  eapply rtc_l; [eapply (cs_resume _ _ _ _ Run_first _ _ _ 192); [by left | vm_compute; reflexivity | done | reflexivity]|].
  eapply rtc_l; [eapply (cs_wait _ _ _ _ Run_first _ _ _ 5 1 RW_CALLBACK 10000);
    [lia | by left | by left | unfold HORIZON; lia | intros fe [-> _]%(lookup_replicate 130); reflexivity | vm_compute; reflexivity | vm_compute; reflexivity]|].
  eapply rtc_l; [apply (cs_sched _ _ _ _ _ (Machine (In_main Wait_events) polling 1000 1000)); [apply step_run_done; [by left | vm_compute; reflexivity] | reflexivity | reflexivity]|].
  eapply rtc_l; [eapply (cs_events _ _ _ _ _ _ _ _ _ [5]); [split; [apply NoDup_singleton | repeat constructor; vm_compute; by eexists] | vm_compute; reflexivity | vm_compute; reflexivity]|].
  match goal with |- rtc _ ?a ?b => replace b with a by (vm_compute; reflexivity) end. apply rtc_refl.
Qed.

Lemma cycle_safe_witness :
  (∃ v, sched_inv (m_sched (mach cycle_woken)) v ∧ ∀ c, is_Some (waits cycle_woken !! c) → c ∈ off_idle v) ∧
  calls_ok (table cycle_woken) (waits cycle_woken) ∧ cycle_proceeds blocks junk0 stacks small_epoll cycle_woken.
Proof.
  apply (cycle_safe blocks junk0 stacks small_epoll mem heads 16 8 70 71 1000 begun loop0 cycle_woken);
    [apply arena_fresh | apply arena_aligned | apply mem_ok | lia | lia | exact begun_ok | exact loop0_ok | reflexivity | exact cycle_woken_reached].
Defined.
