(* ===== verification/Switch.v ===== *)
(** Switching stacks: [src/coro/switch.c] on x86-64.

    The two assembly routines are lists of instructions over the registers they use and a
    memory of 8-byte words; an access to an address that is not mapped is undefined.  [mmap]
    is a parameter of the allocation of a stack. *)

From stdpp Require Import base gmap list numbers strings.
From Stdlib Require Import ZArith Lia.
From S2P Require Import Prelude.

Inductive reg : Type := RBP | RBX | R12 | R13 | R14 | R15 | RDI | RSI | RCX.
#[export] Instance reg_eq_dec : EqDecision reg.
Proof. solve_decision. Defined.

(** Stack pointer and instruction pointer apart from the other registers. *)
Record cpu : Type := Cpu { regs : reg → Z; rsp : Z; rip : Z; mem : gmap Z Z }.

Definition set_reg (s : cpu) (r : reg) (v : Z) : cpu := Cpu (λ q, if decide (q = r) then v else regs s q) (rsp s) (rip s) (mem s).
Definition set_rsp (s : cpu) (v : Z) : cpu := Cpu (regs s) v (rip s) (mem s).
Definition set_rip (s : cpu) (v : Z) : cpu := Cpu (regs s) (rsp s) v (mem s).
Definition set_mem (s : cpu) (m : gmap Z Z) : cpu := Cpu (regs s) (rsp s) (rip s) m.

Inductive instr : Type :=
| Push (r : reg)
| Pop (r : reg)
| Mov_rsp_to (r : reg)
| Mov_to_rsp (r : reg)
| Jmp (r : reg)
| Call (r : reg).

(** The return address that a call leaves is that of the instruction after it. *)
Definition step (after : Z) (s : cpu) (i : instr) : cres cpu :=
  match i with
  | Push r => m ← store (mem s) (rsp s - 8) (regs s r); mret (set_rsp (set_mem s m) (rsp s - 8))
  | Pop r => v ← load (mem s) (rsp s); mret (set_rsp (set_reg s r v) (rsp s + 8))
  | Mov_rsp_to r => m ← store (mem s) (regs s r) (rsp s); mret (set_mem s m)
  | Mov_to_rsp r => v ← load (mem s) (regs s r); mret (set_rsp s v)
  | Jmp r => mret (set_rip s (regs s r))
  | Call r => m ← store (mem s) (rsp s - 8) after; mret (set_rip (set_rsp (set_mem s m) (rsp s - 8)) (regs s r))
  end.

Fixpoint run (after : Z) (s : cpu) (l : list instr) : cres cpu :=
  match l with
  | [] => mret s
  | i :: l => s ← step after s i; run after s l
  end.

Definition NUM_SAVED : Z := 6.

(** [%rdi] and [%rsi] point to the contexts, whose only member is the stack pointer. *)
Definition context_switch : list instr :=
  [Push RBP; Push RBX; Push R12; Push R13; Push R14; Push R15; Mov_rsp_to RDI; Mov_to_rsp RSI;
   Pop R15; Pop R14; Pop R13; Pop R12; Pop RBX; Pop RBP; Pop RCX; Jmp RCX].

Definition coro_routine_entry : list instr := [Pop RDI; Pop RCX; Call RCX].

(** [*--ctx->sp = v] *)
Definition push_word (m : gmap Z Z) (sp v : Z) : cres (gmap Z Z * Z) := m ← store m (sp - 8) v; mret (m, sp - 8).

Definition coro_stack_init (m : gmap Z Z) (ctx ptr entry routine args : Z) : cres (gmap Z Z) :=
  '(m, sp) ← push_word m ptr routine;
  '(m, sp) ← push_word m sp args;
  '(m, sp) ← push_word m sp entry;
  store m ctx (sp - 8 * NUM_SAVED).

(** [struct coro_stack] *)
Record coro_stack : Type := CoroStack { ptr : Z; size_bytes : Z }.

(** The result, the stack, and the page that is protected. *)
Definition coro_stack_alloc (mmap : Z → option Z) (page_size size : Z) : Z * coro_stack * Z :=
  let total := size_t (size + page_size) in
  match mmap total with
  | None => (-1, CoroStack (-1) size, NULL)
  | Some base => (0, CoroStack (base + total) size, base)
  end.

(** What is unmapped: start and length *)
Definition coro_stack_free (page_size : Z) (st : coro_stack) : Z * Z :=
  (ptr st - size_bytes st - page_size, size_t (size_bytes st + page_size)).

(** ** Runs of pushes and pops *)

Definition words_at (m : gmap Z Z) (a : Z) (l : list Z) : Prop := ∀ k v, l !! k = Some v → m !! (a + 8 * Z.of_nat k) = Some v.

Lemma words_cons m a v l : words_at m a (v :: l) ↔ m !! a = Some v ∧ words_at m (a + 8) l.
Proof.
  split.
  - intros H. split; [rewrite <-(H 0%nat v eq_refl); f_equal; lia|]. intros k w Hk. rewrite <-(H (S k) w Hk). f_equal. lia.
  - intros [H0 H] [|k] w Hk; cbn in Hk; [injection Hk as ->; rewrite <-H0; f_equal; lia|]. rewrite <-(H k w Hk). f_equal. lia.
Qed.

Lemma words_snoc m a l v : words_at m a l → m !! (a + 8 * Z.of_nat (length l)) = Some v → words_at m a (l ++ [v]).
Proof. intros Hl Hv k w [Hk|[Hk Hw]]%lookup_app_Some; [by apply Hl|]. apply list_lookup_singleton_Some in Hw as [Hk0 ->]. rewrite <-Hv. do 2 f_equal. lia. Qed.

Lemma words_ext m m' a l :
  words_at m a l → (∀ b, a ≤ b < a + 8 * Z.of_nat (length l) → m' !! b = m !! b) → words_at m' a l.
Proof. intros H He k v Hk. rewrite He; [by apply H|]. apply lookup_lt_Some in Hk. lia. Qed.

Lemma store_mapped m a v : is_Some (m !! a) → store m a v = Ok (<[a := v]> m).
Proof. intros [w Hw]. unfold store. by rewrite Hw. Qed.

Lemma run_app after s l1 l2 s1 : run after s l1 = Ok s1 → run after s (l1 ++ l2) = run after s1 l2.
Proof. revert s. induction l1 as [|i l1 IH]; intros s; cbn; [by intros [= ->]|]. destruct (step after s i); cres_simpl; [apply IH | done | done]. Qed.

Fixpoint push_all (m : gmap Z Z) (sp : Z) (vs : list Z) : gmap Z Z :=
  match vs with
  | [] => m
  | v :: vs => push_all (<[sp - 8 := v]> m) (sp - 8) vs
  end.

Definition room (m : gmap Z Z) (sp : Z) (n : nat) : Prop := ∀ k, 1 ≤ k ≤ Z.of_nat n → is_Some (m !! (sp - 8 * k)).

Lemma pushes_ok after rs : ∀ s, room (mem s) (rsp s) (length rs) →
  run after s (Push <$> rs) = Ok (Cpu (regs s) (rsp s - 8 * Z.of_nat (length rs)) (rip s) (push_all (mem s) (rsp s) (regs s <$> rs))).
Proof.
  induction rs as [|r rs IH]; intros s Hroom; cbn [fmap list_fmap run length push_all].
  { destruct s. cbn. do 2 f_equal. lia. }
  assert (Hm : is_Some (mem s !! (rsp s - 8))) by (apply (Hroom 1); cbn; lia).
  cbn [step]. rewrite store_mapped by done. cres_simpl. rewrite IH; cbn [mem rsp regs rip set_mem set_rsp].
  - do 2 f_equal. lia.
  - intros k Hk. cbn [length] in *. destruct (decide (rsp s - 8 - 8 * k = rsp s - 8)) as [E|Hne]; [lia|]. rewrite lookup_insert_ne by lia.
    replace (rsp s - 8 - 8 * k) with (rsp s - 8 * (k + 1)) by lia. apply Hroom. cbn [length]. lia.
Qed.

Lemma push_all_other vs : ∀ m sp a, ¬ (sp - 8 * Z.of_nat (length vs) ≤ a < sp) → push_all m sp vs !! a = m !! a.
Proof.
  induction vs as [|v vs IH]; intros m sp a Ha; cbn [push_all length] in *; [done|]. rewrite IH by lia. apply lookup_insert_ne. lia.
Qed.

Lemma push_all_words vs : ∀ m sp, words_at (push_all m sp vs) (sp - 8 * Z.of_nat (length vs)) (reverse vs).
Proof.
  induction vs as [|v vs IH]; intros m sp; cbn [push_all length]; [done|]. rewrite reverse_cons. apply words_snoc.
  - replace (sp - 8 * Z.of_nat (S (length vs))) with (sp - 8 - 8 * Z.of_nat (length vs)) by lia. apply IH.
  - rewrite length_reverse. replace (sp - 8 * Z.of_nat (S (length vs)) + 8 * Z.of_nat (length vs)) with (sp - 8) by lia.
    rewrite push_all_other by lia. apply lookup_insert_eq.
Qed.

Fixpoint pop_regs (f : reg → Z) (l : list (reg * Z)) : reg → Z :=
  match l with
  | [] => f
  | (r, v) :: l => pop_regs (λ q, if decide (q = r) then v else f q) l
  end.

Lemma pops_ok after rs : ∀ vs s, words_at (mem s) (rsp s) vs → length vs = length rs →
  run after s (Pop <$> rs) = Ok (Cpu (pop_regs (regs s) (zip rs vs)) (rsp s + 8 * Z.of_nat (length rs)) (rip s) (mem s)).
Proof.
  induction rs as [|r rs IH]; intros vs s Hw Hl; cbn [fmap list_fmap run length].
  { destruct s. cbn. do 2 f_equal. lia. }
  destruct vs as [|v vs]; [done|]. apply words_cons in Hw as [H0 Hw]. cbn [step]. unfold load. rewrite H0. cres_simpl.
  rewrite (IH vs); cbn [mem rsp regs rip set_reg set_rsp]; [|done | cbn in Hl; lia]. cbn [zip_with pop_regs]. do 2 f_equal. lia.
Qed.

(** ** Contexts *)

(** The stack as [context_switch] leaves it for a context: the saved registers and the return
    address. *)
Definition frame (f : reg → Z) (ret : Z) : list Z := [f R15; f R14; f R13; f R12; f RBX; f RBP; ret].
Definition is_saved (r : reg) : Prop := r ∈ [RBP; RBX; R12; R13; R14; R15].

(** A context can be resumed with the registers [f] at the address [ret]. *)
Definition resumable (m : gmap Z Z) (ctx sp : Z) (f : reg → Z) (ret : Z) : Prop := m !! ctx = Some sp ∧ words_at m sp (frame f ret).

(** The words that a switch writes: the context that is left and the frame on its stack. *)
Definition writes (s : cpu) (a : Z) : Prop := a = regs s RDI ∨ rsp s - 48 ≤ a < rsp s.

Definition PUSHED : list reg := [RBP; RBX; R12; R13; R14; R15].
Definition POPPED : list reg := [R15; R14; R13; R12; RBX; RBP; RCX].

Lemma switch_parts : context_switch = (Push <$> PUSHED) ++ [Mov_rsp_to RDI; Mov_to_rsp RSI] ++ (Pop <$> POPPED) ++ [Jmp RCX].
Proof. done. Qed.

(** C29: a switch saves and restores: it continues the other context with exactly the
    callee-saved registers, stack and return address with which that context was left, and
    leaves the current one so that it can be resumed in the same way; nothing else in memory
    is written. *)
Theorem context_switch_spec after s sp f ret ret0 :
  room (mem s) (rsp s) 6 → is_Some (mem s !! regs s RDI) → mem s !! rsp s = Some ret0 →
  ¬ (rsp s - 48 ≤ regs s RDI ≤ rsp s) →
  resumable (mem s) (regs s RSI) sp f ret → ¬ writes s (regs s RSI) → (∀ a, sp ≤ a < sp + 56 → ¬ writes s a) →
  ∃ s', run after s context_switch = Ok s' ∧
    (∀ r, is_saved r → regs s' r = f r) ∧ rsp s' = sp + 56 ∧ rip s' = ret ∧
    resumable (mem s') (regs s RDI) (rsp s - 48) (regs s) ret0 ∧
    (∀ a, ¬ writes s a → mem s' !! a = mem s !! a).
Proof.
  intros Hroom Hctx Hret Hout [Hsp Hframe] Hnw Hfw. set (m1 := push_all (mem s) (rsp s) (regs s <$> PUSHED)).
  assert (Hm1 : ∀ a, ¬ (rsp s - 48 ≤ a < rsp s) → m1 !! a = mem s !! a) by (intros a Ha; by apply push_all_other).
  set (m2 := <[regs s RDI := rsp s - 48]> m1).
  assert (Hm2 : ∀ a, ¬ writes s a → m2 !! a = mem s !! a).
  { intros a Ha. unfold m2, writes in *. rewrite lookup_insert_ne by (intros E; apply Ha; by left). apply Hm1. intros H. apply Ha. by right. }
  rewrite switch_parts, (run_app _ _ _ _ _ (pushes_ok after PUSHED s Hroom)). change (8 * Z.of_nat (length PUSHED)) with 48. fold m1.
  cbn [app run step mem regs rsp rip]. rewrite store_mapped by (rewrite Hm1 by lia; done). cres_simpl. cbn [mem regs rsp rip set_mem set_rsp]. fold m2.
  unfold load. rewrite (Hm2 (regs s RSI)) by done. rewrite Hsp. cres_simpl. cbn [set_rsp mem regs rsp rip].
  rewrite (run_app _ _ _ _ _ (pops_ok after POPPED (frame f ret) (Cpu (regs s) sp (rip s) m2) ltac:(eapply words_ext; [exact Hframe | intros b Hb; by apply Hm2, Hfw]) eq_refl)).
  cbn [run step mret cres_mret mbind cres_mbind cres_bind]. eexists. split; [reflexivity|]. cbn [regs rsp rip mem set_rip]. split_and!; [|done|done| |exact Hm2].
  - intros r Hr. unfold is_saved in Hr. repeat (apply elem_of_cons in Hr as [->|Hr]; [done|]). by apply elem_of_nil in Hr.
  - split; [unfold m2; apply lookup_insert_eq|]. change (frame (regs s) ret0) with (reverse (regs s <$> PUSHED) ++ [ret0]). apply words_snoc.
    + pose proof (push_all_words (regs s <$> PUSHED) (mem s) (rsp s)) as Hw. change (8 * Z.of_nat (length (regs s <$> PUSHED))) with 48 in Hw.
      eapply words_ext; [exact Hw|]. intros b Hb. rewrite length_reverse in Hb. cbn in Hb. apply lookup_insert_ne. lia.
    + rewrite length_reverse, <-Hret. replace (rsp s - 48 + _) with (rsp s) by (cbn; lia). unfold m2. rewrite lookup_insert_ne by lia. apply Hm1. lia.
Qed.

(** A context that [coro_stack_init] has prepared starts in [coro_routine_entry]; its stack
    pointer is then aligned for the call. *)
Lemma stack_init_ok m ctx top entry routine args :
  room m top 9 → is_Some (m !! ctx) → ¬ (top - 72 ≤ ctx < top) →
  ∃ m' f, coro_stack_init m ctx top entry routine args = Ok m' ∧ resumable m' ctx (top - 72) f entry ∧
    m' !! (top - 16) = Some args ∧ m' !! (top - 8) = Some routine ∧ (∀ a, a ≠ ctx → ¬ (top - 24 ≤ a < top) → m' !! a = m !! a).
Proof.
  intros Hroom Hctx Hout. unfold coro_stack_init, push_word.
  assert (Hin : ∀ k, 1 ≤ k ≤ 9 → is_Some (m !! (top - 8 * k))) by (intros k Hk; apply Hroom; lia).
  rewrite store_mapped by (apply (Hin 1); lia). cres_simpl. replace (top - 8 - 8) with (top - 16) by lia.
  rewrite store_mapped by (rewrite lookup_insert_ne by lia; apply (Hin 2); lia). cres_simpl. replace (top - 16 - 8) with (top - 24) by lia.
  rewrite store_mapped by (rewrite !lookup_insert_ne by lia; apply (Hin 3); lia). cres_simpl. change (8 * NUM_SAVED) with 48. replace (top - 24 - 48) with (top - 72) by lia.
  rewrite store_mapped by (rewrite !lookup_insert_ne by lia; done). set (m' := <[ctx := _]> _).
  assert (Hold : ∀ a, a ≠ ctx → ¬ (top - 24 ≤ a < top) → m' !! a = m !! a) by (intros a H1 H2; unfold m'; by rewrite !lookup_insert_ne by lia).
  destruct (Hin 9) as [v9 H9]; [lia|]. destruct (Hin 8) as [v8 H8]; [lia|]. destruct (Hin 7) as [v7 H7]; [lia|].
  destruct (Hin 6) as [v6 H6]; [lia|]. destruct (Hin 5) as [v5 H5]; [lia|]. destruct (Hin 4) as [v4 H4]; [lia|].
  exists m', (λ r, match r with R15 => v9 | R14 => v8 | R13 => v7 | R12 => v6 | RBX => v5 | RBP => v4 | _ => 0 end).
  split; [done|]. split; [|split; [unfold m'; rewrite lookup_insert_ne by lia; rewrite lookup_insert_ne by lia; apply lookup_insert_eq|]].
  - split; [unfold m'; apply lookup_insert_eq|]. unfold frame. rewrite !words_cons.
    repeat (rewrite (Hold _) by lia). replace (top - 72 + 8) with (top - 8 * 8) by lia. replace (top - 72) with (top - 8 * 9) by lia.
    replace (top - 8 * 8 + 8) with (top - 8 * 7) by lia. replace (top - 8 * 7 + 8) with (top - 8 * 6) by lia. replace (top - 8 * 6 + 8) with (top - 8 * 5) by lia.
    replace (top - 8 * 5 + 8) with (top - 8 * 4) by lia. replace (top - 8 * 4 + 8) with (top - 24) by lia. split_and!; try done.
    unfold m'. rewrite lookup_insert_ne by lia. apply lookup_insert_eq.
  - split; [|done]. unfold m'. rewrite !lookup_insert_ne by lia. apply lookup_insert_eq.
Qed.

(** The first words of a coroutine: its argument in [%rdi], its function called with the stack
    pointer 8 below a 16-byte boundary. *)
Lemma routine_entry_ok after s top args routine :
  rsp s = top - 16 → mem s !! (top - 16) = Some args → mem s !! (top - 8) = Some routine → top mod 16 = 0 →
  ∃ s', run after s coro_routine_entry = Ok s' ∧ regs s' RDI = args ∧ rip s' = routine ∧ rsp s' = top - 8 ∧ rsp s' mod 16 = 8.
Proof.
  intros Hrsp Ha Hr Hal. unfold coro_routine_entry. cbn [run step]. unfold load. rewrite Hrsp, Ha. cres_simpl. cbn [mem rsp regs rip set_reg set_rsp].
  replace (top - 16 + 8) with (top - 8) by lia. rewrite Hr. cres_simpl. cbn [mem rsp regs rip set_reg set_rsp].
  replace (top - 8 + 8 - 8) with (top - 8) by lia. rewrite store_mapped by (by eexists). cres_simpl. eexists. split; [done|]. cbn.
  split_and!; try done. Z.div_mod_to_equations. lia.
Qed.

(** [coro_stack_free] returns exactly the mapping that [coro_stack_alloc] made, and the
    protected page is the one below the stack. *)
Lemma stack_alloc_free mmap page_size size st guard :
  0 ≤ size → 0 ≤ page_size → size + page_size < 2 ^ 64 → coro_stack_alloc mmap page_size size = (0, st, guard) →
  mmap (size + page_size) = Some guard ∧ coro_stack_free page_size st = (guard, size + page_size) ∧ ptr st - size_bytes st = guard + page_size.
Proof.
  intros Hs Hp Hlt. unfold coro_stack_alloc, coro_stack_free. rewrite size_t_id by lia. destruct (mmap (size + page_size)) as [base|]; [|done].
  intros [= <- <-]. cbn. rewrite size_t_id by lia. split_and!; [done | f_equal; lia | lia].
Qed.

(** ** Witness *)

(** Two contexts at 8 and 16: the first runs on a stack at 112, the second one is fresh on a
    stack that ends at 240. *)
Definition words0 : gmap Z Z := list_to_map ((λ k, (8 * k, 5)) <$> seqZ 1 30).
Definition mem0 : gmap Z Z := match coro_stack_init words0 16 240 500 600 700 with Ok m => m | _ => ∅ end.
Definition cpu0 : cpu := Cpu (λ r, match r with RDI => 8 | RSI => 16 | _ => 77 end) 112 0 mem0.

Lemma context_switch_spec_witness :
  ∃ s', run 0 cpu0 context_switch = Ok s' ∧
    (∀ r, is_saved r → regs s' r = 5) ∧ rsp s' = 168 + 56 ∧ rip s' = 500 ∧
    resumable (mem s') 8 (112 - 48) (regs cpu0) 5 ∧
    (∀ a, ¬ writes cpu0 a → mem s' !! a = mem cpu0 !! a).
Proof.
  apply (context_switch_spec 0 cpu0 168 (λ _, 5) 500 5).
  - intros k Hk. assert (k = 1 ∨ k = 2 ∨ k = 3 ∨ k = 4 ∨ k = 5 ∨ k = 6) as H by lia. repeat (destruct H as [->|H]; [vm_compute; by eexists|]). rewrite H. vm_compute. by eexists.
  - vm_compute. by eexists.
  - vm_compute. reflexivity.
  - cbn. lia.
  - split; [vm_compute; reflexivity|]. unfold frame. rewrite !words_cons. split_and!; try (vm_compute; reflexivity). by intros k v H.
  - unfold writes. cbn. lia.
  - unfold writes. cbn. intros a Ha. lia.
Defined.
