(* ===== verification/SwitchArm.v ===== *)
(** Switching stacks on AArch64: the other half of [src/coro/switch.c].

    The registers are numbered; [lr] is 30.  Memory is again a map of 8-byte words, the
    layout of a fresh stack is that of [coro_stack_init] with [NUM_SAVED] 11. *)

From stdpp Require Import base gmap list numbers strings.
From Stdlib Require Import ZArith Lia.
From S2P Require Import Prelude Switch.

Definition LR : Z := 30.

Record arm : Type := Arm { x : Z → Z; sp : Z; pc : Z; words : gmap Z Z }.

Definition upd (f : Z → Z) (r v : Z) : Z → Z := λ q, if q =? r then v else f q.
Definition set_x (s : arm) (r v : Z) : arm := Arm (upd (x s) r v) (sp s) (pc s) (words s).
Definition set_sp (s : arm) (v : Z) : arm := Arm (x s) v (pc s) (words s).
Definition set_pc (s : arm) (v : Z) : arm := Arm (x s) (sp s) v (words s).
Definition set_words (s : arm) (m : gmap Z Z) : arm := Arm (x s) (sp s) (pc s) m.

(** [Stp a b r n]: store a pair at the address in [r], then add [n] to it; [Ldp] likewise. *)
Inductive ainstr : Type :=
| Sub_sp (n : Z)
| Mov_from_sp (r : Z)
| Mov_sp (r : Z)
| Stp (a b r n : Z)
| Ldp (a b r n : Z)
| Str (a r : Z)
| Ldr (a r : Z)
| Br (r : Z)
| Blr (r : Z).

Definition astep (after : Z) (s : arm) (i : ainstr) : cres arm :=
  match i with
  | Sub_sp n => mret (set_sp s (sp s - n))
  | Mov_from_sp r => mret (set_x s r (sp s))
  | Mov_sp r => mret (set_sp s (x s r))
  | Stp a b r n =>
    m ← store (words s) (x s r) (x s a); m ← store m (x s r + 8) (x s b); mret (set_x (set_words s m) r (x s r + n))
  | Ldp a b r n =>
    v ← load (words s) (x s r); w ← load (words s) (x s r + 8);
    mret (set_x (set_x (set_x s a v) b w) r (x s r + n))
  | Str a r => m ← store (words s) (x s r) (x s a); mret (set_words s m)
  | Ldr a r => v ← load (words s) (x s r); mret (set_x s a v)
  | Br r => mret (set_pc s (x s r))
  | Blr r => mret (set_pc (set_x s LR after) (x s r))
  end.

Fixpoint arun (after : Z) (s : arm) (l : list ainstr) : cres arm :=
  match l with
  | [] => mret s
  | i :: l => s ← astep after s i; arun after s l
  end.

Definition arm_context_switch : list ainstr :=
  [Sub_sp 96; Mov_from_sp 8; Stp 19 20 8 16; Stp 21 22 8 16; Stp 23 24 8 16; Stp 25 26 8 16; Stp 27 28 8 16; Stp 29 LR 8 16;
   Mov_from_sp 8; Str 8 0; Ldr 8 1; Mov_sp 8;
   Ldp 19 20 8 16; Ldp 21 22 8 16; Ldp 23 24 8 16; Ldp 25 26 8 16; Ldp 27 28 8 16; Ldp 29 LR 8 16; Mov_sp 8; Br LR].

Definition arm_routine_entry : list ainstr := [Mov_from_sp 8; Ldp 0 9 8 16; Mov_sp 8; Blr 9].

Definition ARM_NUM_SAVED : Z := 11.

Definition arm_stack_init (m : gmap Z Z) (ctx ptr entry routine args : Z) : cres (gmap Z Z) :=
  '(m, sp) ← push_word m ptr routine;
  '(m, sp) ← push_word m sp args;
  '(m, sp) ← push_word m sp entry;
  store m ctx (sp - 8 * ARM_NUM_SAVED).

(** ** Runs of stores and loads *)

Lemma arun_app after s l1 l2 s1 : arun after s l1 = Ok s1 → arun after s (l1 ++ l2) = arun after s1 l2.
Proof. revert s. induction l1 as [|i l1 IH]; intros s; cbn; [by intros [= ->]|]. destruct (astep after s i); cres_simpl; [apply IH | done | done]. Qed.

Lemma upd_same f r v : upd f r v r = v.
Proof. unfold upd. by rewrite Z.eqb_refl. Qed.
Lemma upd_other f r v q : q ≠ r → upd f r v q = f q.
Proof. intros H. unfold upd. by rewrite (proj2 (Z.eqb_neq _ _)). Qed.

Fixpoint store_all (m : gmap Z Z) (a : Z) (vs : list Z) : gmap Z Z :=
  match vs with
  | [] => m
  | v :: vs => store_all (<[a := v]> m) (a + 8) vs
  end.

Lemma store_all_other vs : ∀ m a b, ¬ (a ≤ b < a + 8 * Z.of_nat (length vs)) → store_all m a vs !! b = m !! b.
Proof.
  induction vs as [|v vs IH]; intros m a b Hb; cbn [store_all length] in *; [done|]. rewrite IH by lia. apply lookup_insert_ne. lia.
Qed.

Lemma store_all_words vs : ∀ m a, words_at (store_all m a vs) a vs.
Proof.
  induction vs as [|v vs IH]; intros m a; cbn [store_all]; [by intros k w H|]. apply words_cons. split; [|apply IH].
  rewrite store_all_other by lia. apply lookup_insert_eq.
Qed.

(** Pairs of registers as the list of their members. *)
Definition members (ps : list (Z * Z)) : list Z := ps ≫= λ p, [p.1; p.2].
Definition mapped (m : gmap Z Z) (a : Z) (n : nat) : Prop := ∀ k, 0 ≤ k < Z.of_nat n → is_Some (m !! (a + 8 * k)).

Lemma mapped_insert m a n b v : mapped m a n → mapped (<[b := v]> m) a n.
Proof. intros H k Hk. destruct (decide (b = a + 8 * k)) as [->|Hne]; [rewrite lookup_insert_eq; by eexists | rewrite lookup_insert_ne by done; by apply H]. Qed.
Lemma mapped_tail m a n : mapped m a (S n) → mapped m (a + 8) n.
Proof. intros H k Hk. replace (a + 8 + 8 * k) with (a + 8 * (k + 1)) by lia. apply H. lia. Qed.
Lemma mapped_head m a n : mapped m a (S n) → is_Some (m !! a).
Proof. intros H. replace a with (a + 8 * 0) by lia. apply H. lia. Qed.

(** Two register files agree apart from [x8]. *)
Definition but8 (f g : Z → Z) : Prop := ∀ r, r ≠ 8 → f r = g r.

Lemma stps_ok after ps : ∀ s, Forall (λ r, r ≠ 8) (members ps) → mapped (words s) (x s 8) (length (members ps)) →
  ∃ s', arun after s ((λ p, Stp p.1 p.2 8 16) <$> ps) = Ok s' ∧ but8 (x s') (x s) ∧ sp s' = sp s ∧ pc s' = pc s ∧
    words s' = store_all (words s) (x s 8) (x s <$> members ps).
Proof.
  induction ps as [|[a b] ps IH]; intros s Hr Hm; cbn [fmap list_fmap arun]; [by exists s|].
  change (members ((a, b) :: ps)) with (a :: b :: members ps) in *. cbn [length fmap list_fmap store_all] in *.
  apply Forall_cons in Hr as [Ha Hr]. apply Forall_cons in Hr as [Hb Hr]. pose proof (mapped_head _ _ _ Hm) as H0. apply mapped_tail in Hm. pose proof (mapped_head _ _ _ Hm) as H1. apply mapped_tail in Hm.
  cbn [astep fst snd]. rewrite store_mapped by done. cres_simpl. rewrite store_mapped by (rewrite lookup_insert_ne by lia; done). cres_simpl.
  set (m := <[x s 8 + 8 := x s b]> (<[x s 8 := x s a]> (words s))). set (s1 := set_x (set_words s m) 8 (x s 8 + 16)).
  assert (H8 : x s1 8 = x s 8 + 8 + 8) by (unfold s1; cbn [x set_x]; rewrite upd_same; lia). assert (Hx : but8 (x s1) (x s)) by (intros r Hne; unfold s1; cbn [x set_x set_words]; by apply upd_other).
  destruct (IH s1 Hr) as (s' & E & Hx' & Hsp & Hpc & Hw); [rewrite H8; by do 2 apply mapped_insert|].
  exists s'. split; [exact E|]. split_and!; [intros r Hne; by rewrite Hx', Hx | done | done |]. rewrite Hw, H8. cbn [words s1 set_x set_words]. f_equal.
  apply list_fmap_ext. intros i r Hi. apply Hx. rewrite Forall_forall in Hr. apply Hr. by eapply list_elem_of_lookup_2.
Qed.

Fixpoint load_regs (f : Z → Z) (l : list (Z * Z)) : Z → Z :=
  match l with
  | [] => f
  | (r, v) :: l => load_regs (upd f r v) l
  end.

Lemma load_regs_8 l : ∀ f, Forall (λ r, r ≠ 8) l.*1 → load_regs f l 8 = f 8.
Proof. induction l as [|[r v] l IH]; intros f Hr; cbn in *; [done|]. apply Forall_cons in Hr as [H1 H2]. rewrite IH by done. by apply upd_other. Qed.

Lemma load_regs_but8 l : ∀ f g, but8 f g → but8 (load_regs f l) (load_regs g l).
Proof. induction l as [|[r v] l IH]; intros f g H; cbn; [done|]. apply IH. intros q Hq. unfold upd. destruct (q =? r); [done | by apply H]. Qed.

Lemma ldps_ok after ps : ∀ vs s, Forall (λ r, r ≠ 8) (members ps) → words_at (words s) (x s 8) vs → length vs = length (members ps) →
  ∃ s', arun after s ((λ p, Ldp p.1 p.2 8 16) <$> ps) = Ok s' ∧ but8 (x s') (load_regs (x s) (zip (members ps) vs)) ∧
    x s' 8 = x s 8 + 8 * Z.of_nat (length vs) ∧ sp s' = sp s ∧ pc s' = pc s ∧ words s' = words s.
Proof.
  induction ps as [|[a b] ps IH]; intros vs s Hr Hw Hl; cbn [fmap list_fmap arun].
  { destruct vs; [|done]. exists s. split_and!; try done. cbn. lia. }
  change (members ((a, b) :: ps)) with (a :: b :: members ps) in *. destruct vs as [|v [|w vs]]; [done | done|]. cbn [length] in Hl.
  apply Forall_cons in Hr as [Ha Hr]. apply Forall_cons in Hr as [Hb Hr]. apply words_cons in Hw as [H0 Hw]. apply words_cons in Hw as [H1 Hw].
  cbn [astep fst snd]. unfold load. rewrite H0. cres_simpl. rewrite H1. cres_simpl. set (s1 := set_x (set_x (set_x s a v) b w) 8 (x s 8 + 16)).
  assert (H8 : x s1 8 = x s 8 + 8 + 8) by (unfold s1; cbn [x set_x]; rewrite upd_same; lia).
  destruct (IH vs s1 Hr) as (s' & E & Hx & Hx8 & Hsp & Hpc & Hwd); [rewrite H8; exact Hw | lia|].
  exists s'. split; [exact E|]. split_and!; [|rewrite Hx8, H8; cbn [length]; lia | done | done | done].
  cbn [zip_with load_regs]. intros r Hne. rewrite Hx by done. apply load_regs_but8; [|done]. intros q Hq. unfold s1. cbn [x set_x]. by apply upd_other.
Qed.

(** ** Contexts *)

Definition SAVED : list (Z * Z) := [(19, 20); (21, 22); (23, 24); (25, 26); (27, 28); (29, LR)].

(** The frame on the stack of a context that has been left with the registers [f]. *)
Definition arm_frame (f : Z → Z) : list Z := f <$> members SAVED.
Definition arm_resumable (m : gmap Z Z) (ctx top : Z) (f : Z → Z) : Prop := m !! ctx = Some top ∧ words_at m top (arm_frame f).

(** What a switch writes. *)
Definition arm_writes (s : arm) (a : Z) : Prop := a = x s 0 ∨ sp s - 96 ≤ a < sp s.

Lemma arm_switch_parts :
  arm_context_switch = [Sub_sp 96; Mov_from_sp 8] ++ ((λ p, Stp p.1 p.2 8 16) <$> SAVED) ++ [Mov_from_sp 8; Str 8 0; Ldr 8 1; Mov_sp 8] ++
    ((λ p, Ldp p.1 p.2 8 16) <$> SAVED) ++ [Mov_sp 8; Br LR].
Proof. done. Qed.

Lemma saved_not_8 : Forall (λ r, r ≠ 8) (members SAVED).
Proof. by repeat constructor. Qed.

(** On AArch64 as on x86-64: the other context continues with its callee-saved registers,
    stack and return address, the current one can be resumed in the same way. *)
Theorem arm_switch_spec after s top f :
  mapped (words s) (sp s - 96) 12 → is_Some (words s !! x s 0) → ¬ (sp s - 96 ≤ x s 0 < sp s) →
  arm_resumable (words s) (x s 1) top f → ¬ arm_writes s (x s 1) → (∀ a, top ≤ a < top + 96 → ¬ arm_writes s a) →
  ∃ s', arun after s arm_context_switch = Ok s' ∧
    (∀ r, r ∈ members SAVED → x s' r = f r) ∧ sp s' = top + 96 ∧ pc s' = f LR ∧
    arm_resumable (words s') (x s 0) (sp s - 96) (x s) ∧
    (∀ a, ¬ arm_writes s a → words s' !! a = words s !! a).
Proof.
  intros Hroom Hctx Hout [Htop Hframe] Hnw Hfw. rewrite arm_switch_parts. cbn [app arun astep]. cres_simpl.
  set (s0 := set_x (set_sp s (sp s - 96)) 8 _). assert (Hx0 : but8 (x s0) (x s)) by (intros r Hr; unfold s0; cbn [x set_x set_sp]; by apply upd_other).
  assert (H80 : x s0 8 = sp s - 96) by (unfold s0; cbn [x set_x set_sp sp]; by rewrite upd_same).
  destruct (stps_ok after SAVED s0 saved_not_8) as (s1 & E1 & Hx1 & Hsp1 & _ & Hw1); [by rewrite H80|].
  rewrite (arun_app _ _ _ _ _ E1). cbn [app arun astep]. cres_simpl.
  assert (Hregs : x s0 <$> members SAVED = x s <$> members SAVED) by done.
  rewrite H80, Hregs in Hw1. change (words s0) with (words s) in Hw1. change (sp s0) with (sp s - 96) in Hsp1.
  assert (Hm1 : ∀ a, ¬ (sp s - 96 ≤ a < sp s) → words s1 !! a = words s !! a) by (intros a Ha; rewrite Hw1; apply store_all_other; cbn; lia).
  set (s2 := set_x s1 8 (sp s1)). assert (Hx2 : but8 (x s2) (x s)) by (intros r Hr; unfold s2; cbn [x set_x]; rewrite upd_other by done; by rewrite Hx1, Hx0).
  assert (H82 : x s2 8 = sp s - 96) by (unfold s2; cbn [x set_x]; by rewrite upd_same).
  rewrite (Hx2 0), H82 by done. change (words s2) with (words s1). rewrite store_mapped by (rewrite Hm1 by lia; done). cres_simpl.
  set (m2 := <[x s 0 := sp s - 96]> (words s1)). assert (Hm2 : ∀ a, ¬ arm_writes s a → m2 !! a = words s !! a).
  { intros a Ha. unfold m2, arm_writes in *. rewrite lookup_insert_ne by (intros E; apply Ha; by left). apply Hm1. intros H. apply Ha. by right. }
  change (x (set_words s2 m2)) with (x s2). cbn [words set_words]. unfold load. rewrite (Hx2 1) by done. rewrite Hm2, Htop by done. cres_simpl.
  set (s3 := set_x (set_words s2 m2) 8 top). assert (H83 : x s3 8 = top) by (unfold s3; cbn [x set_x]; by rewrite upd_same). rewrite H83.
  destruct (ldps_ok after SAVED (arm_frame f) (set_sp s3 top) saved_not_8) as (s4 & E4 & Hx4 & H84 & _ & _ & Hw4); [|done|].
  { change (x (set_sp s3 top) 8) with (x s3 8). rewrite H83. change (words (set_sp s3 top)) with m2. eapply words_ext; [exact Hframe|]. intros b Hb. by apply Hm2, Hfw. }
  rewrite (arun_app _ _ _ _ _ E4). cbn [arun astep]. cres_simpl. eexists. split; [reflexivity|]. cbn [x sp pc words set_pc set_sp].
  change (x (set_sp s3 top) 8) with (x s3 8) in H84. rewrite H83 in H84. change (words (set_sp s3 top)) with m2 in Hw4.
  assert (Hx : ∀ r, r ∈ members SAVED → x s4 r = f r).
  { intros r Hr. rewrite Hx4 by (pose proof saved_not_8 as Hs; rewrite Forall_forall in Hs; by apply Hs).
    unfold members, SAVED in Hr. cbn in Hr. repeat (apply elem_of_cons in Hr as [->|Hr]; [done|]). by apply elem_of_nil in Hr. }
  rewrite Hw4. split_and!; [exact Hx | rewrite H84; cbn; lia | apply Hx; cbn; set_solver | | exact Hm2].
  split; [unfold m2; apply lookup_insert_eq|]. pose proof (store_all_words (x s <$> members SAVED) (words s) (sp s - 96)) as Hsw. rewrite <-Hw1 in Hsw.
  eapply words_ext; [exact Hsw|]. intros b Hb. unfold m2. apply lookup_insert_ne. cbn in Hb. lia.
Qed.

(** A fresh stack is a context that continues in the entry routine, *)
Lemma arm_stack_init_ok m ctx top entry routine args :
  mapped m (top - 112) 14 → is_Some (m !! ctx) → ¬ (top - 112 ≤ ctx < top) →
  ∃ m' f, arm_stack_init m ctx top entry routine args = Ok m' ∧ arm_resumable m' ctx (top - 112) f ∧ f LR = entry ∧
    m' !! (top - 16) = Some args ∧ m' !! (top - 8) = Some routine.
Proof.
  intros Hroom Hctx Hout. unfold arm_stack_init, push_word.
  assert (Hin : ∀ k, 0 ≤ k < 14 → is_Some (m !! (top - 112 + 8 * k))) by (intros k Hk; apply Hroom; lia).
  replace (top - 8) with (top - 112 + 8 * 13) by lia. rewrite store_mapped by (apply Hin; lia). cres_simpl.
  replace (top - 112 + 8 * 13 - 8) with (top - 112 + 8 * 12) by lia. rewrite store_mapped by (rewrite lookup_insert_ne by lia; apply Hin; lia). cres_simpl.
  replace (top - 112 + 8 * 12 - 8) with (top - 112 + 8 * 11) by lia. rewrite store_mapped by (rewrite !lookup_insert_ne by lia; apply Hin; lia). cres_simpl.
  change (8 * ARM_NUM_SAVED) with 88. replace (top - 112 + 8 * 11 - 88) with (top - 112) by lia. rewrite store_mapped by (rewrite !lookup_insert_ne by lia; done).
  set (m' := <[ctx := _]> _). exists m', (λ r, default 0 (m' !! (top - 112 + 8 * (r - 19)))). replace (top - 16) with (top - 112 + 8 * 12) by lia.
  assert (H11 : m' !! (top - 112 + 8 * 11) = Some entry) by (unfold m'; rewrite lookup_insert_ne by lia; apply lookup_insert_eq).
  split; [done|]. split_and!; [|unfold LR; change (30 - 19) with 11; by rewrite H11 | unfold m'; rewrite !lookup_insert_ne by lia; apply lookup_insert_eq |].
  2: unfold m'; rewrite !lookup_insert_ne by lia; apply lookup_insert_eq.
  split; [unfold m'; apply lookup_insert_eq|]. intros k v Hk. unfold arm_frame in Hk. apply list_lookup_fmap_Some in Hk as (r & -> & Hr).
  assert (Hrk : r = 19 + Z.of_nat k ∧ Z.of_nat k < 12) by (unfold members, SAVED, LR in Hr; cbn in Hr; repeat (destruct k as [|k]; [injection Hr as <-; split; lia|]); done).
  destruct Hrk as [-> Hk]. replace (19 + Z.of_nat k - 19) with (Z.of_nat k) by lia.
  assert (is_Some (m' !! (top - 112 + 8 * Z.of_nat k))) as [w Hw]; [|by rewrite Hw].
  destruct (decide (Z.of_nat k = 11)) as [E|Hne]; [rewrite E, H11; by eexists|]. unfold m'. rewrite !lookup_insert_ne by lia. apply Hin. lia.
Qed.

(** and that calls the coroutine's function with its argument and an aligned stack. *)
Lemma arm_entry_ok after s top args routine :
  sp s = top - 16 → words s !! (top - 16) = Some args → words s !! (top - 8) = Some routine → top mod 16 = 0 →
  ∃ s', arun after s arm_routine_entry = Ok s' ∧ x s' 0 = args ∧ pc s' = routine ∧ x s' LR = after ∧ sp s' = top ∧ sp s' mod 16 = 0.
Proof.
  intros Hsp Ha Hr Hal. unfold arm_routine_entry. cbn [arun astep]. cres_simpl. unfold load. cbn [x words set_x]. rewrite upd_same, Hsp, Ha. cres_simpl.
  replace (top - 16 + 8) with (top - 8) by lia. rewrite Hr. cres_simpl. eexists. split; [reflexivity|]. cbn. split_and!; try done; [lia|].
  replace (top - 16 + 16) with top by lia. done.
Qed.
