(* ===== verification/Process.v ===== *)
(** Master and workers: [src/process.c], the handlers of [src/signal.c] and the commands of
    [src/main.c].

    The master is a state machine: each phase is a stretch of its endless loop that reads or
    writes what a handler also uses at most once; a fork is two steps (the call, and the
    assignment of its result), sending a signal is two (the test of the table entry, and the
    call of [kill] with what the entry then is).  Signal handlers run between any two steps;
    the one for SIGCHLD is itself three steps for every child, and another signal may arrive
    between them.  Process numbers come from the kernel: a new one belongs to no process that
    is alive or waits to be reaped.  The history variables [inherited] (the workers that were
    forked when a request to stop had already arrived), [notified] (those that a signal has
    been sent to) and [stray] (whether a signal went to every process there is) are read by
    no step. *)

From stdpp Require Import base gmap list numbers strings sets.
From Stdlib Require Import ZArith Lia.
From S2P Require Import Prelude CStr Logger.

Definition INVALID_PID : Z := -1.

Definition SIGHUP : Z := 1.
Definition SIGINT : Z := 2.
Definition SIGQUIT : Z := 3.
Definition SIGTERM : Z := 15.
Definition SIGCHLD : Z := 17.
Definition SHUTDOWN_SIGNAL : Z := SIGQUIT.
Definition TERMINATE_SIGNAL : Z := SIGINT.

(** [struct process] *)
Record process : Type := Process { p_pid : Z; cpuid : Z }.
Definition set_pid (p : process) (pid : Z) : process := Process pid (cpuid p).

Definition valid (p : process) : bool := negb (p_pid p =? INVALID_PID).
Definition worker_empty (worker : list process) : bool := forallb (λ p, negb (valid p)) worker.
(** The table that [process_init] makes: [i % get_ncpu()] *)
Definition process_init_table (worker_processes ncpu : Z) : list process :=
  (λ i, Process INVALID_PID (Z.rem i ncpu)) <$> seqZ 0 worker_processes.

(** ** The master *)

Record flags : Type := Flags { g_shall_stop : Z; g_shall_exit : Z; all_workers_exit : bool; shall_create_worker : bool }.

Definition requested (f : flags) : bool := negb (g_shall_stop f =? 0) || negb (g_shall_exit f =? 0).

(** [worker_exit_handler], in its three parts *)
Definition clear_pid (worker : list process) (pid : Z) : list process := (λ p, if p_pid p =? pid then set_pid p INVALID_PID else p) <$> worker.
Definition note_create (f : flags) : flags :=
  if negb (requested f) then Flags (g_shall_stop f) (g_shall_exit f) (all_workers_exit f) true else f.
Definition note_gone (worker : list process) (f : flags) : flags :=
  if worker_empty worker && requested f then Flags (g_shall_stop f) (g_shall_exit f) true (shall_create_worker f) else f.
Definition worker_exit_handler (worker : list process) (f : flags) (pid : Z) : list process * flags :=
  let worker := clear_pid worker pid in
  let f := note_create f in
  (worker, note_gone worker f).

(** [master_signal_handler] for the signals that set a flag; SIGCHLD is
    [worker_process_get_status] below. *)
Definition master_signal_handler (f : flags) (signo : Z) : flags :=
  if signo =? SIGQUIT then Flags 1 (g_shall_exit f) (all_workers_exit f) (shall_create_worker f) else
  if (signo =? SIGTERM) || (signo =? SIGINT) then Flags (g_shall_stop f) 1 (all_workers_exit f) (shall_create_worker f) else f.

Definition LEVEL_WARN : Z := 2.
Definition LEVEL_INFO : Z := 3.

Inductive proc_type : Type := MASTER_PROCESS | WORKER_PROCESS.

(** The handlers write to the log, as the process whose buffer is [logger_id] and at the time
    [strnow]. *)
Section Signals.
  Context (logger_id : Z) (strnow : list Z).

Definition signal_log (s : logs) (level line : Z) (text : list Z) : cres logs :=
  log_out s logger_id level strnow (str "src/signal.c") line text.

Definition worker_signal_handler (f : flags) (signo : Z) (s : logs) : cres (flags * logs) :=
  if signo =? SIGQUIT then
    let f := Flags 1 (g_shall_exit f) (all_workers_exit f) (shall_create_worker f) in
    s ← signal_log s LEVEL_INFO 49 (str "In worker, received SIGQUIT"); mret (f, s)
  else if (signo =? SIGTERM) || (signo =? SIGINT) then
    let f := Flags (g_shall_stop f) 1 (all_workers_exit f) (shall_create_worker f) in
    s ← signal_log s LEVEL_INFO 54 (str "In worker, received SIGTERM/SIGINT"); mret (f, s)
  else mret (f, s).

(** The children that [waitpid] reports, one after the other. *)
Fixpoint worker_process_get_status (pids : list Z) (worker : list process) (f : flags) (s : logs) : cres (list process * flags * logs) :=
  match pids with
  | [] => mret (worker, f, s)
  | pid :: pids =>
    s ← signal_log s LEVEL_WARN 21 (str "worker process " ++ dec pid ++ str " exited");
    let s := log_worker_flush_and_reset s pid in
    let '(worker, f) := worker_exit_handler worker f pid in
    worker_process_get_status pids worker f s
  end.

(** [signal_handler]; [pids] is what [waitpid] gives while a SIGCHLD is handled. *)
Definition signal_handler (g_process_type : proc_type) (signo : Z) (pids : list Z) (worker : list process) (f : flags) (s : logs)
  : cres (list process * flags * logs) :=
  match g_process_type with
  | MASTER_PROCESS =>
    if signo =? SIGCHLD then worker_process_get_status pids worker f s else mret (worker, master_signal_handler f signo, s)
  | WORKER_PROCESS => '(f, s) ← worker_signal_handler f signo s; mret (worker, f, s)
  end.

End Signals.

Inductive phase : Type :=
| M_stop
| M_send (signo : Z) (i : nat)
| M_kill (signo : Z) (i : nat)
| M_exit
| M_gone
| M_create
| M_clear
| M_spawn (i : nat)
| M_forked (i : nat) (pid : Z)
| M_scan
| M_ended.

(** Where [worker_exit_handler] is, once it has cleared the table entry. *)
Inductive handler : Type := H_create | H_gone.

Record master : Type := Master {
  at_ : phase; chld : option handler; worker : list process; fl : flags;
  alive : gset Z; zombies : gset Z; inherited : gset Z; notified : gset Z; stray : bool
}.

Definition go (m : master) (ph : phase) : master := Master ph (chld m) (worker m) (fl m) (alive m) (zombies m) (inherited m) (notified m) (stray m).
Definition set_fl (m : master) (f : flags) : master := Master (at_ m) (chld m) (worker m) f (alive m) (zombies m) (inherited m) (notified m) (stray m).
Definition set_worker (m : master) (w : list process) : master := Master (at_ m) (chld m) w (fl m) (alive m) (zombies m) (inherited m) (notified m) (stray m).
Definition set_chld (m : master) (h : option handler) : master := Master (at_ m) h (worker m) (fl m) (alive m) (zombies m) (inherited m) (notified m) (stray m).

(** [kill(pid, signo)], where [-1] is every process *)
Definition kill (m : master) (pid : Z) : master :=
  Master (at_ m) (chld m) (worker m) (fl m) (alive m) (zombies m) (inherited m)
    (notified m ∪ if pid =? -1 then alive m else {[pid]}) (stray m || (pid =? -1)).

(** The stretches of [master_process_cycle]. *)
Definition stop_phase (m : master) : master := go m (if g_shall_stop (fl m) =? 1 then M_send SHUTDOWN_SIGNAL 0 else M_exit).
Definition exit_phase (m : master) : master := go m (if g_shall_exit (fl m) =? 1 then M_send TERMINATE_SIGNAL 0 else M_gone).
(** The loop of [send_signal_to_workers] *)
Definition send_phase (m : master) (signo : Z) (i : nat) (p : process) : master := go m (if valid p then M_kill signo i else M_send signo (S i)).
Definition sent_phase (m : master) (signo : Z) : master :=
  let f := fl m in
  if signo =? SHUTDOWN_SIGNAL then go (set_fl m (Flags 2 (g_shall_exit f) (all_workers_exit f) (shall_create_worker f))) M_exit
  else go (set_fl m (Flags (g_shall_stop f) 2 (all_workers_exit f) (shall_create_worker f))) M_gone.
Definition gone_phase (m : master) : master := go m (if all_workers_exit (fl m) then M_ended else M_create).
Definition create_phase (m : master) : master := go m (if shall_create_worker (fl m) then M_clear else M_scan).
Definition clear_phase (m : master) : master :=
  let f := fl m in go (set_fl m (Flags (g_shall_stop f) (g_shall_exit f) (all_workers_exit f) false)) (M_spawn 0).

(** [fork] in the master: a new process, which inherits the flags *)
Definition forked (m : master) (i : nat) (pid : Z) : master :=
  Master (M_forked i pid) (chld m) (worker m) (fl m) ({[pid]} ∪ alive m) (zombies m)
    (if requested (fl m) then {[pid]} ∪ inherited m else inherited m ∖ {[pid]}) (notified m ∖ {[pid]}) (stray m).

(** The loop itself, while no handler runs. *)
Inductive loop_step : master → master → Prop :=
| step_stop m : at_ m = M_stop → loop_step m (stop_phase m)
| step_exit m : at_ m = M_exit → loop_step m (exit_phase m)
| step_send m signo i p : at_ m = M_send signo i → worker m !! i = Some p → loop_step m (send_phase m signo i p)
| step_kill m signo i p : at_ m = M_kill signo i → worker m !! i = Some p → loop_step m (go (kill m (p_pid p)) (M_send signo (S i)))
| step_sent m signo i : at_ m = M_send signo i → worker m !! i = None → loop_step m (sent_phase m signo)
| step_gone m : at_ m = M_gone → loop_step m (gone_phase m)
| step_create m : at_ m = M_create → loop_step m (create_phase m)
| step_clear m : at_ m = M_clear → loop_step m (clear_phase m)
| step_spawn_end m i : at_ m = M_spawn i → worker m !! i = None → loop_step m (go m M_scan)
| step_spawn_skip m i p : at_ m = M_spawn i → worker m !! i = Some p → valid p = true → loop_step m (go m (M_spawn (S i)))
| step_fork_fail m i p : at_ m = M_spawn i → worker m !! i = Some p → valid p = false → loop_step m (go m (M_spawn (S i)))
| step_fork m i p pid :
    at_ m = M_spawn i → worker m !! i = Some p → valid p = false → 0 < pid → pid ∉ alive m → pid ∉ zombies m →
    loop_step m (forked m i pid)
| step_assign m i p pid :
    at_ m = M_forked i pid → worker m !! i = Some p → loop_step m (go (set_worker m (<[i := set_pid p pid]> (worker m))) (M_spawn (S i)))
| step_scan m : at_ m = M_scan → loop_step m (go m M_stop).

(** The master with its handlers and its children. *)
Inductive master_step : master → master → Prop :=
| step_loop m m' : chld m = None → loop_step m m' → master_step m m'
| step_signal m signo : at_ m ≠ M_ended → master_step m (set_fl m (master_signal_handler (fl m) signo))
| step_child_ends m pid :
    pid ∈ alive m → master_step m (Master (at_ m) (chld m) (worker m) (fl m) (alive m ∖ {[pid]}) ({[pid]} ∪ zombies m) (inherited m) (notified m) (stray m))
| step_reap m pid :
    at_ m ≠ M_ended → chld m = None → pid ∈ zombies m →
    master_step m (Master (at_ m) (Some H_create) (clear_pid (worker m) pid) (fl m) (alive m) (zombies m ∖ {[pid]}) (inherited m) (notified m) (stray m))
| step_note_create m : chld m = Some H_create → master_step m (set_chld (set_fl m (note_create (fl m))) (Some H_gone))
| step_note_gone m : chld m = Some H_gone → master_step m (set_chld (set_fl m (note_gone (worker m) (fl m))) None).

Definition master_start (worker_processes ncpu : Z) : master :=
  Master M_stop None (process_init_table worker_processes ncpu) (Flags 0 0 false true) ∅ ∅ ∅ ∅ false.

(** Handling a SIGCHLD is a sequence of steps of the master. *)
Lemma get_status_steps id strnow pids : ∀ m s w f s',
  at_ m ≠ M_ended → chld m = None → NoDup pids → (∀ p, p ∈ pids → p ∈ zombies m) →
  worker_process_get_status id strnow pids (worker m) (fl m) s = Ok (w, f, s') →
  rtc master_step m (Master (at_ m) None w f (alive m) (zombies m ∖ list_to_set pids) (inherited m) (notified m) (stray m)).
Proof.
  induction pids as [|pid pids IH]; intros m s w f s' Hat Hc Hn Hz; cbn [worker_process_get_status].
  { intros [= <- <- <-]. match goal with |- rtc _ _ ?b => replace b with m; [apply rtc_refl|] end. destruct m. cbn in Hc. subst. cbn. f_equal. set_solver. }
  destruct (signal_log _ _ _ _ _) as [s1| |]; try done. cres_simpl. cbn [worker_exit_handler]. intros E.
  apply NoDup_cons in Hn as [Hni Hn]. eapply rtc_l; [apply (step_reap m pid Hat Hc); apply Hz; by left|].
  eapply rtc_l; [by apply step_note_create|]. eapply rtc_l; [by apply step_note_gone|].
  match goal with |- rtc _ ?m1 _ => pose proof (IH m1 (log_worker_flush_and_reset s1 pid) w f s' Hat eq_refl Hn) as H end. cbn in H.
  match type of H with _ → _ → rtc _ _ ?b => match goal with |- rtc _ _ ?c => replace c with b; [apply H|] end end; [set_solver | exact E | f_equal; set_solver].
Qed.

(** ** Invariant *)

(** A worker that is alive is in the table, or its fork has just returned. *)
Definition tracked (m : master) (pid : Z) : Prop := pid ∈ p_pid <$> worker m ∨ ∃ i, at_ m = M_forked i pid.

(** It is in the part of the table that the loop of [send_signal_to_workers] has not passed. *)
Definition in_turn (m : master) (pid : Z) : Prop :=
  match at_ m with
  | M_send _ i | M_kill _ i => ∃ j p, (i ≤ j)%nat ∧ worker m !! j = Some p ∧ p_pid p = pid
  | _ => False
  end.

(** It will be told to stop before the master looks whether all have gone. *)
Definition will_be_told (m : master) (pid : Z) : Prop :=
  in_turn m pid ∨
  (g_shall_stop (fl m) = 1 ∧ match at_ m with M_forked _ _ | M_spawn _ | M_scan | M_stop => True | _ => False end) ∨
  (g_shall_exit (fl m) = 1 ∧ match at_ m with M_forked _ _ | M_spawn _ | M_scan | M_stop | M_exit => True | _ => False end).

Definition settled (m : master) (pid : Z) : Prop := pid ∈ inherited m ∨ pid ∈ notified m ∨ will_be_told m pid.

Record master_inv (m : master) : Prop := MasterInv {
  mi_positive : ∀ p, p ∈ alive m ∪ zombies m → 0 < p;
  mi_disjoint : alive m ## zombies m;
  mi_tracked : ∀ p, p ∈ alive m → tracked m p;
  mi_forked : ∀ i pid, at_ m = M_forked i pid → ∃ p, worker m !! i = Some p ∧ valid p = false;
  mi_ended : at_ m = M_ended → all_workers_exit (fl m) = true;
  mi_gone : all_workers_exit (fl m) = true → requested (fl m) = true ∧ ∀ p, p ∈ alive m → settled m p;
  mi_told : requested (fl m) = true → ∀ i pid, at_ m = M_forked i pid → pid ∈ alive m → settled m pid;
}.

Definition not_forked (ph : phase) : Prop := match ph with M_forked _ _ => False | _ => True end.

Lemma master_start_inv n ncpu : master_inv (master_start n ncpu).
Proof. split; cbn; try done; set_solver. Qed.

Lemma tracked_table m pid : master_inv m → not_forked (at_ m) → pid ∈ alive m → ∃ j p, worker m !! j = Some p ∧ p_pid p = pid.
Proof.
  intros Hi Hnf Hp. destruct (mi_tracked _ Hi pid Hp) as [(q & -> & (j & Hj)%list_elem_of_lookup)%list_elem_of_fmap|[i E]]; [by exists j, q|].
  by rewrite E in Hnf.
Qed.

(** A step of the loop between two phases other than a fork. *)
Lemma inv_move m m' :
  master_inv m → not_forked (at_ m) → not_forked (at_ m') → worker m' = worker m → alive m' = alive m → zombies m' = zombies m →
  (at_ m' = M_ended → all_workers_exit (fl m') = true) → all_workers_exit (fl m') = all_workers_exit (fl m) →
  (requested (fl m) = true → requested (fl m') = true) →
  (∀ p, p ∈ alive m → settled m p → settled m' p) → master_inv m'.
Proof.
  intros [H1 H2 H3 H4 H5 H6 H7] Hf Hf' Ew Ea Ez Hend Eg Hr Hs. split; rewrite ?Ew, ?Ea, ?Ez, ?Eg; try done.
  - intros p Hp. destruct (H3 p Hp) as [Ht|[i E]]; [left; by rewrite Ew | by rewrite E in Hf].
  - intros i pid E. by rewrite E in Hf'.
  - by rewrite <-Eg.
  - intros Hg. destruct (H6 Hg) as [Hreq Hall]. split; [by apply Hr|]. intros p Hp. by apply Hs; [|apply Hall].
  - intros _ i pid E. by rewrite E in Hf'.
Qed.

(** The steps that touch neither the flags nor the sets of processes. *)
Lemma inv_go m ph :
  master_inv m → not_forked (at_ m) → not_forked ph → (ph = M_ended → all_workers_exit (fl m) = true) →
  (∀ p, p ∈ alive m → will_be_told m p → will_be_told (go m ph) p) → master_inv (go m ph).
Proof.
  intros Hi Hnf Hph Hend Hw. eapply inv_move; try done. intros p Hp [?|[?|?]]; [by left | right; by left | right; right; by apply Hw].
Qed.

Lemma inv_stop m : master_inv m → at_ m = M_stop → master_inv (stop_phase m).
Proof.
  intros Hi Hat. unfold stop_phase. assert (Hnf : not_forked (at_ m)) by (by rewrite Hat). destruct (g_shall_stop (fl m) =? 1) eqn:E.
  - apply inv_go; try done. intros p Hp _. left. destruct (tracked_table m p Hi Hnf Hp) as (j & q & Hj & Eq). exists j, q. split; [lia|done].
  - apply inv_go; try done. apply Z.eqb_neq in E. intros p _. unfold will_be_told, in_turn. rewrite Hat. cbn. tauto.
Qed.

Lemma inv_exit m : master_inv m → at_ m = M_exit → master_inv (exit_phase m).
Proof.
  intros Hi Hat. unfold exit_phase. assert (Hnf : not_forked (at_ m)) by (by rewrite Hat). destruct (g_shall_exit (fl m) =? 1) eqn:E.
  - apply inv_go; try done. intros p Hp _. left. destruct (tracked_table m p Hi Hnf Hp) as (j & q & Hj & Eq). exists j, q. split; [lia|done].
  - apply inv_go; try done. apply Z.eqb_neq in E. intros p _. unfold will_be_told, in_turn. rewrite Hat. cbn. tauto.
Qed.

Lemma inv_send m signo i p : master_inv m → at_ m = M_send signo i → worker m !! i = Some p → master_inv (send_phase m signo i p).
Proof.
  intros Hi Hat Hw. unfold send_phase. assert (Hnf : not_forked (at_ m)) by (by rewrite Hat). destruct (valid p) eqn:E.
  - apply inv_go; try done. intros q _. unfold will_be_told, in_turn. rewrite Hat. cbn. tauto.
  - apply inv_go; try done. intros q Hq. unfold will_be_told, in_turn. rewrite Hat. cbn. intros [(j & r & Hj & Hr & <-)|H]; [|tauto].
    left. exists j, r. split; [|done]. destruct (decide (j = i)) as [->|]; [|lia]. assert (r = p) as -> by congruence.
    assert (0 < p_pid p) by (apply (mi_positive _ Hi); set_solver). unfold valid, INVALID_PID in E. apply negb_false_iff, Z.eqb_eq in E. lia.
Qed.

Lemma inv_kill m signo i p : master_inv m → at_ m = M_kill signo i → worker m !! i = Some p → master_inv (go (kill m (p_pid p)) (M_send signo (S i))).
Proof.
  intros Hi Hat Hw. assert (Hnf : not_forked (at_ m)) by (by rewrite Hat). eapply inv_move; try done.
  intros q Hq [?|[?|Ht]]; [by left | right; left; cbn; set_solver|]. unfold will_be_told, in_turn in Ht. rewrite Hat in Ht. cbn in Ht.
  destruct Ht as [(j & r & Hj & Hr & <-)|Ht]; [|tauto]. right. destruct (decide (j = i)) as [->|]; [|right; left; exists j, r; split; [lia|done]].
  left. assert (r = p) as -> by congruence. assert (0 < p_pid p) by (apply (mi_positive _ Hi); set_solver).
  cbn. rewrite (proj2 (Z.eqb_neq _ _)) by lia. set_solver.
Qed.

Lemma inv_sent m signo i : master_inv m → at_ m = M_send signo i → worker m !! i = None → master_inv (sent_phase m signo).
Proof.
  intros Hi Hat Hw. assert (Hnf : not_forked (at_ m)) by (by rewrite Hat).
  assert (Hno : ∀ p, ¬ will_be_told m p).
  { intros p. unfold will_be_told, in_turn. rewrite Hat. intros [(j & r & Hj & Hr & _)|H]; [|tauto].
    apply lookup_lt_Some in Hr. apply lookup_ge_None in Hw. lia. }
  unfold sent_phase. destruct (signo =? SHUTDOWN_SIGNAL); eapply inv_move; try done;
    first [by unfold requested; cbn; rewrite ?orb_true_r | intros p _ [?|[?|Ht]]; [by left | right; by left | by destruct (Hno p)]].
Qed.

Lemma inv_gone m : master_inv m → at_ m = M_gone → master_inv (gone_phase m).
Proof.
  intros Hi Hat. unfold gone_phase. apply inv_go; try done; [by rewrite Hat | by destruct (all_workers_exit (fl m)) | by destruct (all_workers_exit (fl m)) |].
  unfold will_be_told, in_turn. rewrite Hat. cbn. tauto.
Qed.

Lemma inv_create m : master_inv m → at_ m = M_create → master_inv (create_phase m).
Proof.
  intros Hi Hat. unfold create_phase. apply inv_go; try done; [by rewrite Hat | by destruct (shall_create_worker (fl m)) | by destruct (shall_create_worker (fl m)) |].
  unfold will_be_told, in_turn. rewrite Hat. cbn. tauto.
Qed.

Lemma inv_clear m : master_inv m → at_ m = M_clear → master_inv (clear_phase m).
Proof.
  intros Hi Hat. eapply inv_move; try done; [by rewrite Hat|]. intros p _ [?|[?|Ht]]; [by left | right; by left|].
  unfold will_be_told, in_turn in Ht. rewrite Hat in Ht. tauto.
Qed.

Lemma inv_fork m i p pid :
  master_inv m → at_ m = M_spawn i → worker m !! i = Some p → valid p = false → 0 < pid → pid ∉ alive m → pid ∉ zombies m →
  master_inv (forked m i pid).
Proof.
  intros [H1 H2 H3 H4 H5 H6 H7] Hat Hw Hv Hpos Ha Hz. split; cbn.
  - set_solver.
  - set_solver.
  - intros q [->%elem_of_singleton|Hq]%elem_of_union; [right; by exists i|]. destruct (H3 q Hq) as [?|[j E]]; [by left | by rewrite Hat in E].
  - intros j pid' [= <- <-]. by exists p.
  - done.
  - intros Hg. destruct (H6 Hg) as [Hr Hs]. split; [done|]. unfold settled. cbn. rewrite Hr. intros q [->%elem_of_singleton|Hq]%elem_of_union; [left; set_solver|].
    assert (q ≠ pid) by (intros ->; done). destruct (Hs q Hq) as [?|[?|Hw2]]; [left; set_solver | right; left; set_solver | right; right].
    unfold will_be_told, in_turn in *. rewrite Hat in Hw2. cbn. tauto.
  - intros Hr j pid' [= <- <-] _. left. cbn. rewrite Hr. set_solver.
Qed.

Lemma inv_assign m i p pid :
  master_inv m → at_ m = M_forked i pid → worker m !! i = Some p →
  master_inv (go (set_worker m (<[i := set_pid p pid]> (worker m))) (M_spawn (S i))).
Proof.
  intros [H1 H2 H3 H4 H5 H6 H7] Hat Hw. destruct (H4 i pid Hat) as (p' & Hw' & Hv). assert (p' = p) as -> by congruence. split; cbn [go set_worker at_ worker fl alive zombies inherited notified]; try done.
  - intros q Hq. left. cbn [go set_worker worker]. assert (Hlt : (i < length (worker m))%nat) by (by eapply lookup_lt_Some). destruct (H3 q Hq) as [(r & -> & (j & Hj)%list_elem_of_lookup)%list_elem_of_fmap|[j E]].
    + apply list_elem_of_fmap. exists r. split; [done|]. apply list_elem_of_lookup. exists j. rewrite list_lookup_insert_ne; [done|]. intros <-.
      assert (r = p) as -> by congruence. assert (0 < p_pid p) by (apply H1; set_solver). unfold valid, INVALID_PID in Hv. apply negb_false_iff, Z.eqb_eq in Hv. lia.
    + rewrite Hat in E. injection E as _ <-. apply list_elem_of_fmap. exists (set_pid p pid). split; [done|]. apply list_elem_of_lookup. exists i. by apply list_lookup_insert_eq.
  - intros Hg. destruct (H6 Hg) as [Hr Hs]. split; [done|]. intros q Hq. destruct (Hs q Hq) as [?|[?|Hw2]]; [by left | right; by left | right; right].
    unfold will_be_told, in_turn in *. rewrite Hat in Hw2. cbn. tauto.
Qed.

Lemma loop_step_inv m m' : master_inv m → loop_step m m' → master_inv m'.
Proof.
  intros Hi Hst. destruct Hst as [m Hat|m Hat|m signo i p Hat Hw|m signo i p Hat Hw|m signo i Hat Hw|m Hat|m Hat|m Hat|m i Hat Hw|m i p Hat Hw Hv|m i p Hat Hw Hv|m i p pid Hat Hw Hv Hp Ha Hz|m i p pid Hat Hw|m Hat].
  - by apply inv_stop.
  - by apply inv_exit.
  - by eapply inv_send.
  - by eapply inv_kill.
  - by eapply inv_sent.
  - by apply inv_gone.
  - by apply inv_create.
  - by apply inv_clear.
  - apply inv_go; try done; [by rewrite Hat|]. unfold will_be_told, in_turn. rewrite Hat. cbn. tauto.
  - apply inv_go; try done; [by rewrite Hat|]. unfold will_be_told, in_turn. rewrite Hat. cbn. tauto.
  - apply inv_go; try done; [by rewrite Hat|]. unfold will_be_told, in_turn. rewrite Hat. cbn. tauto.
  - by eapply inv_fork.
  - by apply inv_assign.
  - apply inv_go; try done; [by rewrite Hat|]. unfold will_be_told, in_turn. rewrite Hat. cbn. tauto.
Qed.

Lemma inv_signal m signo : master_inv m → at_ m ≠ M_ended → master_inv (set_fl m (master_signal_handler (fl m) signo)).
Proof.
  intros [H1 H2 H3 H4 H5 H6 H7] Hend. set (f := master_signal_handler (fl m) signo).
  assert (Hf : all_workers_exit f = all_workers_exit (fl m) ∧ (requested (fl m) = true → requested f = true) ∧
    (∀ p, will_be_told m p → will_be_told (set_fl m f) p) ∧
    (requested f = true → requested (fl m) = true ∨ (g_shall_stop f = 1 ∨ g_shall_exit f = 1))).
  { unfold f, master_signal_handler, requested, will_be_told, in_turn. destruct (signo =? SIGQUIT); [|destruct ((signo =? SIGTERM) || (signo =? SIGINT))]; cbn;
      (split; [done|]; split; [rewrite ?orb_true_r; tauto|]; split; [tauto|]); tauto. }
  clearbody f. destruct Hf as (Hg & Hr & Hw & Hn). split; cbn; try done.
  - rewrite Hg. intros Hgone. destruct (H6 Hgone) as [Hreq Hs]. split; [by apply Hr|]. intros p Hp. destruct (Hs p Hp) as [?|[?|?]]; [by left | right; by left | right; right; by apply Hw].
  - intros Hreq i pid Hat Hp. destruct (Hn Hreq) as [Hold|Hone].
    + destruct (H7 Hold i pid Hat Hp) as [?|[?|?]]; [by left | right; by left | right; right; by apply Hw].
    + right; right. unfold will_be_told. cbn. rewrite Hat. tauto.
Qed.

(** Clearing the entry of a process that is not alive leaves the others in their places. *)
Lemma clear_lookup w pid j p : w !! j = Some p → p_pid p ≠ pid → clear_pid w pid !! j = Some p.
Proof. intros Hj Hne. unfold clear_pid. rewrite list_lookup_fmap, Hj. cbn. by rewrite (proj2 (Z.eqb_neq _ _)). Qed.

Lemma inv_reap m pid :
  master_inv m → pid ∈ zombies m →
  master_inv (Master (at_ m) (Some H_create) (clear_pid (worker m) pid) (fl m) (alive m) (zombies m ∖ {[pid]}) (inherited m) (notified m) (stray m)).
Proof.
  intros [H1 H2 H3 H4 H5 H6 H7] Hz. set (m' := Master _ _ _ _ _ _ _ _ _).
  assert (Hs : ∀ p, p ∈ alive m → settled m p → settled m' p).
  { intros p Hp [?|[?|Ht]]; [by left | right; by left | right; right]. destruct Ht as [Ht|Ht]; [left | by right]. unfold in_turn in *. cbn.
    destruct (at_ m); try done; destruct Ht as (j & q & Hj & Hq & Eq); exists j, q; (split; [done|]); (split; [|done]); apply clear_lookup; [done|set_solver|done|set_solver]. }
  split; cbn; try done.
  - set_solver.
  - set_solver.
  - intros p Hp. destruct (H3 p Hp) as [(q & -> & (j & Hj)%list_elem_of_lookup)%list_elem_of_fmap|?]; [left | by right].
    apply list_elem_of_fmap. exists q. split; [done|]. apply list_elem_of_lookup. exists j. apply clear_lookup; [done|set_solver].
  - intros i pid' Hat. destruct (H4 i pid' Hat) as (p & Hp & Hv). exists (if p_pid p =? pid then set_pid p INVALID_PID else p). unfold clear_pid. rewrite list_lookup_fmap, Hp.
    split; [done|]. by destruct (p_pid p =? pid).
  - intros Hg. destruct (H6 Hg) as [Hr Hall]. split; [done|]. intros p Hp. by apply Hs, Hall.
  - intros Hr i p Hat Hp. by apply Hs, (H7 Hr i p Hat).
Qed.

Lemma inv_note_create m : master_inv m → master_inv (set_chld (set_fl m (note_create (fl m))) (Some H_gone)).
Proof. intros [H1 H2 H3 H4 H5 H6 H7]. unfold note_create. destruct (negb (requested (fl m))); by split. Qed.

Lemma inv_note_gone m : master_inv m → master_inv (set_chld (set_fl m (note_gone (worker m) (fl m))) None).
Proof.
  intros [H1 H2 H3 H4 H5 H6 H7]. unfold note_gone. destruct (worker_empty (worker m) && requested (fl m)) eqn:E; [|by split].
  apply andb_true_iff in E as [Ew Er]. split; cbn; try done. intros _. split; [done|]. intros p Hp.
  destruct (H3 p Hp) as [(q & -> & Hq)%list_elem_of_fmap|[i Hat]]; [|exact (H7 Er i p Hat Hp)].
  exfalso. unfold worker_empty in Ew. rewrite forallb_forall in Ew. specialize (Ew q (proj1 (list_elem_of_In _ _) Hq)).
  assert (0 < p_pid q) by (apply H1; set_solver). unfold valid, INVALID_PID in Ew. rewrite negb_involutive in Ew. apply Z.eqb_eq in Ew. lia.
Qed.

Lemma inv_child_ends m pid :
  pid ∈ alive m → master_inv m →
  master_inv (Master (at_ m) (chld m) (worker m) (fl m) (alive m ∖ {[pid]}) ({[pid]} ∪ zombies m) (inherited m) (notified m) (stray m)).
Proof.
  intros Hp [H1 H2 H3 H4 H5 H6 H7]. split; cbn; try done.
  - intros p Hin. apply H1. set_solver.
  - set_solver.
  - intros p Hin. apply H3. set_solver.
  - intros Hg. destruct (H6 Hg) as [Hr Hs]. split; [done|]. intros q Hq. apply Hs. set_solver.
  - intros Hr i q Hat Hq. apply (H7 Hr i q Hat). set_solver.
Qed.

Lemma master_step_inv m m' : master_inv m → master_step m m' → master_inv m'.
Proof.
  intros Hi Hst. destruct Hst as [m m' Hc Hst|m signo Hat|m pid Hp|m pid Hat Hc Hz|m Hc|m Hc].
  - by eapply loop_step_inv.
  - by apply inv_signal.
  - by apply inv_child_ends.
  - by apply inv_reap.
  - by apply inv_note_create.
  - by apply inv_note_gone.
Qed.

Lemma master_reach_inv m m' : master_inv m → rtc master_step m m' → master_inv m'.
Proof. intros Hi Hr. induction Hr as [|m m1 m' Hs _ IH]; [done|]. apply IH. by eapply master_step_inv. Qed.

(** C19: the master does not abandon its workers.  However signals, forks and the ends of
    workers interleave, when the master has left its loop every worker that is still alive
    was forked after the request to stop, and so has seen it, or has been sent the signal to
    stop or to exit. *)
Theorem master_exit_safe n ncpu m :
  rtc master_step (master_start n ncpu) m → at_ m = M_ended → ∀ pid, pid ∈ alive m → pid ∈ inherited m ∨ pid ∈ notified m.
Proof.
  intros Hr Hat pid Hp. pose proof (master_reach_inv _ _ (master_start_inv n ncpu) Hr) as Hi.
  destruct (mi_gone _ Hi (mi_ended _ Hi Hat)) as [_ Hs]. destruct (Hs pid Hp) as [?|[?|Hw]]; [by left | by right|].
  unfold will_be_told, in_turn in Hw. rewrite Hat in Hw. tauto.
Qed.

(** ** Stopping without workers *)

(** No worker is left whose end could tell the master that all have gone, and none will be
    made: [vacant] is what keeps the master from forking where it is. *)
Definition deserted (vacant : master → Prop) (m : master) : Prop :=
  alive m = ∅ ∧ zombies m = ∅ ∧ chld m = None ∧ all_workers_exit (fl m) = false ∧
  match at_ m with M_forked _ _ | M_ended => False | _ => True end ∧ vacant m.

(** The table has no entry to fork for. *)
Definition no_entry (m : master) : Prop := worker m = [].
(** The flag is off, and the master is not about to make workers. *)
Definition none_wanted (m : master) : Prop :=
  shall_create_worker (fl m) = false ∧ match at_ m with M_clear | M_forked _ _ => False | M_spawn i => worker m !! i = None | _ => True end.

Section Deserted.
  Context (vacant : master → Prop).
  Hypothesis vacant_loop : ∀ m m', vacant m → alive m = ∅ → loop_step m m' → (∀ i pid, at_ m' ≠ M_forked i pid) → vacant m'.
  Hypothesis vacant_fork : ∀ m i p, vacant m → at_ m = M_spawn i → worker m !! i = Some p → False.
  Hypothesis vacant_signal : ∀ m signo, vacant m → vacant (set_fl m (master_signal_handler (fl m) signo)).

Lemma deserted_step m m' : deserted vacant m → master_step m m' → deserted vacant m'.
Proof using vacant_loop vacant_fork vacant_signal.
  intros (Ha & Hz & Hc & Hg & Hat & Hv) Hst. destruct Hst as [m m' _ Hst|m signo E|m pid Hp|m pid E _ Hp|m E|m E].
  - assert (Hk : alive m' = ∅ ∧ zombies m' = ∅ ∧ chld m' = None ∧ all_workers_exit (fl m') = false ∧ match at_ m' with M_forked _ _ | M_ended => False | _ => True end).
    { destruct Hst as [m E|m E|m signo i p E Hw|m signo i p E Hw|m signo i E Hw|m E|m E|m E|m i E Hw|m i p E Hw Hp|m i p E Hw Hp|m i p pid E Hw Hp _ _ _|m i p pid E Hw|m E];
        try (exfalso; by eapply vacant_fork); try (by rewrite E in Hat); try by split_and!.
      - unfold stop_phase. by destruct (_ =? _).
      - unfold exit_phase. by destruct (_ =? _).
      - unfold send_phase. by destruct (valid p).
      - unfold sent_phase. by destruct (_ =? _).
      - unfold gone_phase. by rewrite Hg.
      - unfold create_phase. by destruct (shall_create_worker _). }
    destruct Hk as (? & ? & ? & ? & Hat'). split_and!; try done. eapply vacant_loop; try done. intros i pid E. by rewrite E in Hat'.
  - split_and!; try done; [|by apply vacant_signal]. cbn. unfold master_signal_handler. by destruct (signo =? SIGQUIT), ((signo =? SIGTERM) || (signo =? SIGINT)).
  - set_solver.
  - set_solver.
  - by rewrite Hc in E.
  - by rewrite Hc in E.
Qed.

Lemma deserted_forever m m' : deserted vacant m → rtc master_step m m' → at_ m' ≠ M_ended.
Proof using vacant_loop vacant_fork vacant_signal.
  intros Hd Hr. assert (deserted vacant m') as (_ & _ & _ & _ & Hat & _).
  { induction Hr as [|m m1 m' Hs _ IH]; [done|]. apply IH. by eapply deserted_step. }
  intros E. by rewrite E in Hat.
Qed.
End Deserted.

(** With no worker processes, which the configuration allows, the master does not end when
    it is told to stop or to exit. *)
Theorem stop_without_workers ncpu m :
  rtc master_step (master_start 0 ncpu) m → at_ m ≠ M_ended.
Proof.
  apply (deserted_forever no_entry); [| | done | by split_and!].
  - unfold no_entry. intros m1 m2 Hw _ Hst _. destruct Hst; try done; cbn.
    + unfold sent_phase. by destruct (_ =? _).
    + by rewrite Hw.
  - unfold no_entry. intros m1 i p Hw _ Hi. by rewrite Hw in Hi.
Qed.

Lemma none_wanted_forever m m' : deserted none_wanted m → rtc master_step m m' → at_ m' ≠ M_ended.
Proof.
  apply deserted_forever.
  - intros m1 m2 [Hc Hat] _ Hst Hnf. destruct Hst as [m1 E|m1 E|m1 signo i p E Hw|m1 signo i p E Hw|m1 signo i E Hw|m1 E|m1 E|m1 E|m1 i E Hw|m1 i p E Hw Hp|m1 i p E Hw Hp|m1 i p pid E Hw Hp _ _ _|m1 i p pid E Hw|m1 E];
      try (by rewrite E in Hat); try by (rewrite E, Hw in Hat); try (by split).
    + split; [done|]. cbn. by destruct (_ =? _).
    + split; [done|]. cbn. by destruct (_ =? _).
    + split; [done|]. cbn. by destruct (valid p).
    + unfold sent_phase. by destruct (_ =? _).
    + split; [done|]. cbn. by destruct (all_workers_exit _).
    + split; [done|]. cbn. by rewrite Hc.
  - intros m1 i p [_ Hat] E Hw. by rewrite E, Hw in Hat.
  - intros m1 signo [Hc Hat]. split; [|done]. cbn. unfold master_signal_handler. by destruct (signo =? SIGQUIT), ((signo =? SIGTERM) || (signo =? SIGINT)).
Qed.

(** Runs of the master: the next step of the loop, the end of a worker with the handler for
    it, the end of the run, and the first fork. *)
Tactic Notation "run_loop" open_constr(H) := eapply rtc_l; [apply step_loop; [reflexivity | by eapply H]|].
Ltac run_reap pid :=
  eapply rtc_l; [apply (step_child_ends _ pid); cbn; set_solver|]; eapply rtc_l; [apply (step_reap _ pid); [done | done | cbn; set_solver]|];
  eapply rtc_l; [by apply step_note_create|]; eapply rtc_l; [by apply step_note_gone|].
Ltac run_end := match goal with |- rtc _ ?a ?b => replace b with a by (vm_compute; reflexivity) end; apply rtc_refl.
Ltac run_to_fork pid :=
  run_loop step_stop; run_loop step_exit; run_loop step_gone; run_loop step_create; run_loop step_clear;
  run_loop (step_fork _ 0 (Process (-1) 0) pid).

(** If a worker ends and is reaped before the master has stored its process number, the
    number stays in the table: the worker is never replaced, and the master never ends. *)
Theorem lost_worker :
  ∃ m, rtc master_step (master_start 1 1) m ∧ p_pid <$> worker m = [7] ∧ alive m = ∅ ∧ ∀ m', rtc master_step m m' → at_ m' ≠ M_ended.
Proof.
  set (w := [Process 7 0]). exists (Master M_stop None w (Flags 0 0 false false) ∅ ∅ ∅ ∅ false).
  split; [|split; [done|]; split; [done|]; intros m'; apply none_wanted_forever; by split_and!].
  run_to_fork 7. run_reap 7. run_loop (step_assign _ 0 (Process (-1) 0) 7). run_loop (step_spawn_end _ 1). run_loop step_scan.
  run_loop step_stop. run_loop step_exit. run_loop step_gone. run_loop step_create. run_loop step_clear.
  run_loop (step_spawn_skip _ 0 (Process 7 0)). run_loop (step_spawn_end _ 1). run_loop step_scan. run_end.
Qed.

(** The entry of a worker that is reaped between the test in [send_signal_to_workers] and the
    call of [kill] is then [INVALID_PID], which for [kill] means every process. *)
Theorem stray_signal : ∃ m, rtc master_step (master_start 1 1) m ∧ stray m = true.
Proof.
  eexists. split.
  { run_to_fork 7. run_loop (step_assign _ 0 (Process (-1) 0) 7). run_loop (step_spawn_end _ 1). run_loop step_scan.
    eapply rtc_l; [by apply (step_signal _ SIGQUIT)|]. run_loop step_stop. run_loop (step_send _ SIGQUIT 0 (Process 7 0)). run_reap 7.
    run_loop (step_kill _ SIGQUIT 0 (Process (-1) 0)). apply rtc_refl. }
  vm_compute. reflexivity.
Qed.

(** ** A worker *)

(** [connection_count], whether [worker_accept_cycle] still runs, the open connections, and
    whether the process has ended. *)
Record wstate : Type := Worker { connection_count : Z; accepting : bool; open_ : gset Z; ended : bool }.

Definition increase_conn (s : wstate) : wstate := Worker (connection_count s + 1) (accepting s) (open_ s) (ended s).
Definition decrease_conn_and_check (s : wstate) : wstate :=
  let n := connection_count s - 1 in Worker n (accepting s) (open_ s) (if n =? 0 then true else ended s).

Definition worker_can_accept (s : wstate) (g_worker_connections : Z) : bool := connection_count s <? g_worker_connections.

(** [worker_accept]: with several processes only under the lock; 0 stands for not now. *)
Definition worker_accept (s : wstate) (g_worker_processes g_worker_connections : Z) (got_lock : bool) (accepted : Z) : Z :=
  if g_worker_processes >? 1 then
    if worker_can_accept s g_worker_connections && got_lock then accepted else 0
  else accepted.

(** One turn of [worker_accept_cycle] with what [worker_accept] returns and whether the
    dispatch succeeds; [handle_connection] at its end. *)
Definition accept_turn (s : wstate) (stop force : bool) (connfd : Z) (dispatched : bool) : wstate :=
  if stop then decrease_conn_and_check (Worker (connection_count s) false (open_ s) (ended s)) else
  if force then Worker (connection_count s) (accepting s) (open_ s) true else
  if connfd >? 0 then
    if dispatched then increase_conn (Worker (connection_count s) (accepting s) ({[connfd]} ∪ open_ s) (ended s)) else s
  else s.
Definition handle_connection_end (s : wstate) (connfd : Z) : wstate :=
  decrease_conn_and_check (Worker (connection_count s) (accepting s) (open_ s ∖ {[connfd]}) (ended s)).

(** The scheduler has [limit] coroutines, [g_worker_connections] of them: a dispatch beyond it
    fails. *)
Inductive worker_step (procs limit : Z) (force : bool) : wstate → wstate → Prop :=
| w_turn s stop got_lock accepted d :
    ended s = false → accepting s = true → accepted ∉ open_ s → (d = true → 1 + Z.of_nat (size (open_ s)) < limit) →
    worker_step procs limit force s (accept_turn s stop force (worker_accept s procs limit got_lock accepted) d)
| w_handled s connfd : ended s = false → connfd ∈ open_ s → worker_step procs limit force s (handle_connection_end s connfd).

Definition worker_start : wstate := Worker 1 true ∅ false.

Record worker_inv (limit : Z) (s : wstate) : Prop := WorkerInv {
  wi_count : connection_count s = (if accepting s then 1 else 0) + Z.of_nat (size (open_ s));
  wi_limit : connection_count s ≤ limit;
  wi_ended : ended s = true ↔ connection_count s = 0;
}.

Lemma turn_inv limit s stop connfd d :
  worker_inv limit s → ended s = false → accepting s = true → (connfd > 0 → connfd ∉ open_ s) → (d = true → 1 + Z.of_nat (size (open_ s)) < limit) →
  worker_inv limit (accept_turn s stop false connfd d).
Proof.
  intros [Hc Hlim He] Hend Hacc Hno Hd. unfold accept_turn. rewrite Hacc in *. destruct stop.
  - unfold decrease_conn_and_check. cbn. split; cbn; [lia | lia |]. rewrite Hend. destruct (_ =? 0) eqn:E; bool_to_prop; [by split|]. split; [done|lia].
  - destruct (connfd >? 0) eqn:E0; [|split; try done; by rewrite Hacc]. destruct d; [|split; try done; by rewrite Hacc].
    rewrite Z.gtb_ltb in E0. apply Z.ltb_lt in E0. specialize (Hno ltac:(lia)). specialize (Hd eq_refl).
    unfold increase_conn. split; cbn; rewrite ?Hacc; rewrite ?size_union, ?size_singleton by set_solver; try lia. rewrite Hend. split; [done|lia].
Qed.

Lemma worker_step_inv procs limit s s' : 1 ≤ limit → worker_inv limit s → worker_step procs limit false s s' → worker_inv limit s'.
Proof.
  intros Hl Hi Hst. destruct Hst as [s stop got_lock accepted d Hend Hacc Hno Hd|s connfd Hend Hin].
  - apply turn_inv; try done. unfold worker_accept. destruct (_ >? 1); [|done]. by destruct (_ && _).
  - destruct Hi as [Hc Hlim He]. unfold handle_connection_end, decrease_conn_and_check. cbn.
    assert (Hsz : size (open_ s) = S (size (open_ s ∖ {[connfd]}))).
    { rewrite (union_difference_singleton_L connfd (open_ s)) at 1 by done. rewrite size_union, size_singleton by set_solver. done. }
    split; cbn; [lia | lia |]. rewrite Hend. destruct (_ =? 0) eqn:E; bool_to_prop; [by split|]. split; [done|lia].
Qed.

(** C30: a worker told to stop finishes its work: [connection_count] is the number of open
    connections, plus one while it accepts new ones, and never exceeds the number of
    coroutines; the process ends exactly when it has stopped accepting and its last
    connection is closed. *)
Theorem worker_drains procs limit s :
  1 ≤ limit → rtc (worker_step procs limit false) worker_start s →
  connection_count s = (if accepting s then 1 else 0) + Z.of_nat (size (open_ s)) ∧ connection_count s ≤ limit ∧
  (ended s = true ↔ accepting s = false ∧ open_ s = ∅).
Proof.
  intros Hl Hr. assert (worker_inv limit s) as [Hc Hlim He].
  { assert (H0 : worker_inv limit worker_start) by (split; cbn; rewrite ?size_empty; lia || done). revert H0.
    induction Hr as [|s s1 s' Hs _ IH]; [done|]. intros Hi. apply IH. by eapply worker_step_inv. }
  split_and!; try done. rewrite He, Hc. split.
  - intros H0. destruct (accepting s); [lia|]. split; [done|]. apply leibniz_equiv, size_empty_inv. lia.
  - intros [-> ->]. by rewrite size_empty.
Qed.

(** ** Commands *)

(** [main]: what the program does for its arguments. *)
Inductive command : Type := Usage | Show_conf | Send (signo : Z) | Unknown | Start.

Definition main_command (argv : list (list Z)) : command :=
  match argv with
  | [_; a] =>
    if str_equal a (str "conf") then Show_conf else
    if str_equal a (str "stop") then Send SHUTDOWN_SIGNAL else
    if str_equal a (str "exit") then Send TERMINATE_SIGNAL else
    if negb (str_equal a (str "start")) then Unknown else Start
  | _ => Usage
  end.

(** ** Witnesses *)

(** One worker is forked and runs; the server is stopped, the worker is told and ends. *)
Lemma master_exit_safe_witness :
  ∃ m, at_ m = M_ended ∧ notified m = {[7]} ∧ ∀ pid, pid ∈ alive m → pid ∈ inherited m ∨ pid ∈ notified m.
Proof.
  exists (Master M_ended None [Process (-1) 0] (Flags 2 0 true false) ∅ ∅ ∅ {[7]} false). split; [reflexivity|]. split; [reflexivity|].
  apply (master_exit_safe 1 1); [|reflexivity].
  run_to_fork 7. run_loop (step_assign _ 0 (Process (-1) 0) 7). run_loop (step_spawn_end _ 1). run_loop step_scan.
  eapply rtc_l; [by apply (step_signal _ SIGQUIT)|]. run_loop step_stop. run_loop (step_send _ SIGQUIT 0 (Process 7 0)). run_loop (step_kill _ SIGQUIT 0 (Process 7 0)).
  run_loop (step_sent _ SIGQUIT 1). run_loop step_exit. run_reap 7. run_loop step_gone. run_end.
Defined.

(** A connection is accepted, the worker is told to stop, the connection is served. *)
Definition worker_done : wstate := handle_connection_end (accept_turn (accept_turn worker_start false false 9 true) true false 0 false) 9.

Lemma worker_drains_witness :
  connection_count worker_done = (if accepting worker_done then 1 else 0) + Z.of_nat (size (open_ worker_done)) ∧ connection_count worker_done ≤ 4 ∧
  (ended worker_done = true ↔ accepting worker_done = false ∧ open_ worker_done = ∅).
Proof.
  apply (worker_drains 2 4 worker_done); [lia|].
  eapply rtc_l; [apply (w_turn 2 4 false _ false true 9 true); [done | done | set_solver | done]|].
  eapply rtc_l; [apply (w_turn 2 4 false _ true false 0 false); [done | done | cbn; set_solver | done]|].
  apply rtc_once, w_handled; [done | cbn; set_solver].
Defined.
