(* ===== verification/System.v ===== *)
(** The rest of [src/util/system.c] and the installation of the signal handlers in
    [src/signal.c]: what runs before [main] and what only asks the system.

    The kernel is a state that the calls change; the resource limits and the dispositions of
    signals are interfaces with the laws that their manual pages give. *)

From stdpp Require Import base gmap list numbers strings.
From Stdlib Require Import ZArith Lia.
From S2P Require Import Prelude CStr Conf Env Cirbuf Logger LoggerProps Process.

(** ** Processor, daemon, file with the process number *)

(** [CPU_ZERO], [CPU_SET]: a set of processor numbers; one outside [CPU_SETSIZE] is ignored. *)
Definition CPU_SETSIZE : Z := 1024.
Definition CPU_SET (cpu : Z) (mask : gset Z) : gset Z := if (0 <=? cpu) && (cpu <? CPU_SETSIZE) then {[cpu]} ∪ mask else mask.

Definition bind_cpu (sched_setaffinity : gset Z → Z) (cpuid : Z) : Z :=
  let mask := CPU_SET cpuid ∅ in
  if sched_setaffinity mask =? -1 then -1 else 0.

(** [fork] gives the parent a positive number, and [-1] if there is no child. *)
Definition sys_daemon (fork : Z) : cproc unit := if fork >? 0 then pexit 0 else pret tt.

(** The contents of the file, if there is one; whether [stat] and [remove] succeed. *)
Definition delete_pidfile (stat_ok remove_ok : bool) (file : option (list Z)) : option (list Z) :=
  if stat_ok then if remove_ok then None else file else file.

(** ** Resource limits *)

Definition RLIMIT_CORE : Z := 4.
Definition RLIMIT_NOFILE : Z := 7.
Definition RLIM_INFINITY : Z := 2 ^ 64 - 1.

Record rlimit : Type := Rlimit { rlim_cur : Z; rlim_max : Z }.

(** [None] where the call fails *)
Class Limits (K : Type) : Type := {
  getrlimit : K → Z → option rlimit;
  setrlimit : K → Z → rlimit → option K
}.

(** setrlimit(2) *)
Class LimitLaws (K : Type) `{!Limits K} : Prop := {
  setrlimit_same (k k' : K) res l : setrlimit k res l = Some k' → getrlimit k' res = Some l;
  setrlimit_other (k k' : K) res res' l : setrlimit k res l = Some k' → res' ≠ res → getrlimit k' res' = getrlimit k res'
}.

(** A process without privileges may lower its hard limits, not raise them. *)
Definition unprivileged {K} `{!Limits K} : Prop :=
  ∀ (k : K) res l old, getrlimit k res = Some old → rlim_cur l ≤ rlim_max l → (is_Some (setrlimit k res l) ↔ rlim_max l ≤ rlim_max old).

Section Limits.
  Context {K : Type} `{!Limits K, !LimitLaws K}.

Definition set_limit (k : K) (res value : Z) : cproc K :=
  match getrlimit k res with
  | None => pret k
  | Some _ =>
    match setrlimit k res (Rlimit value value) with
    | None => pexit 0
    | Some k => pret k
    end
  end.

Definition sys_rlimit_init (k : K) : cproc K :=
  k ⇐ set_limit k RLIMIT_NOFILE 100000;
  set_limit k RLIMIT_CORE RLIM_INFINITY.

(** [sysconf] yields a [long], stored in an [int]. *)
Definition system_init (sysconf_pagesize sysconf_nprocessors : Z) (k : K) : cproc (Z * Z * K) :=
  let page_size := i32 sysconf_pagesize in
  let cpu_num := i32 sysconf_nprocessors in
  k ⇐ sys_rlimit_init k;
  pret (page_size, cpu_num, k).

Lemma set_limit_cases k res value l : getrlimit k res = Some l →
  (setrlimit k res (Rlimit value value) = None ∧ set_limit k res value = Ok (Exit 0)) ∨
  ∃ k', setrlimit k res (Rlimit value value) = Some k' ∧ set_limit k res value = Ok (Running k') ∧
    getrlimit k' res = Some (Rlimit value value) ∧ ∀ r, r ≠ res → getrlimit k' r = getrlimit k r.
Proof using Type*.
  intros El. unfold set_limit. rewrite El. destruct (setrlimit k res (Rlimit value value)) as [k'|] eqn:E; [right | by left].
  exists k'. split_and!; try done; [by eapply setrlimit_same|]. intros r Hr. by eapply setrlimit_other.
Qed.

(** C24: before [main], the program run by an ordinary user ends with status 0 unless the hard
    limits already allow 100000 open files and core files of any size; otherwise it goes on
    with exactly these limits, and with no other limit changed. *)
Theorem rlimit_init_unprivileged k files core :
  unprivileged (K:=K) → getrlimit k RLIMIT_NOFILE = Some files → getrlimit k RLIMIT_CORE = Some core →
  if (100000 <=? rlim_max files) && (RLIM_INFINITY <=? rlim_max core)
  then ∃ k', sys_rlimit_init k = Ok (Running k') ∧ getrlimit k' RLIMIT_NOFILE = Some (Rlimit 100000 100000) ∧
    getrlimit k' RLIMIT_CORE = Some (Rlimit RLIM_INFINITY RLIM_INFINITY) ∧
    ∀ r, r ≠ RLIMIT_NOFILE → r ≠ RLIMIT_CORE → getrlimit k' r = getrlimit k r
  else sys_rlimit_init k = Ok (Exit 0).
Proof using Type*.
  intros Hu Ef Ec. unfold sys_rlimit_init. pose proof (Hu k RLIMIT_NOFILE (Rlimit 100000 100000) files Ef ltac:(cbn; lia)) as H1. cbn [rlim_max] in H1.
  destruct (set_limit_cases k RLIMIT_NOFILE 100000 files Ef) as [[En ->]|(k1 & E1 & -> & Hs1 & Ho1)]; cbn [pbind].
  { rewrite En in H1. destruct (100000 <=? rlim_max files) eqn:E; [|done]. apply Z.leb_le, H1 in E. by destruct E. }
  rewrite E1 in H1. rewrite (proj2 (Z.leb_le 100000 _)) by (by apply H1). cbn [andb].
  assert (Ec1 : getrlimit k1 RLIMIT_CORE = Some core) by (by rewrite Ho1).
  pose proof (Hu k1 RLIMIT_CORE (Rlimit RLIM_INFINITY RLIM_INFINITY) core Ec1 ltac:(cbn [rlim_cur rlim_max]; lia)) as H2. cbn [rlim_max] in H2.
  destruct (set_limit_cases k1 RLIMIT_CORE RLIM_INFINITY core Ec1) as [[En ->]|(k2 & E2 & -> & Hs2 & Ho2)].
  { rewrite En in H2. destruct (RLIM_INFINITY <=? rlim_max core) eqn:E; [|done]. apply Z.leb_le, H2 in E. by destruct E. }
  rewrite E2 in H2. rewrite (proj2 (Z.leb_le RLIM_INFINITY _)) by (by apply H2). exists k2. split_and!; try done.
  - by rewrite Ho2.
  - intros r Hr1 Hr2. by rewrite Ho2, Ho1.
Qed.

End Limits.

(** ** Signals *)

Definition SIGPIPE : Z := 13.
Definition SIGSYS : Z := 31.

Inductive disposition : Type := SIG_DFL | SIG_IGN | Handler.

Definition signals : list (Z * disposition) :=
  [(SIGQUIT, Handler); (SIGTERM, Handler); (SIGINT, Handler); (SIGHUP, Handler); (SIGCHLD, Handler); (SIGSYS, SIG_IGN); (SIGPIPE, SIG_IGN); (0, SIG_DFL)].

(** [sigaction] fails for the signals that cannot be caught. *)
Fixpoint signal_loop (sigaction_ok : Z → bool) (sig : list (Z * disposition)) (d : gmap Z disposition) : cproc (gmap Z disposition) :=
  match sig with
  | [] => Ub
  | (signo, handler) :: sig =>
    if signo =? 0 then pret d else
    if negb (sigaction_ok signo) then pexit 0 else signal_loop sigaction_ok sig (<[signo := handler]> d)
  end.
Definition signal_init (sigaction_ok : Z → bool) (d : gmap Z disposition) : cproc (gmap Z disposition) := signal_loop sigaction_ok signals d.

(** What the process does when a signal arrives: nothing, [signal_handler], or the default
    action, [None]. *)
Definition deliver (d : gmap Z disposition) (logger_id : Z) (strnow : list Z) (t : proc_type) (signo : Z) (pids : list Z) (worker : list process) (f : flags) (s : logs)
  : option (cres (list process * flags * logs)) :=
  match default SIG_DFL (d !! signo) with
  | SIG_DFL => None
  | SIG_IGN => Some (mret (worker, f, s))
  | Handler => Some (signal_handler logger_id strnow t signo pids worker f s)
  end.

(** Looking a signal up among those that were installed. *)
Ltac installed := repeat first [rewrite lookup_insert_eq | rewrite lookup_insert_ne by discriminate].

(** The log after a handler has reported a signal: the master reports nothing; a worker has
    put a record of level INFO behind the records [l] of its buffer, unless the level is not
    enabled or the buffer is full. *)
Definition reported (t : proc_type) (s : logs) (id : Z) (g : logger) (l : list log_buff) (strnow : list Z) (line : Z) (text : list Z) (s' : logs) : Prop :=
  match t with
  | MASTER_PROCESS => s' = s
  | WORKER_PROCESS =>
    if log_level s <? LEVEL_INFO then s' = s else
    ∃ q, s' = set_object s (<[Z.to_nat id := set_queue g q]> (log_object s)) ∧
      holds_queue q (if bool_decide (zlen l = elem_count (queue g) - 1) then l
                     else l ++ [snprintf BUFF_SIZE (log_text (pid g) strnow (str "src/signal.c") line (str "INFO") text)])
  end.

Lemma signal_log_info s id g l strnow line text :
  0 ≤ id → log_object s !! Z.to_nat id = Some g → holds_queue (queue g) l → (length text ≤ Z.to_nat (MSG_SIZE - 1))%nat →
  ∃ s', signal_log id strnow s LEVEL_INFO line text = Ok s' ∧ reported WORKER_PROCESS s id g l strnow line text s'.
Proof.
  intros Hi Hg Hq Ht. unfold signal_log, reported. destruct (log_level s <? LEVEL_INFO) eqn:E; [exists s; split; [unfold log_out; by rewrite E | done]|].
  destruct (out_ok s id g l LEVEL_INFO strnow (str "src/signal.c") line text (str "INFO") Hi Hg Hq) as (q & Eo & Hq'); [blia | done|].
  rewrite take_ge in Hq' by done. eexists. split; [exact Eo|]. by exists q.
Qed.

(** C23: once the handlers are installed no signal that the server provokes or is told to
    expect ends it: SIGPIPE, SIGSYS and SIGHUP change nothing at all, the commands [stop] and
    [exit] set the flag that they are for in master and worker alike, and the disposition of
    every other signal is what it was.  A worker, whose log buffer is not being written when
    the signal arrives, also appends its message to the buffer if INFO is enabled and there is
    room; the master's log is left alone. *)
Theorem signals_installed sigaction_ok d : (∀ s, s ∈ signals.*1 → sigaction_ok s = true) →
  ∃ d', signal_init sigaction_ok d = Ok (Running d') ∧
    (∀ s, s ∉ signals.*1 → d' !! s = d !! s) ∧
    ∀ t id strnow pids w f s g l, 0 ≤ id → log_object s !! Z.to_nat id = Some g → holds_queue (queue g) l →
      (∀ signo, signo ∈ [SIGPIPE; SIGSYS; SIGHUP] → deliver d' id strnow t signo pids w f s = Some (Ok (w, f, s))) ∧
      (∀ signo, main_command [[]; str "stop"] = Send signo →
         ∃ s', deliver d' id strnow t signo pids w f s = Some (Ok (w, Flags 1 (g_shall_exit f) (all_workers_exit f) (shall_create_worker f), s')) ∧
           reported t s id g l strnow 49 (str "In worker, received SIGQUIT") s') ∧
      (∀ signo, main_command [[]; str "exit"] = Send signo →
         ∃ s', deliver d' id strnow t signo pids w f s = Some (Ok (w, Flags (g_shall_stop f) 1 (all_workers_exit f) (shall_create_worker f), s')) ∧
           reported t s id g l strnow 54 (str "In worker, received SIGTERM/SIGINT") s').
Proof.
  intros Hok. eexists. split.
  { unfold signal_init. cbn [signal_loop signals]. rewrite !Hok by (apply list_elem_of_In; vm_compute; tauto). reflexivity. }
  split.
  - intros s Hs. rewrite !lookup_insert_ne by (intros <-; apply Hs, list_elem_of_In; vm_compute; tauto). done.
  - intros t id strnow pids w f s g l Hi Hg Hq. split_and!.
    + intros signo Hs. apply list_elem_of_In in Hs as [<-|[<-|[<-|[]]]]; unfold deliver; installed; by destruct t.
    + intros a [= <-]. unfold deliver. installed. destruct t; [by exists s|].
      destruct (signal_log_info s id g l strnow 49 (str "In worker, received SIGQUIT") Hi Hg Hq) as (s' & E & Hs'); [vm_compute; lia|].
      exists s'. split; [|exact Hs']. cbn [default from_option signal_handler]. unfold worker_signal_handler. change (SIGQUIT =? SIGQUIT) with true. cbv iota zeta. by rewrite E.
    + intros a [= <-]. unfold deliver. installed. destruct t; [by exists s|].
      destruct (signal_log_info s id g l strnow 54 (str "In worker, received SIGTERM/SIGINT") Hi Hg Hq) as (s' & E & Hs'); [vm_compute; lia|].
      exists s'. split; [|exact Hs']. cbn [default from_option signal_handler]. unfold worker_signal_handler.
      change (SIGINT =? SIGQUIT) with false. change ((SIGINT =? SIGTERM) || (SIGINT =? SIGINT)) with true. cbv iota zeta. by rewrite E.
Qed.

(** ** Witnesses *)

(** A system whose limits are a map, for a process without privileges *)
Instance map_limits : Limits (gmap Z rlimit) := {
  getrlimit k res := k !! res;
  setrlimit k res l :=
    old ← k !! res;
    if (rlim_cur l <=? rlim_max l) && (rlim_max l <=? rlim_max old) then Some (<[res := l]> k) else None
}.

Instance map_limit_laws : LimitLaws (gmap Z rlimit).
Proof.
  split; cbn; intros k k' res.
  - intros l. destruct (k !! res) as [old|]; [|done]. cbn. destruct (_ && _); [|done]. intros [= <-]. apply lookup_insert_eq.
  - intros res' l. destruct (k !! res) as [old|]; [|done]. cbn. destruct (_ && _); [|done]. intros [= <-] Hne. by apply lookup_insert_ne.
Qed.

Lemma map_unprivileged : unprivileged (K:=gmap Z rlimit).
Proof.
  intros k res l old Ho Hl. cbn in *. rewrite Ho. cbn. rewrite (proj2 (Z.leb_le _ _) Hl). cbn. destruct (_ <=? _) eqn:E.
  - apply Z.leb_le in E. split; [done | by eexists].
  - apply Z.leb_gt in E. split; [by intros [? ?] | lia].
Qed.

Definition desktop : gmap Z rlimit := {[RLIMIT_NOFILE := Rlimit 1024 1048576; RLIMIT_CORE := Rlimit 0 RLIM_INFINITY]}.
Definition container : gmap Z rlimit := {[RLIMIT_NOFILE := Rlimit 1024 4096; RLIMIT_CORE := Rlimit 0 RLIM_INFINITY]}.

Lemma rlimit_init_unprivileged_witness :
  (∃ k', sys_rlimit_init desktop = Ok (Running k') ∧ getrlimit k' RLIMIT_NOFILE = Some (Rlimit 100000 100000)) ∧ sys_rlimit_init container = Ok (Exit 0).
Proof.
  split.
  - destruct (rlimit_init_unprivileged desktop (Rlimit 1024 1048576) (Rlimit 0 RLIM_INFINITY) map_unprivileged eq_refl eq_refl) as (k' & E & H & _).
    exists k'. split; [exact E | exact H].
  - apply (rlimit_init_unprivileged container (Rlimit 1024 4096) (Rlimit 0 RLIM_INFINITY) map_unprivileged); reflexivity.
Defined.

(** A worker with an empty buffer and level INFO. *)
Lemma signals_installed_witness :
  ∃ d' s', signal_init (λ _, true) ∅ = Ok (Running d') ∧
    deliver d' 0 strnow0 WORKER_PROCESS SIGPIPE [] [] (Flags 0 0 false false) logs1 = Some (Ok ([], Flags 0 0 false false, logs1)) ∧
    deliver d' 0 strnow0 WORKER_PROCESS SIGQUIT [] [] (Flags 0 0 false false) logs1 = Some (Ok ([], Flags 1 0 false false, s')) ∧
    reported WORKER_PROCESS logs1 0 g42 [] strnow0 49 (str "In worker, received SIGQUIT") s'.
Proof.
  destruct (signals_installed (λ _, true) ∅ (λ _ _, eq_refl)) as (d' & E & _ & H).
  destruct (H WORKER_PROCESS 0 strnow0 [] [] (Flags 0 0 false false) logs1 g42 []) as (H1 & H2 & _);
    [lia | reflexivity | apply init_ok; [lia | vm_compute; reflexivity]|].
  destruct (H2 SIGQUIT eq_refl) as (s' & E' & Hs'). exists d', s'. split; [exact E|]. split; [apply H1; left|]. split; [exact E' | exact Hs'].
Defined.
