(* ===== verification/Startup.v ===== *)
(** The start of the server: the sequence of [main] in [src/main.c] up to the master's loop,
    with [tcp_srv_init] and [process_init] of [src/process.c].

    The answers of the system are one record: the configuration file, the outcome of
    allocations and mappings (call by call), of opening the log file and of the socket calls, and the
    process number. *)

From stdpp Require Import base gmap list numbers strings sets pretty.
From Stdlib Require Import ZArith Lia.
From S2P Require Import Prelude CStr Conf Env ProcTitle Spinlock Shm ShmProps Cirbuf Logger LoggerProps SyscallHook Process System.

Record answers : Type := Answers {
  conf_file : option (list Z); malloc_ok : nat → bool; mmap : nat → Z → option Z; log_access : list Z → bool; log_open : bool → list Z → Z; fresh_slots : list (option log_buff);
  sock : Z; reuse : Z; nonblock : Z; bind_result : Z; listen_result : Z; inet_pton : list Z → option Z; getpid : Z; pidfile_ok : bool;
  ncpu : Z; page_size : Z;
  fork : Z; heap : Z → Z; junk : Z; stack : gmap Z Z; argv : list Z; environ : list Z
}.

(** [struct sockaddr_in] as passed to [bind]: port in host order after [htons], and address *)
Definition create_tcp_server (x : answers) (ip : option (list Z)) (port : Z) : cproc (Z * Z * Z) :=
  if sock x =? -1 then pexit 0 else
  if negb (reuse x =? 0) then pexit 0 else
  if negb (nonblock x =? 0) then pexit 0 else
  let svraddr := (u16 port, ip_to_nl (inet_pton x) ip) in
  if negb (bind_result x =? 0) then pexit 0 else
  if negb (listen_result x =? 0) then pexit 0 else
  pret (sock x, svraddr.1, svraddr.2).

Definition tcp_srv_init (x : answers) (e : env) (o : shm) : cproc (Z * Z * shm) :=
  listen ⇐ create_tcp_server x (g_server_addr e) (g_server_port e);
  let '(accept_lock, o) := shm_alloc o SIZEOF_SPINLOCK in
  if accept_lock =? NULL then pexit 0 else pret (listen.1.1, accept_lock, o).

(** [m] is the memory that holds the title, at [argv0]. *)
Definition process_init (x : answers) (e : env) (m : gmap Z Z) (argv0 : Z) (s : logs) : cproc (gmap Z Z * (logs * Z * list process * list Z)) :=
  m ← set_proc_title m argv0 (str "cserv: master process");
  file ⇐ create_pidfile (pidfile_ok x) (getpid x);
  let '(r, id, s) := log_worker_alloc s 0 (getpid x) in
  if r <? 0 then pexit 0 else pret (m, (s, id, process_init_table (g_worker_processes e) (ncpu x), file)).

(** The new process in [fork_worker]: its title, its log slot and its processor. *)
Definition fork_child (sched_setaffinity : gset Z → Z) (p : process) (m : gmap Z Z) (argv0 : Z) (s : logs) (logger_id worker_pid : Z) : cproc (gmap Z Z * logs * Z) :=
  m ← set_proc_title m argv0 (str "cserv: worker process");
  let '(r, id, s) := log_worker_alloc s logger_id worker_pid in
  if r <? 0 then pexit 0 else
  if negb (bind_cpu sched_setaffinity (cpuid p) =? 0) then pexit 0 else
  pret (m, s, id).

Record server : Type := Server {
  s_env : env; s_logs : logs; s_logger : Z; s_shm : shm; s_listen : Z; s_accept_lock : Z; s_workers : list process; s_pidfile : list Z;
  s_memory : gmap Z Z; s_argv : list Z; s_environ : list Z
}.

(** From the configuration on, with the memory, [argv] and [environ] that [proc_title_init]
    has left *)
Definition after_conf (x : answers) (t : gmap Z Z * list Z * list Z) (e : env) : cproc server :=
  o ⇐ mret (shm_init (mmap x 0%nat) (page_size x));
  logs ⇐ log_init (page_size x) (mmap x) (fresh_slots x) (log_access x) (log_open x) (g_log_path e) (g_log_strlevel e) o.1 (g_worker_processes e);
  tcp ⇐ tcp_srv_init x e logs.2;
  p ⇐ process_init x e t.1.1 (hd 0 t.1.2) logs.1;
  pret (Server e p.2.1.1.1 p.2.1.1.2 tcp.2 tcp.1.1 tcp.1.2 p.2.1.2 p.2.2 p.1 t.1.2 t.2).

Definition main_start (x : answers) : cproc server :=
  _ ⇐ sys_daemon (fork x);
  t ⇐ proc_title_init (heap x) (junk x) (stack x) (argv x) (environ x);
  config ⇐ load_conf (malloc_ok x) [] (conf_file x);
  e ⇐ conf_env_init (ncpu x) (page_size x) config;
  after_conf x t e.

(** ** Reading the configuration ends *)

Lemma fgets_shorter n c file : (length (fgets (S n) (c :: file)).2 ≤ length file)%nat.
Proof.
  revert c file. induction n as [|n IH]; intros c file; cbn; destruct (c =? 10); cbn; try lia; destruct file as [|d file]; cbn; try lia.
  specialize (IH d file). cbn in IH. destruct (d =? 10); cbn in *; [lia|]. destruct (fgets n file) as [a b]. cbn in *. lia.
Qed.

Lemma load_loop_total malloc_ok fuel : ∀ file head, (length file ≤ fuel)%nat → load_loop fuel malloc_ok file head = Ok (Exit 0) ∨ ∃ r, load_loop fuel malloc_ok file head = Ok (Running r).
Proof.
  induction fuel as [|fuel IH]; intros [|c file] head Hl; try (right; by eexists); [cbn in Hl; lia|].
  pose proof (fgets_shorter 510 c file) as Hf. destruct (fgets BUFF_CHARS (c :: file)) as [buff rest] eqn:E.
  rewrite (load_loop_step fuel malloc_ok (c :: file) head buff rest) by done. unfold BUFF_CHARS in E. rewrite E in Hf. cbn [snd length] in *.
  destruct (parse_conf (c_str buff)) as [[k v]|]; [|apply IH; lia]. destruct (_ || _); [by left|]. destruct (negb _); [by left|]. apply IH. lia.
Qed.

Lemma load_conf_total malloc_ok old file :
  load_conf malloc_ok old file = Ok (Exit 0) ∨ ∃ r, load_conf malloc_ok old file = Ok (Running r).
Proof.
  unfold load_conf. destruct file as [bytes|]; [|by left]. destruct (load_loop_total malloc_ok (length bytes) bytes []) as [->|[r ->]]; [done | by left | right; by eexists].
Qed.

(** ** Memory for the shared objects *)

(** A configuration within its bounds leaves room for all shared objects. *)
Lemma shared_fits page_size a n :
  4096 ≤ page_size < 2 ^ 31 → 0 < a → a mod 8 = 0 → 0 ≤ n ≤ MAX_WORKER_PROCESS →
  let o0 := Shm a page_size 96 in
  let o1 := Shm a page_size 168 in
  let o2 := Shm a page_size (168 + SIZEOF_LOGGER * (n + 1)) in
  shm_alloc o0 SIZEOF_SPINLOCK = (a + 96, o1) ∧
  shm_alloc o1 (size_t (SIZEOF_LOGGER * size_t (n + 1))) = (a + 168, o2) ∧
  ∃ o3, shm_alloc o2 SIZEOF_SPINLOCK = (a + offset o2, o3).
Proof.
  unfold MAX_WORKER_PROCESS, SIZEOF_LOGGER, SIZEOF_SPINLOCK. intros Hp Ha Hal Hn. rewrite (size_t_id (n + 1)), (size_t_id (56 * (n + 1))) by lia.
  unfold shm_alloc, shm_full. cbn [addr size offset]. change (ROUND_UP 72 MEM_ALIGN) with 72.
  assert (ROUND_UP (56 * (n + 1)) MEM_ALIGN = 56 * (n + 1)) as ->.
  { destruct (round_up_ok (56 * (n + 1))) as [H1 H2]; [lia|]. replace (56 * (n + 1)) with (7 * (n + 1) * 8) in * by lia.
    assert (7 * (n + 1) * 8 mod 8 = 0) by (apply Z.mod_mul; lia). Z.div_mod_to_equations. lia. }
  rewrite !size_t_id by lia. rewrite !(proj2 (Z.ltb_ge _ _)) by lia. split_and!; [done | do 2 f_equal; lia | by eexists].
Qed.

Lemma objects_loop_cases page_size mmap slots n : ∀ i,
  objects_loop page_size mmap slots i n = Exit 0 ∨ objects_loop page_size mmap slots i n = Running (replicate n (Logger 0 false (Cirbuf 0 0 0 slots))).
Proof.
  induction n as [|n IH]; intros i; cbn; [by right|]. destruct (_ =? NULL); [by left|]. destruct (IH (S i)) as [-> | ->]; [by left | by right].
Qed.

Lemma level_cases level : log_str_level level = Exit 0 ∨ ∃ lv, log_str_level level = Running lv ∧ 0 ≤ lv < 4.
Proof.
  unfold log_str_level, STR_LOG_LEVEL. cbn [level_loop]. destruct (str_equal _ _); [right; by exists 0|]. destruct (str_equal _ _); [right; by exists 1|].
  destruct (str_equal _ _); [right; by exists 2|]. destruct (str_equal _ _); [right; by exists 3 | by left].
Qed.

(** The strings of the new process: the name of the program, the arguments and the
    environment one behind the other, with room for the title of the master; memory from the
    heap is new. *)
Record stack_ok (x : answers) (argv0 : Z) (prog : list Z) (args envs : list (list Z)) : Prop := StackOk {
  sk_argv : argv x = argv0 :: pointers (argv0 + Z.of_nat (length prog) + 1) args;
  sk_environ : environ x = pointers (argv0 + Z.of_nat (length prog) + 1 + Z.of_nat (length (c_strings args))) envs;
  sk_name : bytes_at (stack x) argv0 (prog ++ [0]);
  sk_strings : process_strings (stack x) (argv0 + Z.of_nat (length prog) + 1) args envs;
  sk_new : let n := Z.of_nat (length (c_strings (args ++ envs))) in
    heap x n ≠ NULL → ∀ a, heap x n ≤ a < heap x n + n → stack x !! a = None;
  sk_room : 22 ≤ Z.of_nat (length prog) + 1 + Z.of_nat (length (c_strings (args ++ envs)));
}.

(** What is there when the master enters its loop. *)
Record server_ok (x : answers) (args envs : list (list Z)) (v : server) : Prop := ServerOk {
  so_env : env_ok (page_size x) (s_env v);
  so_logs : length (log_object (s_logs v)) = Z.to_nat (g_worker_processes (s_env v) + 1);
  so_own : s_logger v = 0 ∧ pid <$> log_object (s_logs v) !! 0%nat = Some (getpid x);
  so_free : ∀ i g, (0 < i)%nat → log_object (s_logs v) !! i = Some g → pid g = 0;
  so_lock : s_accept_lock v ≠ NULL ∧ s_accept_lock v mod 8 = 0;
  so_pidfile : s_pidfile v = str (pretty (getpid x));
  so_workers : length (s_workers v) = Z.to_nat (g_worker_processes (s_env v)) ∧ worker_empty (s_workers v) = true;
  so_title : bytes_at (s_memory v) (hd 0 (argv x)) (str "cserv: master process" ++ [0]);
  so_strings : denote (s_memory v) (tail (s_argv v)) args ∧ denote (s_memory v) (s_environ v) envs;
}.

Lemma table_empty n c : worker_empty (process_init_table n c) = true.
Proof. unfold worker_empty, process_init_table. induction (seqZ 0 n) as [|i l IH]; cbn; done. Qed.

Lemma tcp_cases x ip port : create_tcp_server x ip port = Ok (Exit 0) ∨ ∃ l, create_tcp_server x ip port = Ok (Running l).
Proof.
  unfold create_tcp_server. destruct (_ =? -1); [by left|]. destruct (negb _); [by left|]. destruct (negb _); [by left|].
  destruct (negb _); [by left|]. destruct (negb _); [by left | right; by eexists].
Qed.

Lemma logfile_cases access open path : gen_logfile_fd access open path = Exit 0 ∨ ∃ fd, gen_logfile_fd access open path = Running fd.
Proof. unfold gen_logfile_fd. destruct (_ =? -1); [by left | right; by eexists]. Qed.

(** What [set_proc_title] yields in [process_init]. *)
Definition title_set (x : answers) (args envs : list (list Z)) (t : gmap Z Z * list Z * list Z) : Prop :=
  ∃ m, set_proc_title t.1.1 (hd 0 t.1.2) (str "cserv: master process") = Ok m ∧ bytes_at m (hd 0 (argv x)) (str "cserv: master process" ++ [0]) ∧
    denote m (tail t.1.2) args ∧ denote m t.2 envs.

Lemma title_cases x argv0 prog args envs : stack_ok x argv0 prog args envs →
  proc_title_init (heap x) (junk x) (stack x) (argv x) (environ x) = Ok (Exit 0) ∨
  ∃ t, proc_title_init (heap x) (junk x) (stack x) (argv x) (environ x) = Ok (Running t) ∧ title_set x args envs t.
Proof.
  intros [Ha He Hname Hs Hnew Hroom]. unfold title_set. rewrite Ha, He. cbv zeta in Hnew. set (a := argv0 + _ + 1) in *. set (n := Z.of_nat (length (c_strings (args ++ envs)))) in *.
  destruct (decide (heap x n = NULL)) as [E|E]; [left; by apply proc_title_init_null|right].
  destruct (proc_title_init_titled (heap x) (junk x) (stack x) argv0 a args envs prog Hs Hname eq_refl Hnew E) as (m' & args' & environ' & -> & Ht).
  eexists. split; [done|]. destruct (set_title_ok (heap x) (stack x) argv0 a args envs prog Hs Hname eq_refl Hnew m' args' environ' (str "cserv: master process") E Ht) as (m2 & E2 & Hb & Ht2).
  { fold n. unfold a. change (length (str "cserv: master process")) with 21%nat. lia. }
  apply titled_denote in Ht2 as [Hd1 Hd2]. exists m2. by split_and!.
Qed.

Lemma after_conf_ok x args envs t e :
  4096 ≤ page_size x < 2 ^ 31 → (∀ i n a, mmap x i n = Some a → 0 < a ∧ a mod 8 = 0) → env_ok (page_size x) e → getpid x ≠ 0 → title_set x args envs t →
  after_conf x t e = Ok (Exit 0) ∨ ∃ v, after_conf x t e = Ok (Running v) ∧ server_ok x args envs v ∧ s_env v = e.
Proof.
  intros Hp Hm He Hpid (m & Et & Hb & Hd). unfold after_conf, shm_init, shm_pages_alloc. destruct (mmap x 0%nat (u32 (1 * page_size x))) as [a|] eqn:Em; cbn [default]; [|by left].
  destruct (Hm _ _ _ Em) as [Ha Hal]. cbn [from_option id]. rewrite (proj2 (Z.eqb_neq _ _)) by (unfold NULL; lia). cbn [pbind mret cres_mret fst]. change (ROUND_UP SIZEOF_SHM MEM_ALIGN) with 96.
  destruct (shared_fits (page_size x) a (g_worker_processes e) Hp Ha Hal (eo_processes _ _ He)) as (E1 & E2 & o3 & E3).
  unfold log_init. destruct (logfile_cases (log_access x) (log_open x) (g_log_path e)) as [->|[fd ->]]; [by left|]. destruct (level_cases (g_log_strlevel e)) as [->|(lv & -> & Hlv)]; [by left|].
  rewrite E1. cbn iota. rewrite (proj2 (Z.eqb_neq _ _)) by (unfold NULL; lia). rewrite int_arith_ok by (pose proof (eo_processes _ _ He); unfold MAX_WORKER_PROCESS in *; lia). cres_simpl.
  rewrite E2. cbn iota. rewrite (proj2 (Z.eqb_neq _ _)) by (unfold NULL; lia).
  destruct (objects_loop_cases (page_size x) (mmap x) (fresh_slots x) (Z.to_nat (g_worker_processes e + 1)) 2) as [->| ->]; [by left|]. cbn [pbind pret mret cres_mret fst snd].
  unfold tcp_srv_init. destruct (tcp_cases x (g_server_addr e) (g_server_port e)) as [->|[l ->]]; cbn [pbind pret mret cres_mret fst snd]; [by left|].
  cbn [fst snd]. rewrite E3. cbn iota. pose proof (eo_processes _ _ He) as Hn. cbn [offset]. rewrite (proj2 (Z.eqb_neq _ _)) by (unfold NULL, SIZEOF_LOGGER; lia). cbn [pbind fst snd pret mret cres_mret].
  unfold process_init, create_pidfile. rewrite Et. cres_simpl. destruct (pidfile_ok x); [|by left]. cbn [pbind pret mret cres_mret fst snd]. right. unfold log_worker_alloc. cbn [log_object]. replace (Z.to_nat (g_worker_processes e + 1)) with (S (Z.to_nat (g_worker_processes e))) by lia.
  cbn [replicate alloc_loop pid Z.eqb]. change (-1 <? 0) with true. change (0 <? 0) with false. cbn iota. cbn [pbind pret mret cres_mret fst snd set_object log_object queue elem].
  eexists. split; [reflexivity|]. split; [|done]. split; cbn [s_env s_logs s_logger s_accept_lock s_workers s_pidfile s_memory s_argv s_environ log_object set_object]; try done.
  - cbn. rewrite length_replicate. lia.
  - intros [|i] g Hi Hg; [lia|]. cbn in Hg. by apply lookup_replicate in Hg as [-> _].
  - unfold SIZEOF_LOGGER, NULL. split; [lia|]. Z.div_mod_to_equations. lia.
  - split; [|apply table_empty]. unfold process_init_table. rewrite length_fmap, length_seqZ. done.
Qed.

(** C21: starting the server never runs into undefined behaviour once the numbers in the
    configuration are small and the strings of the process leave room for a title: whatever
    file, memory, sockets and log file do, the start either ends the process with status 0,
    or reaches the master's loop with a valid environment, with the master in the first log
    slot and a free slot for every worker, with an aligned lock in shared memory, its process
    number in the file, an empty table of workers, the title of the master to be read, and
    its arguments and environment as they were.  In particular the page of shared memory is
    large enough for every number of workers that is accepted. *)
Theorem startup_safe x argv0 prog args envs :
  page_size_ok (page_size x) → 4096 ≤ page_size x → (∀ i n a, mmap x i n = Some a → 0 < a ∧ a mod 8 = 0) → getpid x ≠ 0 → stack_ok x argv0 prog args envs →
  (∀ config, load_conf (malloc_ok x) [] (conf_file x) = Ok (Running config) → numbers_ok config) →
  main_start x = Ok (Exit 0) ∨ ∃ v, main_start x = Ok (Running v) ∧ server_ok x args envs v.
Proof.
  intros Hps Hbig Hm Hpid Hst Hconf. unfold main_start, sys_daemon. destruct (fork x >? 0); [by left|]. cbn [pbind pret mret cres_mret].
  destruct (title_cases x argv0 prog args envs Hst) as [->|(t & -> & Ht)]; [by left|]. cbn [pbind].
  destruct (load_conf_total (malloc_ok x) [] (conf_file x)) as [->|[config E]]; [by left|].
  rewrite E. cbn [pbind]. destruct (conf_env_total (ncpu x) (page_size x) config Hps (Hconf config E)) as [->|(e & -> & He)]; cbn [pbind]; [by left|].
  assert (Hr : 4096 ≤ page_size x < 2 ^ 31).
  { destruct Hps as (k & Hk & E2). split; [done|]. rewrite E2. apply Z.pow_lt_mono_r; lia. }
  destruct (after_conf_ok x args envs t e Hr Hm He Hpid Ht) as [->|(v & -> & Hv & _)]; [by left | right; by exists v].
Qed.

(** ** Witness *)

Definition conf_text : list Z :=
  str "log_path = /tmp/l" ++ [10] ++ str "log_level = INFO" ++ [10] ++ str "worker_processes = 2" ++ [10] ++
  str "worker_connections = 100" ++ [10] ++ str "coroutine_stack_kbytes = 8" ++ [10] ++ str "listen = 8081" ++ [10].
Definition answers0 : answers :=
  Answers (Some conf_text) (λ _, true) (λ _ _, Some 65536) (λ _, true) (λ _ _, 3) [] 4 0 0 0 0 (λ _, None) 1000 true 2 4096
    0 (λ _, 5000) 7 stack0 (1000 :: pointers 1008 args0) (pointers 1014 envs0).

Lemma stack_ok0 : stack_ok answers0 1000 prog0 args0 envs0.
Proof.
  split; [reflexivity | reflexivity | vm_compute; by repeat split | exact strings0 | | vm_compute; discriminate].
  intros n _ a Ha. unfold n in *. clear n. cbn [heap stack answers0] in *. unfold stack0. rewrite mem_of_lookup. rewrite decide_False; [done|]. vm_compute length in *. lia.
Qed.

Lemma startup_safe_witness : ∃ v, main_start answers0 = Ok (Running v) ∧ server_ok answers0 args0 envs0 v.
Proof.
  destruct (startup_safe answers0 1000 prog0 args0 envs0) as [H|H];
    [exists 12; split; [lia | reflexivity] | cbn; lia | intros i n a [= <-]; split; [lia | reflexivity] | discriminate | exact stack_ok0 | | vm_compute in H; discriminate H | exact H].
  intros config H. vm_compute in H. injection H as <-. repeat (constructor; [split; (eexists; split; [vm_compute; reflexivity | lia])|]). constructor.
Defined.

(** ** A page that was not mapped *)

(** [log_init] takes the failure of the second mapping, the page of the log, for a success; the
    first record that the master copies is then undefined behaviour. *)
Theorem flush_page_unmapped page_size sys_write x s : page_mapped s = false → log_read page_size sys_write x s = Ub.
Proof.
  intros Hm. unfold log_read. destruct (_ <? _); cbn zeta; [|by rewrite Hm]. unfold log_flush.
  destruct (_ =? 0); [by rewrite Hm|]. by destruct (_ >? _); cbn; rewrite Hm.
Qed.

Definition answers1 : answers :=
  Answers (Some conf_text) (λ _, true) (λ i _, if decide (i = 1%nat) then None else Some 65536) (λ _, true) (λ _ _, 3) [] 4 0 0 0 0 (λ _, None) 1000 true 2 4096
    0 (λ _, 5000) 7 stack0 (1000 :: pointers 1008 args0) (pointers 1014 envs0).

Example start_without_page : match main_start answers1 with Ok (Running v) => page_mapped (s_logs v) = false | _ => False end.
Proof. vm_compute. reflexivity. Qed.
