(* ===== verification/WorkerStart.v ===== *)
(** The start of a worker: [worker_process_cycle] of [src/process.c] up to the scheduling
    cycle. *)

From stdpp Require Import base gmap list numbers strings sets.
From Stdlib Require Import ZArith Lia.
From S2P Require Import Prelude Conf Env Event.
From S2P Require Import ListHead Memcache RbTree RbRep RbInsert RbErase RbEraseColor RbProps.
From S2P Require Import Sched SchedSearch SchedInv SchedLists SchedOps SchedSteps SchedProps SchedDemo.

Lemma init_cases alloc1 alloc2 create_ok n : 0 ≤ n < 2 ^ 30 →
  event_loop_init alloc1 alloc2 create_ok n = Ok (Exit 0) ∧ alloc1 && alloc2 && create_ok = false ∨
  ∃ ev, event_loop_init alloc1 alloc2 create_ok n = Ok (Running ev) ∧ event_ok ev ∧ interest ev = ∅ ∧ max_conn ev = n + 128.
Proof.
  intros Hn. pose proof (init_event_ok alloc1 alloc2 create_ok n) as H. unfold event_loop_init in *. rewrite int_arith_ok in * by lia. cres_simpl.
  destruct alloc1; [|by left]. destruct create_ok; [|left; by destruct alloc2]. destruct alloc2; [|by left]. right. eexists. split; [done|].
  destruct (H _ ltac:(lia) eq_refl) as [H1 H2]. by split_and!.
Qed.

Section Worker.
  Context (malloc : gset Z → Z) (junk : list_head * rb_node * coroutine) (stack_alloc : Z → option (Z * Z)).
  Context (l : gset Z) (h : gmap Z list_head) (alloc1 alloc2 create_ok : bool).

(** [init] is [worker_init_proc], if one is registered: its return value and the state it
    leaves; the functions that coroutines run are addresses. *)
Definition worker_process_cycle {W} (init : option (cproc (Z * W))) (e : env) (worker_accept_cycle : Z) : cproc (option W * coro_schedule * event_loop) :=
  x ⇐ match init with None => pret (0, None) | Some f => r ⇐ f; pret (r.1, Some r.2) end;
  if negb (x.1 =? 0) then pexit 0 else
  s ⇐ schedule_init malloc l h (g_coro_stack_kbytes e) (g_worker_connections e);
  ev ⇐ event_loop_init alloc1 alloc2 create_ok (g_worker_connections e);
  '(_, s) ← dispatch_coro malloc junk stack_alloc s worker_accept_cycle NULL;
  pret (x.2, s, ev).

(** The scheduler and the event table of a worker that enters the scheduling cycle. *)
Definition cycle_ready (e : env) (f now : Z) (s : coro_schedule) (ev : event_loop) : Prop :=
  event_ok ev ∧ interest ev = ∅ ∧ max_conn ev = g_worker_connections e + 128 ∧
  started malloc junk stack_alloc l h (g_coro_stack_kbytes e) (g_worker_connections e) f NULL now (Machine (In_main Check_timers) s now now).

(** Not enough memory for the scheduler, a pool of timer nodes of which a quarter is filled, or
    for the event table; or no epoll instance. *)
Definition no_resources (e : env) : Prop :=
  runs_out malloc l (S (Z.to_nat (g_worker_connections e / 2 / 4))) ∨ alloc1 && alloc2 && create_ok = false.

(** The part after the call of [worker_init_proc]. *)
Lemma cycle_cases {W} (x : option W) e f now :
  fresh_malloc malloc → aligned_malloc malloc → memory_ok l h → 4 ≤ g_worker_connections e < 2 ^ 30 → 0 ≤ now < 2 ^ 62 →
  (worker_process_cycle (Some (pret (0, x))) e f = Ok (Exit 0) ∧ no_resources e) ∨
  ∃ s ev, worker_process_cycle (Some (pret (0, x))) e f = Ok (Running (Some x, s, ev)) ∧ cycle_ready e f now s ev.
Proof using Type.
  intros Hf Ha Hl Hc Hnow. unfold worker_process_cycle. cbn [pbind pret mret cres_mret fst snd Z.eqb negb].
  destruct (schedule_init_ok malloc l h (g_coro_stack_kbytes e) (g_worker_connections e) Hf Ha Hl ltac:(lia)) as [E|(s0 & E0 & Hi & _)].
  { rewrite E. left. split; [done|]. left. by apply (schedule_init_exit malloc l h (g_coro_stack_kbytes e) (g_worker_connections e) 0 Hf ltac:(lia)). }
  rewrite E0. cbn [pbind]. destruct (init_cases alloc1 alloc2 create_ok (g_worker_connections e) ltac:(lia)) as [[-> Hb]|(ev & -> & Hev & Hint & Hmax)]; cbn [pbind]; [left; split; [done | by right]|].
  destruct (dispatch_ok malloc junk stack_alloc Hf Ha s0 [] [] [] [] f NULL Hi) as (r & s & i' & a' & E1 & _). rewrite E1. cres_simpl.
  right. exists s, ev. split; [done|]. split_and!; try done. exists s0, r, s. by split_and!.
Qed.

End Worker.

(** A configuration with one, two or three connections is accepted, and then every worker is
    aborted by an assertion. *)
Theorem few_connections_abort page_size e f :
  env_ok page_size e → g_worker_connections e < 4 →
  worker_process_cycle (W:=unit) blocks junk0 stacks mem heads true true true None e f = Ok Aborted.
Proof.
  intros He Hc. pose proof (eo_connections _ _ He). unfold worker_process_cycle.
  assert (g_worker_connections e = 1 ∨ g_worker_connections e = 2 ∨ g_worker_connections e = 3) as [->|[->| ->]] by lia; vm_compute; reflexivity.
Qed.

(** Eight connections; with the memory of the example the worker does start. *)
Definition env8 : env := Env (str "/tmp/cserv.log") (str "CRIT") 4 8 12 (Some (str "127.0.0.1")) 8081.
