(* ===== verification/Service.v ===== *)
(** The service a worker runs: [register_service] of [src/process.c], and the HTTP module that
    registers itself in [src/http/http.c]. *)

From stdpp Require Import base gmap list numbers strings sets.
From Stdlib Require Import ZArith Lia.
From S2P Require Import Conf Env Event ListHead Memcache RbTree Sched SchedInv SchedOps SchedProps SchedDemo WorkerStart.
From S2P Require Import Prelude CStr RequestTypes ParseHeader ParseHeaderFacts HashTable HashTableSpec.
From S2P Require Import Net Response ResponseProps Request RequestFacts FirstHeader RequestInit RequestInitFacts RequestProps Connections.

(** [master_init_proc], [worker_init_proc] and [request_handler]: the result of an initial
    procedure is its return value and the state it leaves; a handler takes a descriptor. *)
Record service (W net : Type) : Type := Service {
  master_init_proc : option (cproc Z);
  worker_init_proc : option (cproc (Z * W));
  request_handler : Z → W → net → cres (W * net)
}.
Arguments Service {W net} _ _ _.
Arguments master_init_proc {W net} _.
Arguments worker_init_proc {W net} _.
Arguments request_handler {W net} _.

Definition request_default_handler {W net} (fd : Z) (x : W) (w : net) : cres (W * net) := mret (x, w).
Definition no_service {W net} : service W net := Service None None request_default_handler.

Definition register_service {W net} (old : service W net) (master_proc : option (cproc Z)) (worker_proc : option (cproc (Z * W)))
    (handler : Z → W → net → cres (W * net)) : service W net :=
  Service master_proc worker_proc handler.

(** The start of [master_process_cycle] *)
Definition master_init {W net} (svc : service W net) : cproc unit :=
  match master_init_proc svc with
  | None => pret tt
  | Some f => r ⇐ f; if negb (r =? 0) then pexit 0 else pret tt
  end.

Section Http.
  Context {net : Type} `{NetworkLaws net} `{!Streamed net}.
  Context (pool_malloc : gset Z → Z) (malloc : hheap → Z) (live : gset Z) (hh : hheap) (garbage : Z → http_request).
  #[local] Set Default Proof Using "Type".

(** What the module keeps in its variables once it is initialised. *)
Definition http_state : Type := option (config (net:=net) (heap:=hheap) (table:=hash_table) * server).

Definition http_handler (fd : Z) (x : http_state) (w : net) : cres (http_state * net) :=
  match x with
  | None => Ub
  | Some (cfg, sv) => '(sv, w) ← http_request_handler pool_malloc garbage cfg sv fd w; mret (Some (cfg, sv), w)
  end.

Definition http_init (conns : Z) (entry : list Z) (old : service http_state net) : service http_state net :=
  register_service old None (Some (worker_process_init pool_malloc malloc live hh conns entry)) http_handler.

(** [handle_connection] for clients one after the other *)
Fixpoint handle_connections (svc : service http_state net) (x : http_state) (clients : list (Z * net)) : cres (http_state * list net) :=
  match clients with
  | [] => mret (x, [])
  | (fd, w) :: clients =>
    '(x, w) ← request_handler svc fd x w;
    '(x, ws) ← handle_connections svc x clients;
    mret (x, w :: ws)
  end.

Lemma handle_connections_serve conns entry old cfg clients : ∀ sv,
  handle_connections (http_init conns entry old) (Some (cfg, sv)) clients =
  '(sv, ws) ← serve pool_malloc garbage cfg sv clients; mret (Some (cfg, sv), ws).
Proof.
  induction clients as [|[fd w] clients IH]; intros sv; [done|]. cbn [handle_connections serve http_init register_service request_handler http_handler].
  destruct (http_request_handler pool_malloc garbage cfg sv fd w) as [[sv1 w1]| |]; try done. cres_simpl. rewrite IH.
  by destruct (serve pool_malloc garbage cfg sv1 clients) as [[sv2 ws]| |].
Qed.

End Http.

(** C2: a worker with the HTTP service and at least four connections.  For every value of
    client_header_buffer_kbytes that fits an [int]: if the size is not between 1 and 4 KiB, the
    worker ends with status 0.  Otherwise it enters the scheduling cycle in a state from which
    the scheduler never goes wrong, with an empty event table; it ends in
    [worker_process_cycle] only if an allocation of the module, the scheduler or the event table fails,
    or epoll does.  Its handler then returns for every sequence of clients that send no ten digits in a row,
    without undefined behaviour, having passed to [send] one complete response for each, or the
    page for a server without memory.  For that the objects may hold anything, but either the
    [lowcase_index] that [malloc] leaves in fresh ones, which nothing initialises, is valid, or the
    first header of every client starts with a letter, a digit or a hyphen. *)
Theorem http_worker_serves {net} `{NetworkLaws net} `{!Streamed net}
    malloc junk stack_alloc l h alloc1 alloc2 create_ok pool_malloc table_malloc live hh (garbage : Z → http_request) e entry v (old : service (http_state (net:=net)) net) f now :
  fresh_malloc malloc → aligned_malloc malloc → memory_ok l h → 4 ≤ g_worker_connections e < 2 ^ 30 → 0 ≤ now < 2 ^ 62 →
  fresh_malloc pool_malloc → allocates table_malloc → NULL ∉ live →
  (∀ b, pool_malloc b ≠ NULL → 0 < pool_malloc b < 2 ^ 63) → (∀ x, x ∈ live → 0 < x < 2 ^ 63) →
  (∀ p, array_ok (garbage p)) →
  (if decide (entry = str "default") then v = 2 else atoi entry = Ok v) →
  let svc := http_init pool_malloc table_malloc live hh garbage (g_worker_connections e) entry old in
  let cycle := worker_process_cycle malloc junk stack_alloc l h alloc1 alloc2 create_ok (worker_init_proc svc) e f in
  master_init svc = Ok (Running tt) ∧
  if decide (1 ≤ v ≤ 4) then
    (∃ code, cycle = Ok (Exit code) ∧
       (no_memory pool_malloc table_malloc live hh (g_worker_connections e) ∨ no_resources malloc l alloc1 alloc2 create_ok e)) ∨
    ∃ x s ev, cycle = Ok (Running (Some x, s, ev)) ∧ cycle_ready malloc junk stack_alloc l h e f now s ev ∧
      ∀ clients, Forall (λ c, no_ten_digits (to_come c.2) = true) clients →
        (∀ p, 0 ≤ lowcase_index (garbage p) < HTTP_LC_HEADER_LEN) ∨ Forall (λ c, plain_start (to_come c.2) = true) clients →
        ∃ x' ws, handle_connections svc x clients = Ok (x', ws) ∧ Forall2 got_answer clients ws
  else cycle = Ok (Exit 0).
Proof.
  intros Hf Ha Hm Hc Hnow Hp Ht Hnull Hpa Hla Hg Hv. cbv zeta. split; [done|]. cbn [http_init register_service worker_init_proc].
  pose proof (worker_init_cases (net:=net) pool_malloc table_malloc live hh (g_worker_connections e) entry v Hp Ht Hnull ltac:(lia) Hv) as Hw.
  destruct (decide (1 ≤ v ≤ 4)).
  2: { rewrite Hw. by unfold worker_process_cycle. }
  destruct Hw as [(code & E & _ & Hno)|(cfg & sv & E & _)]; rewrite E; [left; exists code; split; [done | by left]|].
  destruct (cycle_cases malloc junk stack_alloc l h alloc1 alloc2 create_ok (Some (cfg, sv)) e f now Hf Ha Hm Hc Hnow) as [[Ec Hno]|(s & ev & Ec & Hr)];
    [left; exists 0; split; [exact Ec | by right] | right]. exists (Some (cfg, sv)), s, ev. split; [exact Ec|]. split; [done|]. intros clients Hcl Hix.
  rewrite handle_connections_serve.
  destruct (clients_served pool_malloc table_malloc live hh (g_worker_connections e) entry cfg sv garbage clients) as (sv' & ws & -> & Hws & _); try done; [lia|].
  cres_simpl. by eexists _, _.
Qed.

(** ** Witness *)

(** Eight connections and the buffer size of the configuration file; the worker does start, with
    objects whose index is not valid. *)
Definition example_service : service (http_state (net:=script)) script :=
  http_init (net:=script) (pages 20) table_malloc ∅ no_heap (λ _, stale_request) 8 (str "4") no_service.
Definition example_cycle := worker_process_cycle blocks junk0 stacks mem heads true true true (worker_init_proc example_service) env8 4096.

Lemma http_worker_serves_witness :
  master_init example_service = Ok (Running tt) ∧
  ∃ x s ev, example_cycle = Ok (Running (Some x, s, ev)) ∧ cycle_ready blocks junk0 stacks mem heads env8 4096 1000 s ev ∧
      ∀ clients, Forall (λ c, no_ten_digits (to_come c.2) = true) clients →
        Forall (λ c, plain_start (to_come c.2) = true) clients →
        ∃ x' ws, handle_connections example_service x clients = Ok (x', ws) ∧ Forall2 got_answer clients ws.
Proof.
  assert (Hrun : match example_cycle with Ok (Running _) => true | _ => false end = true) by (vm_compute; reflexivity).
  destruct (http_worker_serves (net:=script) blocks junk0 stacks mem heads true true true (pages 20) table_malloc ∅ no_heap (λ _, stale_request) env8 (str "4") 4 no_service 4096 1000
    (arena_fresh 20) (arena_aligned 20) mem_ok ltac:(cbn; lia) ltac:(lia) (pages_fresh 20) table_malloc_allocates (not_elem_of_empty NULL)
    ltac:(intros b; apply pages_address; reflexivity) ltac:(intros x Hx; destruct (not_elem_of_empty x Hx)) ltac:(reflexivity) ltac:(vm_compute; reflexivity))
    as [Hmaster Hcycle].
  split; [exact Hmaster|]. rewrite decide_True in Hcycle by lia. unfold example_cycle in *.
  destruct Hcycle as [(code & E & _)|(x & s & ev & E & Hr & Hall)]; [|exists x, s, ev; split; [exact E|]; split; [exact Hr|]; intros clients Hn Hp; exact (Hall clients Hn (or_intror Hp))].
  change (worker_init_proc (http_init (pages 20) table_malloc ∅ no_heap (λ _, stale_request) (g_worker_connections env8) (str "4") no_service))
    with (worker_init_proc example_service) in E. rewrite E in Hrun. discriminate Hrun.
Defined.

(** With these allocators the worker does start, and serves the three clients. *)
Example http_worker_runs :
  match example_cycle with
  | Ok (Running (Some x, _, _)) =>
    match handle_connections example_service x three_clients with
    | Ok (_, ws) => (λ w, (λ s, take 3 (drop 9 s.2)) <$> last (sent w)) <$> ws = [Some (str "200"); Some (str "400"); Some (str "200")]
    | _ => False
    end
  | _ => False
  end.
Proof. vm_compute. reflexivity. Qed.
